(** * CoDiPack chunk tapes: recording and reverse evaluation

    A shallow embedding of [include/tapes/chunkTape.hpp] (the linear-index
    tape [ChunkTape]) and [include/tapes/chunkIndexReuse.hpp] (the
    reuse-index tape [ChunkIndexReuseTape]).

    Conventions of the embedding:
    - [size_t] and [IndexType] values are binary naturals [N]; a decrement
      or a subtraction below zero wraps around as [size_t] does. The
      template parameter [IndexType] is taken without an upper bound and
      without negative values: the wrap of [++expressionCount.count] and
      of [index + 1] at the largest value of a fixed-width [IndexType],
      and a negative index, are outside the embedding;
    - an array access outside the written part of its array, a failed
      [assert] and a push into a full chunk are undefined behaviour in the
      source and are the failure [None] of the tape monad;
    - the floating point type [Real] is a type parameter with the operations
      the tapes use ([RealOps]);
    - user callbacks are opaque: calling one leaves an event in the ghost
      field [trace] of the tape, as does every write to the adjoint
      vector. *)

From Stdlib Require Import NArith ZArith List Bool Lia Sorted.
Import ListNotations.
Local Open Scope N_scope.

(** ** The scalar type *)

(** The template parameter [Real] with what the tapes need of it:
    [0.0], [1.0], [+], [*], [isfinite(x)] and the test [x != 0]. *)
Class RealOps (Real : Type) : Type := {
  zero : Real;
  one : Real;
  add : Real -> Real -> Real;
  mul : Real -> Real -> Real;
  isfinite : Real -> bool;
  nonzero : Real -> bool
}.

(** ** Configuration *)

(** The compile-time switches of the configuration header, which is not
    part of the two tape headers; they are taken as parameters. *)
Record Options : Type := mkOptions {
  OptTapeActivity : bool;
  OptZeroAdjoint : bool;
  OptIgnoreInvalidJacobies : bool;
  OptJacobiIsZero : bool;
  DefaultChunkSize : N
}.

(** Modelled from the spec: the macro [ENABLE_CHECK(option, condition)] of
    the configuration header. The guarded block runs unless the option is
    on and the condition fails ("if the filter is on and the jacobian is
    non-finite, skip"). *)
Definition ENABLE_CHECK (option condition : bool) : bool :=
  negb option || condition.

(** Modelled from the spec: [StatementInt] is the 8-bit unsigned type of
    the statement record ("argCount: u8"); this is the conversion
    [(StatementInt)n]. *)
Definition toStatementInt (n : N) : N := n mod 256.

(** ** [size_t] arithmetic *)

Definition SIZE_MAX : N := 18446744073709551615.

(** [--x] on a [size_t]. *)
Definition size_dec (x : N) : N :=
  if x =? 0 then SIZE_MAX else x - 1.

(** [x - y] on [size_t]. *)
Definition size_sub (x y : N) : N :=
  if y <=? x then x - y else SIZE_MAX - (y - x) + 1.

(** ** Arrays *)

(** [a[i]] as a read: defined inside the array only. *)
Definition lookupN {A : Type} (l : list A) (i : N) : option A :=
  if i <? N.of_nat (length l) then nth_error l (N.to_nat i) else None.

Fixpoint replaceNth {A : Type} (l : list A) (n : nat) (a : A) : list A :=
  match l, n with
  | [], _ => []
  | _ :: t, O => a :: t
  | h :: t, S n' => h :: replaceNth t n' a
  end.

(** [a[i] = v] as a write: defined inside the array only. *)
Definition updateN {A : Type} (l : list A) (i : N) (a : A) : option (list A) :=
  if i <? N.of_nat (length l) then Some (replaceNth l (N.to_nat i) a) else None.

(** ** The tape monad: state passing with failure *)

Definition M (S A : Type) : Type := S -> option (A * S).

Definition ret {S A : Type} (a : A) : M S A := fun s => Some (a, s).

Definition bind {S A B : Type} (m : M S A) (f : A -> M S B) : M S B :=
  fun s => match m s with
           | Some (a, s') => f a s'
           | None => None
           end.

Definition undefined {S A : Type} : M S A := fun _ => None.

Definition gets {S A : Type} (f : S -> A) : M S A := fun s => Some (f s, s).

Definition modify {S : Type} (f : S -> S) : M S unit := fun s => Some (tt, f s).

(** A partial read or update of the state. *)
Definition getsOpt {S A : Type} (f : S -> option A) : M S A :=
  fun s => match f s with Some a => Some (a, s) | None => None end.

Definition modifyOpt {S : Type} (f : S -> option S) : M S unit :=
  fun s => match f s with Some s' => Some (tt, s') | None => None end.

Definition assert {S : Type} (b : bool) : M S unit :=
  if b then ret tt else undefined.

Declare Scope tape_scope.
Delimit Scope tape_scope with tape.
Notation "x <- c1 ;; c2" := (bind c1 (fun x => c2))
  (at level 100, c1 at next level, right associativity) : tape_scope.
Notation "c1 ;; c2" := (bind c1 (fun _ => c2))
  (at level 100, right associativity) : tape_scope.
Notation "' pat <- c1 ;; c2" := (bind c1 (fun x => match x with pat => c2 end))
  (at level 100, pat pattern, c1 at next level, right associativity) : tape_scope.
Local Open Scope tape_scope.

(** [for (k = 0; k < n; ++k) body] where the body does not read [k]. *)
Fixpoint repeatM {S : Type} (n : nat) (body : M S unit) : M S unit :=
  match n with
  | O => ret tt
  | S n' => body ;; repeatM n' body
  end.

(** [for each x in l: f x]. *)
Fixpoint forM {S A : Type} (l : list A) (f : A -> M S unit) : M S unit :=
  match l with
  | [] => ret tt
  | x :: l' => f x ;; forM l' f
  end.

(** ** ChunkVector *)

Module ChunkVector.

(** The position of a chunk vector: chunk, offset in the chunk, and the
    position of the nested vector. *)
Record Position (I : Type) : Type := mkPosition {
  chunk : N;
  data : N;
  inner : I
}.
Arguments mkPosition {I} _ _ _.
Arguments chunk {I} _.
Arguments data {I} _.
Arguments inner {I} _.

Section Vector.
Context {A I : Type}.

(** Modelled from the spec: [Chunk] of [chunk.hpp], a buffer of fixed
    capacity. [cells] are the records written; a sealed chunk counts
    as full ("marks used := capacity"); [innerPosition] is the
    snapshot of the nested vector taken when the chunk was begun (the
    seal of its predecessor). *)
Record Chunk : Type := mkChunk {
  capacity : N;
  cells : list A;
  isSealed : bool;
  innerPosition : I
}.

Definition used (c : Chunk) : N :=
  if isSealed c then capacity c else N.of_nat (length (cells c)).

(** Modelled from the spec: [ChunkVector] of [chunkVector.hpp]. The
    chunks before the current one are [prior], oldest first; chunks
    beyond the current one are freed on [reset]. *)
Record t : Type := mk {
  chunkSize : N;
  prior : list Chunk;
  current : Chunk
}.

Definition emptyChunk (size : N) (innerPos : I) : Chunk :=
  mkChunk size [] false innerPos.

(** The constructor [ChunkVector(chunkSize, nested)]. *)
Definition create (size : N) (innerPos : I) : t :=
  mk size [] (emptyChunk size innerPos).

Definition allChunks (cv : t) : list Chunk := prior cv ++ [current cv].

Definition curChunkIndex (cv : t) : N := N.of_nat (length (prior cv)).

Definition getChunk (cv : t) (c : N) : option Chunk :=
  lookupN (allChunks cv) c.

(** Modelled from the spec: [setChunkSize], the sizing knob; the
    current chunk and the chunks begun later have the new capacity. *)
Definition setChunkSize (size : N) (cv : t) : t :=
  mk size (prior cv)
     (mkChunk size (cells (current cv)) (isSealed (current cv))
              (innerPosition (current cv))).

(** Modelled from the spec: [getPosition() = (currentChunkIdx,
    currentUsed, inner.getPosition())]. *)
Definition getPosition (cv : t) (innerPos : I) : Position I :=
  mkPosition (curChunkIndex cv) (used (current cv)) innerPos.

(** Modelled from the spec: [getChunkPosition()], the offset in the
    current chunk ("dataLog.intraChunkUsed"). *)
Definition getChunkPosition (cv : t) : N := used (current cv).

Definition seal (c : Chunk) : Chunk :=
  mkChunk (capacity c) (cells c) true (innerPosition c).

Definition nextChunk (innerPos : I) (cv : t) : t :=
  mk (chunkSize cv) (prior cv ++ [seal (current cv)])
     (emptyChunk (chunkSize cv) innerPos).

(** Modelled from the spec: [reserveItems(k)]. "If the current chunk's
    remaining capacity is < k, seals it, snapshots the inner log's
    position, starts a new chunk." *)
Definition reserveItems (k : N) (innerPos : I) (cv : t) : t :=
  if used (current cv) + k <=? capacity (current cv) then cv
  else nextChunk innerPos cv.

(** Modelled from the spec: [setDataAndMove(tuple)] "writes one record
    at the current head and advances used"; without reserved room it
    is a contract violation. *)
Definition setDataAndMove (a : A) (cv : t) : option t :=
  let c := current cv in
  if used c <? capacity c
  then Some (mk (chunkSize cv) (prior cv)
                (mkChunk (capacity c) (cells c ++ [a]) false
                         (innerPosition c)))
  else None.

(** Modelled from the spec: the columnar read accessors
    [getDataAtPosition(chunk, 0)], [getChunkUsedData(chunk)] and
    [getInnerPosition(chunk)]. *)
Definition getDataAtPosition (cv : t) (c : N) : option (list A) :=
  option_map cells (getChunk cv c).

Definition getChunkUsedData (cv : t) (c : N) : option N :=
  option_map used (getChunk cv c).

Definition getInnerPosition (cv : t) (c : N) : option I :=
  option_map innerPosition (getChunk cv c).

(** Modelled from the spec: [reset(pos)] "sets currentChunkIdx :=
    pos.chunk, truncates its used := pos.intraChunkIdx, marks all
    chunks beyond that as empty"; the recursion into the nested vector
    is written out where the tapes call it. *)
Definition reset (pos : Position I) (cv : t) : option t :=
  match getChunk cv (chunk pos) with
  | Some c =>
      if data pos <=? N.of_nat (length (cells c))
      then Some (mk (chunkSize cv)
                    (firstn (N.to_nat (chunk pos)) (allChunks cv))
                    (mkChunk (capacity c)
                             (firstn (N.to_nat (data pos)) (cells c))
                             false (innerPosition c)))
      else None
  | None => None
  end.

(** The inner loop of [forEach]: the records of one chunk from offset
    [dataPos] down, [n] of them. *)
Fixpoint forEachData {S : Type} (chunkCells : list A) (n : nat)
         (dataPos : N) (function : A -> M S unit) : M S unit :=
  match n with
  | O => ret tt
  | S n' =>
      let dataPos' := size_dec dataPos in
      a <- getsOpt (fun _ => lookupN chunkCells dataPos') ;;
      function a ;;
      forEachData chunkCells n' dataPos' function
  end.

(** The chunk loop of [forEach]: [n] chunks from [chunkPos] down; the
    result is the offset at which the next chunk continues. *)
Fixpoint forEachChunks {S : Type} (cv : t) (n : nat) (chunkPos : N)
         (dataStart : N) (function : A -> M S unit) : M S N :=
  match n with
  | O => ret dataStart
  | S n' =>
      chunkCells <- getsOpt (fun _ => getDataAtPosition cv chunkPos) ;;
      forEachData chunkCells (N.to_nat dataStart) dataStart function ;;
      dataStart' <- getsOpt (fun _ => getChunkUsedData cv (chunkPos - 1)) ;;
      forEachChunks cv n' (chunkPos - 1) dataStart' function
  end.

(** Order of two positions of one vector, outermost level. *)
Definition posLe (p q : Position I) : bool :=
  (chunk p <? chunk q) || ((chunk p =? chunk q) && (data p <=? data q)).

(** Modelled from the spec: [forEach(start, end, visitor)] "with start
    >= end: walks records in descending order between the two
    positions, invoking visitor once per record"; [start < end] is a
    contract violation. *)
Definition forEach {S : Type} (cv : t) (start end_ : Position I)
           (function : A -> M S unit) : M S unit :=
  assert (posLe end_ start) ;;
  dataStart <- forEachChunks cv (N.to_nat (chunk start - chunk end_))
                             (chunk start) (data start) function ;;
  chunkCells <- getsOpt (fun _ => getDataAtPosition cv (chunk end_)) ;;
  forEachData chunkCells (N.to_nat (dataStart - data end_)) dataStart function.

(** All records of the vector, oldest first. *)
Definition records (cv : t) : list A :=
  concat (map cells (allChunks cv)).

End Vector.

Arguments Chunk : clear implicits.
Arguments t : clear implicits.

End ChunkVector.

(** ** External functions *)

Module ExternalFunction.

(** Modelled from the spec: the record [{fn, data, del}] of
    [externalFunctions.hpp]. The callbacks and the data pointer are user
    values the tape never inspects; they are opaque handles here. *)
Record t : Type := mk {
  func : N;
  data : N;
  deleteData : N
}.

End ExternalFunction.

(** What the ghost field [trace] of a tape records: a write [adjoints[i] =
    v], the call [extFunc->evaluate()] and the call
    [extFunc->deleteData()]. *)
Inductive Event (Real : Type) : Type :=
| AdjointWrite (index : N) (value : Real)
| ExtFuncEvaluate (f : ExternalFunction.t)
| ExtFuncDelete (f : ExternalFunction.t).
Arguments AdjointWrite {Real} _ _.
Arguments ExtFuncEvaluate {Real} _.
Arguments ExtFuncDelete {Real} _.

(** ** Right hand sides *)

(** Modelled from the spec: the expression templates are external code. A
    leaf of an expression calls one of the two [pushJacobi] overloads; an
    expression [Rhs] is its primal value, its leaves in the order in which
    [calcGradient] visits them, and the constant
    [ExpressionTraits<Rhs>::maxActiveVariables]. *)
Inductive Leaf (Real : Type) : Type :=
| UnaryLeaf (value : Real) (index : N)
| JacobiLeaf (jacobi : Real) (value : Real) (index : N).
Arguments UnaryLeaf {Real} _ _.
Arguments JacobiLeaf {Real} _ _ _.

Record Rhs (Real : Type) : Type := mkRhs {
  getValue : Real;
  leaves : list (Leaf Real);
  maxActiveVariables : N
}.
Arguments mkRhs {Real} _ _ _.
Arguments getValue {Real} _.
Arguments leaves {Real} _.
Arguments maxActiveVariables {Real} _.

(** An [ActiveReal] as the tapes see it: primal value and gradient data
    (its index). *)
Record ActiveReal (Real : Type) : Type := mkActiveReal {
  value : Real;
  gradientData : N
}.
Arguments mkActiveReal {Real} _ _.
Arguments value {Real} _.
Arguments gradientData {Real} _.

(** The values of [i] in [for (i = lo; i < hi; ++i)] and in
    [for (i = lo; i <= hi; ++i)]. *)
Definition rangeLt (lo hi : N) : list N :=
  map (fun k => lo + N.of_nat k) (seq 0 (N.to_nat (hi - lo))).

Definition rangeN (lo hi : N) : list N := rangeLt lo (hi + 1).

(** ** Index handler of the reuse tape *)

Module IndexHandler.

(** Modelled from the spec: [IndexHandler] of [indexHandler.hpp], "a pair
    (maxIssued, freeList) where freeList is a LIFO of previously released
    indices". *)
Record t : Type := mk {
  globalMaximumIndex : N;
  freeIndices : list N
}.

Definition create : t := mk 0 [].

(** Modelled from the spec: "checkIndex(i): if i == 0, assigns from
    freeList.pop() or ++maxIssued". The result is the new value of the
    index reference. *)
Definition checkIndex (index : N) (h : t) : N * t :=
  if index =? 0 then
    match freeIndices h with
    | i :: rest => (i, mk (globalMaximumIndex h) rest)
    | [] => (globalMaximumIndex h + 1, mk (globalMaximumIndex h + 1) [])
    end
  else (index, h).

(** Modelled from the spec: "freeIndex(i): if i != 0, pushes to freeList
    and sets i := 0". *)
Definition freeIndex (index : N) (h : t) : N * t :=
  if negb (index =? 0)
  then (0, mk (globalMaximumIndex h) (index :: freeIndices h))
  else (index, h).

Definition getMaximumGlobalIndex (h : t) : N := globalMaximumIndex h.

(** Modelled from the spec: [reset()]; the spec gives it for the linear
    counter only ("reset() sets counter := 0"), and the handler is taken
    to return to its initial state likewise. *)
Definition reset (h : t) : t := create.

End IndexHandler.

(** ** The linear-index tape, [chunkTape.hpp] *)

Module ChunkTape.

(** [ExpressionCounter::Position] is [IndexType]; the positions of the
    three nested chunk vectors of [ChunkTapeTypes]. *)
Definition DataPosition : Type := ChunkVector.Position N.
Definition StatementPosition : Type := ChunkVector.Position DataPosition.
Definition Position : Type := ChunkVector.Position StatementPosition.

(** [Position()]. *)
Definition initialDataPosition : DataPosition := ChunkVector.mkPosition 0 0 0.
Definition initialStatementPosition : StatementPosition :=
  ChunkVector.mkPosition 0 0 initialDataPosition.
Definition initialPosition : Position :=
  ChunkVector.mkPosition 0 0 initialStatementPosition.

(** [pos.inner.inner.inner]. *)
Definition innermost (pos : Position) : N :=
  ChunkVector.inner (ChunkVector.inner (ChunkVector.inner pos)).

Section Tape.
Context {Real : Type} {RO : RealOps Real}.
Variable opts : Options.

(** The members of [ChunkTape]. [expressionCount] is the [count] of
    the [ExpressionCounter]; [adjoints] is the allocated adjoint array
    (empty for the [NULL] pointer), whose length is [adjointsSize]:
    [resizeAdjoints] alone sets either. [trace] is ghost. *)
Record t : Type := mk {
  expressionCount : N;
  data : ChunkVector.t (Real * N) N;
  statements : ChunkVector.t N DataPosition;
  externalFunctions :
    ChunkVector.t (ExternalFunction.t * StatementPosition) StatementPosition;
  adjoints : list Real;
  active : bool;
  trace : list (Event Real)
}.

Definition adjointsSize (tp : t) : N := N.of_nat (length (adjoints tp)).

Definition set_expressionCount (c : N) (tp : t) : t :=
  mk c (data tp) (statements tp) (externalFunctions tp) (adjoints tp)
     (active tp) (trace tp).
Definition set_data (d : ChunkVector.t (Real * N) N) (tp : t) : t :=
  mk (expressionCount tp) d (statements tp) (externalFunctions tp)
     (adjoints tp) (active tp) (trace tp).
Definition set_statements (s : ChunkVector.t N DataPosition) (tp : t) : t :=
  mk (expressionCount tp) (data tp) s (externalFunctions tp) (adjoints tp)
     (active tp) (trace tp).
Definition set_externalFunctions
  (e : ChunkVector.t (ExternalFunction.t * StatementPosition) StatementPosition)
  (tp : t) : t :=
  mk (expressionCount tp) (data tp) (statements tp) e (adjoints tp)
     (active tp) (trace tp).
Definition set_adjoints (a : list Real) (tp : t) : t :=
  mk (expressionCount tp) (data tp) (statements tp) (externalFunctions tp)
     a (active tp) (trace tp).
Definition set_active (b : bool) (tp : t) : t :=
  mk (expressionCount tp) (data tp) (statements tp) (externalFunctions tp)
     (adjoints tp) b (trace tp).
Definition emit (e : list (Event Real)) (tp : t) : t :=
  mk (expressionCount tp) (data tp) (statements tp) (externalFunctions tp)
     (adjoints tp) (active tp) (trace tp ++ e).

(** The constructor [ChunkTape()]. *)
Definition create : t :=
  mk 0
     (ChunkVector.create (DefaultChunkSize opts) 0)
     (ChunkVector.create (DefaultChunkSize opts) initialDataPosition)
     (ChunkVector.create 1000 initialStatementPosition)
     [] false [].

Definition setDataChunkSize (dataChunkSize : N) : M t unit :=
  modify (fun tp => set_data (ChunkVector.setChunkSize dataChunkSize (data tp)) tp).

Definition setStatementChunkSize (statementChunkSize : N) : M t unit :=
  modify (fun tp =>
    set_statements (ChunkVector.setChunkSize statementChunkSize (statements tp)) tp).

Definition setExternalFunctionChunkSize (extChunkSize : N) : M t unit :=
  modify (fun tp =>
    set_externalFunctions
      (ChunkVector.setChunkSize extChunkSize (externalFunctions tp)) tp).

(** [getPosition()] of the three vectors, each with the position of
    the vector nested in it. *)
Definition data_getPosition (tp : t) : DataPosition :=
  ChunkVector.getPosition (data tp) (expressionCount tp).
Definition statements_getPosition (tp : t) : StatementPosition :=
  ChunkVector.getPosition (statements tp) (data_getPosition tp).
Definition getPosition (tp : t) : Position :=
  ChunkVector.getPosition (externalFunctions tp) (statements_getPosition tp).

(** [adjoints[i]] read and [adjoints[i] = v]. *)
Definition readAdjoint (i : N) : M t Real :=
  getsOpt (fun tp => lookupN (adjoints tp) i).

Definition writeAdjoint (i : N) (v : Real) : M t unit :=
  modifyOpt (fun tp =>
    match updateN (adjoints tp) i v with
    | Some a => Some (emit [AdjointWrite i v] (set_adjoints a tp))
    | None => None
    end).

(** [resizeAdjoints(size)]: [realloc] keeps the common prefix, and the
    loop writes [0.0] to the new tail. *)
Definition resizeAdjoints (size : N) : M t unit :=
  modify (fun tp =>
    let oldSize := adjointsSize tp in
    emit (map (fun i => AdjointWrite i zero) (rangeLt oldSize size))
         (set_adjoints
            (firstn (N.to_nat size) (adjoints tp)
             ++ repeat zero (N.to_nat (size - oldSize))) tp)).

(** [allocateAdjoints()]. The source line is
    [resizeAdjoints(expressionCount + 1)] with [expressionCount] the
    counter object, for which the tape headers declare no [operator+];
    the argument is read as [expressionCount.count + 1], which is what
    [evaluate] passes and what the documentation of the method says
    ("fits the current number of statements"). *)
Definition allocateAdjoints : M t unit :=
  c <- gets expressionCount ;;
  resizeAdjoints (c + 1).

(** [pushJacobi(gradient, value, index)]. *)
Definition pushJacobi_unary (value : Real) (index : N) : M t unit :=
  if negb (0 =? index)
  then modifyOpt (fun tp =>
         option_map (fun d => set_data d tp)
                    (ChunkVector.setDataAndMove (one, index) (data tp)))
  else ret tt.

(** [pushJacobi(gradient, jacobi, value, index)]. *)
Definition pushJacobi (jacobi : Real) (value : Real) (index : N) : M t unit :=
  if negb (0 =? index) then
    if ENABLE_CHECK (OptIgnoreInvalidJacobies opts) (isfinite jacobi) then
      if ENABLE_CHECK (OptJacobiIsZero opts) (nonzero jacobi) then
        modifyOpt (fun tp =>
          option_map (fun d => set_data d tp)
                     (ChunkVector.setDataAndMove (jacobi, index) (data tp)))
      else ret tt
    else ret tt
  else ret tt.

(** [rhs.calcGradient(gradient)]: each leaf pushes its jacobian. *)
Definition pushLeaf (l : Leaf Real) : M t unit :=
  match l with
  | UnaryLeaf v i => pushJacobi_unary v i
  | JacobiLeaf j v i => pushJacobi j v i
  end.

Definition calcGradient (rhs : Rhs Real) : M t unit :=
  forM (leaves rhs) pushLeaf.

Definition data_reserveItems (k : N) : M t unit :=
  modify (fun tp =>
    set_data (ChunkVector.reserveItems k (expressionCount tp) (data tp)) tp).

Definition statements_reserveItems (k : N) : M t unit :=
  modify (fun tp =>
    set_statements
      (ChunkVector.reserveItems k (data_getPosition tp) (statements tp)) tp).

Definition statements_setDataAndMove (s : N) : M t unit :=
  modifyOpt (fun tp =>
    option_map (fun st => set_statements st tp)
               (ChunkVector.setDataAndMove s (statements tp))).

(** [++expressionCount.count], below the largest value of
    [IndexType]. *)
Definition incrementCount : M t N :=
  c <- gets expressionCount ;;
  modify (set_expressionCount (c + 1)) ;;
  ret (c + 1).

(** [store(lhsValue, lhsIndex, rhs)] for an expression [rhs]. The
    result is the new [(lhsValue, lhsIndex)]. *)
Definition store (lhsValue : Real) (lhsIndex : N) (rhs : Rhs Real)
  : M t (Real * N) :=
  act <- gets active ;;
  lhsIndex' <-
    (if ENABLE_CHECK (OptTapeActivity opts) act then
       data_reserveItems (maxActiveVariables rhs) ;;
       statements_reserveItems 1 ;;
       startSize <- gets (fun tp => ChunkVector.getChunkPosition (data tp)) ;;
       calcGradient rhs ;;
       endSize <- gets (fun tp => ChunkVector.getChunkPosition (data tp)) ;;
       let activeVariables := size_sub endSize startSize in
       if 0 =? activeVariables then ret 0
       else
         statements_setDataAndMove (toStatementInt activeVariables) ;;
         incrementCount
     else ret lhsIndex) ;;
  ret (getValue rhs, lhsIndex').

(** [store(lhsValue, lhsIndex, rhs)] for an [ActiveReal] [rhs]. *)
Definition store_copy (lhsValue : Real) (lhsIndex : N) (rhs : ActiveReal Real)
  : M t (Real * N) :=
  act <- gets active ;;
  let lhsIndex' :=
    if ENABLE_CHECK (OptTapeActivity opts) act then gradientData rhs
    else lhsIndex in
  ret (value rhs, lhsIndex').

(** [store(lhsValue, lhsIndex, rhs)] for a passive [rhs]. *)
Definition store_passive (lhsValue : Real) (lhsIndex : N) (rhs : Real)
  : M t (Real * N) :=
  act <- gets active ;;
  let lhsIndex' :=
    if ENABLE_CHECK (OptTapeActivity opts) act then 0 else lhsIndex in
  ret (rhs, lhsIndex').

Definition initGradientData (value : Real) (index : N) : M t N := ret 0.

Definition destroyGradientData (value : Real) (index : N) : M t N := ret index.

(** [gradient(index)]: the reference returned is the slot [index] of
    the adjoint array. *)
Definition gradient (index : N) : M t N :=
  assert (negb (0 =? index)) ;;
  size <- gets adjointsSize ;;
  (if size <=? index then resizeAdjoints (index + 1) else ret tt) ;;
  ret index.

Definition setGradient (index : N) (g : Real) : M t unit :=
  if negb (0 =? index) then
    slot <- gradient index ;;
    writeAdjoint slot g
  else ret tt.

Definition getGradient (index : N) : M t Real :=
  size <- gets adjointsSize ;;
  if size <=? index then ret zero else readAdjoint index.

(** [clearAdjoints()]. *)
Definition clearAdjoints : M t unit :=
  c <- gets expressionCount ;;
  forM (rangeN 0 c) (fun i => writeAdjoint i zero).

(** [clearAdjoints(start, end)]. *)
Definition clearAdjoints_range (start end_ : Position) : M t unit :=
  forM (rangeN (innermost start) (innermost end_))
       (fun i => writeAdjoint i zero).

(** [popExternalFunction]. *)
Definition popExternalFunction
  (extFunction : ExternalFunction.t * StatementPosition) : M t unit :=
  modify (emit [ExtFuncDelete (fst extFunction)]).

(** [externalFunctions.reset(pos)]: "reset will be done iteratively
    through the vectors", down to the expression counter. *)
Definition externalFunctions_reset (pos : Position) : M t unit :=
  modifyOpt (fun tp =>
    match ChunkVector.reset pos (externalFunctions tp),
          ChunkVector.reset (ChunkVector.inner pos) (statements tp),
          ChunkVector.reset (ChunkVector.inner (ChunkVector.inner pos)) (data tp)
    with
    | Some e, Some s, Some d =>
        Some (set_externalFunctions e
               (set_statements s
                 (set_data d (set_expressionCount (innermost pos) tp))))
    | _, _, _ => None
    end).

(** [reset(pos)]. *)
Definition reset (pos : Position) : M t unit :=
  c <- gets expressionCount ;;
  forM (rangeN (innermost pos) c) (fun i => writeAdjoint i zero) ;;
  ext <- gets externalFunctions ;;
  cur <- gets getPosition ;;
  ChunkVector.forEach ext cur pos popExternalFunction ;;
  externalFunctions_reset pos.

(** [reset()]. *)
Definition reset_all : M t unit := reset initialPosition.

(** One pass of the body of the [for] loop of [evaluateExpressions]:
    [--dataPos; adjoints[indices[dataPos]] += adj * jacobies[dataPos]].
    [adj] is a reference to the slot [adjRef] of the adjoint array and
    is read through it. *)
Definition accumulate (adjRef : N) (dataCells : list (Real * N))
           (dataPos : N) : M t N :=
  let dataPos' := size_dec dataPos in
  cell <- getsOpt (fun _ => lookupN dataCells dataPos') ;;
  adj <- readAdjoint adjRef ;;
  old <- readAdjoint (snd cell) ;;
  writeAdjoint (snd cell) (add old (mul adj (fst cell))) ;;
  ret dataPos'.

Fixpoint accumulateLoop (n : nat) (adjRef : N) (dataCells : list (Real * N))
         (dataPos : N) : M t N :=
  match n with
  | O => ret dataPos
  | S n' =>
      dataPos' <- accumulate adjRef dataCells dataPos ;;
      accumulateLoop n' adjRef dataCells dataPos'
  end.

(** One pass of the body of the [while] loop of [evaluateExpressions],
    on the cursors [(adjPos, stmtPos, dataPos)]. *)
Definition evaluateStatement (statementData : list N)
           (dataCells : list (Real * N)) (cursors : N * N * N)
  : M t (N * N * N) :=
  let '(adjPos, stmtPos, dataPos) := cursors in
  let adjRef := adjPos in
  let adjPos := size_dec adjPos in
  let stmtPos := size_dec stmtPos in
  activeVariables <- getsOpt (fun _ => lookupN statementData stmtPos) ;;
  isNonzero <-
    (if OptZeroAdjoint opts
     then adj <- readAdjoint adjRef ;; ret (nonzero adj)
     else ret false) ;;
  dataPos' <-
    (if ENABLE_CHECK (OptZeroAdjoint opts) isNonzero
     then accumulateLoop (N.to_nat activeVariables) adjRef dataCells dataPos
     else ret (size_sub dataPos activeVariables)) ;;
  ret (adjPos, stmtPos, dataPos').

Fixpoint evaluateStatements (n : nat) (statementData : list N)
         (dataCells : list (Real * N)) (cursors : N * N * N)
  : M t (N * N * N) :=
  match n with
  | O => ret cursors
  | S n' =>
      cursors' <- evaluateStatement statementData dataCells cursors ;;
      evaluateStatements n' statementData dataCells cursors'
  end.

(** [evaluateExpressions]; the result is the new [(stmtPos, dataPos)]. *)
Definition evaluateExpressions (startAdjPos endAdjPos : N) (stmtPos : N)
           (statementData : list N) (dataPos : N)
           (dataCells : list (Real * N)) : M t (N * N) :=
  '(_, stmtPos', dataPos') <-
    evaluateStatements (N.to_nat (startAdjPos - endAdjPos)) statementData
                       dataCells (startAdjPos, stmtPos, dataPos) ;;
  ret (stmtPos', dataPos').

(** The [for] loop of [evaluateData] on [(curChunk, dataPos,
    curInnerPos, stmtPos)]. *)
Fixpoint evaluateDataChunks (n : nat) (statementData : list N)
         (state : N * N * N * N) : M t (N * N * N * N) :=
  match n with
  | O => ret state
  | S n' =>
      let '(curChunk, dataPos, curInnerPos, stmtPos) := state in
      dataCells <-
        getsOpt (fun tp => ChunkVector.getDataAtPosition (data tp) curChunk) ;;
      endInnerPos <-
        getsOpt (fun tp => ChunkVector.getInnerPosition (data tp) curChunk) ;;
      '(stmtPos', _) <-
        evaluateExpressions curInnerPos endInnerPos stmtPos statementData
                            dataPos dataCells ;;
      dataPos' <-
        getsOpt (fun tp => ChunkVector.getChunkUsedData (data tp) (curChunk - 1)) ;;
      evaluateDataChunks n' statementData
                         (size_dec curChunk, dataPos', endInnerPos, stmtPos')
  end.

(** [evaluateData]; the result is the new [stmtPos]. *)
Definition evaluateData (start end_ : DataPosition) (stmtPos : N)
           (statementData : list N) : M t N :=
  '(_, dataPos, curInnerPos, stmtPos') <-
    evaluateDataChunks
      (N.to_nat (ChunkVector.chunk start - ChunkVector.chunk end_))
      statementData
      (ChunkVector.chunk start, ChunkVector.data start,
       ChunkVector.inner start, stmtPos) ;;
  dataCells <-
    getsOpt (fun tp =>
      ChunkVector.getDataAtPosition (data tp) (ChunkVector.chunk end_)) ;;
  '(stmtPos'', _) <-
    evaluateExpressions curInnerPos (ChunkVector.inner end_) stmtPos'
                        statementData dataPos dataCells ;;
  ret stmtPos''.

(** The [for] loop of [evaluateStmt] on [(curChunk, dataPos,
    curInnerPos)]. *)
Fixpoint evaluateStmtChunks (n : nat) (state : N * N * DataPosition)
  : M t (N * N * DataPosition) :=
  match n with
  | O => ret state
  | S n' =>
      let '(curChunk, dataPos, curInnerPos) := state in
      statementData <-
        getsOpt (fun tp =>
          ChunkVector.getDataAtPosition (statements tp) curChunk) ;;
      endInnerPos <-
        getsOpt (fun tp =>
          ChunkVector.getInnerPosition (statements tp) curChunk) ;;
      evaluateData curInnerPos endInnerPos dataPos statementData ;;
      dataPos' <-
        getsOpt (fun tp =>
          ChunkVector.getChunkUsedData (statements tp) (curChunk - 1)) ;;
      evaluateStmtChunks n' (size_dec curChunk, dataPos', endInnerPos)
  end.

(** [evaluateStmt]. *)
Definition evaluateStmt (start end_ : StatementPosition) : M t unit :=
  '(_, dataPos, curInnerPos) <-
    evaluateStmtChunks
      (N.to_nat (ChunkVector.chunk start - ChunkVector.chunk end_))
      (ChunkVector.chunk start, ChunkVector.data start,
       ChunkVector.inner start) ;;
  statementData <-
    getsOpt (fun tp =>
      ChunkVector.getDataAtPosition (statements tp) (ChunkVector.chunk end_)) ;;
  evaluateData curInnerPos (ChunkVector.inner end_) dataPos statementData ;;
  ret tt.

(** The function object [ExtFuncEvaluator]: the statement position
    reached so far and the tape it works on. *)
Record ExtFuncEvaluator : Type := mkExtFuncEvaluator {
  curInnerPos : StatementPosition;
  tape : t
}.

(** A tape operation run on the tape of the evaluator. *)
Definition onTape {A : Type} (m : M t A) : M ExtFuncEvaluator A :=
  fun ev =>
    match m (tape ev) with
    | Some (a, tp) => Some (a, mkExtFuncEvaluator (curInnerPos ev) tp)
    | None => None
    end.

(** [extFunc->evaluate()]. *)
Definition extFunc_evaluate (f : ExternalFunction.t) : M t unit :=
  modify (emit [ExtFuncEvaluate f]).

(** [ExtFuncEvaluator::operator()]. *)
Definition ExtFuncEvaluator_call
  (record : ExternalFunction.t * StatementPosition)
  : M ExtFuncEvaluator unit :=
  let '(extFunc, endInnerPos) := record in
  cur <- gets curInnerPos ;;
  onTape (evaluateStmt cur endInnerPos) ;;
  onTape (extFunc_evaluate extFunc) ;;
  modify (fun ev => mkExtFuncEvaluator endInnerPos (tape ev)).

(** [evaluateExtFunc]. *)
Definition evaluateExtFunc (start end_ : Position) : M t unit :=
  fun tp =>
    let evaluator := mkExtFuncEvaluator (ChunkVector.inner start) tp in
    match ChunkVector.forEach (externalFunctions tp) start end_
                              ExtFuncEvaluator_call evaluator with
    | Some (_, evaluator') =>
        evaluateStmt (curInnerPos evaluator') (ChunkVector.inner end_)
                     (tape evaluator')
    | None => None
    end.

(** [evaluate(start, end)]. *)
Definition evaluate (start end_ : Position) : M t unit :=
  size <- gets adjointsSize ;;
  c <- gets expressionCount ;;
  (if size <=? c then resizeAdjoints (c + 1) else ret tt) ;;
  evaluateExtFunc start end_.

(** [evaluate()]. *)
Definition evaluate_all : M t unit :=
  cur <- gets getPosition ;;
  evaluate cur initialPosition.

(** The private [pushExternalFunctionHandle(function)]. *)
Definition pushExternalFunctionHandle (function : ExternalFunction.t)
  : M t unit :=
  modify (fun tp =>
    set_externalFunctions
      (ChunkVector.reserveItems 1 (statements_getPosition tp)
                                (externalFunctions tp)) tp) ;;
  modifyOpt (fun tp =>
    option_map (fun e => set_externalFunctions e tp)
      (ChunkVector.setDataAndMove (function, statements_getPosition tp)
                                  (externalFunctions tp))).

(** [registerInput(value)]; the result is the new gradient data of
    [value]. *)
Definition registerInput : M t N :=
  statements_reserveItems 1 ;;
  statements_setDataAndMove 0 ;;
  incrementCount.

Definition registerOutput : M t unit := ret tt.

Definition setActive : M t unit := modify (set_active true).

Definition setPassive : M t unit := modify (set_active false).

Definition isActive : M t bool := gets active.

End Tape.

End ChunkTape.

(** ** The reuse-index tape, [chunkIndexReuse.hpp] *)

Module ChunkIndexReuseTape.

(** Modelled from the spec: [EmptyChunkVector], the terminator of the
    vector sequence, has no state; its position carries nothing. *)
Definition EmptyPosition : Type := unit.

Definition DataPosition : Type := ChunkVector.Position EmptyPosition.
Definition StatementPosition : Type := ChunkVector.Position DataPosition.
Definition Position : Type := ChunkVector.Position StatementPosition.

(** [Position()]. *)
Definition initialDataPosition : DataPosition := ChunkVector.mkPosition 0 0 tt.
Definition initialStatementPosition : StatementPosition :=
  ChunkVector.mkPosition 0 0 initialDataPosition.
Definition initialPosition : Position :=
  ChunkVector.mkPosition 0 0 initialStatementPosition.

Section Tape.
Context {Real : Type} {RO : RealOps Real}.
Variable opts : Options.

(** The declaration of [EmptyChunkVector::Position] is not part of the
    tape headers: the [IndexType] that it converts to in [IndexType i
    = start.inner.inner.inner] is a parameter. *)
Variable emptyPositionIndex : EmptyPosition -> N.

(** [pos.inner.inner.inner] as an [IndexType]. *)
Definition innermost (pos : Position) : N :=
  emptyPositionIndex
    (ChunkVector.inner (ChunkVector.inner (ChunkVector.inner pos))).

(** The members of [ChunkIndexReuseTape]; a statement is
    [(numberOfArguments, lhsIndex)]. [adjoints] is the allocated
    adjoint array (empty for the [NULL] pointer), whose length is
    [adjointsSize]. [trace] is ghost. *)
Record t : Type := mk {
  data : ChunkVector.t (Real * N) EmptyPosition;
  statements : ChunkVector.t (N * N) DataPosition;
  externalFunctions :
    ChunkVector.t (ExternalFunction.t * StatementPosition) StatementPosition;
  adjoints : list Real;
  active : bool;
  indexHandler : IndexHandler.t;
  trace : list (Event Real)
}.

Definition adjointsSize (tp : t) : N := N.of_nat (length (adjoints tp)).

Definition set_data (d : ChunkVector.t (Real * N) EmptyPosition) (tp : t) : t :=
  mk d (statements tp) (externalFunctions tp) (adjoints tp) (active tp)
     (indexHandler tp) (trace tp).
Definition set_statements (s : ChunkVector.t (N * N) DataPosition) (tp : t) : t :=
  mk (data tp) s (externalFunctions tp) (adjoints tp) (active tp)
     (indexHandler tp) (trace tp).
Definition set_externalFunctions
  (e : ChunkVector.t (ExternalFunction.t * StatementPosition) StatementPosition)
  (tp : t) : t :=
  mk (data tp) (statements tp) e (adjoints tp) (active tp)
     (indexHandler tp) (trace tp).
Definition set_adjoints (a : list Real) (tp : t) : t :=
  mk (data tp) (statements tp) (externalFunctions tp) a (active tp)
     (indexHandler tp) (trace tp).
Definition set_active (b : bool) (tp : t) : t :=
  mk (data tp) (statements tp) (externalFunctions tp) (adjoints tp) b
     (indexHandler tp) (trace tp).
Definition set_indexHandler (h : IndexHandler.t) (tp : t) : t :=
  mk (data tp) (statements tp) (externalFunctions tp) (adjoints tp)
     (active tp) h (trace tp).
Definition emit (e : list (Event Real)) (tp : t) : t :=
  mk (data tp) (statements tp) (externalFunctions tp) (adjoints tp)
     (active tp) (indexHandler tp) (trace tp ++ e).

(** The constructor [ChunkIndexReuseTape()]. *)
Definition create : t :=
  mk (ChunkVector.create (DefaultChunkSize opts) tt)
     (ChunkVector.create (DefaultChunkSize opts) initialDataPosition)
     (ChunkVector.create 1000 initialStatementPosition)
     [] false IndexHandler.create [].

Definition setDataChunkSize (dataChunkSize : N) : M t unit :=
  modify (fun tp => set_data (ChunkVector.setChunkSize dataChunkSize (data tp)) tp).

Definition setStatementChunkSize (statementChunkSize : N) : M t unit :=
  modify (fun tp =>
    set_statements (ChunkVector.setChunkSize statementChunkSize (statements tp)) tp).

Definition setExternalFunctionChunkSize (extChunkSize : N) : M t unit :=
  modify (fun tp =>
    set_externalFunctions
      (ChunkVector.setChunkSize extChunkSize (externalFunctions tp)) tp).

Definition data_getPosition (tp : t) : DataPosition :=
  ChunkVector.getPosition (data tp) tt.
Definition statements_getPosition (tp : t) : StatementPosition :=
  ChunkVector.getPosition (statements tp) (data_getPosition tp).
Definition getPosition (tp : t) : Position :=
  ChunkVector.getPosition (externalFunctions tp) (statements_getPosition tp).

Definition getAdjointsSize : M t N :=
  gets (fun tp => IndexHandler.getMaximumGlobalIndex (indexHandler tp) + 1).

(** [adjoints[i]] read and [adjoints[i] = v]. *)
Definition readAdjoint (i : N) : M t Real :=
  getsOpt (fun tp => lookupN (adjoints tp) i).

Definition writeAdjoint (i : N) (v : Real) : M t unit :=
  modifyOpt (fun tp =>
    match updateN (adjoints tp) i v with
    | Some a => Some (emit [AdjointWrite i v] (set_adjoints a tp))
    | None => None
    end).

(** [resizeAdjoints(size)]. *)
Definition resizeAdjoints (size : N) : M t unit :=
  modify (fun tp =>
    let oldSize := adjointsSize tp in
    emit (map (fun i => AdjointWrite i zero) (rangeLt oldSize size))
         (set_adjoints
            (firstn (N.to_nat size) (adjoints tp)
             ++ repeat zero (N.to_nat (size - oldSize))) tp)).

Definition setAdjointsSize (size : N) : M t unit := resizeAdjoints size.

Definition allocateAdjoints : M t unit :=
  m <- gets (fun tp => IndexHandler.getMaximumGlobalIndex (indexHandler tp)) ;;
  resizeAdjoints (m + 1).

(** [indexHandler.checkIndex(index)] and [indexHandler.freeIndex(index)];
    the result is the new value of the reference [index]. *)
Definition checkIndex (index : N) : M t N :=
  fun tp =>
    let '(index', h) := IndexHandler.checkIndex index (indexHandler tp) in
    Some (index', set_indexHandler h tp).

Definition freeIndex (index : N) : M t N :=
  fun tp =>
    let '(index', h) := IndexHandler.freeIndex index (indexHandler tp) in
    Some (index', set_indexHandler h tp).

(** [pushJacobi(data, value, index)]. *)
Definition pushJacobi_unary (value : Real) (index : N) : M t unit :=
  if negb (0 =? index)
  then modifyOpt (fun tp =>
         option_map (fun d => set_data d tp)
                    (ChunkVector.setDataAndMove (one, index) (data tp)))
  else ret tt.

(** [pushJacobi(data, jacobi, value, index)]. *)
Definition pushJacobi (jacobi : Real) (value : Real) (index : N) : M t unit :=
  if negb (0 =? index) then
    if ENABLE_CHECK (OptIgnoreInvalidJacobies opts) (isfinite jacobi) then
      if ENABLE_CHECK (OptJacobiIsZero opts) (nonzero jacobi) then
        modifyOpt (fun tp =>
          option_map (fun d => set_data d tp)
                     (ChunkVector.setDataAndMove (jacobi, index) (data tp)))
      else ret tt
    else ret tt
  else ret tt.

(** [rhs.calcGradient(null)]. *)
Definition pushLeaf (l : Leaf Real) : M t unit :=
  match l with
  | UnaryLeaf v i => pushJacobi_unary v i
  | JacobiLeaf j v i => pushJacobi j v i
  end.

Definition calcGradient (rhs : Rhs Real) : M t unit :=
  forM (leaves rhs) pushLeaf.

Definition data_reserveItems (k : N) : M t unit :=
  modify (fun tp => set_data (ChunkVector.reserveItems k tt (data tp)) tp).

Definition data_setDataAndMove (d : Real * N) : M t unit :=
  modifyOpt (fun tp =>
    option_map (fun d' => set_data d' tp)
               (ChunkVector.setDataAndMove d (data tp))).

Definition statements_reserveItems (k : N) : M t unit :=
  modify (fun tp =>
    set_statements
      (ChunkVector.reserveItems k (data_getPosition tp) (statements tp)) tp).

Definition statements_setDataAndMove (s : N * N) : M t unit :=
  modifyOpt (fun tp =>
    option_map (fun st => set_statements st tp)
               (ChunkVector.setDataAndMove s (statements tp))).

(** [store(lhsValue, lhsIndex, rhs)] for an expression [rhs]. The
    result is the new [(lhsValue, lhsIndex)]. *)
Definition store (lhsValue : Real) (lhsIndex : N) (rhs : Rhs Real)
  : M t (Real * N) :=
  act <- gets active ;;
  lhsIndex' <-
    (if ENABLE_CHECK (OptTapeActivity opts) act then
       data_reserveItems (maxActiveVariables rhs) ;;
       statements_reserveItems 1 ;;
       startSize <- gets (fun tp => ChunkVector.getChunkPosition (data tp)) ;;
       calcGradient rhs ;;
       endSize <- gets (fun tp => ChunkVector.getChunkPosition (data tp)) ;;
       let activeVariables := size_sub endSize startSize in
       if 0 =? activeVariables then freeIndex lhsIndex
       else
         lhsIndex' <- checkIndex lhsIndex ;;
         statements_setDataAndMove (toStatementInt activeVariables, lhsIndex') ;;
         ret lhsIndex'
     else freeIndex lhsIndex) ;;
  ret (getValue rhs, lhsIndex').

(** [store(lhsValue, lhsIndex, rhs)] for an [ActiveReal] [rhs]. *)
Definition store_copy (lhsValue : Real) (lhsIndex : N) (rhs : ActiveReal Real)
  : M t (Real * N) :=
  act <- gets active ;;
  lhsIndex' <-
    (if ENABLE_CHECK (OptTapeActivity opts) act then
       if negb (0 =? gradientData rhs) then
         lhsIndex' <- checkIndex lhsIndex ;;
         data_reserveItems 1 ;;
         statements_reserveItems 1 ;;
         data_setDataAndMove (one, gradientData rhs) ;;
         statements_setDataAndMove (toStatementInt 1, lhsIndex') ;;
         ret lhsIndex'
       else freeIndex lhsIndex
     else freeIndex lhsIndex) ;;
  ret (value rhs, lhsIndex').

(** [store(lhsValue, lhsIndex, rhs)] for a passive [rhs]. *)
Definition store_passive (lhsValue : Real) (lhsIndex : N) (rhs : Real)
  : M t (Real * N) :=
  lhsIndex' <- freeIndex lhsIndex ;;
  ret (rhs, lhsIndex').

Definition initGradientData (value : Real) (index : N) : M t N := ret 0.

Definition destroyGradientData (value : Real) (index : N) : M t N :=
  freeIndex index.

(** [gradient(index)]: the reference returned is the slot [index] of
    the adjoint array. *)
Definition gradient (index : N) : M t N :=
  assert (negb (0 =? index)) ;;
  size <- gets adjointsSize ;;
  (if size <=? index then resizeAdjoints (index + 1) else ret tt) ;;
  ret index.

Definition setGradient (index : N) (g : Real) : M t unit :=
  if negb (0 =? index) then
    slot <- gradient index ;;
    writeAdjoint slot g
  else ret tt.

Definition getGradient (index : N) : M t Real :=
  size <- gets adjointsSize ;;
  if size <=? index then ret zero else readAdjoint index.

(** [clearAdjoints()]. *)
Definition clearAdjoints : M t unit :=
  m <- gets (fun tp => IndexHandler.getMaximumGlobalIndex (indexHandler tp)) ;;
  forM (rangeN 0 m) (fun i => writeAdjoint i zero).

(** [clearAdjoints(start, end)]. *)
Definition clearAdjoints_range (start end_ : Position) : M t unit :=
  forM (rangeN (innermost start) (innermost end_))
       (fun i => writeAdjoint i zero).

(** [popExternalFunction]. *)
Definition popExternalFunction
  (extFunction : ExternalFunction.t * StatementPosition) : M t unit :=
  modify (emit [ExtFuncDelete (fst extFunction)]).

(** [externalFunctions.reset(pos)], through the nested vectors. *)
Definition externalFunctions_reset (pos : Position) : M t unit :=
  modifyOpt (fun tp =>
    match ChunkVector.reset pos (externalFunctions tp),
          ChunkVector.reset (ChunkVector.inner pos) (statements tp),
          ChunkVector.reset (ChunkVector.inner (ChunkVector.inner pos)) (data tp)
    with
    | Some e, Some s, Some d =>
        Some (set_externalFunctions e (set_statements s (set_data d tp)))
    | _, _, _ => None
    end).

(** [reset(pos)]. *)
Definition reset (pos : Position) : M t unit :=
  clearAdjoints ;;
  ext <- gets externalFunctions ;;
  cur <- gets getPosition ;;
  ChunkVector.forEach ext cur pos popExternalFunction ;;
  externalFunctions_reset pos ;;
  modify (fun tp => set_indexHandler (IndexHandler.reset (indexHandler tp)) tp).

(** [reset()]. *)
Definition reset_all : M t unit := reset initialPosition.

(** One pass of the body of the [for] loop of [evaluateExpressions]:
    [--dataPos; adjoints[indices[dataPos]] += adj * jacobies[dataPos]],
    with [adj] the value copied before. *)
Definition accumulate (adj : Real) (dataCells : list (Real * N))
           (dataPos : N) : M t N :=
  let dataPos' := size_dec dataPos in
  cell <- getsOpt (fun _ => lookupN dataCells dataPos') ;;
  old <- readAdjoint (snd cell) ;;
  writeAdjoint (snd cell) (add old (mul adj (fst cell))) ;;
  ret dataPos'.

Fixpoint accumulateLoop (n : nat) (adj : Real) (dataCells : list (Real * N))
         (dataPos : N) : M t N :=
  match n with
  | O => ret dataPos
  | S n' =>
      dataPos' <- accumulate adj dataCells dataPos ;;
      accumulateLoop n' adj dataCells dataPos'
  end.

(** One pass of the body of the [while] loop of [evaluateExpressions],
    on the cursors [(stmtPos, dataPos)]. *)
Definition evaluateStatement (statementData : list (N * N))
           (dataCells : list (Real * N)) (cursors : N * N) : M t (N * N) :=
  let '(stmtPos, dataPos) := cursors in
  let stmtPos := size_dec stmtPos in
  statement <- getsOpt (fun _ => lookupN statementData stmtPos) ;;
  let lhsIndex := snd statement in
  adj <- readAdjoint lhsIndex ;;
  writeAdjoint lhsIndex zero ;;
  let activeVariables := fst statement in
  dataPos' <-
    (if ENABLE_CHECK (OptZeroAdjoint opts) (nonzero adj)
     then accumulateLoop (N.to_nat activeVariables) adj dataCells dataPos
     else ret (size_sub dataPos activeVariables)) ;;
  ret (stmtPos, dataPos').

Fixpoint evaluateStatements (n : nat) (statementData : list (N * N))
         (dataCells : list (Real * N)) (cursors : N * N) : M t (N * N) :=
  match n with
  | O => ret cursors
  | S n' =>
      cursors' <- evaluateStatement statementData dataCells cursors ;;
      evaluateStatements n' statementData dataCells cursors'
  end.

(** [evaluateExpressions]; the result is the new [(stmtPos, dataPos)]. *)
Definition evaluateExpressions (stmtPos endStmtPos : N)
           (statementData : list (N * N)) (dataPos : N)
           (dataCells : list (Real * N)) : M t (N * N) :=
  evaluateStatements (N.to_nat (stmtPos - endStmtPos)) statementData
                     dataCells (stmtPos, dataPos).

(** The [for] loop of [evaluateData] on [(curChunk, dataPos,
    stmtPosStart)]. *)
Fixpoint evaluateDataChunks (n : nat) (stmtPosEnd : N)
         (statementData : list (N * N)) (state : N * N * N)
  : M t (N * N * N) :=
  match n with
  | O => ret state
  | S n' =>
      let '(curChunk, dataPos, stmtPosStart) := state in
      dataCells <-
        getsOpt (fun tp => ChunkVector.getDataAtPosition (data tp) curChunk) ;;
      '(stmtPosStart', _) <-
        evaluateExpressions stmtPosStart stmtPosEnd statementData dataPos
                            dataCells ;;
      dataPos' <-
        getsOpt (fun tp => ChunkVector.getChunkUsedData (data tp) (curChunk - 1)) ;;
      evaluateDataChunks n' stmtPosEnd statementData
                         (size_dec curChunk, dataPos', stmtPosStart')
  end.

(** [evaluateData]; the result is the new [stmtPosStart]. *)
Definition evaluateData (start end_ : DataPosition) (stmtPosStart : N)
           (stmtPosEnd : N) (statementData : list (N * N)) : M t N :=
  '(_, dataPos, stmtPosStart') <-
    evaluateDataChunks
      (N.to_nat (ChunkVector.chunk start - ChunkVector.chunk end_))
      stmtPosEnd statementData
      (ChunkVector.chunk start, ChunkVector.data start, stmtPosStart) ;;
  dataCells <-
    getsOpt (fun tp =>
      ChunkVector.getDataAtPosition (data tp) (ChunkVector.chunk end_)) ;;
  '(stmtPosStart'', _) <-
    evaluateExpressions stmtPosStart' stmtPosEnd statementData dataPos
                        dataCells ;;
  ret stmtPosStart''.

(** The [for] loop of [evaluateStmt] on [(curChunk, dataPos,
    curInnerPos)]. *)
Fixpoint evaluateStmtChunks (n : nat) (state : N * N * DataPosition)
  : M t (N * N * DataPosition) :=
  match n with
  | O => ret state
  | S n' =>
      let '(curChunk, dataPos, curInnerPos) := state in
      statementData <-
        getsOpt (fun tp =>
          ChunkVector.getDataAtPosition (statements tp) curChunk) ;;
      endInnerPos <-
        getsOpt (fun tp =>
          ChunkVector.getInnerPosition (statements tp) curChunk) ;;
      evaluateData curInnerPos endInnerPos dataPos 0 statementData ;;
      dataPos' <-
        getsOpt (fun tp =>
          ChunkVector.getChunkUsedData (statements tp) (curChunk - 1)) ;;
      evaluateStmtChunks n' (size_dec curChunk, dataPos', endInnerPos)
  end.

(** [evaluateStmt]. *)
Definition evaluateStmt (start end_ : StatementPosition) : M t unit :=
  '(_, dataPos, curInnerPos) <-
    evaluateStmtChunks
      (N.to_nat (ChunkVector.chunk start - ChunkVector.chunk end_))
      (ChunkVector.chunk start, ChunkVector.data start,
       ChunkVector.inner start) ;;
  statementData <-
    getsOpt (fun tp =>
      ChunkVector.getDataAtPosition (statements tp) (ChunkVector.chunk end_)) ;;
  evaluateData curInnerPos (ChunkVector.inner end_) dataPos
               (ChunkVector.data end_) statementData ;;
  ret tt.

(** The function object [ExtFuncEvaluator]. *)
Record ExtFuncEvaluator : Type := mkExtFuncEvaluator {
  curInnerPos : StatementPosition;
  tape : t
}.

Definition onTape {A : Type} (m : M t A) : M ExtFuncEvaluator A :=
  fun ev =>
    match m (tape ev) with
    | Some (a, tp) => Some (a, mkExtFuncEvaluator (curInnerPos ev) tp)
    | None => None
    end.

(** [extFunc->evaluate()]. *)
Definition extFunc_evaluate (f : ExternalFunction.t) : M t unit :=
  modify (emit [ExtFuncEvaluate f]).

(** [ExtFuncEvaluator::operator()]. *)
Definition ExtFuncEvaluator_call
  (record : ExternalFunction.t * StatementPosition)
  : M ExtFuncEvaluator unit :=
  let '(extFunc, endInnerPos) := record in
  cur <- gets curInnerPos ;;
  onTape (evaluateStmt cur endInnerPos) ;;
  onTape (extFunc_evaluate extFunc) ;;
  modify (fun ev => mkExtFuncEvaluator endInnerPos (tape ev)).

(** [evaluateExtFunc]. *)
Definition evaluateExtFunc (start end_ : Position) : M t unit :=
  fun tp =>
    let evaluator := mkExtFuncEvaluator (ChunkVector.inner start) tp in
    match ChunkVector.forEach (externalFunctions tp) start end_
                              ExtFuncEvaluator_call evaluator with
    | Some (_, evaluator') =>
        evaluateStmt (curInnerPos evaluator') (ChunkVector.inner end_)
                     (tape evaluator')
    | None => None
    end.

(** [evaluate(start, end)]. *)
Definition evaluate (start end_ : Position) : M t unit :=
  size <- gets adjointsSize ;;
  m <- gets (fun tp => IndexHandler.getMaximumGlobalIndex (indexHandler tp)) ;;
  (if size <=? m then resizeAdjoints (m + 1) else ret tt) ;;
  evaluateExtFunc start end_.

(** [evaluate()]. *)
Definition evaluate_all : M t unit :=
  cur <- gets getPosition ;;
  evaluate cur initialPosition.

(** The private [pushExternalFunctionHandle(function)]. *)
Definition pushExternalFunctionHandle (function : ExternalFunction.t)
  : M t unit :=
  modify (fun tp =>
    set_externalFunctions
      (ChunkVector.reserveItems 1 (statements_getPosition tp)
                                (externalFunctions tp)) tp) ;;
  modifyOpt (fun tp =>
    option_map (fun e => set_externalFunctions e tp)
      (ChunkVector.setDataAndMove (function, statements_getPosition tp)
                                  (externalFunctions tp))).

(** [registerInput(value)]; the result is the new gradient data of
    [value]. *)
Definition registerInput (index : N) : M t N := checkIndex index.

Definition registerOutput : M t unit := ret tt.

Definition setActive : M t unit := modify (set_active true).

Definition setPassive : M t unit := modify (set_active false).

Definition isActive : M t bool := gets active.

End Tape.

End ChunkIndexReuseTape.

(** ** Specification-side definitions *)

(** The filter of [pushJacobi] as the specification words it: nothing is
    appended when the index is [0], or when [OptIgnoreInvalidJacobies] is
    on and the jacobian is not finite, or when [OptJacobiIsZero] is on and
    the jacobian equals [0]. *)
Definition jacobiSkipped {Real : Type} {RO : RealOps Real} (opts : Options)
           (jacobi : Real) (index : N) : bool :=
  (index =? 0)
  || (OptIgnoreInvalidJacobies opts && negb (isfinite jacobi))
  || (OptJacobiIsZero opts && negb (nonzero jacobi)).

(** The jacobian entries that the leaves of an expression append, in
    order. *)
Definition leafEntry {Real : Type} {RO : RealOps Real} (opts : Options)
           (l : Leaf Real) : list (Real * N) :=
  match l with
  | UnaryLeaf _ i => if i =? 0 then [] else [(one, i)]
  | JacobiLeaf j _ i => if jacobiSkipped opts j i then [] else [(j, i)]
  end.

Definition pushedEntries {Real : Type} {RO : RealOps Real} (opts : Options)
           (ls : list (Leaf Real)) : list (Real * N) :=
  flat_map (leafEntry opts) ls.

(** Room for one more record in the current chunk. *)
Definition hasRoom {A I : Type} (cv : ChunkVector.t A I) : Prop :=
  ChunkVector.used (ChunkVector.current cv)
  < ChunkVector.capacity (ChunkVector.current cv).

(** ** A scalar type for the examples *)

(** Integers with one non-finite value. *)
Inductive XReal : Type :=
| Finite (z : Z)
| NotFinite.

Definition XReal_add (a b : XReal) : XReal :=
  match a, b with
  | Finite x, Finite y => Finite (x + y)
  | _, _ => NotFinite
  end.

Definition XReal_mul (a b : XReal) : XReal :=
  match a, b with
  | Finite x, Finite y => Finite (x * y)
  | _, _ => NotFinite
  end.

#[export] Instance XReal_RealOps : RealOps XReal := {|
  zero := Finite 0;
  one := Finite 1;
  add := XReal_add;
  mul := XReal_mul;
  isfinite := fun a => match a with Finite _ => true | NotFinite => false end;
  nonzero := fun a => match a with Finite z => negb (Z.eqb z 0) | NotFinite => true end
|}.

(** All checks on, and all checks off. *)
Definition allChecks : Options := mkOptions true true true true 4194304.
Definition noChecks : Options := mkOptions false false false false 4194304.

(** The jacobian log of the second tape is that of the first with one
    more entry, and nothing else differs. *)
Definition ChunkTape_dataAppended {Real : Type} (tp tp' : ChunkTape.t (Real:=Real))
           (entry : Real * N) : Prop :=
  ChunkVector.records (ChunkTape.data tp')
  = ChunkVector.records (ChunkTape.data tp) ++ [entry]
  /\ tp' = ChunkTape.set_data (ChunkTape.data tp') tp.

Definition ChunkIndexReuseTape_dataAppended {Real : Type}
           (tp tp' : ChunkIndexReuseTape.t (Real:=Real)) (entry : Real * N) : Prop :=
  ChunkVector.records (ChunkIndexReuseTape.data tp')
  = ChunkVector.records (ChunkIndexReuseTape.data tp) ++ [entry]
  /\ tp' = ChunkIndexReuseTape.set_data (ChunkIndexReuseTape.data tp') tp.

(** A tape with the given adjoint vector and nothing recorded. *)
Definition ChunkTape_withAdjoints (opts : Options) (a : list XReal)
  : ChunkTape.t (Real:=XReal) :=
  ChunkTape.set_adjoints a (ChunkTape.create opts).

Definition ChunkIndexReuseTape_withAdjoints (opts : Options) (a : list XReal)
  : ChunkIndexReuseTape.t (Real:=XReal) :=
  ChunkIndexReuseTape.set_adjoints a (ChunkIndexReuseTape.create opts).

(** The chunk vector [cv'] is [cv] after the records [l] went into its
    current chunk. *)
Definition grownBy {A I : Type} (cv cv' : ChunkVector.t A I) (l : list A) : Prop :=
  ChunkVector.used (ChunkVector.current cv')
  = ChunkVector.used (ChunkVector.current cv) + N.of_nat (length l)
  /\ ChunkVector.capacity (ChunkVector.current cv')
     = ChunkVector.capacity (ChunkVector.current cv)
  /\ ChunkVector.chunkSize cv' = ChunkVector.chunkSize cv
  /\ ChunkVector.records cv' = ChunkVector.records cv ++ l.

(** The number of jacobian entries that [calcGradient] appends for an
    expression: its active variables. *)
Definition activeVariableCount {Real : Type} {RO : RealOps Real} (opts : Options)
           (rhs : Rhs Real) : N :=
  N.of_nat (length (pushedEntries opts (leaves rhs))).

(** An example expression: [2 * x] with a passive and a zero-jacobian
    leaf besides. *)
Definition exampleRhs : Rhs XReal :=
  mkRhs (Finite 8)
        [JacobiLeaf (Finite 2) (Finite 4) 1; JacobiLeaf (Finite 0) (Finite 4) 1;
         UnaryLeaf (Finite 4) 0] 3.

(** Fresh tapes, set active. *)
Definition ChunkTape_activeTape (opts : Options) : ChunkTape.t (Real:=XReal) :=
  ChunkTape.set_active true (ChunkTape.create opts).

Definition ChunkIndexReuseTape_activeTape (opts : Options)
  : ChunkIndexReuseTape.t (Real:=XReal) :=
  ChunkIndexReuseTape.set_active true (ChunkIndexReuseTape.create opts).

(** ** Walking a chunk vector, specification side *)

(** A slot of a chunk vector is [(chunk, offset)]; slots are ordered like
    positions, chunk first. *)
Definition slotLt (s1 s2 : N * N) : Prop :=
  fst s1 < fst s2 \/ (fst s1 = fst s2 /\ snd s1 < snd s2).

Definition slotLe (s1 s2 : N * N) : Prop := s1 = s2 \/ slotLt s1 s2.

Definition positionSlot {I : Type} (pos : ChunkVector.Position I) : N * N :=
  (ChunkVector.chunk pos, ChunkVector.data pos).

(** The record in a slot. *)
Definition recordAt {A I : Type} (cv : ChunkVector.t A I) (c o : N) : option A :=
  match ChunkVector.getDataAtPosition cv c with
  | Some chunkCells => lookupN chunkCells o
  | None => None
  end.

(** A position of the vector at or below its head: its chunk exists and
    its offset is within the records of that chunk. *)
Definition validPosition {A I : Type} (cv : ChunkVector.t A I)
           (pos : ChunkVector.Position I) : Prop :=
  exists ch, ChunkVector.getChunk cv (ChunkVector.chunk pos) = Some ch
             /\ ChunkVector.data pos <= N.of_nat (length (ChunkVector.cells ch)).

(** A vector whose sealed chunks are full of records, as every vector is
    that is filled one reserved record at a time. *)
Definition dense {A I : Type} (cv : ChunkVector.t A I) : Prop :=
  Forall (fun ch => ChunkVector.used ch = N.of_nat (length (ChunkVector.cells ch)))
         (ChunkVector.prior cv).

(** The records, with their slots, between two offsets of one chunk,
    highest first: [n] records below [dataPos]. *)
Fixpoint dataBetween {A : Type} (chunkCells : list A) (c : N) (n : nat) (dataPos : N)
  : option (list (N * N * A)) :=
  match n with
  | O => Some []
  | S n' =>
      let dataPos' := size_dec dataPos in
      match lookupN chunkCells dataPos', dataBetween chunkCells c n' dataPos' with
      | Some a, Some l => Some ((c, dataPos', a) :: l)
      | _, _ => None
      end
  end.

(** The records of [n] whole chunks from [chunkPos] down, the first of
    them below [dataStart]; with the offset at which the next chunk
    continues. *)
Fixpoint chunksBetween {A I : Type} (cv : ChunkVector.t A I) (n : nat)
         (chunkPos dataStart : N) : option (list (N * N * A) * N) :=
  match n with
  | O => Some ([], dataStart)
  | S n' =>
      match ChunkVector.getDataAtPosition cv chunkPos,
            ChunkVector.getChunkUsedData cv (chunkPos - 1) with
      | Some chunkCells, Some dataStart' =>
          match dataBetween chunkCells chunkPos (N.to_nat dataStart) dataStart,
                chunksBetween cv n' (chunkPos - 1) dataStart' with
          | Some l, Some (l', d) => Some (l ++ l', d)
          | _, _ => None
          end
      | _, _ => None
      end
  end.

(** The records between two positions, highest slot first: those that
    [forEach(start, end, ...)] is to visit. *)
Definition recordsBetween {A I : Type} (cv : ChunkVector.t A I)
           (start end_ : ChunkVector.Position I) : option (list (N * N * A)) :=
  if ChunkVector.posLe end_ start then
    match chunksBetween cv (N.to_nat (ChunkVector.chunk start - ChunkVector.chunk end_))
                        (ChunkVector.chunk start) (ChunkVector.data start) with
    | Some (l, dataStart) =>
        match ChunkVector.getDataAtPosition cv (ChunkVector.chunk end_) with
        | Some chunkCells =>
            match dataBetween chunkCells (ChunkVector.chunk end_)
                              (N.to_nat (dataStart - ChunkVector.data end_)) dataStart with
            | Some l' => Some (l ++ l')
            | None => None
            end
        | None => None
        end
    | None => None
    end
  else None.

(** The list [l] holds every record of the vector whose slot is at or
    above [end] and below [start], each once, highest slot first. *)
Definition visitsExactly {A I : Type} (cv : ChunkVector.t A I)
           (start end_ : ChunkVector.Position I) (l : list (N * N * A)) : Prop :=
  StronglySorted (fun x y => slotLt (fst y) (fst x)) l
  /\ forall c o a,
      In (c, o, a) l
      <-> recordAt cv c o = Some a
          /\ slotLe (positionSlot end_) (c, o)
          /\ slotLt (c, o) (positionSlot start).

(** The reverse pass as the specification words it: for each external
    function record from the top down, the statements from the frontier
    down to the boundary of the record, then the call, with the boundary
    as the new frontier; at last the statements down to the end. *)
Fixpoint ChunkTape_evaluateSegments {Real : Type} {RO : RealOps Real}
         (opts : Options) (frontier : ChunkTape.StatementPosition)
         (records : list (ExternalFunction.t * ChunkTape.StatementPosition))
         (end_ : ChunkTape.StatementPosition) : M (ChunkTape.t (Real:=Real)) unit :=
  match records with
  | [] => ChunkTape.evaluateStmt opts frontier end_
  | (f, boundary) :: rest =>
      ChunkTape.evaluateStmt opts frontier boundary ;;
      ChunkTape.extFunc_evaluate f ;;
      ChunkTape_evaluateSegments opts boundary rest end_
  end.

Fixpoint ChunkIndexReuseTape_evaluateSegments {Real : Type} {RO : RealOps Real}
         (opts : Options) (frontier : ChunkIndexReuseTape.StatementPosition)
         (records : list (ExternalFunction.t * ChunkIndexReuseTape.StatementPosition))
         (end_ : ChunkIndexReuseTape.StatementPosition)
  : M (ChunkIndexReuseTape.t (Real:=Real)) unit :=
  match records with
  | [] => ChunkIndexReuseTape.evaluateStmt opts frontier end_
  | (f, boundary) :: rest =>
      ChunkIndexReuseTape.evaluateStmt opts frontier boundary ;;
      ChunkIndexReuseTape.extFunc_evaluate f ;;
      ChunkIndexReuseTape_evaluateSegments opts boundary rest end_
  end.

(** The first step of [evaluate]: the adjoint vector grows to the number
    of indices in use. *)
Definition ChunkTape_growAdjoints {Real : Type} {RO : RealOps Real}
  : M (ChunkTape.t (Real:=Real)) unit :=
  size <- gets ChunkTape.adjointsSize ;;
  c <- gets ChunkTape.expressionCount ;;
  if size <=? c then ChunkTape.resizeAdjoints (c + 1) else ret tt.

Definition ChunkIndexReuseTape_growAdjoints {Real : Type} {RO : RealOps Real}
  : M (ChunkIndexReuseTape.t (Real:=Real)) unit :=
  size <- gets ChunkIndexReuseTape.adjointsSize ;;
  m <- gets (fun tp => IndexHandler.getMaximumGlobalIndex
                         (ChunkIndexReuseTape.indexHandler tp)) ;;
  if size <=? m then ChunkIndexReuseTape.resizeAdjoints (m + 1) else ret tt.

(** A vector as the recorder builds it one reserved record at a time: the
    sealed chunks are full, the current chunk is open and within its
    capacity. *)
Definition wellFormed {A I : Type} (cv : ChunkVector.t A I) : Prop :=
  Forall (fun ch => ChunkVector.isSealed ch = true
                    /\ ChunkVector.capacity ch
                       = N.of_nat (length (ChunkVector.cells ch)))
         (ChunkVector.prior cv)
  /\ ChunkVector.isSealed (ChunkVector.current cv) = false
  /\ N.of_nat (length (ChunkVector.cells (ChunkVector.current cv)))
     <= ChunkVector.capacity (ChunkVector.current cv).

(** Two external functions for the examples. *)
Definition extF1 : ExternalFunction.t := ExternalFunction.mk 1 10 100.
Definition extF2 : ExternalFunction.t := ExternalFunction.mk 2 20 200.

(** A recording with two external functions between statements, on
    either tape: [x] registered, [y = 2 * x], [extF1], [z = 3 * y],
    [extF2], [w = 4 * z], and the seed [1] for [w]. *)
Definition ChunkTape_exampleRecording : M (ChunkTape.t (Real:=XReal)) (N * N) :=
  ChunkTape.setActive ;;
  x <- ChunkTape.registerInput ;;
  y <- ChunkTape.store allChecks (Finite 0) 0
         (mkRhs (Finite 10) [JacobiLeaf (Finite 2) (Finite 5) x] 1) ;;
  ChunkTape.pushExternalFunctionHandle extF1 ;;
  z <- ChunkTape.store allChecks (Finite 0) 0
         (mkRhs (Finite 30) [JacobiLeaf (Finite 3) (Finite 10) (snd y)] 1) ;;
  ChunkTape.pushExternalFunctionHandle extF2 ;;
  w <- ChunkTape.store allChecks (Finite 0) 0
         (mkRhs (Finite 120) [JacobiLeaf (Finite 4) (Finite 30) (snd z)] 1) ;;
  ChunkTape.setGradient (snd w) (Finite 1) ;;
  ret (x, snd w).

Definition ChunkTape_exampleTape : ChunkTape.t (Real:=XReal) :=
  Eval vm_compute in
    match ChunkTape_exampleRecording (ChunkTape.create allChecks) with
    | Some (_, tp) => tp
    | None => ChunkTape.create allChecks
    end.

Definition ChunkIndexReuseTape_exampleRecording
  : M (ChunkIndexReuseTape.t (Real:=XReal)) (N * N) :=
  ChunkIndexReuseTape.setActive ;;
  x <- ChunkIndexReuseTape.registerInput 0 ;;
  y <- ChunkIndexReuseTape.store allChecks (Finite 0) 0
         (mkRhs (Finite 10) [JacobiLeaf (Finite 2) (Finite 5) x] 1) ;;
  ChunkIndexReuseTape.pushExternalFunctionHandle extF1 ;;
  z <- ChunkIndexReuseTape.store allChecks (Finite 0) 0
         (mkRhs (Finite 30) [JacobiLeaf (Finite 3) (Finite 10) (snd y)] 1) ;;
  ChunkIndexReuseTape.pushExternalFunctionHandle extF2 ;;
  w <- ChunkIndexReuseTape.store allChecks (Finite 0) 0
         (mkRhs (Finite 120) [JacobiLeaf (Finite 4) (Finite 30) (snd z)] 1) ;;
  ChunkIndexReuseTape.setGradient (snd w) (Finite 1) ;;
  ret (x, snd w).

Definition ChunkIndexReuseTape_exampleTape : ChunkIndexReuseTape.t (Real:=XReal) :=
  Eval vm_compute in
    match ChunkIndexReuseTape_exampleRecording (ChunkIndexReuseTape.create allChecks) with
    | Some (_, tp) => tp
    | None => ChunkIndexReuseTape.create allChecks
    end.

(** ** Operations and invariants *)

(** A triple for the tape monad: from a state in [P], every defined run
    of [m] ends with a result and a state in [Q]. *)
Definition hoare {S A : Type} (P : S -> Prop) (m : M S A) (Q : A -> S -> Prop) : Prop :=
  forall s a s', P s -> m s = Some (a, s') -> Q a s'.

(** An event that is no write of a nonzero value to slot [0]. *)
Definition sparesSlotZero {Real : Type} {RO : RealOps Real} (e : Event Real) : Prop :=
  match e with
  | AdjointWrite i v => i = 0 -> v = zero
  | _ => True
  end.

(** No jacobian entry names index [0]. *)
Definition indicesNonzero {Real : Type} (entries : list (Real * N)) : Prop :=
  Forall (fun entry => snd entry <> 0) entries.

(** The public operations of the linear-index tape, with their arguments.
    [GradientAssign i v] is the assignment [gradient(i) = v] through the
    reference that [gradient] returns. Left out are [resize], which only
    preallocates chunks, the queries [getPosition] and [isActive], and the
    two wrappers that build the record for [pushExternalFunctionHandle]. *)
Inductive ChunkTape_Op (Real : Type) : Type :=
| LSetDataChunkSize (n : N)
| LSetStatementChunkSize (n : N)
| LSetExternalFunctionChunkSize (n : N)
| LAllocateAdjoints
| LStore (lhsValue : Real) (lhsIndex : N) (rhs : Rhs Real)
| LStoreCopy (lhsValue : Real) (lhsIndex : N) (rhs : ActiveReal Real)
| LStorePassive (lhsValue : Real) (lhsIndex : N) (rhs : Real)
| LPushJacobiUnary (value : Real) (index : N)
| LPushJacobi (jacobi value : Real) (index : N)
| LInitGradientData (value : Real) (index : N)
| LDestroyGradientData (value : Real) (index : N)
| LSetGradient (index : N) (g : Real)
| LGetGradient (index : N)
| LGradientAssign (index : N) (g : Real)
| LClearAdjoints
| LClearAdjointsRange (start end_ : ChunkTape.Position)
| LReset (pos : ChunkTape.Position)
| LResetAll
| LEvaluate (start end_ : ChunkTape.Position)
| LEvaluateAll
| LPushExternalFunctionHandle (f : ExternalFunction.t)
| LRegisterInput
| LRegisterOutput
| LSetActive
| LSetPassive.
Arguments LSetDataChunkSize {Real} _.
Arguments LSetStatementChunkSize {Real} _.
Arguments LSetExternalFunctionChunkSize {Real} _.
Arguments LAllocateAdjoints {Real}.
Arguments LStore {Real} _ _ _.
Arguments LStoreCopy {Real} _ _ _.
Arguments LStorePassive {Real} _ _ _.
Arguments LPushJacobiUnary {Real} _ _.
Arguments LPushJacobi {Real} _ _ _.
Arguments LInitGradientData {Real} _ _.
Arguments LDestroyGradientData {Real} _ _.
Arguments LSetGradient {Real} _ _.
Arguments LGetGradient {Real} _.
Arguments LGradientAssign {Real} _ _.
Arguments LClearAdjoints {Real}.
Arguments LClearAdjointsRange {Real} _ _.
Arguments LReset {Real} _.
Arguments LResetAll {Real}.
Arguments LEvaluate {Real} _ _.
Arguments LEvaluateAll {Real}.
Arguments LPushExternalFunctionHandle {Real} _.
Arguments LRegisterInput {Real}.
Arguments LRegisterOutput {Real}.
Arguments LSetActive {Real}.
Arguments LSetPassive {Real}.

Definition ChunkTape_step {Real : Type} {RO : RealOps Real} (opts : Options)
           (op : ChunkTape_Op Real) : M (ChunkTape.t (Real:=Real)) unit :=
  match op with
  | LSetDataChunkSize n => ChunkTape.setDataChunkSize n
  | LSetStatementChunkSize n => ChunkTape.setStatementChunkSize n
  | LSetExternalFunctionChunkSize n => ChunkTape.setExternalFunctionChunkSize n
  | LAllocateAdjoints => ChunkTape.allocateAdjoints
  | LStore v i rhs => ChunkTape.store opts v i rhs ;; ret tt
  | LStoreCopy v i rhs => ChunkTape.store_copy opts v i rhs ;; ret tt
  | LStorePassive v i rhs => ChunkTape.store_passive opts v i rhs ;; ret tt
  | LPushJacobiUnary v i => ChunkTape.pushJacobi_unary v i
  | LPushJacobi j v i => ChunkTape.pushJacobi opts j v i
  | LInitGradientData v i => ChunkTape.initGradientData v i ;; ret tt
  | LDestroyGradientData v i => ChunkTape.destroyGradientData v i ;; ret tt
  | LSetGradient i g => ChunkTape.setGradient i g
  | LGetGradient i => ChunkTape.getGradient i ;; ret tt
  | LGradientAssign i g => slot <- ChunkTape.gradient i ;; ChunkTape.writeAdjoint slot g
  | LClearAdjoints => ChunkTape.clearAdjoints
  | LClearAdjointsRange s e => ChunkTape.clearAdjoints_range s e
  | LReset pos => ChunkTape.reset pos
  | LResetAll => ChunkTape.reset_all
  | LEvaluate s e => ChunkTape.evaluate opts s e
  | LEvaluateAll => ChunkTape.evaluate_all opts
  | LPushExternalFunctionHandle f => ChunkTape.pushExternalFunctionHandle f
  | LRegisterInput => ChunkTape.registerInput ;; ret tt
  | LRegisterOutput => ChunkTape.registerOutput
  | LSetActive => ChunkTape.setActive
  | LSetPassive => ChunkTape.setPassive
  end.

Definition ChunkTape_run {Real : Type} {RO : RealOps Real} (opts : Options)
           (ops : list (ChunkTape_Op Real)) : M (ChunkTape.t (Real:=Real)) unit :=
  forM ops (ChunkTape_step opts).

(** Slot [0] of the adjoint vector holds zero where the vector is
    allocated, no write of the trace put anything else there, and no
    jacobian entry names index [0]. *)
Definition ChunkTape_slotZeroClean {Real : Type} {RO : RealOps Real}
           (tp : ChunkTape.t (Real:=Real)) : Prop :=
  (forall v, lookupN (ChunkTape.adjoints tp) 0 = Some v -> v = zero)
  /\ Forall sparesSlotZero (ChunkTape.trace tp)
  /\ indicesNonzero (ChunkVector.records (ChunkTape.data tp)).

(** The public operations of the reuse-index tape; left out are [resize],
    the queries [getPosition], [isActive], [getUsedStatementsSize] and
    [getUsedDataEntriesSize], and the two wrappers that build the record
    for [pushExternalFunctionHandle]. *)
Inductive ChunkIndexReuseTape_Op (Real : Type) : Type :=
| RSetDataChunkSize (n : N)
| RSetStatementChunkSize (n : N)
| RSetExternalFunctionChunkSize (n : N)
| RSetAdjointsSize (n : N)
| RGetAdjointsSize
| RAllocateAdjoints
| RStore (lhsValue : Real) (lhsIndex : N) (rhs : Rhs Real)
| RStoreCopy (lhsValue : Real) (lhsIndex : N) (rhs : ActiveReal Real)
| RStorePassive (lhsValue : Real) (lhsIndex : N) (rhs : Real)
| RPushJacobiUnary (value : Real) (index : N)
| RPushJacobi (jacobi value : Real) (index : N)
| RInitGradientData (value : Real) (index : N)
| RDestroyGradientData (value : Real) (index : N)
| RSetGradient (index : N) (g : Real)
| RGetGradient (index : N)
| RGradientAssign (index : N) (g : Real)
| RClearAdjoints
| RClearAdjointsRange (start end_ : ChunkIndexReuseTape.Position)
| RReset (pos : ChunkIndexReuseTape.Position)
| RResetAll
| REvaluate (start end_ : ChunkIndexReuseTape.Position)
| REvaluateAll
| RPushExternalFunctionHandle (f : ExternalFunction.t)
| RRegisterInput (index : N)
| RRegisterOutput
| RSetActive
| RSetPassive.
Arguments RSetDataChunkSize {Real} _.
Arguments RSetStatementChunkSize {Real} _.
Arguments RSetExternalFunctionChunkSize {Real} _.
Arguments RSetAdjointsSize {Real} _.
Arguments RGetAdjointsSize {Real}.
Arguments RAllocateAdjoints {Real}.
Arguments RStore {Real} _ _ _.
Arguments RStoreCopy {Real} _ _ _.
Arguments RStorePassive {Real} _ _ _.
Arguments RPushJacobiUnary {Real} _ _.
Arguments RPushJacobi {Real} _ _ _.
Arguments RInitGradientData {Real} _ _.
Arguments RDestroyGradientData {Real} _ _.
Arguments RSetGradient {Real} _ _.
Arguments RGetGradient {Real} _.
Arguments RGradientAssign {Real} _ _.
Arguments RClearAdjoints {Real}.
Arguments RClearAdjointsRange {Real} _ _.
Arguments RReset {Real} _.
Arguments RResetAll {Real}.
Arguments REvaluate {Real} _ _.
Arguments REvaluateAll {Real}.
Arguments RPushExternalFunctionHandle {Real} _.
Arguments RRegisterInput {Real} _.
Arguments RRegisterOutput {Real}.
Arguments RSetActive {Real}.
Arguments RSetPassive {Real}.

Definition ChunkIndexReuseTape_step {Real : Type} {RO : RealOps Real}
           (opts : Options) (emptyPositionIndex : ChunkIndexReuseTape.EmptyPosition -> N)
           (op : ChunkIndexReuseTape_Op Real)
  : M (ChunkIndexReuseTape.t (Real:=Real)) unit :=
  match op with
  | RSetDataChunkSize n => ChunkIndexReuseTape.setDataChunkSize n
  | RSetStatementChunkSize n => ChunkIndexReuseTape.setStatementChunkSize n
  | RSetExternalFunctionChunkSize n => ChunkIndexReuseTape.setExternalFunctionChunkSize n
  | RSetAdjointsSize n => ChunkIndexReuseTape.setAdjointsSize n
  | RGetAdjointsSize => ChunkIndexReuseTape.getAdjointsSize ;; ret tt
  | RAllocateAdjoints => ChunkIndexReuseTape.allocateAdjoints
  | RStore v i rhs => ChunkIndexReuseTape.store opts v i rhs ;; ret tt
  | RStoreCopy v i rhs => ChunkIndexReuseTape.store_copy opts v i rhs ;; ret tt
  | RStorePassive v i rhs => ChunkIndexReuseTape.store_passive v i rhs ;; ret tt
  | RPushJacobiUnary v i => ChunkIndexReuseTape.pushJacobi_unary v i
  | RPushJacobi j v i => ChunkIndexReuseTape.pushJacobi opts j v i
  | RInitGradientData v i => ChunkIndexReuseTape.initGradientData v i ;; ret tt
  | RDestroyGradientData v i => ChunkIndexReuseTape.destroyGradientData v i ;; ret tt
  | RSetGradient i g => ChunkIndexReuseTape.setGradient i g
  | RGetGradient i => ChunkIndexReuseTape.getGradient i ;; ret tt
  | RGradientAssign i g =>
      slot <- ChunkIndexReuseTape.gradient i ;; ChunkIndexReuseTape.writeAdjoint slot g
  | RClearAdjoints => ChunkIndexReuseTape.clearAdjoints
  | RClearAdjointsRange s e =>
      ChunkIndexReuseTape.clearAdjoints_range emptyPositionIndex s e
  | RReset pos => ChunkIndexReuseTape.reset pos
  | RResetAll => ChunkIndexReuseTape.reset_all
  | REvaluate s e => ChunkIndexReuseTape.evaluate opts s e
  | REvaluateAll => ChunkIndexReuseTape.evaluate_all opts
  | RPushExternalFunctionHandle f => ChunkIndexReuseTape.pushExternalFunctionHandle f
  | RRegisterInput i => ChunkIndexReuseTape.registerInput i ;; ret tt
  | RRegisterOutput => ChunkIndexReuseTape.registerOutput
  | RSetActive => ChunkIndexReuseTape.setActive
  | RSetPassive => ChunkIndexReuseTape.setPassive
  end.

Definition ChunkIndexReuseTape_run {Real : Type} {RO : RealOps Real}
           (opts : Options) (emptyPositionIndex : ChunkIndexReuseTape.EmptyPosition -> N)
           (ops : list (ChunkIndexReuseTape_Op Real))
  : M (ChunkIndexReuseTape.t (Real:=Real)) unit :=
  forM ops (ChunkIndexReuseTape_step opts emptyPositionIndex).

Definition ChunkIndexReuseTape_slotZeroClean {Real : Type} {RO : RealOps Real}
           (tp : ChunkIndexReuseTape.t (Real:=Real)) : Prop :=
  (forall v, lookupN (ChunkIndexReuseTape.adjoints tp) 0 = Some v -> v = zero)
  /\ Forall sparesSlotZero (ChunkIndexReuseTape.trace tp)
  /\ indicesNonzero (ChunkVector.records (ChunkIndexReuseTape.data tp)).

(** A session on either tape that records [y = 2 * x + 3], seeds slot
    [0] (ignored) and [y], and runs the reverse pass. *)
Definition ChunkTape_exampleOps : list (ChunkTape_Op XReal) :=
  [LSetActive; LRegisterInput;
   LStore (Finite 0) 0
          (mkRhs (Finite 13) [JacobiLeaf (Finite 2) (Finite 5) 1;
                              UnaryLeaf (Finite 3) 0] 2);
   LSetGradient 0 (Finite 7); LSetGradient 2 (Finite 1); LEvaluateAll].

Definition ChunkTape_exampleFinal : ChunkTape.t (Real:=XReal) :=
  Eval vm_compute in
    match ChunkTape_run allChecks ChunkTape_exampleOps (ChunkTape.create allChecks) with
    | Some (_, tp) => tp
    | None => ChunkTape.create allChecks
    end.

Definition ChunkIndexReuseTape_exampleOps : list (ChunkIndexReuseTape_Op XReal) :=
  [RSetActive; RRegisterInput 0;
   RStore (Finite 0) 0
          (mkRhs (Finite 13) [JacobiLeaf (Finite 2) (Finite 5) 1;
                              UnaryLeaf (Finite 3) 0] 2);
   RSetGradient 0 (Finite 7); RSetGradient 2 (Finite 1); REvaluateAll].

Definition ChunkIndexReuseTape_exampleFinal : ChunkIndexReuseTape.t (Real:=XReal) :=
  Eval vm_compute in
    match ChunkIndexReuseTape_run allChecks (fun _ => 0) ChunkIndexReuseTape_exampleOps
            (ChunkIndexReuseTape.create allChecks) with
    | Some (_, tp) => tp
    | None => ChunkIndexReuseTape.create allChecks
    end.

(** ** Sessions on small chunks and on tapes without adjoints *)

(** All checks on, chunks of two entries. *)
Definition twoPerChunk : Options := mkOptions true true true true 2.

(** [x = 3] registered, [y = x * x], [z = y * y]; the result is
    [(x.index, z.index)]. Each statement fills one data chunk. *)
Definition ChunkTape_squareTwice : M (ChunkTape.t (Real:=XReal)) (N * N) :=
  ChunkTape.setActive ;;
  x <- ChunkTape.registerInput ;;
  y <- ChunkTape.store twoPerChunk (Finite 0) 0
         (mkRhs (Finite 9) [JacobiLeaf (Finite 3) (Finite 3) x;
                            JacobiLeaf (Finite 3) (Finite 3) x] 2) ;;
  z <- ChunkTape.store twoPerChunk (Finite 0) 0
         (mkRhs (Finite 81) [JacobiLeaf (Finite 9) (Finite 9) (snd y);
                             JacobiLeaf (Finite 9) (Finite 9) (snd y)] 2) ;;
  ret (x, snd z).

Definition ChunkIndexReuseTape_squareTwice
  : M (ChunkIndexReuseTape.t (Real:=XReal)) (N * N) :=
  ChunkIndexReuseTape.setActive ;;
  x <- ChunkIndexReuseTape.registerInput 0 ;;
  y <- ChunkIndexReuseTape.store twoPerChunk (Finite 0) 0
         (mkRhs (Finite 9) [JacobiLeaf (Finite 3) (Finite 3) x;
                            JacobiLeaf (Finite 3) (Finite 3) x] 2) ;;
  z <- ChunkIndexReuseTape.store twoPerChunk (Finite 0) 0
         (mkRhs (Finite 81) [JacobiLeaf (Finite 9) (Finite 9) (snd y);
                             JacobiLeaf (Finite 9) (Finite 9) (snd y)] 2) ;;
  ret (x, snd z).

(** [setGradient(z, 1); evaluate(); getGradient(x)] after a recording
    that returns [(x.index, z.index)]. *)
Definition ChunkTape_derivative (opts : Options)
           (recording : M (ChunkTape.t (Real:=XReal)) (N * N))
  : M (ChunkTape.t (Real:=XReal)) XReal :=
  ' (x, z) <- recording ;;
  ChunkTape.setGradient z (Finite 1) ;;
  ChunkTape.evaluate_all opts ;;
  ChunkTape.getGradient x.

Definition ChunkIndexReuseTape_derivative (opts : Options)
           (recording : M (ChunkIndexReuseTape.t (Real:=XReal)) (N * N))
  : M (ChunkIndexReuseTape.t (Real:=XReal)) XReal :=
  ' (x, z) <- recording ;;
  ChunkIndexReuseTape.setGradient z (Finite 1) ;;
  ChunkIndexReuseTape.evaluate_all opts ;;
  ChunkIndexReuseTape.getGradient x.

(** The reuse tape after the recording and the seed. *)
Definition ChunkIndexReuseTape_squareTwiceTape : ChunkIndexReuseTape.t (Real:=XReal) :=
  Eval vm_compute in
    match (' (x, z) <- ChunkIndexReuseTape_squareTwice ;;
           ChunkIndexReuseTape.setGradient z (Finite 1))
            (ChunkIndexReuseTape.create twoPerChunk) with
    | Some (_, tp) => tp
    | None => ChunkIndexReuseTape.create twoPerChunk
    end.

(** The events of a trace that are calls of a delete function. *)
Definition deletions {Real : Type} (tr : list (Event Real)) : list ExternalFunction.t :=
  flat_map (fun e => match e with ExtFuncDelete f => [f] | _ => [] end) tr.

(** ** What an operation leaves alone *)

(** The two tapes agree on everything that recording writes: the
    counter or index handler, the three logs and the activity flag. *)
Definition ChunkTape_sameRecording {Real : Type} (tp tp' : ChunkTape.t (Real:=Real))
  : Prop :=
  ChunkTape.expressionCount tp' = ChunkTape.expressionCount tp
  /\ ChunkTape.data tp' = ChunkTape.data tp
  /\ ChunkTape.statements tp' = ChunkTape.statements tp
  /\ ChunkTape.externalFunctions tp' = ChunkTape.externalFunctions tp
  /\ ChunkTape.active tp' = ChunkTape.active tp.

Definition ChunkIndexReuseTape_sameRecording {Real : Type}
           (tp tp' : ChunkIndexReuseTape.t (Real:=Real)) : Prop :=
  ChunkIndexReuseTape.indexHandler tp' = ChunkIndexReuseTape.indexHandler tp
  /\ ChunkIndexReuseTape.data tp' = ChunkIndexReuseTape.data tp
  /\ ChunkIndexReuseTape.statements tp' = ChunkIndexReuseTape.statements tp
  /\ ChunkIndexReuseTape.externalFunctions tp' = ChunkIndexReuseTape.externalFunctions tp
  /\ ChunkIndexReuseTape.active tp' = ChunkIndexReuseTape.active tp.

(** The two tapes agree on the adjoint vector and on the trace of
    adjoint writes and callbacks. *)
Definition ChunkTape_sameAdjoints {Real : Type} (tp tp' : ChunkTape.t (Real:=Real))
  : Prop :=
  ChunkTape.adjoints tp' = ChunkTape.adjoints tp
  /\ ChunkTape.trace tp' = ChunkTape.trace tp.

Definition ChunkIndexReuseTape_sameAdjoints {Real : Type}
           (tp tp' : ChunkIndexReuseTape.t (Real:=Real)) : Prop :=
  ChunkIndexReuseTape.adjoints tp' = ChunkIndexReuseTape.adjoints tp
  /\ ChunkIndexReuseTape.trace tp' = ChunkIndexReuseTape.trace tp.

(** What [getGradient(index)] returns on a tape. *)
Definition ChunkTape_gradientOf {Real : Type} {RO : RealOps Real}
           (tp : ChunkTape.t (Real:=Real)) (index : N) : option Real :=
  option_map fst (ChunkTape.getGradient index tp).

Definition ChunkIndexReuseTape_gradientOf {Real : Type} {RO : RealOps Real}
           (tp : ChunkIndexReuseTape.t (Real:=Real)) (index : N) : option Real :=
  option_map fst (ChunkIndexReuseTape.getGradient index tp).

(** ** The chain rule of one statement, specification side *)

(** The [n] cells of an array below the offset [pos], highest first: the
    cells that a loop of [n] passes with [--pos] reads. *)
Fixpoint cellsBelow {A : Type} (cells : list A) (n : nat) (pos : N) : option (list A) :=
  match n with
  | O => Some []
  | S n' =>
      match lookupN cells (size_dec pos), cellsBelow cells n' (size_dec pos) with
      | Some a, Some l => Some (a :: l)
      | _, _ => None
      end
  end.

(** [a[index] += adj * jacobi] for each entry [(jacobi, index)] in turn;
    undefined when an index is outside the array. *)
Fixpoint chainRule {Real : Type} {RO : RealOps Real} (adj : Real)
         (entries : list (Real * N)) (a : list Real) : option (list Real) :=
  match entries with
  | [] => Some a
  | entry :: rest =>
      match lookupN a (snd entry) with
      | Some old =>
          chainRule adj rest
            (replaceNth a (N.to_nat (snd entry)) (add old (mul adj (fst entry))))
      | None => None
      end
  end.

(** The writes of [chainRule], in turn: one event [adjoints[index] = old +
    adj * jacobi] per entry. *)
Fixpoint chainRuleEvents {Real : Type} {RO : RealOps Real} (adj : Real)
         (entries : list (Real * N)) (a : list Real) : list (Event Real) :=
  match entries with
  | [] => []
  | entry :: rest =>
      match lookupN a (snd entry) with
      | Some old =>
          AdjointWrite (snd entry) (add old (mul adj (fst entry)))
          :: chainRuleEvents adj rest
               (replaceNth a (N.to_nat (snd entry)) (add old (mul adj (fst entry))))
      | None => []
      end
  end.

(** The entries of a statement that get a chain-rule update: all of them,
    or none when [OptZeroAdjoint] is on and the lhs adjoint [adj] compares
    equal to zero. *)
Definition updatedEntries {Real : Type} {RO : RealOps Real} (opts : Options)
           (adj : Real) (entries : list (Real * N)) : list (Real * N) :=
  if ENABLE_CHECK (OptZeroAdjoint opts) (nonzero adj) then entries else [].

(** The operations that record or query: every operation but those that
    allocate, assign, clear or propagate adjoints and those that
    reset. *)
Definition ChunkTape_recordingOp {Real : Type} (op : ChunkTape_Op Real) : bool :=
  match op with
  | LAllocateAdjoints | LSetGradient _ _ | LGradientAssign _ _ | LClearAdjoints
  | LClearAdjointsRange _ _ | LReset _ | LResetAll | LEvaluate _ _ | LEvaluateAll =>
      false
  | _ => true
  end.

Definition ChunkIndexReuseTape_recordingOp {Real : Type}
           (op : ChunkIndexReuseTape_Op Real) : bool :=
  match op with
  | RSetAdjointsSize _ | RAllocateAdjoints | RSetGradient _ _ | RGradientAssign _ _
  | RClearAdjoints | RClearAdjointsRange _ _ | RReset _ | RResetAll | REvaluate _ _
  | REvaluateAll => false
  | _ => true
  end.

(** ** A recording of one statement and its reverse pass *)

(** On a new tape: [x] registered, [y = f(x)] stored with the partial
    derivative [jacobi], the seed put on [y], [evaluate()], and the
    gradient of [x] read. *)
Definition ChunkTape_oneStatement {Real : Type} {RO : RealOps Real} (opts : Options)
           (value jacobi xValue seed : Real) : M (ChunkTape.t (Real:=Real)) Real :=
  ChunkTape.setActive ;;
  x <- ChunkTape.registerInput ;;
  y <- ChunkTape.store opts zero 0 (mkRhs value [JacobiLeaf jacobi xValue x] 1) ;;
  ChunkTape.setGradient (snd y) seed ;;
  ChunkTape.evaluate_all opts ;;
  ChunkTape.getGradient x.

Definition ChunkIndexReuseTape_oneStatement {Real : Type} {RO : RealOps Real}
           (opts : Options) (value jacobi xValue seed : Real)
  : M (ChunkIndexReuseTape.t (Real:=Real)) Real :=
  ChunkIndexReuseTape.setActive ;;
  x <- ChunkIndexReuseTape.registerInput 0 ;;
  y <- ChunkIndexReuseTape.store opts zero 0
         (mkRhs value [JacobiLeaf jacobi xValue x] 1) ;;
  ChunkIndexReuseTape.setGradient (snd y) seed ;;
  ChunkIndexReuseTape.evaluate_all opts ;;
  ChunkIndexReuseTape.getGradient x.

(** On a new tape: [x] registered, [y = f(x)] and [z = g(y)] stored with
    the partial derivatives [jacobiF] and [jacobiG], the seed put on [z],
    [evaluate()], and the gradient of [x] read. *)
Definition ChunkTape_twoStatements {Real : Type} {RO : RealOps Real} (opts : Options)
           (jacobiF jacobiG seed : Real) : M (ChunkTape.t (Real:=Real)) Real :=
  ChunkTape.setActive ;;
  x <- ChunkTape.registerInput ;;
  y <- ChunkTape.store opts zero 0 (mkRhs zero [JacobiLeaf jacobiF zero x] 1) ;;
  z <- ChunkTape.store opts zero 0 (mkRhs zero [JacobiLeaf jacobiG zero (snd y)] 1) ;;
  ChunkTape.setGradient (snd z) seed ;;
  ChunkTape.evaluate_all opts ;;
  ChunkTape.getGradient x.

Definition ChunkIndexReuseTape_twoStatements {Real : Type} {RO : RealOps Real}
           (opts : Options) (jacobiF jacobiG seed : Real)
  : M (ChunkIndexReuseTape.t (Real:=Real)) Real :=
  ChunkIndexReuseTape.setActive ;;
  x <- ChunkIndexReuseTape.registerInput 0 ;;
  y <- ChunkIndexReuseTape.store opts zero 0 (mkRhs zero [JacobiLeaf jacobiF zero x] 1) ;;
  z <- ChunkIndexReuseTape.store opts zero 0
         (mkRhs zero [JacobiLeaf jacobiG zero (snd y)] 1) ;;
  ChunkIndexReuseTape.setGradient (snd z) seed ;;
  ChunkIndexReuseTape.evaluate_all opts ;;
  ChunkIndexReuseTape.getGradient x.

(** ** The implicit lhs index of the linear-index tape *)

(** The statement log holds one statement for each index handed out. *)
Definition ChunkTape_countsStatements {Real : Type} (tp : ChunkTape.t (Real:=Real))
  : Prop :=
  N.of_nat (length (ChunkVector.records (ChunkTape.statements tp)))
  = ChunkTape.expressionCount tp.

(** Every operation but [reset(pos)] to a position given by the
    caller. *)
Definition ChunkTape_keepsPositions {Real : Type} (op : ChunkTape_Op Real) : bool :=
  match op with
  | LReset _ => false
  | _ => true
  end.

(** ** An expression of many active variables *)

(** The expression [x + x + ... + x] of [n] operands, each a reference to
    the variable of index [x]: [n] leaves of jacobian [1.0]. *)
Definition sumOfCopies (n : nat) (x : N) : Rhs XReal :=
  mkRhs (Finite (Z.of_nat n)) (repeat (UnaryLeaf (Finite 1) x) n) (N.of_nat n).

(** [x] registered and [y = x + ... + x] stored, with [n] operands; the
    result is [(x.index, y.index)]. *)
Definition ChunkTape_sumOfCopies (opts : Options) (n : nat)
  : M (ChunkTape.t (Real:=XReal)) (N * N) :=
  ChunkTape.setActive ;;
  x <- ChunkTape.registerInput ;;
  y <- ChunkTape.store opts (Finite 0) 0 (sumOfCopies n x) ;;
  ret (x, snd y).

Definition ChunkIndexReuseTape_sumOfCopies (opts : Options) (n : nat)
  : M (ChunkIndexReuseTape.t (Real:=XReal)) (N * N) :=
  ChunkIndexReuseTape.setActive ;;
  x <- ChunkIndexReuseTape.registerInput 0 ;;
  y <- ChunkIndexReuseTape.store opts (Finite 0) 0 (sumOfCopies n x) ;;
  ret (x, snd y).

(** ** External functions in the reverse pass of a recorded session *)

(** The events of a trace that are calls of an external function. *)
Definition calls {Real : Type} (tr : list (Event Real)) : list ExternalFunction.t :=
  flat_map (fun e => match e with ExtFuncEvaluate f => [f] | _ => [] end) tr.

Definition sumN (l : list N) : N := fold_right N.add 0 l.

(** The operations of a recording session on the linear-index tape: the
    stores, [registerInput], [pushExternalFunctionHandle], the seeding
    and reading of gradients, and the activity switches. *)
Definition ChunkTape_sessionOp {Real : Type} (op : ChunkTape_Op Real) : bool :=
  match op with
  | LStore _ _ _ | LStoreCopy _ _ _ | LStorePassive _ _ _
  | LInitGradientData _ _ | LDestroyGradientData _ _
  | LSetGradient _ _ | LGetGradient _
  | LPushExternalFunctionHandle _ | LRegisterInput | LRegisterOutput
  | LSetActive | LSetPassive => true
  | _ => false
  end.

(** The external functions that a sequence of operations registers, in
    the order of their registration. *)
Definition ChunkTape_pushedFunctions {Real : Type} (ops : list (ChunkTape_Op Real))
  : list ExternalFunction.t :=
  flat_map (fun op => match op with
                      | LPushExternalFunctionHandle f => [f]
                      | _ => []
                      end) ops.

(** The statement and jacobian logs of the tape are within their first
    chunk. *)
Definition ChunkTape_firstChunkOnly {Real : Type} (tp : ChunkTape.t (Real:=Real))
  : Prop :=
  ChunkVector.prior (ChunkTape.statements tp) = []
  /\ ChunkVector.prior (ChunkTape.data tp) = [].

(** Every index of the jacobian log is one that the tape has issued. *)
Definition ChunkTape_indicesIssued {Real : Type} (tp : ChunkTape.t (Real:=Real))
  : Prop :=
  Forall (fun entry => snd entry <= ChunkTape.expressionCount tp)
         (ChunkVector.records (ChunkTape.data tp)).

(** A statement position taken in the first chunk of the logs [sd] and
    [dc]: its statement offset is the expression counter of then, and the
    jacobian entries below its data offset cover the argument counts of
    the statements below it. *)
Definition ChunkTape_replayable {Real : Type} (sd : list N) (dc : list (Real * N))
           (p : ChunkTape.StatementPosition) : Prop :=
  ChunkVector.chunk p = 0
  /\ ChunkVector.chunk (ChunkVector.inner p) = 0
  /\ ChunkVector.inner (ChunkVector.inner p) = ChunkVector.data p
  /\ ChunkVector.data p <= N.of_nat (length sd)
  /\ sumN (firstn (N.to_nat (ChunkVector.data p)) sd)
     <= ChunkVector.data (ChunkVector.inner p)
  /\ ChunkVector.data (ChunkVector.inner p) <= N.of_nat (length dc).

(** What a recording session keeps: the current chunks are open, the
    external function log is well formed, the statement log has one
    statement per index issued, and, as long as the statement and
    jacobian logs are within their first chunk, the argument counts are
    covered by the jacobian entries and the boundary of every external
    function is a position taken in these chunks. *)
Definition ChunkTape_layout {Real : Type} (tp : ChunkTape.t (Real:=Real)) : Prop :=
  ChunkVector.isSealed (ChunkVector.current (ChunkTape.statements tp)) = false
  /\ ChunkVector.isSealed (ChunkVector.current (ChunkTape.data tp)) = false
  /\ wellFormed (ChunkTape.externalFunctions tp)
  /\ 1 <= ChunkVector.chunkSize (ChunkTape.externalFunctions tp)
  /\ ChunkTape_countsStatements tp
  /\ (ChunkTape_firstChunkOnly tp ->
      sumN (ChunkVector.records (ChunkTape.statements tp))
      <= N.of_nat (length (ChunkVector.records (ChunkTape.data tp)))
      /\ Forall (fun r => ChunkTape_replayable
                            (ChunkVector.records (ChunkTape.statements tp))
                            (ChunkVector.records (ChunkTape.data tp)) (snd r))
                (ChunkVector.records (ChunkTape.externalFunctions tp))).

(** A tape whose adjoint vector covers what the reverse pass of its
    first chunks reads and writes. *)
Definition ChunkTape_readyToReplay {Real : Type} (tp : ChunkTape.t (Real:=Real))
  : Prop :=
  ChunkTape_firstChunkOnly tp
  /\ ChunkTape.expressionCount tp < ChunkTape.adjointsSize tp
  /\ Forall (fun entry => snd entry < ChunkTape.adjointsSize tp)
            (ChunkVector.records (ChunkTape.data tp)).

(** The same notions for the reuse-index tape, whose statements carry
    their lhs index. *)
Definition ChunkIndexReuseTape_sessionOp {Real : Type}
           (op : ChunkIndexReuseTape_Op Real) : bool :=
  match op with
  | RStore _ _ _ | RStoreCopy _ _ _ | RStorePassive _ _ _
  | RInitGradientData _ _ | RDestroyGradientData _ _
  | RSetGradient _ _ | RGetGradient _ | RGetAdjointsSize
  | RPushExternalFunctionHandle _ | RRegisterInput _ | RRegisterOutput
  | RSetActive | RSetPassive => true
  | _ => false
  end.

Definition ChunkIndexReuseTape_pushedFunctions {Real : Type}
           (ops : list (ChunkIndexReuseTape_Op Real)) : list ExternalFunction.t :=
  flat_map (fun op => match op with
                      | RPushExternalFunctionHandle f => [f]
                      | _ => []
                      end) ops.

Definition ChunkIndexReuseTape_firstChunkOnly {Real : Type}
           (tp : ChunkIndexReuseTape.t (Real:=Real)) : Prop :=
  ChunkVector.prior (ChunkIndexReuseTape.statements tp) = []
  /\ ChunkVector.prior (ChunkIndexReuseTape.data tp) = [].

Definition ChunkIndexReuseTape_indicesIssued {Real : Type}
           (tp : ChunkIndexReuseTape.t (Real:=Real)) : Prop :=
  Forall (fun entry => snd entry <= IndexHandler.getMaximumGlobalIndex
                                      (ChunkIndexReuseTape.indexHandler tp))
         (ChunkVector.records (ChunkIndexReuseTape.data tp))
  /\ Forall (fun statement => snd statement
                              <= IndexHandler.getMaximumGlobalIndex
                                   (ChunkIndexReuseTape.indexHandler tp))
            (ChunkVector.records (ChunkIndexReuseTape.statements tp)).

Definition ChunkIndexReuseTape_replayable {Real : Type} (sd : list (N * N))
           (dc : list (Real * N)) (p : ChunkIndexReuseTape.StatementPosition) : Prop :=
  ChunkVector.chunk p = 0
  /\ ChunkVector.chunk (ChunkVector.inner p) = 0
  /\ ChunkVector.data p <= N.of_nat (length sd)
  /\ sumN (map fst (firstn (N.to_nat (ChunkVector.data p)) sd))
     <= ChunkVector.data (ChunkVector.inner p)
  /\ ChunkVector.data (ChunkVector.inner p) <= N.of_nat (length dc).

Definition ChunkIndexReuseTape_layout {Real : Type}
           (tp : ChunkIndexReuseTape.t (Real:=Real)) : Prop :=
  ChunkVector.isSealed (ChunkVector.current (ChunkIndexReuseTape.statements tp)) = false
  /\ ChunkVector.isSealed (ChunkVector.current (ChunkIndexReuseTape.data tp)) = false
  /\ wellFormed (ChunkIndexReuseTape.externalFunctions tp)
  /\ 1 <= ChunkVector.chunkSize (ChunkIndexReuseTape.externalFunctions tp)
  /\ (ChunkIndexReuseTape_firstChunkOnly tp ->
      sumN (map fst (ChunkVector.records (ChunkIndexReuseTape.statements tp)))
      <= N.of_nat (length (ChunkVector.records (ChunkIndexReuseTape.data tp)))
      /\ Forall (fun r => ChunkIndexReuseTape_replayable
                            (ChunkVector.records (ChunkIndexReuseTape.statements tp))
                            (ChunkVector.records (ChunkIndexReuseTape.data tp)) (snd r))
                (ChunkVector.records (ChunkIndexReuseTape.externalFunctions tp))).

Definition ChunkIndexReuseTape_readyToReplay {Real : Type}
           (tp : ChunkIndexReuseTape.t (Real:=Real)) : Prop :=
  ChunkIndexReuseTape_firstChunkOnly tp
  /\ Forall (fun entry => snd entry < ChunkIndexReuseTape.adjointsSize tp)
            (ChunkVector.records (ChunkIndexReuseTape.data tp))
  /\ Forall (fun statement => snd statement < ChunkIndexReuseTape.adjointsSize tp)
            (ChunkVector.records (ChunkIndexReuseTape.statements tp)).

(** The recording of [ChunkTape_exampleRecording] and of
    [ChunkIndexReuseTape_exampleRecording] as sessions: [x] is index [1],
    and the three statements have the lhs indices [2], [3] and [4]. *)
Definition ChunkTape_exampleSession : list (ChunkTape_Op XReal) :=
  [LSetActive; LRegisterInput;
   LStore (Finite 0) 0 (mkRhs (Finite 10) [JacobiLeaf (Finite 2) (Finite 5) 1] 1);
   LPushExternalFunctionHandle extF1;
   LStore (Finite 0) 0 (mkRhs (Finite 30) [JacobiLeaf (Finite 3) (Finite 10) 2] 1);
   LPushExternalFunctionHandle extF2;
   LStore (Finite 0) 0 (mkRhs (Finite 120) [JacobiLeaf (Finite 4) (Finite 30) 3] 1);
   LSetGradient 4 (Finite 1)].

Definition ChunkIndexReuseTape_exampleSession : list (ChunkIndexReuseTape_Op XReal) :=
  [RSetActive; RRegisterInput 0;
   RStore (Finite 0) 0 (mkRhs (Finite 10) [JacobiLeaf (Finite 2) (Finite 5) 1] 1);
   RPushExternalFunctionHandle extF1;
   RStore (Finite 0) 0 (mkRhs (Finite 30) [JacobiLeaf (Finite 3) (Finite 10) 2] 1);
   RPushExternalFunctionHandle extF2;
   RStore (Finite 0) 0 (mkRhs (Finite 120) [JacobiLeaf (Finite 4) (Finite 30) 3] 1);
   RSetGradient 4 (Finite 1)].

(** * Properties *)

(** ** Arrays and [size_t] *)

Lemma lookupN_Some {A : Type} (l : list A) (i : N) (a : A) :
  lookupN l i = Some a <-> nth_error l (N.to_nat i) = Some a.
Proof.
  unfold lookupN. destruct (N.ltb_spec i (N.of_nat (length l))) as [H|H]; [tauto|].
  split; [discriminate|]. intros E.
  assert (N.to_nat i < length l)%nat by (apply nth_error_Some; congruence). lia.
Qed.

Lemma lookupN_lt {A : Type} (l : list A) (i : N) (a : A) :
  lookupN l i = Some a -> i < N.of_nat (length l).
Proof.
  unfold lookupN. destruct (N.ltb_spec i (N.of_nat (length l))); [auto|discriminate].
Qed.

Lemma lookupN_None {A : Type} (l : list A) (i : N) :
  N.of_nat (length l) <= i -> lookupN l i = None.
Proof.
  unfold lookupN. intros H. destruct (N.ltb_spec i (N.of_nat (length l))); [lia|reflexivity].
Qed.

Lemma lookupN_In {A : Type} (l : list A) (i : N) (a : A) :
  lookupN l i = Some a -> In a l.
Proof. intros H. apply lookupN_Some in H. eapply nth_error_In; eauto. Qed.

Lemma lookupN_app_l {A : Type} (l l' : list A) (i : N) :
  i < N.of_nat (length l) -> lookupN (l ++ l') i = lookupN l i.
Proof.
  intros H. unfold lookupN. rewrite length_app.
  destruct (N.ltb_spec i (N.of_nat (length l))); [|lia].
  destruct (N.ltb_spec i (N.of_nat (length l + length l'))); [|lia].
  apply nth_error_app1. lia.
Qed.

Lemma lookupN_last {A : Type} (l : list A) (a : A) :
  lookupN (l ++ [a]) (N.of_nat (length l)) = Some a.
Proof.
  apply lookupN_Some. rewrite Nnat.Nat2N.id, nth_error_app2 by lia.
  rewrite Nat.sub_diag. reflexivity.
Qed.

Lemma replaceNth_length {A : Type} (l : list A) (n : nat) (a : A) :
  length (replaceNth l n a) = length l.
Proof.
  revert n. induction l as [|h t IH]; intros [|n]; simpl; auto.
Qed.

Lemma replaceNth_same {A : Type} (l : list A) (n : nat) (a : A) :
  (n < length l)%nat -> nth_error (replaceNth l n a) n = Some a.
Proof.
  revert n. induction l as [|h t IH]; intros [|n]; simpl; intros H; try lia; auto.
  apply IH. lia.
Qed.

Lemma replaceNth_other {A : Type} (l : list A) (n m : nat) (a : A) :
  n <> m -> nth_error (replaceNth l n a) m = nth_error l m.
Proof.
  revert n m. induction l as [|h t IH]; intros [|n] [|m]; simpl; intros H; auto;
    try congruence.
Qed.

Lemma updateN_Some {A : Type} (l : list A) (i : N) (a : A) :
  i < N.of_nat (length l) -> updateN l i a = Some (replaceNth l (N.to_nat i) a).
Proof.
  intros H. unfold updateN. destruct (N.ltb_spec i (N.of_nat (length l))); [reflexivity|lia].
Qed.

Lemma updateN_inv {A : Type} (l l' : list A) (i : N) (a : A) :
  updateN l i a = Some l' ->
  i < N.of_nat (length l) /\ l' = replaceNth l (N.to_nat i) a.
Proof.
  unfold updateN. destruct (N.ltb_spec i (N.of_nat (length l))); [|discriminate].
  intros E. inversion E. auto.
Qed.

Lemma updateN_length {A : Type} (l l' : list A) (i : N) (a : A) :
  updateN l i a = Some l' -> length l' = length l.
Proof.
  intros H. apply updateN_inv in H. destruct H as [_ ->]. apply replaceNth_length.
Qed.

Lemma updateN_lookup_same {A : Type} (l l' : list A) (i : N) (a : A) :
  updateN l i a = Some l' -> lookupN l' i = Some a.
Proof.
  intros H. apply updateN_inv in H. destruct H as [Hi ->].
  apply lookupN_Some, replaceNth_same. lia.
Qed.

Lemma updateN_lookup_other {A : Type} (l l' : list A) (i j : N) (a : A) :
  updateN l i a = Some l' -> i <> j -> lookupN l' j = lookupN l j.
Proof.
  intros H Hij. apply updateN_inv in H. destruct H as [Hi ->].
  unfold lookupN. rewrite replaceNth_length.
  destruct (N.ltb_spec j (N.of_nat (length l))); [|reflexivity].
  apply replaceNth_other. lia.
Qed.

Lemma size_dec_pos (x : N) : 0 < x -> size_dec x = x - 1.
Proof.
  intros H. unfold size_dec. destruct (N.eqb_spec x 0); [lia|reflexivity].
Qed.

Lemma size_sub_le (x y : N) : y <= x -> size_sub x y = x - y.
Proof.
  intros H. unfold size_sub. destruct (N.leb_spec y x); [reflexivity|lia].
Qed.

Lemma rangeLt_In (lo hi i : N) : In i (rangeLt lo hi) <-> lo <= i < hi.
Proof.
  unfold rangeLt. rewrite in_map_iff. split.
  - intros [k [<- Hk]]. apply in_seq in Hk. lia.
  - intros H. exists (N.to_nat (i - lo)). split; [lia|]. apply in_seq. lia.
Qed.

Lemma rangeN_In (lo hi i : N) : In i (rangeN lo hi) <-> lo <= i <= hi.
Proof. unfold rangeN. rewrite rangeLt_In. lia. Qed.

(** ** The monad *)

Lemma bind_Some {S A B : Type} (m : M S A) (f : A -> M S B) (s s' : S) (b : B) :
  bind m f s = Some (b, s') <->
  exists a s1, m s = Some (a, s1) /\ f a s1 = Some (b, s').
Proof.
  unfold bind. destruct (m s) as [[a s1]|].
  - split; [eauto|]. intros [a' [s1' [E H]]]. inversion E; subst. assumption.
  - split; [discriminate|]. intros [a' [s1' [E _]]]. discriminate.
Qed.

Lemma getsOpt_inv {S A : Type} (f : S -> option A) (s s' : S) (a : A) :
  getsOpt f s = Some (a, s') -> f s = Some a /\ s' = s.
Proof.
  unfold getsOpt. destruct (f s); [|discriminate]. intros E. inversion E. auto.
Qed.

Lemma gets_inv {S A : Type} (f : S -> A) (s s' : S) (a : A) :
  gets f s = Some (a, s') -> a = f s /\ s' = s.
Proof. unfold gets. intros E. inversion E. auto. Qed.

Lemma ret_inv {S A : Type} (x a : A) (s s' : S) :
  ret x s = Some (a, s') -> a = x /\ s' = s.
Proof. unfold ret. intros E. inversion E. auto. Qed.

Lemma modify_inv {S : Type} (f : S -> S) (s s' : S) (u : unit) :
  modify f s = Some (u, s') -> s' = f s.
Proof. unfold modify. intros E. inversion E. auto. Qed.

Lemma modifyOpt_inv {S : Type} (f : S -> option S) (s s' : S) (u : unit) :
  modifyOpt f s = Some (u, s') -> f s = Some s'.
Proof.
  unfold modifyOpt. destruct (f s); [|discriminate]. intros E. inversion E. auto.
Qed.

(** Splitting a successful [bind]. *)
Tactic Notation "bind_inv" hyp(H) "as" ident(a) ident(s) ident(E) :=
  apply bind_Some in H; destruct H as (a & s & E & H).

Lemma forM_app {S A : Type} (l l' : list A) (f : A -> M S unit) (s : S) :
  forM (l ++ l') f s = (forM l f ;; forM l' f) s.
Proof.
  revert s. induction l as [|x l IH]; intros s; simpl.
  - reflexivity.
  - unfold bind. destruct (f x s) as [[[] s1]|]; [|reflexivity].
    rewrite IH. reflexivity.
Qed.

(** ** Chunk vectors *)

Lemma records_split {A I : Type} (cv : ChunkVector.t A I) :
  ChunkVector.records cv
  = concat (map ChunkVector.cells (ChunkVector.prior cv))
    ++ ChunkVector.cells (ChunkVector.current cv).
Proof.
  unfold ChunkVector.records, ChunkVector.allChunks.
  rewrite map_app, concat_app. simpl. rewrite app_nil_r. reflexivity.
Qed.

Lemma setDataAndMove_room {A I : Type} (a : A) (cv : ChunkVector.t A I) :
  hasRoom cv ->
  exists cv', ChunkVector.setDataAndMove a cv = Some cv'
    /\ ChunkVector.records cv' = ChunkVector.records cv ++ [a]
    /\ ChunkVector.prior cv' = ChunkVector.prior cv
    /\ ChunkVector.chunkSize cv' = ChunkVector.chunkSize cv
    /\ ChunkVector.cells (ChunkVector.current cv')
       = ChunkVector.cells (ChunkVector.current cv) ++ [a]
    /\ ChunkVector.capacity (ChunkVector.current cv')
       = ChunkVector.capacity (ChunkVector.current cv)
    /\ ChunkVector.isSealed (ChunkVector.current cv') = false.
Proof.
  unfold hasRoom, ChunkVector.setDataAndMove. intros H.
  destruct (N.ltb_spec (ChunkVector.used (ChunkVector.current cv))
                       (ChunkVector.capacity (ChunkVector.current cv))); [|lia].
  eexists. split; [reflexivity|]. rewrite !records_split. simpl.
  rewrite app_assoc. repeat split.
Qed.

Lemma setDataAndMove_inv {A I : Type} (a : A) (cv cv' : ChunkVector.t A I) :
  ChunkVector.setDataAndMove a cv = Some cv' ->
  hasRoom cv
  /\ ChunkVector.records cv' = ChunkVector.records cv ++ [a]
  /\ ChunkVector.prior cv' = ChunkVector.prior cv
  /\ ChunkVector.cells (ChunkVector.current cv')
     = ChunkVector.cells (ChunkVector.current cv) ++ [a].
Proof.
  intros H. assert (R : hasRoom cv).
  { unfold hasRoom. unfold ChunkVector.setDataAndMove in H.
    destruct (N.ltb_spec (ChunkVector.used (ChunkVector.current cv))
                         (ChunkVector.capacity (ChunkVector.current cv))); [auto|discriminate]. }
  destruct (setDataAndMove_room a cv R) as [cv2 [E [H1 [H2 [_ [H3 _]]]]]].
  rewrite E in H. inversion H; subst. auto.
Qed.

Lemma reserveItems_records {A I : Type} (k : N) (ip : I) (cv : ChunkVector.t A I) :
  ChunkVector.records (ChunkVector.reserveItems k ip cv) = ChunkVector.records cv.
Proof.
  unfold ChunkVector.reserveItems.
  destruct (_ <=? _); [reflexivity|].
  rewrite !records_split. simpl. rewrite map_app, concat_app. simpl.
  rewrite !app_nil_r. reflexivity.
Qed.

(** After [reserveItems(k)] there is room for [k] records, when a chunk
    can hold [k] records at all. *)
Lemma reserveItems_room {A I : Type} (k : N) (ip : I) (cv : ChunkVector.t A I) :
  k <= ChunkVector.chunkSize cv ->
  let cv' := ChunkVector.reserveItems k ip cv in
  ChunkVector.used (ChunkVector.current cv') + k
  <= ChunkVector.capacity (ChunkVector.current cv')
  /\ ChunkVector.chunkSize cv' = ChunkVector.chunkSize cv.
Proof.
  intros H. unfold ChunkVector.reserveItems.
  destruct (N.leb_spec (ChunkVector.used (ChunkVector.current cv) + k)
                       (ChunkVector.capacity (ChunkVector.current cv))); simpl.
  - auto.
  - unfold ChunkVector.used. simpl. split; [lia|reflexivity].
Qed.

(** ** Recording jacobians *)

Section PushJacobi.
Context {Real : Type} {RO : RealOps Real}.
Variable opts : Options.

Lemma jacobiSkipped_false (jacobi : Real) (index : N) :
  jacobiSkipped opts jacobi index = false ->
  (0 =? index) = false
  /\ ENABLE_CHECK (OptIgnoreInvalidJacobies opts) (isfinite jacobi) = true
  /\ ENABLE_CHECK (OptJacobiIsZero opts) (nonzero jacobi) = true.
Proof.
  unfold jacobiSkipped, ENABLE_CHECK. rewrite (N.eqb_sym 0 index).
  destruct (index =? 0), (OptIgnoreInvalidJacobies opts), (isfinite jacobi),
    (OptJacobiIsZero opts), (nonzero jacobi); simpl; intros H; try discriminate; auto.
Qed.

Lemma jacobiSkipped_true (jacobi : Real) (index : N) :
  jacobiSkipped opts jacobi index = true ->
  (0 =? index) = true
  \/ ENABLE_CHECK (OptIgnoreInvalidJacobies opts) (isfinite jacobi) = false
  \/ ENABLE_CHECK (OptJacobiIsZero opts) (nonzero jacobi) = false.
Proof.
  unfold jacobiSkipped, ENABLE_CHECK. rewrite (N.eqb_sym 0 index).
  destruct (index =? 0), (OptIgnoreInvalidJacobies opts), (isfinite jacobi),
    (OptJacobiIsZero opts), (nonzero jacobi); simpl; intros H; try discriminate; auto.
Qed.

Lemma ChunkTape_push_entry (e : Real * N) (tp : ChunkTape.t) :
  hasRoom (ChunkTape.data tp) ->
  exists tp',
    modifyOpt (fun tp => option_map (fun d => ChunkTape.set_data d tp)
                 (ChunkVector.setDataAndMove e (ChunkTape.data tp))) tp
    = Some (tt, tp')
    /\ ChunkTape_dataAppended tp tp' e.
Proof.
  intros H. destruct (setDataAndMove_room e _ H) as [d [E [R _]]].
  unfold modifyOpt. rewrite E. simpl. eexists. split; [reflexivity|].
  split; [exact R|reflexivity].
Qed.

Lemma ChunkTape_pushJacobi_skip (jacobi value : Real) (index : N) (tp : ChunkTape.t) :
  jacobiSkipped opts jacobi index = true ->
  ChunkTape.pushJacobi opts jacobi value index tp = Some (tt, tp).
Proof.
  intros H. unfold ChunkTape.pushJacobi.
  destruct (jacobiSkipped_true _ _ H) as [E|[E|E]].
  - rewrite E. reflexivity.
  - rewrite E. destruct (negb (0 =? index)); reflexivity.
  - rewrite E. destruct (negb (0 =? index)); [|reflexivity].
    destruct (ENABLE_CHECK _ (isfinite jacobi)); reflexivity.
Qed.

Lemma ChunkTape_pushJacobi_append (jacobi value : Real) (index : N) (tp : ChunkTape.t) :
  jacobiSkipped opts jacobi index = false ->
  hasRoom (ChunkTape.data tp) ->
  exists tp', ChunkTape.pushJacobi opts jacobi value index tp = Some (tt, tp')
              /\ ChunkTape_dataAppended tp tp' (jacobi, index).
Proof.
  intros H R. destruct (jacobiSkipped_false _ _ H) as [E1 [E2 E3]].
  unfold ChunkTape.pushJacobi. rewrite E1, E2, E3. simpl.
  apply ChunkTape_push_entry. exact R.
Qed.

Lemma ChunkTape_pushJacobi_unary_spec (value : Real) (index : N) (tp : ChunkTape.t) :
  (index = 0 -> ChunkTape.pushJacobi_unary value index tp = Some (tt, tp))
  /\ (index <> 0 -> hasRoom (ChunkTape.data tp) ->
      exists tp', ChunkTape.pushJacobi_unary value index tp = Some (tt, tp')
                  /\ ChunkTape_dataAppended tp tp' (one, index)).
Proof.
  unfold ChunkTape.pushJacobi_unary. split.
  - intros ->. reflexivity.
  - intros H R. destruct (N.eqb_spec 0 index); [congruence|]. simpl.
    apply ChunkTape_push_entry. exact R.
Qed.

Lemma ChunkIndexReuseTape_push_entry (e : Real * N) (tp : ChunkIndexReuseTape.t) :
  hasRoom (ChunkIndexReuseTape.data tp) ->
  exists tp',
    modifyOpt (fun tp => option_map (fun d => ChunkIndexReuseTape.set_data d tp)
                 (ChunkVector.setDataAndMove e (ChunkIndexReuseTape.data tp))) tp
    = Some (tt, tp')
    /\ ChunkIndexReuseTape_dataAppended tp tp' e.
Proof.
  intros H. destruct (setDataAndMove_room e _ H) as [d [E [R _]]].
  unfold modifyOpt. rewrite E. simpl. eexists. split; [reflexivity|].
  split; [exact R|reflexivity].
Qed.

Lemma ChunkIndexReuseTape_pushJacobi_skip (jacobi value : Real) (index : N)
      (tp : ChunkIndexReuseTape.t) :
  jacobiSkipped opts jacobi index = true ->
  ChunkIndexReuseTape.pushJacobi opts jacobi value index tp = Some (tt, tp).
Proof.
  intros H. unfold ChunkIndexReuseTape.pushJacobi.
  destruct (jacobiSkipped_true _ _ H) as [E|[E|E]].
  - rewrite E. reflexivity.
  - rewrite E. destruct (negb (0 =? index)); reflexivity.
  - rewrite E. destruct (negb (0 =? index)); [|reflexivity].
    destruct (ENABLE_CHECK _ (isfinite jacobi)); reflexivity.
Qed.

Lemma ChunkIndexReuseTape_pushJacobi_append (jacobi value : Real) (index : N)
      (tp : ChunkIndexReuseTape.t) :
  jacobiSkipped opts jacobi index = false ->
  hasRoom (ChunkIndexReuseTape.data tp) ->
  exists tp', ChunkIndexReuseTape.pushJacobi opts jacobi value index tp = Some (tt, tp')
              /\ ChunkIndexReuseTape_dataAppended tp tp' (jacobi, index).
Proof.
  intros H R. destruct (jacobiSkipped_false _ _ H) as [E1 [E2 E3]].
  unfold ChunkIndexReuseTape.pushJacobi. rewrite E1, E2, E3. simpl.
  apply ChunkIndexReuseTape_push_entry. exact R.
Qed.

Lemma ChunkIndexReuseTape_pushJacobi_unary_spec (value : Real) (index : N)
      (tp : ChunkIndexReuseTape.t) :
  (index = 0 -> ChunkIndexReuseTape.pushJacobi_unary value index tp = Some (tt, tp))
  /\ (index <> 0 -> hasRoom (ChunkIndexReuseTape.data tp) ->
      exists tp', ChunkIndexReuseTape.pushJacobi_unary value index tp = Some (tt, tp')
                  /\ ChunkIndexReuseTape_dataAppended tp tp' (one, index)).
Proof.
  unfold ChunkIndexReuseTape.pushJacobi_unary. split.
  - intros ->. reflexivity.
  - intros H R. destruct (N.eqb_spec 0 index); [congruence|]. simpl.
    apply ChunkIndexReuseTape_push_entry. exact R.
Qed.

End PushJacobi.

(** C6. [pushJacobi(jacobian, rhsIndex)] leaves the tape as it is when
    [rhsIndex] is [0], when [OptIgnoreInvalidJacobies] is on and the
    jacobian is not finite, and when [OptJacobiIsZero] is on and the
    jacobian is [0] ([jacobiSkipped]); in every other case it appends
    [(jacobian, rhsIndex)] to the jacobian log, given the room that the
    caller reserved. The unary variant appends [(1.0, rhsIndex)] for every
    nonzero index, whatever the value, and nothing for index [0]. This
    holds on the linear-index tape and on the reuse-index tape. *)
Theorem pushJacobi_filters_then_appends :
  forall (Real : Type) (RO : RealOps Real) (opts : Options)
         (jacobi value : Real) (index : N),
    (forall tp : ChunkTape.t,
        (jacobiSkipped opts jacobi index = true ->
         ChunkTape.pushJacobi opts jacobi value index tp = Some (tt, tp))
        /\ (jacobiSkipped opts jacobi index = false ->
            hasRoom (ChunkTape.data tp) ->
            exists tp', ChunkTape.pushJacobi opts jacobi value index tp = Some (tt, tp')
                        /\ ChunkTape_dataAppended tp tp' (jacobi, index))
        /\ (index = 0 -> ChunkTape.pushJacobi_unary value index tp = Some (tt, tp))
        /\ (index <> 0 -> hasRoom (ChunkTape.data tp) ->
            exists tp', ChunkTape.pushJacobi_unary value index tp = Some (tt, tp')
                        /\ ChunkTape_dataAppended tp tp' (one, index)))
    /\ (forall tp : ChunkIndexReuseTape.t,
        (jacobiSkipped opts jacobi index = true ->
         ChunkIndexReuseTape.pushJacobi opts jacobi value index tp = Some (tt, tp))
        /\ (jacobiSkipped opts jacobi index = false ->
            hasRoom (ChunkIndexReuseTape.data tp) ->
            exists tp', ChunkIndexReuseTape.pushJacobi opts jacobi value index tp
                        = Some (tt, tp')
                        /\ ChunkIndexReuseTape_dataAppended tp tp' (jacobi, index))
        /\ (index = 0 ->
            ChunkIndexReuseTape.pushJacobi_unary value index tp = Some (tt, tp))
        /\ (index <> 0 -> hasRoom (ChunkIndexReuseTape.data tp) ->
            exists tp', ChunkIndexReuseTape.pushJacobi_unary value index tp
                        = Some (tt, tp')
                        /\ ChunkIndexReuseTape_dataAppended tp tp' (one, index))).
Proof.
  intros Real RO opts jacobi value index. split; intros tp.
  - split; [apply ChunkTape_pushJacobi_skip|].
    split; [apply ChunkTape_pushJacobi_append|].
    apply ChunkTape_pushJacobi_unary_spec.
  - split; [apply ChunkIndexReuseTape_pushJacobi_skip|].
    split; [apply ChunkIndexReuseTape_pushJacobi_append|].
    apply ChunkIndexReuseTape_pushJacobi_unary_spec.
Qed.

Lemma pushJacobi_filters_then_appends_witness :
  (ChunkTape.pushJacobi allChecks NotFinite (Finite 1) 1 (ChunkTape.create allChecks)
   = Some (tt, ChunkTape.create allChecks)
   /\ (exists tp',
          ChunkTape.pushJacobi allChecks (Finite 2) (Finite 1) 1 (ChunkTape.create allChecks)
          = Some (tt, tp')
          /\ ChunkTape_dataAppended (ChunkTape.create allChecks) tp' (Finite 2, 1))
   /\ ChunkTape.pushJacobi_unary (Finite 1) 0 (ChunkTape.create allChecks)
      = Some (tt, ChunkTape.create allChecks)
   /\ (exists tp',
          ChunkTape.pushJacobi_unary (Finite 5) 1 (ChunkTape.create allChecks)
          = Some (tt, tp')
          /\ ChunkTape_dataAppended (ChunkTape.create allChecks) tp' (one, 1)))
  /\ (ChunkIndexReuseTape.pushJacobi allChecks (Finite 0) (Finite 1) 1
        (ChunkIndexReuseTape.create allChecks)
      = Some (tt, ChunkIndexReuseTape.create allChecks)
      /\ (exists tp',
             ChunkIndexReuseTape.pushJacobi allChecks (Finite 2) (Finite 1) 1
               (ChunkIndexReuseTape.create allChecks)
             = Some (tt, tp')
             /\ ChunkIndexReuseTape_dataAppended
                  (ChunkIndexReuseTape.create allChecks) tp' (Finite 2, 1))
      /\ ChunkIndexReuseTape.pushJacobi_unary (Finite 1) 0
           (ChunkIndexReuseTape.create allChecks)
         = Some (tt, ChunkIndexReuseTape.create allChecks)
      /\ (exists tp',
             ChunkIndexReuseTape.pushJacobi_unary (Finite 5) 1
               (ChunkIndexReuseTape.create allChecks)
             = Some (tt, tp')
             /\ ChunkIndexReuseTape_dataAppended
                  (ChunkIndexReuseTape.create allChecks) tp' (one, 1))).
Proof.
  pose proof (pushJacobi_filters_then_appends XReal _ allChecks NotFinite (Finite 1) 1)
    as [L1 _].
  pose proof (pushJacobi_filters_then_appends XReal _ allChecks (Finite 0) (Finite 1) 1)
    as [_ R1].
  pose proof (pushJacobi_filters_then_appends XReal _ allChecks (Finite 2) (Finite 1) 1)
    as [L2 R2].
  pose proof (pushJacobi_filters_then_appends XReal _ allChecks (Finite 1) (Finite 1) 0)
    as [L3 R3].
  pose proof (pushJacobi_filters_then_appends XReal _ allChecks (Finite 1) (Finite 5) 1)
    as [L4 R4].
  split.
  - split; [apply (proj1 (L1 _)); reflexivity|].
    split; [apply (proj1 (proj2 (L2 _))); reflexivity|].
    split; [apply (proj1 (proj2 (proj2 (L3 _)))); reflexivity|].
    apply (proj2 (proj2 (proj2 (L4 _)))); [discriminate|reflexivity].
  - split; [apply (proj1 (R1 _)); reflexivity|].
    split; [apply (proj1 (proj2 (R2 _))); reflexivity|].
    split; [apply (proj1 (proj2 (proj2 (R3 _)))); reflexivity|].
    apply (proj2 (proj2 (proj2 (R4 _)))); [discriminate|reflexivity].
Defined.

(** ** Storing on a passive tape *)

Lemma freeIndex_gives_zero (index : N) (h : IndexHandler.t) :
  fst (IndexHandler.freeIndex index h) = 0.
Proof.
  unfold IndexHandler.freeIndex. destruct (N.eqb_spec index 0); simpl; auto.
Qed.

Lemma ChunkIndexReuseTape_freeIndex_run {Real : Type} (index : N)
      (tp : ChunkIndexReuseTape.t (Real:=Real)) :
  ChunkIndexReuseTape.freeIndex index tp
  = Some (0, ChunkIndexReuseTape.set_indexHandler
               (snd (IndexHandler.freeIndex index (ChunkIndexReuseTape.indexHandler tp)))
               tp).
Proof.
  unfold ChunkIndexReuseTape.freeIndex.
  pose proof (freeIndex_gives_zero index (ChunkIndexReuseTape.indexHandler tp)) as H.
  destruct (IndexHandler.freeIndex index (ChunkIndexReuseTape.indexHandler tp)) as [i h].
  simpl in *. subst. reflexivity.
Qed.

(** C9, as the code has it. With [OptTapeActivity] on and the tape
    passive, each of the three [store] overloads only assigns the primal
    value: on the linear-index tape the tape and the lhs index are left as
    they are; on the reuse-index tape the lhs index is released (pushed on
    the free list when it is not [0]) and becomes [0], and no log, adjoint
    or trace changes. *)
Theorem passive_store_only_assigns :
  forall (Real : Type) (RO : RealOps Real) (opts : Options),
    OptTapeActivity opts = true ->
    (forall (tp : ChunkTape.t) (lhsValue : Real) (lhsIndex : N)
            (rhs : Rhs Real) (arhs : ActiveReal Real) (prhs : Real),
        ChunkTape.active tp = false ->
        ChunkTape.store opts lhsValue lhsIndex rhs tp
        = Some ((getValue rhs, lhsIndex), tp)
        /\ ChunkTape.store_copy opts lhsValue lhsIndex arhs tp
           = Some ((value arhs, lhsIndex), tp)
        /\ ChunkTape.store_passive opts lhsValue lhsIndex prhs tp
           = Some ((prhs, lhsIndex), tp))
    /\ (forall (tp : ChunkIndexReuseTape.t) (lhsValue : Real) (lhsIndex : N)
               (rhs : Rhs Real) (arhs : ActiveReal Real) (prhs : Real),
           ChunkIndexReuseTape.active tp = false ->
           let released :=
             ChunkIndexReuseTape.set_indexHandler
               (snd (IndexHandler.freeIndex lhsIndex
                       (ChunkIndexReuseTape.indexHandler tp))) tp in
           ChunkIndexReuseTape.store opts lhsValue lhsIndex rhs tp
           = Some ((getValue rhs, 0), released)
           /\ ChunkIndexReuseTape.store_copy opts lhsValue lhsIndex arhs tp
              = Some ((value arhs, 0), released)
           /\ ChunkIndexReuseTape.store_passive lhsValue lhsIndex prhs tp
              = Some ((prhs, 0), released)).
Proof.
  intros Real RO opts Hopt. split.
  - intros tp lhsValue lhsIndex rhs arhs prhs Hact.
    unfold ChunkTape.store, ChunkTape.store_copy, ChunkTape.store_passive,
      bind, gets, ret, ENABLE_CHECK.
    rewrite Hopt, Hact. simpl. auto.
  - intros tp lhsValue lhsIndex rhs arhs prhs Hact released.
    unfold ChunkIndexReuseTape.store, ChunkIndexReuseTape.store_copy,
      ChunkIndexReuseTape.store_passive, bind, gets, ret, ENABLE_CHECK.
    rewrite Hopt, Hact. simpl.
    rewrite ChunkIndexReuseTape_freeIndex_run. auto.
Qed.

Lemma passive_store_only_assigns_witness :
  (ChunkTape.store allChecks (Finite 0) 3
     (mkRhs (Finite 8) [JacobiLeaf (Finite 2) (Finite 4) 1] 1)
     (ChunkTape.create allChecks)
   = Some ((Finite 8, 3), ChunkTape.create allChecks))
  /\ (ChunkIndexReuseTape.store allChecks (Finite 0) 3
        (mkRhs (Finite 8) [JacobiLeaf (Finite 2) (Finite 4) 1] 1)
        (ChunkIndexReuseTape.create allChecks)
      = Some ((Finite 8, 0),
              ChunkIndexReuseTape.set_indexHandler (IndexHandler.mk 0 [3])
                (ChunkIndexReuseTape.create allChecks))).
Proof.
  destruct (passive_store_only_assigns XReal _ allChecks eq_refl) as [L R].
  split.
  - apply (L (ChunkTape.create allChecks) (Finite 0) 3
             (mkRhs (Finite 8) [JacobiLeaf (Finite 2) (Finite 4) 1] 1)
             (mkActiveReal (Finite 1) 1) (Finite 1) eq_refl).
  - apply (R (ChunkIndexReuseTape.create allChecks) (Finite 0) 3
             (mkRhs (Finite 8) [JacobiLeaf (Finite 2) (Finite 4) 1] 1)
             (mkActiveReal (Finite 1) 1) (Finite 1) eq_refl).
Defined.

(** C9 as stated fails when [OptTapeActivity] is off: the flag [active]
    is then not consulted, and a store on the passive tape records the
    statement and its jacobian. *)
Lemma passive_store_records_when_activity_unchecked :
  ChunkTape.active (ChunkTape.create (Real:=XReal) noChecks) = false
  /\ exists tp',
      ChunkTape.store noChecks (Finite 0) 0
        (mkRhs (Finite 8) [JacobiLeaf (Finite 2) (Finite 4) 1] 1)
        (ChunkTape.create noChecks)
      = Some ((Finite 8, 1), tp')
      /\ ChunkTape.active tp' = false
      /\ ChunkVector.records (ChunkTape.statements tp') = [1]
      /\ ChunkVector.records (ChunkTape.data tp') = [(Finite 2, 1)]
      /\ ChunkVector.records (ChunkTape.statements tp')
         <> ChunkVector.records (ChunkTape.statements (ChunkTape.create (Real:=XReal) noChecks)).
Proof.
  split; [reflexivity|]. eexists. split; [vm_compute; reflexivity|].
  vm_compute. repeat split; discriminate.
Qed.

(** ** One statement of the reverse pass *)

Section Statement.
Context {Real : Type} {RO : RealOps Real}.
Variable opts : Options.

(** *** The linear-index tape *)

Lemma ChunkTape_readAdjoint_inv (i : N) (tp tp' : ChunkTape.t) (v : Real) :
  ChunkTape.readAdjoint i tp = Some (v, tp') ->
  lookupN (ChunkTape.adjoints tp) i = Some v /\ tp' = tp.
Proof.
  unfold ChunkTape.readAdjoint, getsOpt.
  destruct (lookupN (ChunkTape.adjoints tp) i); [|discriminate].
  intros E. inversion E. auto.
Qed.

Lemma ChunkTape_readAdjoint_run (i : N) (tp : ChunkTape.t) (v : Real) :
  lookupN (ChunkTape.adjoints tp) i = Some v ->
  ChunkTape.readAdjoint i tp = Some (v, tp).
Proof.
  intros H. unfold ChunkTape.readAdjoint, getsOpt. rewrite H. reflexivity.
Qed.

Lemma ChunkTape_writeAdjoint_inv (i : N) (v : Real) (tp tp' : ChunkTape.t) (u : unit) :
  ChunkTape.writeAdjoint i v tp = Some (u, tp') ->
  exists a, updateN (ChunkTape.adjoints tp) i v = Some a
            /\ tp' = ChunkTape.emit [AdjointWrite i v] (ChunkTape.set_adjoints a tp).
Proof.
  unfold ChunkTape.writeAdjoint, modifyOpt.
  destruct (updateN (ChunkTape.adjoints tp) i v) as [a|]; [|discriminate].
  intros E. inversion E. eauto.
Qed.

(** A statement whose lhs adjoint compares equal to zero, with
    [OptZeroAdjoint] on: the cursors move and the tape is untouched. *)
Lemma ChunkTape_zero_adjoint_skip (tp : ChunkTape.t) (sd : list N)
      (dc : list (Real * N)) (adjPos stmtPos dataPos activeVariables : N) (adj : Real) :
  OptZeroAdjoint opts = true ->
  lookupN sd (size_dec stmtPos) = Some activeVariables ->
  lookupN (ChunkTape.adjoints tp) adjPos = Some adj ->
  nonzero adj = false ->
  ChunkTape.evaluateStatement opts sd dc (adjPos, stmtPos, dataPos) tp
  = Some ((size_dec adjPos, size_dec stmtPos, size_sub dataPos activeVariables), tp).
Proof.
  intros Hopt Hs Ha Hz. unfold ChunkTape.evaluateStatement, bind, getsOpt.
  rewrite Hs, Hopt. rewrite (ChunkTape_readAdjoint_run _ _ _ Ha). simpl.
  unfold ENABLE_CHECK. rewrite Hz. reflexivity.
Qed.

(** *** The reuse-index tape *)

Lemma ChunkIndexReuseTape_readAdjoint_inv (i : N) (tp tp' : ChunkIndexReuseTape.t)
      (v : Real) :
  ChunkIndexReuseTape.readAdjoint i tp = Some (v, tp') ->
  lookupN (ChunkIndexReuseTape.adjoints tp) i = Some v /\ tp' = tp.
Proof.
  unfold ChunkIndexReuseTape.readAdjoint, getsOpt.
  destruct (lookupN (ChunkIndexReuseTape.adjoints tp) i); [|discriminate].
  intros E. inversion E. auto.
Qed.

Lemma ChunkIndexReuseTape_readAdjoint_run (i : N) (tp : ChunkIndexReuseTape.t) (v : Real) :
  lookupN (ChunkIndexReuseTape.adjoints tp) i = Some v ->
  ChunkIndexReuseTape.readAdjoint i tp = Some (v, tp).
Proof.
  intros H. unfold ChunkIndexReuseTape.readAdjoint, getsOpt. rewrite H. reflexivity.
Qed.

Lemma ChunkIndexReuseTape_writeAdjoint_inv (i : N) (v : Real)
      (tp tp' : ChunkIndexReuseTape.t) (u : unit) :
  ChunkIndexReuseTape.writeAdjoint i v tp = Some (u, tp') ->
  exists a, updateN (ChunkIndexReuseTape.adjoints tp) i v = Some a
            /\ tp' = ChunkIndexReuseTape.emit [AdjointWrite i v]
                       (ChunkIndexReuseTape.set_adjoints a tp).
Proof.
  unfold ChunkIndexReuseTape.writeAdjoint, modifyOpt.
  destruct (updateN (ChunkIndexReuseTape.adjoints tp) i v) as [a|]; [|discriminate].
  intros E. inversion E. eauto.
Qed.

Lemma ChunkIndexReuseTape_writeAdjoint_run (i : N) (v w : Real)
      (tp : ChunkIndexReuseTape.t) :
  lookupN (ChunkIndexReuseTape.adjoints tp) i = Some w ->
  ChunkIndexReuseTape.writeAdjoint i v tp
  = Some (tt, ChunkIndexReuseTape.emit [AdjointWrite i v]
                (ChunkIndexReuseTape.set_adjoints
                   (replaceNth (ChunkIndexReuseTape.adjoints tp) (N.to_nat i) v) tp)).
Proof.
  intros H. apply lookupN_lt in H.
  unfold ChunkIndexReuseTape.writeAdjoint, modifyOpt.
  rewrite (updateN_Some _ _ _ H). reflexivity.
Qed.

(** A statement whose lhs adjoint compares equal to zero, with
    [OptZeroAdjoint] on: the cursors move, and the one write is the
    unconditional [adjoints[lhsIndex] = 0.0]. *)
Lemma ChunkIndexReuseTape_zero_adjoint_skip (tp : ChunkIndexReuseTape.t)
      (sd : list (N * N)) (dc : list (Real * N))
      (stmtPos dataPos activeVariables lhsIndex : N) (adj : Real) :
  OptZeroAdjoint opts = true ->
  lookupN sd (size_dec stmtPos) = Some (activeVariables, lhsIndex) ->
  lookupN (ChunkIndexReuseTape.adjoints tp) lhsIndex = Some adj ->
  nonzero adj = false ->
  ChunkIndexReuseTape.evaluateStatement opts sd dc (stmtPos, dataPos) tp
  = Some ((size_dec stmtPos, size_sub dataPos activeVariables),
          ChunkIndexReuseTape.emit [AdjointWrite lhsIndex zero]
            (ChunkIndexReuseTape.set_adjoints
               (replaceNth (ChunkIndexReuseTape.adjoints tp) (N.to_nat lhsIndex) zero)
               tp)).
Proof.
  intros Hopt Hs Ha Hz. unfold ChunkIndexReuseTape.evaluateStatement, bind, getsOpt.
  rewrite Hs. simpl. rewrite (ChunkIndexReuseTape_readAdjoint_run _ _ _ Ha).
  rewrite (ChunkIndexReuseTape_writeAdjoint_run _ zero _ _ Ha).
  unfold ENABLE_CHECK. rewrite Hopt, Hz. reflexivity.
Qed.

End Statement.

(** C3, as the code has it. With [OptZeroAdjoint] on, a statement whose
    lhs adjoint compares equal to zero gets no chain-rule update, and the
    data cursor moves back by its argument count. The linear-index tape
    then leaves the tape, its trace of adjoint writes included, exactly as
    it was. The reuse-index tape has performed its unconditional write
    [adjoints[lhsIndex] = 0.0] before the test: its trace grows by that
    one write, the slot holds zero, and every other slot is as before. *)
Theorem zero_adjoint_statement_gets_no_chain_rule :
  forall (Real : Type) (RO : RealOps Real) (opts : Options),
    OptZeroAdjoint opts = true ->
    (forall (tp : ChunkTape.t) (sd : list N) (dc : list (Real * N))
            (adjPos stmtPos dataPos activeVariables : N) (adj : Real),
        lookupN sd (size_dec stmtPos) = Some activeVariables ->
        lookupN (ChunkTape.adjoints tp) adjPos = Some adj ->
        nonzero adj = false ->
        ChunkTape.evaluateStatement opts sd dc (adjPos, stmtPos, dataPos) tp
        = Some ((size_dec adjPos, size_dec stmtPos,
                 size_sub dataPos activeVariables), tp))
    /\ (forall (tp : ChunkIndexReuseTape.t) (sd : list (N * N))
               (dc : list (Real * N))
               (stmtPos dataPos activeVariables lhsIndex : N) (adj : Real),
           lookupN sd (size_dec stmtPos) = Some (activeVariables, lhsIndex) ->
           lookupN (ChunkIndexReuseTape.adjoints tp) lhsIndex = Some adj ->
           nonzero adj = false ->
           exists tp',
             ChunkIndexReuseTape.evaluateStatement opts sd dc (stmtPos, dataPos) tp
             = Some ((size_dec stmtPos, size_sub dataPos activeVariables), tp')
             /\ ChunkIndexReuseTape.trace tp'
                = ChunkIndexReuseTape.trace tp ++ [AdjointWrite lhsIndex zero]
             /\ lookupN (ChunkIndexReuseTape.adjoints tp') lhsIndex = Some zero
             /\ (forall i, i <> lhsIndex ->
                           lookupN (ChunkIndexReuseTape.adjoints tp') i
                           = lookupN (ChunkIndexReuseTape.adjoints tp) i)
             /\ ChunkIndexReuseTape.data tp' = ChunkIndexReuseTape.data tp
             /\ ChunkIndexReuseTape.statements tp' = ChunkIndexReuseTape.statements tp).
Proof.
  intros Real RO opts Hopt. split.
  - intros. eapply ChunkTape_zero_adjoint_skip; eauto.
  - intros tp sd dc stmtPos dataPos k lhs adj Hs Ha Hz.
    eexists. split; [eapply ChunkIndexReuseTape_zero_adjoint_skip; eauto|].
    simpl. pose proof (lookupN_lt _ _ _ Ha) as Hlt.
    split; [reflexivity|].
    split; [eapply updateN_lookup_same; apply updateN_Some; exact Hlt|].
    split; [|split; reflexivity].
    intros i Hi. eapply updateN_lookup_other; [apply updateN_Some; exact Hlt|auto].
Qed.

Lemma zero_adjoint_statement_gets_no_chain_rule_witness :
  ChunkTape.evaluateStatement allChecks [0; 1] [(Finite 3, 1)] (2, 2, 1)
    (ChunkTape_withAdjoints allChecks [Finite 0; Finite 0; Finite 0])
  = Some ((size_dec 2, size_dec 2, size_sub 1 1),
          ChunkTape_withAdjoints allChecks [Finite 0; Finite 0; Finite 0])
  /\ exists tp',
      ChunkIndexReuseTape.evaluateStatement allChecks [(1, 2)] [(Finite 3, 1)] (1, 1)
        (ChunkIndexReuseTape_withAdjoints allChecks [Finite 0; Finite 0; Finite 0])
      = Some ((size_dec 1, size_sub 1 1), tp')
      /\ ChunkIndexReuseTape.trace tp' = [AdjointWrite 2 (Finite 0)].
Proof.
  destruct (zero_adjoint_statement_gets_no_chain_rule XReal _ allChecks eq_refl)
    as [L R].
  split.
  - apply (L (ChunkTape_withAdjoints allChecks [Finite 0; Finite 0; Finite 0])
             [0; 1] [(Finite 3, 1)] 2 2 1 1 (Finite 0)); reflexivity.
  - destruct (R (ChunkIndexReuseTape_withAdjoints allChecks
                   [Finite 0; Finite 0; Finite 0])
                [(1, 2)] [(Finite 3, 1)] 1 1 1 2 (Finite 0)
                eq_refl eq_refl eq_refl) as (tp' & E & T & _).
    exists tp'. split; [exact E|exact T].
Defined.

(** C3 as stated fails on the reuse-index tape: processing a statement
    whose lhs adjoint is exactly zero, with [OptZeroAdjoint] on, writes to
    the adjoint vector once. *)
Lemma zero_adjoint_statement_written_on_reuse_tape :
  OptZeroAdjoint allChecks = true
  /\ lookupN (ChunkIndexReuseTape.adjoints
                (ChunkIndexReuseTape_withAdjoints allChecks
                   [Finite 0; Finite 0; Finite 0])) 2 = Some (Finite 0)
  /\ exists tp',
      ChunkIndexReuseTape.evaluateStatement allChecks [(1, 2)] [(Finite 3, 1)] (1, 1)
        (ChunkIndexReuseTape_withAdjoints allChecks [Finite 0; Finite 0; Finite 0])
      = Some ((0, 0), tp')
      /\ ChunkIndexReuseTape.trace tp' = [AdjointWrite 2 (Finite 0)]
      /\ ChunkIndexReuseTape.trace tp'
         <> ChunkIndexReuseTape.trace
              (ChunkIndexReuseTape_withAdjoints allChecks
                 [Finite 0; Finite 0; Finite 0]).
Proof.
  split; [reflexivity|]. split; [reflexivity|].
  eexists. split; [vm_compute; reflexivity|].
  split; [reflexivity|]. vm_compute. discriminate.
Qed.

(** ** Storing an expression on an active tape *)

Lemma bind_run {S A B : Type} (m : M S A) (f : A -> M S B) (s s1 : S) (a : A) :
  m s = Some (a, s1) -> bind m f s = f a s1.
Proof. intros H. unfold bind. rewrite H. reflexivity. Qed.

Lemma hasRoom_used {A I : Type} (cv : ChunkVector.t A I) :
  hasRoom cv ->
  ChunkVector.used (ChunkVector.current cv)
  = N.of_nat (length (ChunkVector.cells (ChunkVector.current cv))).
Proof.
  unfold hasRoom, ChunkVector.used.
  destruct (ChunkVector.isSealed (ChunkVector.current cv)); [lia|reflexivity].
Qed.

Lemma setDataAndMove_used {A I : Type} (a : A) (cv cv' : ChunkVector.t A I) :
  ChunkVector.setDataAndMove a cv = Some cv' ->
  ChunkVector.used (ChunkVector.current cv')
  = ChunkVector.used (ChunkVector.current cv) + 1
  /\ ChunkVector.capacity (ChunkVector.current cv')
     = ChunkVector.capacity (ChunkVector.current cv)
  /\ ChunkVector.chunkSize cv' = ChunkVector.chunkSize cv
  /\ ChunkVector.records cv' = ChunkVector.records cv ++ [a].
Proof.
  intros H. pose proof (setDataAndMove_inv _ _ _ H) as [R _].
  destruct (setDataAndMove_room a cv R) as (cv2 & E & Hr & _ & Hs & Hc & Hcap & Hseal).
  rewrite E in H. inversion H; subst cv2.
  rewrite (hasRoom_used cv R). unfold ChunkVector.used at 1.
  rewrite Hseal, Hc, length_app. simpl. repeat split; auto. lia.
Qed.

Lemma grownBy_nil {A I : Type} (cv : ChunkVector.t A I) : grownBy cv cv [].
Proof. unfold grownBy. simpl. rewrite app_nil_r, N.add_0_r. auto. Qed.

Lemma grownBy_one {A I : Type} (a : A) (cv cv' : ChunkVector.t A I) :
  ChunkVector.setDataAndMove a cv = Some cv' -> grownBy cv cv' [a].
Proof. intros H. apply setDataAndMove_used in H. exact H. Qed.

Lemma grownBy_trans {A I : Type} (cv1 cv2 cv3 : ChunkVector.t A I) (l l' : list A) :
  grownBy cv1 cv2 l -> grownBy cv2 cv3 l' -> grownBy cv1 cv3 (l ++ l').
Proof.
  unfold grownBy. intros (U1 & C1 & S1 & R1) (U2 & C2 & S2 & R2).
  rewrite length_app, U2, U1, C2, C1, S2, S1, R2, R1, app_assoc.
  repeat split; auto. lia.
Qed.

Section Store.
Context {Real : Type} {RO : RealOps Real}.
Variable opts : Options.

Lemma leafEntry_length (l : Leaf Real) : (length (leafEntry opts l) <= 1)%nat.
Proof.
  destruct l; simpl.
  - destruct (index =? 0); simpl; lia.
  - destruct (jacobiSkipped opts jacobi index); simpl; lia.
Qed.

(** *** The linear-index tape *)

Lemma ChunkTape_pushLeaf_run (l : Leaf Real) (tp : ChunkTape.t) :
  ChunkVector.used (ChunkVector.current (ChunkTape.data tp))
  + N.of_nat (length (leafEntry opts l))
  <= ChunkVector.capacity (ChunkVector.current (ChunkTape.data tp)) ->
  exists d,
    ChunkTape.pushLeaf opts l tp = Some (tt, ChunkTape.set_data d tp)
    /\ grownBy (ChunkTape.data tp) d (leafEntry opts l).
Proof.
  intros Hroom. destruct l as [v i|j v i]; simpl in *.
  - destruct (ChunkTape_pushJacobi_unary_spec v i tp) as [Hz Hnz].
    destruct (N.eqb_spec i 0) as [->|Hi].
    + exists (ChunkTape.data tp). rewrite Hz by reflexivity.
      split; [destruct tp; reflexivity|apply grownBy_nil].
    + simpl in Hroom.
      unfold ChunkTape.pushJacobi_unary.
      destruct (N.eqb_spec 0 i) as [E|_]; [congruence|]. simpl.
      unfold modifyOpt.
      destruct (setDataAndMove_room (one, i) (ChunkTape.data tp)) as (d & E & _);
        [unfold hasRoom; lia|].
      rewrite E. simpl. exists d. split; [reflexivity|]. apply grownBy_one. exact E.
  - destruct (jacobiSkipped opts j i) eqn:Hs.
    + exists (ChunkTape.data tp). rewrite (ChunkTape_pushJacobi_skip opts j v i tp Hs).
      split; [destruct tp; reflexivity|apply grownBy_nil].
    + simpl in Hroom. destruct (jacobiSkipped_false opts _ _ Hs) as (E1 & E2 & E3).
      unfold ChunkTape.pushJacobi. rewrite E1, E2, E3. simpl. unfold modifyOpt.
      destruct (setDataAndMove_room (j, i) (ChunkTape.data tp)) as (d & E & _);
        [unfold hasRoom; lia|].
      rewrite E. simpl. exists d. split; [reflexivity|]. apply grownBy_one. exact E.
Qed.

Lemma ChunkTape_calcGradient_run (ls : list (Leaf Real)) :
  forall tp : ChunkTape.t,
    ChunkVector.used (ChunkVector.current (ChunkTape.data tp))
    + N.of_nat (length (pushedEntries opts ls))
    <= ChunkVector.capacity (ChunkVector.current (ChunkTape.data tp)) ->
    exists d,
      forM ls (ChunkTape.pushLeaf opts) tp = Some (tt, ChunkTape.set_data d tp)
      /\ grownBy (ChunkTape.data tp) d (pushedEntries opts ls).
Proof.
  induction ls as [|l ls IH]; intros tp Hroom; simpl in *.
  - exists (ChunkTape.data tp). split; [destruct tp; reflexivity|apply grownBy_nil].
  - rewrite length_app in Hroom.
    destruct (ChunkTape_pushLeaf_run l tp) as (d1 & E1 & G1); [lia|].
    rewrite (bind_run _ _ _ _ _ E1).
    destruct (IH (ChunkTape.set_data d1 tp)) as (d2 & E2 & G2).
    { simpl. destruct G1 as (U & C & _). rewrite U, C. lia. }
    rewrite E2. exists d2. split; [destruct tp; reflexivity|].
    eapply grownBy_trans; eauto.
Qed.

Lemma ChunkTape_store_active (tp : ChunkTape.t) (lhsValue : Real) (lhsIndex : N)
      (rhs : Rhs Real) :
  ChunkTape.active tp = true ->
  maxActiveVariables rhs <= ChunkVector.chunkSize (ChunkTape.data tp) ->
  1 <= ChunkVector.chunkSize (ChunkTape.statements tp) ->
  N.of_nat (length (pushedEntries opts (leaves rhs))) <= maxActiveVariables rhs ->
  let n := N.of_nat (length (pushedEntries opts (leaves rhs))) in
  exists tp',
    ChunkTape.store opts lhsValue lhsIndex rhs tp
    = Some ((getValue rhs, if n =? 0 then 0 else ChunkTape.expressionCount tp + 1), tp')
    /\ ChunkVector.records (ChunkTape.data tp')
       = ChunkVector.records (ChunkTape.data tp) ++ pushedEntries opts (leaves rhs)
    /\ (n = 0 ->
        ChunkVector.records (ChunkTape.statements tp')
        = ChunkVector.records (ChunkTape.statements tp)
        /\ ChunkTape.expressionCount tp' = ChunkTape.expressionCount tp)
    /\ (n <> 0 ->
        ChunkVector.records (ChunkTape.statements tp')
        = ChunkVector.records (ChunkTape.statements tp) ++ [toStatementInt n]
        /\ ChunkTape.expressionCount tp' = ChunkTape.expressionCount tp + 1).
Proof.
  intros Hact Hmax Hstmt Hn n.
  unfold ChunkTape.store.
  rewrite (bind_run _ _ _ tp (ChunkTape.active tp)) by reflexivity.
  unfold ENABLE_CHECK. rewrite Hact, orb_true_r.
  set (tp1 := ChunkTape.set_data
                (ChunkVector.reserveItems (maxActiveVariables rhs)
                   (ChunkTape.expressionCount tp) (ChunkTape.data tp)) tp).
  set (tp2 := ChunkTape.set_statements
                (ChunkVector.reserveItems 1 (ChunkTape.data_getPosition tp1)
                   (ChunkTape.statements tp1)) tp1).
  destruct (reserveItems_room (maxActiveVariables rhs) (ChunkTape.expressionCount tp)
              (ChunkTape.data tp) Hmax) as [Rd _].
  destruct (reserveItems_room 1 (ChunkTape.data_getPosition tp1)
              (ChunkTape.statements tp) Hstmt) as [Rs _].
  destruct (ChunkTape_calcGradient_run (leaves rhs) tp2) as (d & Ec & G).
  { simpl. fold n. lia. }
  destruct G as (U & C & _ & Rec).
  fold n in U. simpl in U, C, Rec. rewrite reserveItems_records in Rec.
  set (start := ChunkVector.used
                  (ChunkVector.current
                     (ChunkVector.reserveItems (maxActiveVariables rhs)
                        (ChunkTape.expressionCount tp) (ChunkTape.data tp)))) in *.
  assert (Hsub : size_sub (start + n) start = n).
  { rewrite size_sub_le by lia. lia. }
  unfold ChunkTape.data_reserveItems, ChunkTape.statements_reserveItems,
    ChunkTape.calcGradient.
  unfold bind at 1. unfold bind at 1. unfold modify at 1.
  unfold bind at 1. unfold modify at 1. fold tp1. fold tp2.
  unfold bind at 1. unfold gets at 1.
  change (ChunkVector.getChunkPosition (ChunkTape.data tp2)) with start.
  unfold bind at 1. rewrite Ec.
  unfold bind at 1. unfold gets at 1.
  change (ChunkVector.getChunkPosition (ChunkTape.data (ChunkTape.set_data d tp2)))
    with (ChunkVector.used (ChunkVector.current d)).
  rewrite U, Hsub. rewrite (N.eqb_sym 0 n).
  destruct (N.eqb_spec n 0) as [Hz|Hnz].
  - eexists. split; [reflexivity|]. simpl.
    split; [exact Rec|]. split; [|congruence].
    intros _. rewrite reserveItems_records. auto.
  - assert (Hr : hasRoom (ChunkTape.statements (ChunkTape.set_data d tp2))).
    { unfold hasRoom. simpl. lia. }
    destruct (setDataAndMove_room (toStatementInt n) _ Hr) as (st & Es & Rst & _).
    unfold ChunkTape.statements_setDataAndMove, ChunkTape.incrementCount.
    unfold bind, modifyOpt, gets, modify, ret. rewrite Es. simpl.
    eexists. split; [reflexivity|]. simpl.
    split; [exact Rec|]. split; [congruence|].
    intros _. rewrite Rst. simpl. rewrite reserveItems_records. auto.
Qed.

(** *** The reuse-index tape *)

Lemma ChunkIndexReuseTape_pushLeaf_run (l : Leaf Real) (tp : ChunkIndexReuseTape.t) :
  ChunkVector.used (ChunkVector.current (ChunkIndexReuseTape.data tp))
  + N.of_nat (length (leafEntry opts l))
  <= ChunkVector.capacity (ChunkVector.current (ChunkIndexReuseTape.data tp)) ->
  exists d,
    ChunkIndexReuseTape.pushLeaf opts l tp
    = Some (tt, ChunkIndexReuseTape.set_data d tp)
    /\ grownBy (ChunkIndexReuseTape.data tp) d (leafEntry opts l).
Proof.
  intros Hroom. destruct l as [v i|j v i]; simpl in *.
  - destruct (ChunkIndexReuseTape_pushJacobi_unary_spec v i tp) as [Hz Hnz].
    destruct (N.eqb_spec i 0) as [->|Hi].
    + exists (ChunkIndexReuseTape.data tp). rewrite Hz by reflexivity.
      split; [destruct tp; reflexivity|apply grownBy_nil].
    + simpl in Hroom.
      unfold ChunkIndexReuseTape.pushJacobi_unary.
      destruct (N.eqb_spec 0 i) as [E|_]; [congruence|]. simpl.
      unfold modifyOpt.
      destruct (setDataAndMove_room (one, i) (ChunkIndexReuseTape.data tp))
        as (d & E & _); [unfold hasRoom; lia|].
      rewrite E. simpl. exists d. split; [reflexivity|]. apply grownBy_one. exact E.
  - destruct (jacobiSkipped opts j i) eqn:Hs.
    + exists (ChunkIndexReuseTape.data tp).
      rewrite (ChunkIndexReuseTape_pushJacobi_skip opts j v i tp Hs).
      split; [destruct tp; reflexivity|apply grownBy_nil].
    + simpl in Hroom. destruct (jacobiSkipped_false opts _ _ Hs) as (E1 & E2 & E3).
      unfold ChunkIndexReuseTape.pushJacobi. rewrite E1, E2, E3. simpl.
      unfold modifyOpt.
      destruct (setDataAndMove_room (j, i) (ChunkIndexReuseTape.data tp))
        as (d & E & _); [unfold hasRoom; lia|].
      rewrite E. simpl. exists d. split; [reflexivity|]. apply grownBy_one. exact E.
Qed.

Lemma ChunkIndexReuseTape_calcGradient_run (ls : list (Leaf Real)) :
  forall tp : ChunkIndexReuseTape.t,
    ChunkVector.used (ChunkVector.current (ChunkIndexReuseTape.data tp))
    + N.of_nat (length (pushedEntries opts ls))
    <= ChunkVector.capacity (ChunkVector.current (ChunkIndexReuseTape.data tp)) ->
    exists d,
      forM ls (ChunkIndexReuseTape.pushLeaf opts) tp
      = Some (tt, ChunkIndexReuseTape.set_data d tp)
      /\ grownBy (ChunkIndexReuseTape.data tp) d (pushedEntries opts ls).
Proof.
  induction ls as [|l ls IH]; intros tp Hroom; simpl in *.
  - exists (ChunkIndexReuseTape.data tp).
    split; [destruct tp; reflexivity|apply grownBy_nil].
  - rewrite length_app in Hroom.
    destruct (ChunkIndexReuseTape_pushLeaf_run l tp) as (d1 & E1 & G1); [lia|].
    rewrite (bind_run _ _ _ _ _ E1).
    destruct (IH (ChunkIndexReuseTape.set_data d1 tp)) as (d2 & E2 & G2).
    { simpl. destruct G1 as (U & C & _). rewrite U, C. lia. }
    rewrite E2. exists d2. split; [destruct tp; reflexivity|].
    eapply grownBy_trans; eauto.
Qed.

Lemma checkIndex_nonzero (index : N) (h : IndexHandler.t) :
  Forall (fun i => i <> 0) (IndexHandler.freeIndices h) ->
  fst (IndexHandler.checkIndex index h) <> 0
  /\ Forall (fun i => i <> 0)
            (IndexHandler.freeIndices (snd (IndexHandler.checkIndex index h))).
Proof.
  intros H. unfold IndexHandler.checkIndex.
  destruct (N.eqb_spec index 0) as [->|Hi]; [|simpl; auto].
  destruct (IndexHandler.freeIndices h) as [|i rest] eqn:E; simpl.
  - split; [lia|constructor].
  - inversion H; subst. auto.
Qed.

Lemma ChunkIndexReuseTape_store_active (tp : ChunkIndexReuseTape.t) (lhsValue : Real)
      (lhsIndex : N) (rhs : Rhs Real) :
  ChunkIndexReuseTape.active tp = true ->
  maxActiveVariables rhs <= ChunkVector.chunkSize (ChunkIndexReuseTape.data tp) ->
  1 <= ChunkVector.chunkSize (ChunkIndexReuseTape.statements tp) ->
  N.of_nat (length (pushedEntries opts (leaves rhs))) <= maxActiveVariables rhs ->
  Forall (fun i => i <> 0)
         (IndexHandler.freeIndices (ChunkIndexReuseTape.indexHandler tp)) ->
  let n := N.of_nat (length (pushedEntries opts (leaves rhs))) in
  let h := ChunkIndexReuseTape.indexHandler tp in
  exists tp',
    ChunkIndexReuseTape.store opts lhsValue lhsIndex rhs tp
    = Some ((getValue rhs,
             if n =? 0 then 0 else fst (IndexHandler.checkIndex lhsIndex h)), tp')
    /\ ChunkVector.records (ChunkIndexReuseTape.data tp')
       = ChunkVector.records (ChunkIndexReuseTape.data tp)
         ++ pushedEntries opts (leaves rhs)
    /\ (n = 0 ->
        ChunkVector.records (ChunkIndexReuseTape.statements tp')
        = ChunkVector.records (ChunkIndexReuseTape.statements tp)
        /\ ChunkIndexReuseTape.indexHandler tp'
           = snd (IndexHandler.freeIndex lhsIndex h))
    /\ (n <> 0 ->
        ChunkVector.records (ChunkIndexReuseTape.statements tp')
        = ChunkVector.records (ChunkIndexReuseTape.statements tp)
          ++ [(toStatementInt n, fst (IndexHandler.checkIndex lhsIndex h))]
        /\ fst (IndexHandler.checkIndex lhsIndex h) <> 0
        /\ ChunkIndexReuseTape.indexHandler tp'
           = snd (IndexHandler.checkIndex lhsIndex h)).
Proof.
  intros Hact Hmax Hstmt Hn Hfree n h.
  unfold ChunkIndexReuseTape.store.
  cbv [ChunkIndexReuseTape.EmptyPosition] in *.
  rewrite (bind_run _ _ _ tp (ChunkIndexReuseTape.active tp)) by reflexivity.
  unfold ENABLE_CHECK. rewrite Hact, orb_true_r.
  set (tp1 := ChunkIndexReuseTape.set_data
                (ChunkVector.reserveItems (maxActiveVariables rhs) tt
                   (ChunkIndexReuseTape.data tp)) tp).
  set (tp2 := ChunkIndexReuseTape.set_statements
                (ChunkVector.reserveItems 1 (ChunkIndexReuseTape.data_getPosition tp1)
                   (ChunkIndexReuseTape.statements tp1)) tp1).
  destruct (reserveItems_room (maxActiveVariables rhs) tt
              (ChunkIndexReuseTape.data tp) Hmax) as [Rd _].
  destruct (reserveItems_room 1 (ChunkIndexReuseTape.data_getPosition tp1)
              (ChunkIndexReuseTape.statements tp) Hstmt) as [Rs _].
  destruct (ChunkIndexReuseTape_calcGradient_run (leaves rhs) tp2) as (d & Ec & G).
  { simpl. fold n. cbv [ChunkIndexReuseTape.EmptyPosition] in *. lia. }
  destruct G as (U & C & _ & Rec).
  fold n in U. simpl in U, C, Rec. rewrite reserveItems_records in Rec.
  cbv [ChunkIndexReuseTape.EmptyPosition] in *.
  set (start := ChunkVector.used
                  (ChunkVector.current
                     (ChunkVector.reserveItems (maxActiveVariables rhs) tt
                        (ChunkIndexReuseTape.data tp)))) in *.
  assert (Hsub : size_sub (start + n) start = n).
  { rewrite size_sub_le by lia. lia. }
  unfold ChunkIndexReuseTape.data_reserveItems,
    ChunkIndexReuseTape.statements_reserveItems, ChunkIndexReuseTape.calcGradient.
  unfold bind at 1. unfold bind at 1. unfold modify at 1.
  unfold bind at 1. unfold modify at 1. fold tp1. fold tp2.
  unfold bind at 1. unfold gets at 1.
  change (ChunkVector.getChunkPosition (ChunkIndexReuseTape.data tp2)) with start.
  unfold bind at 1. rewrite Ec.
  unfold bind at 1. unfold gets at 1.
  change (ChunkVector.getChunkPosition
            (ChunkIndexReuseTape.data (ChunkIndexReuseTape.set_data d tp2)))
    with (ChunkVector.used (ChunkVector.current d)).
  cbv [ChunkIndexReuseTape.EmptyPosition] in *.
  rewrite U, Hsub. rewrite (N.eqb_sym 0 n).
  destruct (N.eqb_spec n 0) as [Hz|Hnz].
  - rewrite ChunkIndexReuseTape_freeIndex_run. unfold ret.
    eexists. split; [reflexivity|]. simpl.
    split; [exact Rec|]. split; [|congruence].
    intros _. rewrite reserveItems_records. auto.
  - destruct (checkIndex_nonzero lhsIndex h Hfree) as [Hck _].
    unfold ChunkIndexReuseTape.checkIndex at 1. unfold bind at 1.
    change (ChunkIndexReuseTape.indexHandler (ChunkIndexReuseTape.set_data d tp2))
      with h.
    destruct (IndexHandler.checkIndex lhsIndex h) as [i' h'] eqn:Eck.
    simpl in Hck.
    assert (Hr : hasRoom (ChunkIndexReuseTape.statements
                            (ChunkIndexReuseTape.set_indexHandler h'
                               (ChunkIndexReuseTape.set_data d tp2)))).
    { unfold hasRoom. simpl. cbv [ChunkIndexReuseTape.EmptyPosition] in *. lia. }
    destruct (setDataAndMove_room (toStatementInt n, i') _ Hr) as (st & Es & Rst & _).
    unfold ChunkIndexReuseTape.statements_setDataAndMove.
    unfold bind, modifyOpt, ret. rewrite Es. simpl.
    eexists. split; [reflexivity|]. simpl.
    split; [exact Rec|]. split; [congruence|].
    intros _. rewrite Rst. simpl. rewrite reserveItems_records. auto.
Qed.

End Store.

Lemma toStatementInt_small (n : N) : n <= 255 -> toStatementInt n = n.
Proof. intros H. unfold toStatementInt. apply N.mod_small. lia. Qed.

(** A store of an expression of at most 255 active variables on an
    active tape, with the room that [reserveItems] provides (a chunk
    holds [maxActiveVariables] entries, and the expression has no more
    active variables than that), appends the jacobian entries of the
    active leaves. If there is none, no statement is pushed and the lhs
    becomes passive: index [0] on the linear tape, released on the reuse
    tape. Otherwise exactly one statement is pushed, carrying the count,
    and the lhs gets its index: the incremented expression counter on the
    linear tape, the result of [checkIndex] (nonzero) on the reuse tape,
    where the statement records it. *)
Theorem store_pushes_one_statement_for_active_rhs :
  forall (Real : Type) (RO : RealOps Real) (opts : Options) (rhs : Rhs Real)
         (lhsValue : Real) (lhsIndex : N),
    activeVariableCount opts rhs <= maxActiveVariables rhs ->
    activeVariableCount opts rhs <= 255 ->
    (forall tp : ChunkTape.t,
        ChunkTape.active tp = true ->
        maxActiveVariables rhs <= ChunkVector.chunkSize (ChunkTape.data tp) ->
        1 <= ChunkVector.chunkSize (ChunkTape.statements tp) ->
        exists tp',
          ChunkTape.store opts lhsValue lhsIndex rhs tp
          = Some ((getValue rhs,
                   if activeVariableCount opts rhs =? 0 then 0
                   else ChunkTape.expressionCount tp + 1), tp')
          /\ ChunkVector.records (ChunkTape.data tp')
             = ChunkVector.records (ChunkTape.data tp)
               ++ pushedEntries opts (leaves rhs)
          /\ (activeVariableCount opts rhs = 0 ->
              ChunkVector.records (ChunkTape.statements tp')
              = ChunkVector.records (ChunkTape.statements tp)
              /\ ChunkTape.expressionCount tp' = ChunkTape.expressionCount tp)
          /\ (activeVariableCount opts rhs <> 0 ->
              ChunkVector.records (ChunkTape.statements tp')
              = ChunkVector.records (ChunkTape.statements tp)
                ++ [activeVariableCount opts rhs]
              /\ ChunkTape.expressionCount tp'
                 = ChunkTape.expressionCount tp + 1))
    /\ (forall tp : ChunkIndexReuseTape.t,
           ChunkIndexReuseTape.active tp = true ->
           maxActiveVariables rhs
           <= ChunkVector.chunkSize (ChunkIndexReuseTape.data tp) ->
           1 <= ChunkVector.chunkSize (ChunkIndexReuseTape.statements tp) ->
           Forall (fun i => i <> 0)
                  (IndexHandler.freeIndices (ChunkIndexReuseTape.indexHandler tp)) ->
           exists tp',
             ChunkIndexReuseTape.store opts lhsValue lhsIndex rhs tp
             = Some ((getValue rhs,
                      if activeVariableCount opts rhs =? 0 then 0
                      else fst (IndexHandler.checkIndex lhsIndex
                                  (ChunkIndexReuseTape.indexHandler tp))), tp')
             /\ ChunkVector.records (ChunkIndexReuseTape.data tp')
                = ChunkVector.records (ChunkIndexReuseTape.data tp)
                  ++ pushedEntries opts (leaves rhs)
             /\ (activeVariableCount opts rhs = 0 ->
                 ChunkVector.records (ChunkIndexReuseTape.statements tp')
                 = ChunkVector.records (ChunkIndexReuseTape.statements tp)
                 /\ ChunkIndexReuseTape.indexHandler tp'
                    = snd (IndexHandler.freeIndex lhsIndex
                             (ChunkIndexReuseTape.indexHandler tp)))
             /\ (activeVariableCount opts rhs <> 0 ->
                 ChunkVector.records (ChunkIndexReuseTape.statements tp')
                 = ChunkVector.records (ChunkIndexReuseTape.statements tp)
                   ++ [(activeVariableCount opts rhs,
                        fst (IndexHandler.checkIndex lhsIndex
                               (ChunkIndexReuseTape.indexHandler tp)))]
                 /\ fst (IndexHandler.checkIndex lhsIndex
                           (ChunkIndexReuseTape.indexHandler tp)) <> 0
                 /\ ChunkIndexReuseTape.indexHandler tp'
                    = snd (IndexHandler.checkIndex lhsIndex
                             (ChunkIndexReuseTape.indexHandler tp)))).
Proof.
  intros Real RO opts rhs lhsValue lhsIndex Hn H255.
  pose proof (toStatementInt_small _ H255) as Hs.
  unfold activeVariableCount in *. split.
  - intros tp Hact Hmax Hstmt.
    destruct (ChunkTape_store_active opts tp lhsValue lhsIndex rhs Hact Hmax Hstmt Hn)
      as (tp' & E & Hd & Hz & Hnz).
    cbv zeta in *. rewrite Hs in Hnz. exists tp'. auto.
  - intros tp Hact Hmax Hstmt Hfree.
    destruct (ChunkIndexReuseTape_store_active opts tp lhsValue lhsIndex rhs
                Hact Hmax Hstmt Hn Hfree) as (tp' & E & Hd & Hz & Hnz).
    cbv zeta in *. rewrite Hs in Hnz. exists tp'. auto.
Qed.

Lemma store_pushes_one_statement_for_active_rhs_witness :
  (exists tp',
      ChunkTape.store allChecks (Finite 0) 0 exampleRhs (ChunkTape_activeTape allChecks)
      = Some ((Finite 8, 1), tp')
      /\ ChunkVector.records (ChunkTape.statements tp') = [1]
      /\ ChunkVector.records (ChunkTape.data tp') = [(Finite 2, 1)])
  /\ (exists tp',
         ChunkIndexReuseTape.store allChecks (Finite 0) 0 exampleRhs
           (ChunkIndexReuseTape_activeTape allChecks)
         = Some ((Finite 8, 1), tp')
         /\ ChunkVector.records (ChunkIndexReuseTape.statements tp') = [(1, 1)]
         /\ ChunkVector.records (ChunkIndexReuseTape.data tp') = [(Finite 2, 1)]).
Proof.
  assert (Hn : activeVariableCount allChecks exampleRhs <= maxActiveVariables exampleRhs)
    by (vm_compute; discriminate).
  assert (H255 : activeVariableCount allChecks exampleRhs <= 255)
    by (vm_compute; discriminate).
  destruct (store_pushes_one_statement_for_active_rhs XReal _ allChecks exampleRhs
              (Finite 0) 0 Hn H255) as (L & R).
  split.
  - destruct (L (ChunkTape_activeTape allChecks) eq_refl) as (tp' & E & D & _ & S);
      [vm_compute; discriminate|vm_compute; discriminate|].
    exists tp'. split; [exact E|]. split; [|exact D].
    apply S. vm_compute. discriminate.
  - destruct (R (ChunkIndexReuseTape_activeTape allChecks) eq_refl)
      as (tp' & E & D & _ & S);
      [vm_compute; discriminate|vm_compute; discriminate|constructor|].
    exists tp'. split; [exact E|]. split; [|exact D].
    apply S. vm_compute. discriminate.
Defined.

(** C5, at the expression [x + x + ... + x] of 256 operands, stored on an
    active tape after [registerInput(x)]: the store appends 256 jacobian
    entries and pushes one statement, and the count that the statement
    carries is [(StatementInt)256 = 0]. The reverse pass then takes the
    statement to have no arguments: after [setGradient(y, 1)] and
    [evaluate()], [getGradient(x)] is [0], where the derivative is 256.
    The same expression of 255 operands is recorded with the count 255,
    and [getGradient(x)] is 255. This holds on both tapes. *)
Theorem store_statement_count_wraps_at_256_active_variables :
  activeVariableCount allChecks (sumOfCopies 256 1) = 256
  /\ (option_map
        (fun r => (ChunkVector.records (ChunkTape.statements (snd r)),
                   length (ChunkVector.records (ChunkTape.data (snd r)))))
        (ChunkTape_sumOfCopies allChecks 256 (ChunkTape.create allChecks))
      = Some ([0; 0], 256%nat)
      /\ option_map fst
           (ChunkTape_derivative allChecks (ChunkTape_sumOfCopies allChecks 256)
              (ChunkTape.create allChecks))
         = Some (Finite 0)
      /\ option_map
           (fun r => ChunkVector.records (ChunkTape.statements (snd r)))
           (ChunkTape_sumOfCopies allChecks 255 (ChunkTape.create allChecks))
         = Some [0; 255]
      /\ option_map fst
           (ChunkTape_derivative allChecks (ChunkTape_sumOfCopies allChecks 255)
              (ChunkTape.create allChecks))
         = Some (Finite 255))
  /\ (option_map
        (fun r => (ChunkVector.records (ChunkIndexReuseTape.statements (snd r)),
                   length (ChunkVector.records (ChunkIndexReuseTape.data (snd r)))))
        (ChunkIndexReuseTape_sumOfCopies allChecks 256
           (ChunkIndexReuseTape.create allChecks))
      = Some ([(0, 2)], 256%nat)
      /\ option_map fst
           (ChunkIndexReuseTape_derivative allChecks
              (ChunkIndexReuseTape_sumOfCopies allChecks 256)
              (ChunkIndexReuseTape.create allChecks))
         = Some (Finite 0)
      /\ option_map
           (fun r => ChunkVector.records (ChunkIndexReuseTape.statements (snd r)))
           (ChunkIndexReuseTape_sumOfCopies allChecks 255
              (ChunkIndexReuseTape.create allChecks))
         = Some [(255, 2)]
      /\ option_map fst
           (ChunkIndexReuseTape_derivative allChecks
              (ChunkIndexReuseTape_sumOfCopies allChecks 255)
              (ChunkIndexReuseTape.create allChecks))
         = Some (Finite 255)).
Proof. repeat split; vm_compute; reflexivity. Qed.

(** ** Walking a chunk vector *)

Section Walk.
Context {A I : Type}.

(** *** [forEach] visits [recordsBetween] *)

Lemma forEachData_visits {S : Type} (chunkCells : list A) (c : N) (f : A -> M S unit) :
  forall (n : nat) (dataPos : N) (s : S),
    ChunkVector.forEachData chunkCells n dataPos f s
    = match dataBetween chunkCells c n dataPos with
      | Some l => forM (map snd l) f s
      | None => None
      end.
Proof.
  induction n as [|n IH]; intros dataPos s; simpl.
  - reflexivity.
  - unfold bind at 1. unfold getsOpt at 1.
    destruct (lookupN chunkCells (size_dec dataPos)) as [a|]; [|reflexivity].
    unfold bind at 1.
    destruct (dataBetween chunkCells c n (size_dec dataPos)) as [l|] eqn:E.
    + simpl. unfold bind. destruct (f a s) as [[[] s1]|]; [|reflexivity].
      rewrite IH, E. reflexivity.
    + destruct (f a s) as [[[] s1]|]; [|reflexivity].
      rewrite IH, E. reflexivity.
Qed.

Lemma forEachChunks_visits {S : Type} (cv : ChunkVector.t A I) (f : A -> M S unit) :
  forall (n : nat) (chunkPos dataStart : N) (s : S),
    ChunkVector.forEachChunks cv n chunkPos dataStart f s
    = match chunksBetween cv n chunkPos dataStart with
      | Some (l, d) =>
          match forM (map snd l) f s with
          | Some (_, s') => Some (d, s')
          | None => None
          end
      | None => None
      end.
Proof.
  induction n as [|n IH]; intros chunkPos dataStart s; simpl.
  - reflexivity.
  - unfold bind at 1. unfold getsOpt at 1.
    destruct (ChunkVector.getDataAtPosition cv chunkPos) as [chunkCells|];
      [|reflexivity].
    unfold bind at 1.
    rewrite (forEachData_visits chunkCells chunkPos f).
    destruct (ChunkVector.getChunkUsedData cv (chunkPos - 1)) as [d1|] eqn:Eu.
    + destruct (dataBetween chunkCells chunkPos (N.to_nat dataStart) dataStart)
        as [l|]; [|reflexivity].
      destruct (chunksBetween cv n (chunkPos - 1) d1) as [[l' d]|] eqn:Ec.
      * rewrite map_app, forM_app. unfold bind.
        destruct (forM (map snd l) f s) as [[[] s1]|]; [|reflexivity].
        unfold getsOpt. rewrite IH, Ec. reflexivity.
      * destruct (forM (map snd l) f s) as [[[] s1]|]; [|reflexivity].
        unfold bind, getsOpt. rewrite IH, Ec. reflexivity.
    + destruct (dataBetween chunkCells chunkPos (N.to_nat dataStart) dataStart)
        as [l|]; [|reflexivity].
      destruct (forM (map snd l) f s) as [[[] s1]|]; [|reflexivity].
      unfold bind, getsOpt. reflexivity.
Qed.

(** [forEach] runs the visitor on the records between the two positions,
    highest slot first; it is undefined where [recordsBetween] is. *)
Lemma forEach_visits {S : Type} (cv : ChunkVector.t A I)
      (start end_ : ChunkVector.Position I) (f : A -> M S unit) (s : S) :
  ChunkVector.forEach cv start end_ f s
  = match recordsBetween cv start end_ with
    | Some l => forM (map snd l) f s
    | None => None
    end.
Proof.
  unfold ChunkVector.forEach, recordsBetween.
  destruct (ChunkVector.posLe end_ start); [|reflexivity].
  simpl. unfold bind at 1. unfold ret at 1. unfold bind at 1.
  rewrite forEachChunks_visits.
  destruct (chunksBetween cv _ _ _) as [[l d]|]; [|reflexivity].
  destruct (ChunkVector.getDataAtPosition cv (ChunkVector.chunk end_))
    as [chunkCells|] eqn:Ed.
  - destruct (dataBetween chunkCells (ChunkVector.chunk end_)
                (N.to_nat (d - ChunkVector.data end_)) d) as [l'|] eqn:El.
    + rewrite map_app, forM_app. unfold bind.
      destruct (forM (map snd l) f s) as [[[] s1]|]; [|reflexivity].
      unfold getsOpt.
      rewrite (forEachData_visits chunkCells (ChunkVector.chunk end_) f), El.
      reflexivity.
    + destruct (forM (map snd l) f s) as [[[] s1]|]; [|reflexivity].
      unfold bind, getsOpt.
      rewrite (forEachData_visits chunkCells (ChunkVector.chunk end_) f), El.
      reflexivity.
  - destruct (forM (map snd l) f s) as [[[] s1]|]; [|reflexivity].
    unfold bind, getsOpt. reflexivity.
Qed.

(** *** What [recordsBetween] holds *)

Lemma dataBetween_In (chunkCells : list A) (c : N) :
  forall (n : nat) (p : N) (l : list (N * N * A)),
    dataBetween chunkCells c n p = Some l ->
    N.of_nat n <= p ->
    forall c' o a,
      In (c', o, a) l
      <-> c' = c /\ lookupN chunkCells o = Some a /\ p - N.of_nat n <= o < p.
Proof.
  induction n as [|n IH]; intros p l H Hn c' o a; simpl in H.
  - inversion H; subst. simpl. split; [tauto|]. intros (_ & _ & Ho). lia.
  - rewrite size_dec_pos in H by lia.
    destruct (lookupN chunkCells (p - 1)) as [x|] eqn:Ex; [|discriminate].
    destruct (dataBetween chunkCells c n (p - 1)) as [l'|] eqn:El; [|discriminate].
    inversion H; subst; clear H. simpl.
    rewrite (IH (p - 1) l' El) by lia. split.
    + intros [E|(-> & Ho & Hr)].
      * inversion E; subst. repeat split; auto; lia.
      * repeat split; auto; lia.
    + intros (-> & Ho & Hr).
      destruct (N.eq_dec o (p - 1)) as [->|Hne].
      * left. congruence.
      * right. repeat split; auto; lia.
Qed.

Lemma StronglySorted_app {B : Type} (R : B -> B -> Prop) (l l' : list B) :
  StronglySorted R l -> StronglySorted R l' ->
  (forall x y, In x l -> In y l' -> R x y) ->
  StronglySorted R (l ++ l').
Proof.
  induction l as [|x l IH]; intros Hl Hl' Hc; simpl; [assumption|].
  inversion Hl; subst. constructor.
  - apply IH; auto. intros; apply Hc; simpl; auto.
  - apply Forall_app. split; [assumption|].
    apply Forall_forall. intros y Hy. apply Hc; simpl; auto.
Qed.

Lemma dataBetween_sorted (chunkCells : list A) (c : N) :
  forall (n : nat) (p : N) (l : list (N * N * A)),
    dataBetween chunkCells c n p = Some l ->
    N.of_nat n <= p ->
    StronglySorted (fun x y => slotLt (fst y) (fst x)) l.
Proof.
  induction n as [|n IH]; intros p l H Hn; simpl in H.
  - inversion H. constructor.
  - rewrite size_dec_pos in H by lia.
    destruct (lookupN chunkCells (p - 1)) as [x|] eqn:Ex; [|discriminate].
    destruct (dataBetween chunkCells c n (p - 1)) as [l'|] eqn:El; [|discriminate].
    inversion H; subst; clear H. constructor.
    + apply (IH (p - 1)); [assumption|lia].
    + apply Forall_forall. intros [[c' o] a] Hin.
      apply (dataBetween_In chunkCells c n (p - 1) l' El) in Hin; [|lia].
      destruct Hin as (-> & _ & Ho). unfold slotLt. simpl. right. lia.
Qed.

Lemma dataBetween_defined (chunkCells : list A) (c : N) :
  forall (n : nat) (p : N),
    N.of_nat n <= p -> p <= N.of_nat (length chunkCells) ->
    exists l, dataBetween chunkCells c n p = Some l.
Proof.
  induction n as [|n IH]; intros p Hn Hp; simpl.
  - eauto.
  - rewrite size_dec_pos by lia.
    destruct (lookupN chunkCells (p - 1)) as [x|] eqn:Ex.
    + destruct (IH (p - 1)) as [l El]; [lia|lia|]. rewrite El. eauto.
    + unfold lookupN in Ex.
      destruct (N.ltb_spec (p - 1) (N.of_nat (length chunkCells))); [|lia].
      apply nth_error_None in Ex. lia.
Qed.

Lemma dataBetween_Some_bound (chunkCells : list A) (c : N) (n : nat) (p : N)
      (l : list (N * N * A)) :
  dataBetween chunkCells c n p = Some l -> N.of_nat n <= p -> (0 < n)%nat ->
  p <= N.of_nat (length chunkCells).
Proof.
  destruct n as [|n]; [lia|]. simpl. intros H Hn _.
  rewrite size_dec_pos in H by lia.
  destruct (lookupN chunkCells (p - 1)) as [x|] eqn:Ex; [|discriminate].
  apply lookupN_lt in Ex. lia.
Qed.

Lemma getDataAtPosition_Some (cv : ChunkVector.t A I) (c : N) (chunkCells : list A) :
  ChunkVector.getDataAtPosition cv c = Some chunkCells
  <-> exists ch, ChunkVector.getChunk cv c = Some ch
                 /\ chunkCells = ChunkVector.cells ch.
Proof.
  unfold ChunkVector.getDataAtPosition.
  destruct (ChunkVector.getChunk cv c) as [ch|]; simpl; split.
  - intros E. inversion E. eauto.
  - intros (ch' & E & ->). inversion E. reflexivity.
  - discriminate.
  - intros (ch' & E & _). discriminate.
Qed.

Lemma getChunkUsedData_Some (cv : ChunkVector.t A I) (c d : N) :
  ChunkVector.getChunkUsedData cv c = Some d
  <-> exists ch, ChunkVector.getChunk cv c = Some ch /\ d = ChunkVector.used ch.
Proof.
  unfold ChunkVector.getChunkUsedData.
  destruct (ChunkVector.getChunk cv c) as [ch|]; simpl; split.
  - intros E. inversion E. eauto.
  - intros (ch' & E & ->). inversion E. reflexivity.
  - discriminate.
  - intros (ch' & E & _). discriminate.
Qed.

Lemma getChunk_bound (cv : ChunkVector.t A I) (c : N) (ch : ChunkVector.Chunk A I) :
  ChunkVector.getChunk cv c = Some ch ->
  c <= N.of_nat (length (ChunkVector.prior cv)).
Proof.
  unfold ChunkVector.getChunk, ChunkVector.allChunks. intros H.
  apply lookupN_lt in H. rewrite length_app in H. simpl in H. lia.
Qed.

Lemma getChunk_prior (cv : ChunkVector.t A I) (c : N) (ch : ChunkVector.Chunk A I) :
  ChunkVector.getChunk cv c = Some ch ->
  c < N.of_nat (length (ChunkVector.prior cv)) ->
  In ch (ChunkVector.prior cv).
Proof.
  unfold ChunkVector.getChunk, ChunkVector.allChunks. intros H Hc.
  rewrite lookupN_app_l in H by assumption. eapply lookupN_In; eauto.
Qed.

Lemma getChunk_defined (cv : ChunkVector.t A I) (c : N) :
  c <= N.of_nat (length (ChunkVector.prior cv)) ->
  exists ch, ChunkVector.getChunk cv c = Some ch.
Proof.
  intros H. unfold ChunkVector.getChunk, ChunkVector.allChunks, lookupN.
  rewrite length_app. simpl.
  destruct (N.ltb_spec c (N.of_nat (length (ChunkVector.prior cv) + 1))); [|lia].
  destruct (nth_error (ChunkVector.prior cv ++ [ChunkVector.current cv]) (N.to_nat c))
    as [ch|] eqn:E; [eauto|].
  apply nth_error_None in E. rewrite length_app in E. simpl in E. lia.
Qed.

Lemma dense_used (cv : ChunkVector.t A I) (c : N) (ch : ChunkVector.Chunk A I) :
  dense cv ->
  ChunkVector.getChunk cv c = Some ch ->
  c < N.of_nat (length (ChunkVector.prior cv)) ->
  ChunkVector.used ch = N.of_nat (length (ChunkVector.cells ch)).
Proof.
  intros Hd Hc Hlt. unfold dense in Hd. rewrite Forall_forall in Hd.
  apply Hd. eapply getChunk_prior; eauto.
Qed.

Lemma recordAt_Some (cv : ChunkVector.t A I) (c o : N) (a : A) :
  recordAt cv c o = Some a
  <-> exists ch, ChunkVector.getChunk cv c = Some ch
                 /\ lookupN (ChunkVector.cells ch) o = Some a.
Proof.
  unfold recordAt.
  destruct (ChunkVector.getDataAtPosition cv c) as [chunkCells|] eqn:E.
  - apply getDataAtPosition_Some in E. destruct E as (ch & E & ->). split.
    + eauto.
    + intros (ch' & E' & H). congruence.
  - split; [discriminate|]. intros (ch & E' & _).
    assert (ChunkVector.getDataAtPosition cv c = Some (ChunkVector.cells ch))
      by (apply getDataAtPosition_Some; eauto).
    congruence.
Qed.

Lemma chunksBetween_spec (cv : ChunkVector.t A I) :
  dense cv ->
  forall (n : nat) (chunkPos dataStart : N) (l : list (N * N * A)) (d : N),
    chunksBetween cv n chunkPos dataStart = Some (l, d) ->
    N.of_nat n <= chunkPos ->
    (forall c o a,
        In (c, o, a) l
        <-> chunkPos - N.of_nat n < c <= chunkPos
            /\ recordAt cv c o = Some a
            /\ (c = chunkPos -> o < dataStart))
    /\ StronglySorted (fun x y => slotLt (fst y) (fst x)) l
    /\ (n = O -> d = dataStart)
    /\ ((0 < n)%nat ->
        exists ch, ChunkVector.getChunk cv (chunkPos - N.of_nat n) = Some ch
                   /\ d = N.of_nat (length (ChunkVector.cells ch))).
Proof.
  intros Hd. induction n as [|n IH]; intros chunkPos dataStart l d H Hn; simpl in H.
  - inversion H; subst. split; [|split; [constructor|split; [auto|lia]]].
    intros c o a. simpl. split; [tauto|]. intros (Hc & _). lia.
  - destruct (ChunkVector.getDataAtPosition cv chunkPos) as [chunkCells|] eqn:Ed;
      [|discriminate].
    destruct (ChunkVector.getChunkUsedData cv (chunkPos - 1)) as [d1|] eqn:Eu;
      [|discriminate].
    destruct (dataBetween chunkCells chunkPos (N.to_nat dataStart) dataStart)
      as [l1|] eqn:E1; [|discriminate].
    destruct (chunksBetween cv n (chunkPos - 1) d1) as [[l2 d2]|] eqn:E2;
      [|discriminate].
    inversion H; subst; clear H.
    apply getDataAtPosition_Some in Ed. destruct Ed as (ch0 & Ech0 & ->).
    apply getChunkUsedData_Some in Eu. destruct Eu as (ch1 & Ech1 & ->).
    pose proof (getChunk_bound _ _ _ Ech0) as Hb0.
    assert (Hu1 : ChunkVector.used ch1 = N.of_nat (length (ChunkVector.cells ch1))).
    { eapply dense_used; eauto. lia. }
    destruct (IH (chunkPos - 1) (ChunkVector.used ch1) l2 d E2) as (In2 & S2 & Z2 & P2);
      [lia|].
    pose proof (dataBetween_In _ chunkPos _ _ _ E1) as In1.
    pose proof (dataBetween_sorted _ chunkPos _ _ _ E1) as S1.
    split; [|split; [|split; [discriminate|]]].
    + intros c o a. rewrite in_app_iff, In1, In2 by lia. split.
      * intros [(-> & Ho & Hr)|(Hc & Hr & Ho)].
        -- split; [lia|]. split; [|intros _; lia].
           apply recordAt_Some. eauto.
        -- split; [lia|]. split; [assumption|]. intros ->. lia.
      * intros (Hc & Hr & Ho).
        destruct (N.eq_dec c chunkPos) as [->|Hne].
        -- left. split; [reflexivity|]. split; [|specialize (Ho eq_refl); lia].
           apply recordAt_Some in Hr. destruct Hr as (ch & E & Hl). congruence.
        -- right. split; [lia|]. split; [assumption|]. intros ->.
           apply recordAt_Some in Hr. destruct Hr as (ch & E & Hl).
           assert (ch = ch1) by congruence. subst ch.
           apply lookupN_lt in Hl. lia.
    + apply StronglySorted_app; [apply S1; lia|assumption|].
      intros [[c1 o1] a1] [[c2 o2] a2] H1 H2.
      apply In1 in H1; [|lia]. apply In2 in H2.
      unfold slotLt. simpl. left. lia.
    + intros _. destruct n as [|n'].
      * rewrite (Z2 eq_refl). exists ch1. split; [|assumption].
        replace (chunkPos - N.of_nat 1) with (chunkPos - 1) by lia. assumption.
      * destruct P2 as (ch & E & ->); [lia|]. exists ch. split; [|reflexivity].
        replace (chunkPos - N.of_nat (S (S n')))
          with (chunkPos - 1 - N.of_nat (S n')) by lia.
        assumption.
Qed.

Lemma chunksBetween_defined (cv : ChunkVector.t A I) :
  dense cv ->
  forall (n : nat) (chunkPos dataStart : N) (ch : ChunkVector.Chunk A I),
    N.of_nat n <= chunkPos ->
    ChunkVector.getChunk cv chunkPos = Some ch ->
    dataStart <= N.of_nat (length (ChunkVector.cells ch)) ->
    exists l d, chunksBetween cv n chunkPos dataStart = Some (l, d).
Proof.
  intros Hd. induction n as [|n IH]; intros chunkPos dataStart ch Hn Hc Hs; simpl.
  - eauto.
  - assert (Ed : ChunkVector.getDataAtPosition cv chunkPos
                 = Some (ChunkVector.cells ch))
      by (apply getDataAtPosition_Some; eauto).
    rewrite Ed.
    pose proof (getChunk_bound _ _ _ Hc) as Hb.
    destruct (getChunk_defined cv (chunkPos - 1)) as [ch1 Ech1]; [lia|].
    assert (Eu : ChunkVector.getChunkUsedData cv (chunkPos - 1)
                 = Some (ChunkVector.used ch1))
      by (apply getChunkUsedData_Some; eauto).
    rewrite Eu.
    destruct (dataBetween_defined (ChunkVector.cells ch) chunkPos
                (N.to_nat dataStart) dataStart) as [l1 E1]; [lia|lia|].
    rewrite E1.
    destruct (IH (chunkPos - 1) (ChunkVector.used ch1) ch1) as (l2 & d & E2);
      [lia|assumption| |].
    + rewrite (dense_used cv (chunkPos - 1) ch1); auto; lia.
    + rewrite E2. eauto.
Qed.

(** Between a valid start and an end at or below it, in a dense vector,
    [recordsBetween] is defined and holds exactly the records of the
    slots from [end] up to, not including, [start], highest first. *)
Lemma recordsBetween_spec (cv : ChunkVector.t A I)
      (start end_ : ChunkVector.Position I) :
  dense cv ->
  validPosition cv start ->
  ChunkVector.posLe end_ start = true ->
  exists l, recordsBetween cv start end_ = Some l /\ visitsExactly cv start end_ l.
Proof.
  intros Hd (chs & Echs & Hsd) Hle.
  unfold recordsBetween. rewrite Hle.
  set (sc := ChunkVector.chunk start) in *.
  set (sd := ChunkVector.data start) in *.
  set (ec := ChunkVector.chunk end_) in *.
  set (ed := ChunkVector.data end_) in *.
  assert (Hord : ec < sc \/ (ec = sc /\ ed <= sd)).
  { unfold ChunkVector.posLe in Hle. fold sc sd ec ed in Hle.
    apply orb_true_iff in Hle. destruct Hle as [H|H].
    - apply N.ltb_lt in H. auto.
    - apply andb_true_iff in H. destruct H as [H1 H2].
      apply N.eqb_eq in H1. apply N.leb_le in H2. auto. }
  destruct (chunksBetween_defined cv Hd (N.to_nat (sc - ec)) sc sd chs)
    as (l & d & El); [lia|assumption|assumption|].
  rewrite El.
  destruct (chunksBetween_spec cv Hd _ _ _ _ _ El) as (Inl & Sl & Zl & Pl); [lia|].
  pose proof (getChunk_bound _ _ _ Echs) as Hb.
  destruct (getChunk_defined cv ec) as [che Eche]; [lia|].
  assert (Ed : ChunkVector.getDataAtPosition cv ec = Some (ChunkVector.cells che))
    by (apply getDataAtPosition_Some; eauto).
  rewrite Ed.
  assert (Hd_le : d <= N.of_nat (length (ChunkVector.cells che))).
  { destruct (N.to_nat (sc - ec)) as [|k] eqn:Ek.
    - rewrite (Zl eq_refl). assert (ec = sc) by lia.
      assert (che = chs) by congruence. subst. assumption.
    - destruct Pl as (ch & E & ->); [lia|].
      replace (sc - N.of_nat (S k)) with ec in E by lia.
      assert (ch = che) by congruence. subst. lia. }
  destruct (dataBetween_defined (ChunkVector.cells che) ec (N.to_nat (d - ed)) d)
    as [l' El']; [lia|assumption|].
  rewrite El'. exists (l ++ l'). split; [reflexivity|].
  pose proof (dataBetween_In _ ec _ _ _ El') as Inl'.
  pose proof (dataBetween_sorted _ ec _ _ _ El') as Sl'.
  assert (Hd_eq : (ec = sc -> d = sd)
                  /\ (ec < sc -> d = N.of_nat (length (ChunkVector.cells che)))).
  { split; intros H.
    - apply Zl. lia.
    - destruct Pl as (ch & E & ->); [lia|].
      replace (sc - N.of_nat (N.to_nat (sc - ec))) with ec in E by lia.
      congruence. }
  destruct Hd_eq as [Hd0 Hd1].
  split.
  - apply StronglySorted_app; [assumption|apply Sl'; lia|].
    intros [[c1 o1] a1] [[c2 o2] a2] H1 H2.
    apply Inl in H1. apply Inl' in H2; [|lia].
    unfold slotLt. simpl. left. lia.
  - intros c o a. rewrite in_app_iff, Inl, Inl' by lia.
    unfold slotLe, slotLt, positionSlot. fold sc sd ec ed. simpl. split.
    + intros [(Hc & Hr & Ho)|(-> & Hl & Ho)].
      * split; [assumption|]. split; [right; left; lia|].
        destruct (N.eq_dec c sc) as [->|Hne]; [right; auto|left; lia].
      * split; [apply recordAt_Some; eauto|]. split.
        -- destruct (N.eq_dec o ed) as [->|Hne]; [left; reflexivity|right; right; lia].
        -- destruct Hord as [Hlt|[Heq Hle']]; [left; assumption|].
           right. split; [assumption|]. rewrite (Hd0 Heq) in Ho. lia.
    + intros (Hr & Hlo & Hhi).
      assert (Hlo' : ec < c \/ (ec = c /\ ed <= o)).
      { destruct Hlo as [E|[H|[H1 H2]]]; [inversion E; right; lia|auto|right; lia]. }
      destruct Hlo' as [Hc|[<- Ho]].
      * left. split; [lia|]. split; [assumption|]. intros ->. lia.
      * right. split; [reflexivity|].
        apply recordAt_Some in Hr. destruct Hr as (ch & E & Hl).
        assert (ch = che) by congruence. subst ch.
        split; [assumption|]. pose proof (lookupN_lt _ _ _ Hl) as Hlt.
        destruct Hhi as [Hlt'|[Heq Hlt']].
        -- rewrite (Hd1 Hlt'). lia.
        -- rewrite (Hd0 Heq). lia.
Qed.

End Walk.

(** ** External functions in the reverse pass *)

Lemma wellFormed_dense {A I : Type} (cv : ChunkVector.t A I) :
  wellFormed cv -> dense cv.
Proof.
  intros (H & _). unfold dense. eapply Forall_impl; [|exact H].
  intros ch (Hs & Hc). unfold ChunkVector.used. rewrite Hs. exact Hc.
Qed.

Lemma create_wellFormed {A I : Type} (size : N) (ip : I) :
  wellFormed (ChunkVector.create (A:=A) size ip).
Proof. unfold wellFormed. simpl. split; [constructor|split; [reflexivity|lia]]. Qed.

Lemma reserveItems_one_wellFormed {A I : Type} (ip : I) (cv : ChunkVector.t A I) :
  wellFormed cv -> wellFormed (ChunkVector.reserveItems 1 ip cv).
Proof.
  intros (Hp & Hs & Hc). unfold ChunkVector.reserveItems.
  destruct (N.leb_spec (ChunkVector.used (ChunkVector.current cv) + 1)
                       (ChunkVector.capacity (ChunkVector.current cv))) as [H|H].
  - split; auto.
  - unfold ChunkVector.used in H. rewrite Hs in H.
    unfold wellFormed. simpl. split; [|split; [reflexivity|lia]].
    apply Forall_app. split; [assumption|]. constructor; [|constructor].
    simpl. split; [reflexivity|lia].
Qed.

Lemma setDataAndMove_wellFormed {A I : Type} (a : A) (cv cv' : ChunkVector.t A I) :
  wellFormed cv -> ChunkVector.setDataAndMove a cv = Some cv' -> wellFormed cv'.
Proof.
  intros (Hp & Hs & Hc) H. unfold ChunkVector.setDataAndMove in H.
  destruct (N.ltb_spec (ChunkVector.used (ChunkVector.current cv))
                       (ChunkVector.capacity (ChunkVector.current cv))) as [Hlt|];
    [|discriminate].
  inversion H; subst; clear H. unfold ChunkVector.used in Hlt. rewrite Hs in Hlt.
  unfold wellFormed. simpl. split; [assumption|split; [reflexivity|]].
  rewrite length_app. simpl. lia.
Qed.

Section Reverse.
Context {Real : Type} {RO : RealOps Real}.
Variable opts : Options.

(** *** The linear-index tape *)

Lemma ChunkTape_calls_are_segments
      (records : list (ExternalFunction.t * ChunkTape.StatementPosition))
      (end_ : ChunkTape.StatementPosition) :
  forall (frontier : ChunkTape.StatementPosition) (tp : ChunkTape.t),
    match forM records (ChunkTape.ExtFuncEvaluator_call opts)
               (ChunkTape.mkExtFuncEvaluator frontier tp) with
    | Some (_, ev) =>
        ChunkTape.evaluateStmt opts (ChunkTape.curInnerPos ev) end_ (ChunkTape.tape ev)
    | None => None
    end
    = ChunkTape_evaluateSegments opts frontier records end_ tp.
Proof.
  induction records as [|[f boundary] rest IH]; intros frontier tp.
  - reflexivity.
  - cbn [forM ChunkTape_evaluateSegments].
    unfold bind at 1 2. unfold ChunkTape.ExtFuncEvaluator_call.
    unfold bind, gets, modify, ChunkTape.onTape, ChunkTape.extFunc_evaluate.
    cbn [ChunkTape.curInnerPos ChunkTape.tape].
    destruct (ChunkTape.evaluateStmt opts frontier boundary tp) as [[[] tp1]|];
      [|reflexivity].
    cbn [ChunkTape.curInnerPos ChunkTape.tape]. apply IH.
Qed.

Lemma ChunkTape_evaluateExtFunc_segments (start end_ : ChunkTape.Position)
      (tp : ChunkTape.t) :
  ChunkTape.evaluateExtFunc opts start end_ tp
  = match recordsBetween (ChunkTape.externalFunctions tp) start end_ with
    | Some l =>
        ChunkTape_evaluateSegments opts (ChunkVector.inner start) (map snd l)
                                   (ChunkVector.inner end_) tp
    | None => None
    end.
Proof.
  unfold ChunkTape.evaluateExtFunc. rewrite forEach_visits.
  destruct (recordsBetween (ChunkTape.externalFunctions tp) start end_) as [l|];
    [|reflexivity].
  apply ChunkTape_calls_are_segments.
Qed.

Lemma ChunkTape_growAdjoints_run (tp : ChunkTape.t) :
  exists tp1,
    ChunkTape_growAdjoints tp = Some (tt, tp1)
    /\ ChunkTape.externalFunctions tp1 = ChunkTape.externalFunctions tp.
Proof.
  unfold ChunkTape_growAdjoints, bind, gets.
  destruct (ChunkTape.adjointsSize tp <=? ChunkTape.expressionCount tp).
  - unfold ChunkTape.resizeAdjoints, modify. eexists. split; reflexivity.
  - unfold ret. eexists. split; reflexivity.
Qed.

Lemma ChunkTape_evaluate_segments (start end_ : ChunkTape.Position) (tp : ChunkTape.t)
      (l : list (N * N * (ExternalFunction.t * ChunkTape.StatementPosition))) :
  recordsBetween (ChunkTape.externalFunctions tp) start end_ = Some l ->
  ChunkTape.evaluate opts start end_ tp
  = (ChunkTape_growAdjoints ;;
     ChunkTape_evaluateSegments opts (ChunkVector.inner start) (map snd l)
                                (ChunkVector.inner end_)) tp.
Proof.
  intros H. destruct (ChunkTape_growAdjoints_run tp) as (tp1 & E & Hext).
  unfold bind at 1. rewrite E.
  assert (Ev : ChunkTape.evaluate opts start end_ tp
               = ChunkTape.evaluateExtFunc opts start end_ tp1).
  { unfold ChunkTape.evaluate. unfold ChunkTape_growAdjoints in E.
    unfold bind, gets in *.
    destruct (ChunkTape.adjointsSize tp <=? ChunkTape.expressionCount tp).
    - destruct (ChunkTape.resizeAdjoints _ tp) as [[[] tp2]|]; [|discriminate].
      inversion E. reflexivity.
    - unfold ret in *. inversion E. reflexivity. }
  rewrite Ev, ChunkTape_evaluateExtFunc_segments, Hext, H. reflexivity.
Qed.

Lemma ChunkTape_push_boundary (tp : ChunkTape.t (Real:=Real)) (f : ExternalFunction.t) :
  1 <= ChunkVector.chunkSize (ChunkTape.externalFunctions tp) ->
  exists tp' : ChunkTape.t (Real:=Real),
    ChunkTape.pushExternalFunctionHandle f tp = Some (tt, tp')
    /\ ChunkVector.records (ChunkTape.externalFunctions tp')
       = ChunkVector.records (ChunkTape.externalFunctions tp)
         ++ [(f, ChunkTape.statements_getPosition tp)]
    /\ tp' = ChunkTape.set_externalFunctions (ChunkTape.externalFunctions tp') tp
    /\ (wellFormed (ChunkTape.externalFunctions tp) ->
        wellFormed (ChunkTape.externalFunctions tp')).
Proof.
  intros Hsize. unfold ChunkTape.pushExternalFunctionHandle.
  unfold bind, modify, modifyOpt. simpl.
  destruct (reserveItems_room 1 (ChunkTape.statements_getPosition tp)
              (ChunkTape.externalFunctions tp) Hsize) as [Hroom _].
  set (e1 := ChunkVector.reserveItems 1 (ChunkTape.statements_getPosition tp)
               (ChunkTape.externalFunctions tp)) in *.
  change (ChunkTape.statements_getPosition (ChunkTape.set_externalFunctions e1 tp))
    with (ChunkTape.statements_getPosition tp).
  destruct (setDataAndMove_room (f, ChunkTape.statements_getPosition tp) e1)
    as (e2 & E & Hrec & _); [unfold hasRoom; lia|].
  rewrite E. simpl. eexists. split; [reflexivity|]. simpl.
  split; [rewrite Hrec; unfold e1; rewrite reserveItems_records; reflexivity|].
  split; [reflexivity|].
  intros Hwf. eapply setDataAndMove_wellFormed; [|exact E].
  apply reserveItems_one_wellFormed. exact Hwf.
Qed.

(** *** The reuse-index tape *)

Lemma ChunkIndexReuseTape_calls_are_segments
      (records : list (ExternalFunction.t * ChunkIndexReuseTape.StatementPosition))
      (end_ : ChunkIndexReuseTape.StatementPosition) :
  forall (frontier : ChunkIndexReuseTape.StatementPosition)
         (tp : ChunkIndexReuseTape.t),
    match forM records (ChunkIndexReuseTape.ExtFuncEvaluator_call opts)
               (ChunkIndexReuseTape.mkExtFuncEvaluator frontier tp) with
    | Some (_, ev) =>
        ChunkIndexReuseTape.evaluateStmt opts (ChunkIndexReuseTape.curInnerPos ev)
                                         end_ (ChunkIndexReuseTape.tape ev)
    | None => None
    end
    = ChunkIndexReuseTape_evaluateSegments opts frontier records end_ tp.
Proof.
  induction records as [|[f boundary] rest IH]; intros frontier tp.
  - reflexivity.
  - cbn [forM ChunkIndexReuseTape_evaluateSegments].
    unfold bind at 1 2. unfold ChunkIndexReuseTape.ExtFuncEvaluator_call.
    unfold bind, gets, modify, ChunkIndexReuseTape.onTape,
      ChunkIndexReuseTape.extFunc_evaluate.
    cbn [ChunkIndexReuseTape.curInnerPos ChunkIndexReuseTape.tape].
    destruct (ChunkIndexReuseTape.evaluateStmt opts frontier boundary tp)
      as [[[] tp1]|]; [|reflexivity].
    cbn [ChunkIndexReuseTape.curInnerPos ChunkIndexReuseTape.tape]. apply IH.
Qed.

Lemma ChunkIndexReuseTape_evaluateExtFunc_segments
      (start end_ : ChunkIndexReuseTape.Position) (tp : ChunkIndexReuseTape.t) :
  ChunkIndexReuseTape.evaluateExtFunc opts start end_ tp
  = match recordsBetween (ChunkIndexReuseTape.externalFunctions tp) start end_ with
    | Some l =>
        ChunkIndexReuseTape_evaluateSegments opts (ChunkVector.inner start)
                                             (map snd l) (ChunkVector.inner end_) tp
    | None => None
    end.
Proof.
  unfold ChunkIndexReuseTape.evaluateExtFunc. rewrite forEach_visits.
  destruct (recordsBetween (ChunkIndexReuseTape.externalFunctions tp) start end_)
    as [l|]; [|reflexivity].
  apply ChunkIndexReuseTape_calls_are_segments.
Qed.

Lemma ChunkIndexReuseTape_growAdjoints_run (tp : ChunkIndexReuseTape.t) :
  exists tp1,
    ChunkIndexReuseTape_growAdjoints tp = Some (tt, tp1)
    /\ ChunkIndexReuseTape.externalFunctions tp1
       = ChunkIndexReuseTape.externalFunctions tp.
Proof.
  unfold ChunkIndexReuseTape_growAdjoints, bind, gets.
  destruct (ChunkIndexReuseTape.adjointsSize tp
            <=? IndexHandler.getMaximumGlobalIndex (ChunkIndexReuseTape.indexHandler tp)).
  - unfold ChunkIndexReuseTape.resizeAdjoints, modify. eexists. split; reflexivity.
  - unfold ret. eexists. split; reflexivity.
Qed.

Lemma ChunkIndexReuseTape_evaluate_segments
      (start end_ : ChunkIndexReuseTape.Position) (tp : ChunkIndexReuseTape.t)
      (l : list (N * N * (ExternalFunction.t * ChunkIndexReuseTape.StatementPosition))) :
  recordsBetween (ChunkIndexReuseTape.externalFunctions tp) start end_ = Some l ->
  ChunkIndexReuseTape.evaluate opts start end_ tp
  = (ChunkIndexReuseTape_growAdjoints ;;
     ChunkIndexReuseTape_evaluateSegments opts (ChunkVector.inner start) (map snd l)
                                          (ChunkVector.inner end_)) tp.
Proof.
  intros H. destruct (ChunkIndexReuseTape_growAdjoints_run tp) as (tp1 & E & Hext).
  unfold bind at 1. rewrite E.
  assert (Ev : ChunkIndexReuseTape.evaluate opts start end_ tp
               = ChunkIndexReuseTape.evaluateExtFunc opts start end_ tp1).
  { unfold ChunkIndexReuseTape.evaluate. unfold ChunkIndexReuseTape_growAdjoints in E.
    unfold bind, gets in *.
    destruct (ChunkIndexReuseTape.adjointsSize tp
              <=? IndexHandler.getMaximumGlobalIndex
                    (ChunkIndexReuseTape.indexHandler tp)).
    - destruct (ChunkIndexReuseTape.resizeAdjoints _ tp) as [[[] tp2]|];
        [|discriminate].
      inversion E. reflexivity.
    - unfold ret in *. inversion E. reflexivity. }
  rewrite Ev, ChunkIndexReuseTape_evaluateExtFunc_segments, Hext, H. reflexivity.
Qed.

Lemma ChunkIndexReuseTape_push_boundary (tp : ChunkIndexReuseTape.t (Real:=Real))
      (f : ExternalFunction.t) :
  1 <= ChunkVector.chunkSize (ChunkIndexReuseTape.externalFunctions tp) ->
  exists tp' : ChunkIndexReuseTape.t (Real:=Real),
    ChunkIndexReuseTape.pushExternalFunctionHandle f tp = Some (tt, tp')
    /\ ChunkVector.records (ChunkIndexReuseTape.externalFunctions tp')
       = ChunkVector.records (ChunkIndexReuseTape.externalFunctions tp)
         ++ [(f, ChunkIndexReuseTape.statements_getPosition tp)]
    /\ tp' = ChunkIndexReuseTape.set_externalFunctions
               (ChunkIndexReuseTape.externalFunctions tp') tp
    /\ (wellFormed (ChunkIndexReuseTape.externalFunctions tp) ->
        wellFormed (ChunkIndexReuseTape.externalFunctions tp')).
Proof.
  intros Hsize. unfold ChunkIndexReuseTape.pushExternalFunctionHandle.
  unfold bind, modify, modifyOpt. simpl.
  destruct (reserveItems_room 1 (ChunkIndexReuseTape.statements_getPosition tp)
              (ChunkIndexReuseTape.externalFunctions tp) Hsize) as [Hroom _].
  set (e1 := ChunkVector.reserveItems 1 (ChunkIndexReuseTape.statements_getPosition tp)
               (ChunkIndexReuseTape.externalFunctions tp)) in *.
  change (ChunkIndexReuseTape.statements_getPosition
            (ChunkIndexReuseTape.set_externalFunctions e1 tp))
    with (ChunkIndexReuseTape.statements_getPosition tp).
  destruct (setDataAndMove_room (f, ChunkIndexReuseTape.statements_getPosition tp) e1)
    as (e2 & E & Hrec & _); [unfold hasRoom; lia|].
  rewrite E. simpl. eexists. split; [reflexivity|]. simpl.
  split; [rewrite Hrec; unfold e1; rewrite reserveItems_records; reflexivity|].
  split; [reflexivity|].
  intros Hwf. eapply setDataAndMove_wellFormed; [|exact E].
  apply reserveItems_one_wellFormed. exact Hwf.
Qed.

End Reverse.

(** ** Triples *)

Lemma hoare_ret {S A : Type} (P : S -> Prop) (Q : A -> S -> Prop) (a : A) :
  (forall s, P s -> Q a s) -> hoare P (ret a) Q.
Proof. intros H s a' s' HP E. apply ret_inv in E. destruct E as [-> ->]. auto. Qed.

Lemma hoare_bind {S A B : Type} (P : S -> Prop) (Q : A -> S -> Prop)
      (R : B -> S -> Prop) (m : M S A) (f : A -> M S B) :
  hoare P m Q -> (forall a, hoare (Q a) (f a) R) -> hoare P (bind m f) R.
Proof.
  intros Hm Hf s b s' HP E. bind_inv E as a s1 E1.
  eapply Hf; [|exact E]. eapply Hm; eauto.
Qed.

Lemma hoare_conseq {S A : Type} (P P' : S -> Prop) (Q Q' : A -> S -> Prop) (m : M S A) :
  hoare P m Q -> (forall s, P' s -> P s) -> (forall a s, Q a s -> Q' a s) ->
  hoare P' m Q'.
Proof. intros H HP HQ s a s' HP' E. apply HQ. eapply H; eauto. Qed.

Lemma hoare_gets {S A : Type} (P : S -> Prop) (f : S -> A) :
  hoare P (gets f) (fun a s => P s /\ a = f s).
Proof. intros s a s' HP E. apply gets_inv in E. destruct E as [-> ->]. auto. Qed.

Lemma hoare_getsOpt {S A : Type} (P : S -> Prop) (f : S -> option A) :
  hoare P (getsOpt f) (fun a s => P s /\ f s = Some a).
Proof. intros s a s' HP E. apply getsOpt_inv in E. destruct E as [E ->]. auto. Qed.

Lemma hoare_modify {S : Type} (P : S -> Prop) (Q : unit -> S -> Prop) (f : S -> S) :
  (forall s, P s -> Q tt (f s)) -> hoare P (modify f) Q.
Proof. intros H s [] s' HP E. apply modify_inv in E. subst. auto. Qed.

Lemma hoare_modifyOpt {S : Type} (P : S -> Prop) (Q : unit -> S -> Prop)
      (f : S -> option S) :
  (forall s s', P s -> f s = Some s' -> Q tt s') -> hoare P (modifyOpt f) Q.
Proof. intros H s [] s' HP E. apply modifyOpt_inv in E. eauto. Qed.

Lemma hoare_assert {S : Type} (P : S -> Prop) (b : bool) :
  hoare P (assert b) (fun _ s => P s /\ b = true).
Proof.
  intros s a s' HP. unfold assert. destruct b; intros E; [|discriminate].
  apply ret_inv in E. destruct E as [_ ->]. auto.
Qed.

Lemma hoare_forM {S A : Type} (P : S -> Prop) (l : list A) (f : A -> M S unit) :
  (forall x, In x l -> hoare P (f x) (fun _ => P)) ->
  hoare P (forM l f) (fun _ => P).
Proof.
  induction l as [|x l IH]; intros H; simpl.
  - apply hoare_ret. auto.
  - eapply hoare_bind; [apply H; simpl; auto|].
    intros u. apply IH. intros y Hy. apply H. simpl. auto.
Qed.

Lemma hoare_forEach {S A I : Type} (P : S -> Prop) (cv : ChunkVector.t A I)
      (start end_ : ChunkVector.Position I) (f : A -> M S unit) :
  (forall x, hoare P (f x) (fun _ => P)) ->
  hoare P (ChunkVector.forEach cv start end_ f) (fun _ => P).
Proof.
  intros H s a s' HP E. rewrite forEach_visits in E.
  destruct (recordsBetween cv start end_) as [l|]; [|discriminate].
  eapply hoare_forM; eauto.
Qed.

(** ** Records of a chunk vector *)

Lemma records_of_chunk {A I : Type} (cv : ChunkVector.t A I) (c : N)
      (chunkCells : list A) :
  ChunkVector.getDataAtPosition cv c = Some chunkCells ->
  incl chunkCells (ChunkVector.records cv).
Proof.
  intros H. apply getDataAtPosition_Some in H. destruct H as (ch & E & ->).
  unfold ChunkVector.getChunk in E. apply lookupN_In in E.
  unfold ChunkVector.records. intros x Hx. apply in_concat.
  exists (ChunkVector.cells ch). split; [|assumption].
  apply in_map. assumption.
Qed.

Lemma firstn_incl {B : Type} (n : nat) (l : list B) : incl (firstn n l) l.
Proof.
  revert n. induction l as [|x l IH]; intros [|n]; simpl; intros y Hy;
    try contradiction.
  destruct Hy as [->|Hy]; [left; reflexivity|right; eapply IH; eauto].
Qed.

Lemma reset_records {A I : Type} (pos : ChunkVector.Position I)
      (cv cv' : ChunkVector.t A I) :
  ChunkVector.reset pos cv = Some cv' ->
  incl (ChunkVector.records cv') (ChunkVector.records cv).
Proof.
  unfold ChunkVector.reset.
  destruct (ChunkVector.getChunk cv (ChunkVector.chunk pos)) as [ch|] eqn:E;
    [|discriminate].
  destruct (ChunkVector.data pos <=? N.of_nat (length (ChunkVector.cells ch)));
    [|discriminate].
  intros H. inversion H; subst; clear H.
  unfold ChunkVector.getChunk in E. apply lookupN_In in E.
  rewrite records_split. simpl. intros x Hx. apply in_app_or in Hx.
  unfold ChunkVector.records. apply in_concat.
  destruct Hx as [Hx|Hx].
  - apply in_concat in Hx. destruct Hx as (cells & Hc & Hx).
    exists cells. split; [|assumption].
    apply in_map_iff in Hc. destruct Hc as (ch' & <- & Hc).
    apply in_map. eapply firstn_incl; eauto.
  - exists (ChunkVector.cells ch). split; [apply in_map; assumption|].
    eapply firstn_incl; eauto.
Qed.

Lemma setChunkSize_records {A I : Type} (size : N) (cv : ChunkVector.t A I) :
  ChunkVector.records (ChunkVector.setChunkSize size cv) = ChunkVector.records cv.
Proof. rewrite !records_split. reflexivity. Qed.

Lemma indicesNonzero_incl {Real : Type} (l l' : list (Real * N)) :
  incl l l' -> indicesNonzero l' -> indicesNonzero l.
Proof.
  unfold indicesNonzero. rewrite !Forall_forall. intros Hi H x Hx. auto.
Qed.

Lemma indicesNonzero_app {Real : Type} (l l' : list (Real * N)) :
  indicesNonzero l -> indicesNonzero l' -> indicesNonzero (l ++ l').
Proof. intros H H'. apply Forall_app. auto. Qed.

(** ** Keeping an invariant *)

Lemma keeps_ret {S A : Type} (P : S -> Prop) (a : A) : hoare P (ret a) (fun _ => P).
Proof. apply hoare_ret. auto. Qed.

Lemma keeps_bind {S A B : Type} (P : S -> Prop) (m : M S A) (f : A -> M S B) :
  hoare P m (fun _ => P) -> (forall a, hoare P (f a) (fun _ => P)) ->
  hoare P (bind m f) (fun _ => P).
Proof. intros Hm Hf. eapply hoare_bind; [exact Hm|exact Hf]. Qed.

Lemma keeps_gets {S A : Type} (P : S -> Prop) (f : S -> A) :
  hoare P (gets f) (fun _ => P).
Proof. intros s a s' HP E. apply gets_inv in E. destruct E as [_ ->]. auto. Qed.

Lemma keeps_getsOpt {S A : Type} (P : S -> Prop) (f : S -> option A) :
  hoare P (getsOpt f) (fun _ => P).
Proof. intros s a s' HP E. apply getsOpt_inv in E. destruct E as [_ ->]. auto. Qed.

Lemma keeps_assert {S : Type} (P : S -> Prop) (b : bool) :
  hoare P (assert b) (fun _ => P).
Proof.
  eapply hoare_conseq; [apply (hoare_assert P b)|auto|]. intros a s [H _]. exact H.
Qed.

Lemma keeps_undefined {S A : Type} (P : S -> Prop) :
  hoare P (undefined (A:=A)) (fun _ => P).
Proof. intros s a s' _ E. discriminate. Qed.

Lemma keeps_modify {S : Type} (P : S -> Prop) (f : S -> S) :
  (forall s, P s -> P (f s)) -> hoare P (modify f) (fun _ => P).
Proof. intros H. apply hoare_modify. auto. Qed.

Lemma keeps_modifyOpt {S : Type} (P : S -> Prop) (f : S -> option S) :
  (forall s s', P s -> f s = Some s' -> P s') -> hoare P (modifyOpt f) (fun _ => P).
Proof. intros H. apply hoare_modifyOpt. auto. Qed.

(** One step through a sequence of binds that keeps the invariant. *)
Ltac keeps_step :=
  lazymatch goal with
  | |- hoare _ (bind _ _) _ => apply keeps_bind; [|intros ?]
  | |- hoare _ (ret _) _ => apply keeps_ret
  | |- hoare _ (gets _) _ => apply keeps_gets
  | |- hoare _ (getsOpt _) _ => apply keeps_getsOpt
  | |- hoare _ (assert _) _ => apply keeps_assert
  | |- hoare _ undefined _ => apply keeps_undefined
  | |- hoare _ (if ?b then _ else _) _ => destruct b
  | |- hoare _ (match ?x with (_, _) => _ end) _ => destruct x
  | |- hoare _ (let (_, _) := ?x in _) _ => destruct x
  end.

(** ** Slot zero of the adjoint vector: the linear-index tape *)

Section LinearSlotZero.
Context {Real : Type} {RO : RealOps Real}.
Variable opts : Options.

Local Abbreviation Inv := (ChunkTape_slotZeroClean (Real:=Real)).

Lemma ChunkTape_Inv_ext (tp tp' : ChunkTape.t) :
  ChunkTape.adjoints tp' = ChunkTape.adjoints tp ->
  ChunkTape.trace tp' = ChunkTape.trace tp ->
  ChunkTape.data tp' = ChunkTape.data tp ->
  Inv tp -> Inv tp'.
Proof.
  unfold ChunkTape_slotZeroClean. intros -> -> ->. auto.
Qed.

Lemma ChunkTape_Inv_create : Inv (ChunkTape.create opts).
Proof.
  unfold ChunkTape_slotZeroClean. simpl. split; [|split; constructor].
  intros v H. discriminate.
Qed.

Lemma ChunkTape_keeps_frame (f : ChunkTape.t -> ChunkTape.t) :
  (forall tp, ChunkTape.adjoints (f tp) = ChunkTape.adjoints tp) ->
  (forall tp, ChunkTape.trace (f tp) = ChunkTape.trace tp) ->
  (forall tp, ChunkTape.data (f tp) = ChunkTape.data tp) ->
  hoare Inv (modify f) (fun _ => Inv).
Proof.
  intros Ha Ht Hd. apply keeps_modify. intros tp H.
  eapply ChunkTape_Inv_ext; eauto.
Qed.

Lemma ChunkTape_keeps_writeAdjoint (i : N) (v : Real) :
  (i = 0 -> v = zero) ->
  hoare Inv (ChunkTape.writeAdjoint i v) (fun _ => Inv).
Proof.
  intros Hv tp u tp' (H0 & Ht & Hd) E.
  apply ChunkTape_writeAdjoint_inv in E. destruct E as (a & Eu & ->).
  unfold ChunkTape_slotZeroClean. simpl. split; [|split].
  - intros w Hw. destruct (N.eq_dec i 0) as [->|Hi].
    + rewrite (updateN_lookup_same _ _ _ _ Eu) in Hw.
      assert (v = zero) by auto. congruence.
    + rewrite (updateN_lookup_other _ _ _ _ _ Eu Hi) in Hw. auto.
  - apply Forall_app. split; [assumption|]. constructor; [exact Hv|constructor].
  - assumption.
Qed.

Lemma ChunkTape_keeps_readAdjoint (i : N) :
  hoare Inv (ChunkTape.readAdjoint i) (fun _ => Inv).
Proof. unfold ChunkTape.readAdjoint. apply keeps_getsOpt. Qed.

Lemma ChunkTape_keeps_resizeAdjoints (size : N) :
  hoare Inv (ChunkTape.resizeAdjoints size) (fun _ => Inv).
Proof.
  unfold ChunkTape.resizeAdjoints. apply keeps_modify.
  intros tp (H0 & Ht & Hd). unfold ChunkTape_slotZeroClean. simpl.
  split; [|split].
  - intros v Hv. apply lookupN_Some in Hv. simpl in Hv.
    destruct (ChunkTape.adjoints tp) as [|a0 rest] eqn:Ea.
    + rewrite firstn_nil in Hv. simpl in Hv.
      destruct (N.to_nat (size - ChunkTape.adjointsSize tp)); simpl in Hv;
        [discriminate|]. inversion Hv. reflexivity.
    + destruct (N.to_nat size) as [|k] eqn:Ek.
      * simpl in Hv. unfold ChunkTape.adjointsSize in Hv. rewrite Ea in Hv.
        replace (N.to_nat (size - N.of_nat (length (a0 :: rest)))) with O in Hv by lia.
        discriminate.
      * simpl in Hv. inversion Hv; subst. apply H0.
        apply lookupN_Some. reflexivity.
  - apply Forall_app. split; [assumption|].
    apply Forall_forall. intros e He. apply in_map_iff in He.
    destruct He as (i & <- & _). simpl. auto.
  - assumption.
Qed.

(** *** Recording *)

Lemma ChunkTape_keeps_push (entry : Real * N) :
  snd entry <> 0 ->
  hoare Inv
    (modifyOpt (fun tp => option_map (fun d => ChunkTape.set_data d tp)
                  (ChunkVector.setDataAndMove entry (ChunkTape.data tp))))
    (fun _ => Inv).
Proof.
  intros Hn. apply keeps_modifyOpt. intros tp tp' (H0 & Ht & Hd) E.
  destruct (ChunkVector.setDataAndMove entry (ChunkTape.data tp)) as [d|] eqn:Ed;
    [|discriminate].
  inversion E; subst; clear E. apply setDataAndMove_inv in Ed.
  destruct Ed as (_ & Hr & _). unfold ChunkTape_slotZeroClean. simpl.
  split; [assumption|split; [assumption|]]. rewrite Hr.
  apply indicesNonzero_app; [assumption|]. constructor; [exact Hn|constructor].
Qed.

Lemma ChunkTape_keeps_pushJacobi_unary (value : Real) (index : N) :
  hoare Inv (ChunkTape.pushJacobi_unary value index) (fun _ => Inv).
Proof.
  unfold ChunkTape.pushJacobi_unary. destruct (N.eqb_spec 0 index); simpl.
  - apply keeps_ret.
  - apply ChunkTape_keeps_push. simpl. congruence.
Qed.

Lemma ChunkTape_keeps_pushJacobi (jacobi value : Real) (index : N) :
  hoare Inv (ChunkTape.pushJacobi opts jacobi value index) (fun _ => Inv).
Proof.
  unfold ChunkTape.pushJacobi. destruct (N.eqb_spec 0 index); simpl.
  - apply keeps_ret.
  - repeat keeps_step. apply ChunkTape_keeps_push. simpl. congruence.
Qed.

Lemma ChunkTape_keeps_calcGradient (rhs : Rhs Real) :
  hoare Inv (ChunkTape.calcGradient opts rhs) (fun _ => Inv).
Proof.
  unfold ChunkTape.calcGradient. apply hoare_forM. intros [v i|j v i] _; simpl.
  - apply ChunkTape_keeps_pushJacobi_unary.
  - apply ChunkTape_keeps_pushJacobi.
Qed.

Lemma ChunkTape_keeps_data_reserveItems (k : N) :
  hoare Inv (ChunkTape.data_reserveItems k) (fun _ => Inv).
Proof.
  unfold ChunkTape.data_reserveItems. apply keeps_modify.
  intros tp (H0 & Ht & Hd). unfold ChunkTape_slotZeroClean. simpl.
  rewrite reserveItems_records. auto.
Qed.

Lemma ChunkTape_keeps_statements_reserveItems (k : N) :
  hoare Inv (ChunkTape.statements_reserveItems k) (fun _ => Inv).
Proof.
  unfold ChunkTape.statements_reserveItems.
  apply ChunkTape_keeps_frame; reflexivity.
Qed.

Lemma ChunkTape_keeps_statements_setDataAndMove (s : N) :
  hoare Inv (ChunkTape.statements_setDataAndMove s) (fun _ => Inv).
Proof.
  unfold ChunkTape.statements_setDataAndMove. apply keeps_modifyOpt.
  intros tp tp' H E.
  destruct (ChunkVector.setDataAndMove s (ChunkTape.statements tp)); [|discriminate].
  inversion E; subst. eapply ChunkTape_Inv_ext; eauto.
Qed.

Lemma ChunkTape_keeps_incrementCount :
  hoare Inv ChunkTape.incrementCount (fun _ => Inv).
Proof.
  unfold ChunkTape.incrementCount. repeat keeps_step.
  apply ChunkTape_keeps_frame; reflexivity.
Qed.

Lemma ChunkTape_keeps_store (lhsValue : Real) (lhsIndex : N) (rhs : Rhs Real) :
  hoare Inv (ChunkTape.store opts lhsValue lhsIndex rhs) (fun _ => Inv).
Proof.
  unfold ChunkTape.store. repeat keeps_step.
  - apply ChunkTape_keeps_data_reserveItems.
  - apply ChunkTape_keeps_statements_reserveItems.
  - apply ChunkTape_keeps_calcGradient.
  - apply ChunkTape_keeps_statements_setDataAndMove.
  - apply ChunkTape_keeps_incrementCount.
Qed.

Lemma ChunkTape_keeps_registerInput :
  hoare Inv ChunkTape.registerInput (fun _ => Inv).
Proof.
  unfold ChunkTape.registerInput. repeat keeps_step.
  - apply ChunkTape_keeps_statements_reserveItems.
  - apply ChunkTape_keeps_statements_setDataAndMove.
  - apply ChunkTape_keeps_incrementCount.
Qed.

Lemma ChunkTape_keeps_pushExternalFunctionHandle (f : ExternalFunction.t) :
  hoare Inv (ChunkTape.pushExternalFunctionHandle f) (fun _ => Inv).
Proof.
  unfold ChunkTape.pushExternalFunctionHandle. repeat keeps_step.
  - apply ChunkTape_keeps_frame; reflexivity.
  - apply keeps_modifyOpt. intros tp tp' H E.
    destruct (ChunkVector.setDataAndMove _ (ChunkTape.externalFunctions tp));
      [|discriminate].
    inversion E; subst. eapply ChunkTape_Inv_ext; eauto.
Qed.

(** *** Gradients *)

Lemma ChunkTape_keeps_gradient (index : N) :
  hoare Inv (ChunkTape.gradient index)
        (fun slot tp => Inv tp /\ slot = index /\ index <> 0).
Proof.
  unfold ChunkTape.gradient.
  eapply hoare_bind; [apply hoare_assert|]. intros u.
  eapply hoare_bind; [apply hoare_gets|]. intros size.
  eapply hoare_bind with (Q := fun _ tp => Inv tp /\ negb (0 =? index) = true).
  - destruct (size <=? index).
    + intros tp a tp' ((HI & Hb) & _) E. split; [|exact Hb].
      eapply ChunkTape_keeps_resizeAdjoints; eauto.
    + apply hoare_ret. tauto.
  - intros u'. apply hoare_ret. intros tp (HI & Hb).
    split; [exact HI|]. split; [reflexivity|].
    apply negb_true_iff, N.eqb_neq in Hb. congruence.
Qed.

Lemma ChunkTape_keeps_gradientAssign (index : N) (g : Real) :
  hoare Inv (slot <- ChunkTape.gradient index ;; ChunkTape.writeAdjoint slot g)
        (fun _ => Inv).
Proof.
  eapply hoare_bind; [apply ChunkTape_keeps_gradient|].
  intros slot tp a tp' (HI & -> & Hn) E.
  eapply (ChunkTape_keeps_writeAdjoint index g); [|exact HI|exact E].
  intros E0. congruence.
Qed.

Lemma ChunkTape_keeps_setGradient (index : N) (g : Real) :
  hoare Inv (ChunkTape.setGradient index g) (fun _ => Inv).
Proof.
  unfold ChunkTape.setGradient. destruct (negb (0 =? index)).
  - apply ChunkTape_keeps_gradientAssign.
  - apply keeps_ret.
Qed.

Lemma ChunkTape_keeps_getGradient (index : N) :
  hoare Inv (ChunkTape.getGradient index) (fun _ => Inv).
Proof.
  unfold ChunkTape.getGradient. repeat keeps_step.
  apply ChunkTape_keeps_readAdjoint.
Qed.

Lemma ChunkTape_keeps_zeroing (l : list N) :
  hoare Inv (forM l (fun i => ChunkTape.writeAdjoint i zero)) (fun _ => Inv).
Proof.
  apply hoare_forM. intros i _. apply ChunkTape_keeps_writeAdjoint. auto.
Qed.

Lemma ChunkTape_keeps_clearAdjoints :
  hoare Inv ChunkTape.clearAdjoints (fun _ => Inv).
Proof.
  unfold ChunkTape.clearAdjoints. repeat keeps_step. apply ChunkTape_keeps_zeroing.
Qed.

Lemma ChunkTape_keeps_clearAdjoints_range (start end_ : ChunkTape.Position) :
  hoare Inv (ChunkTape.clearAdjoints_range start end_) (fun _ => Inv).
Proof. unfold ChunkTape.clearAdjoints_range. apply ChunkTape_keeps_zeroing. Qed.

Lemma ChunkTape_keeps_emit (es : list (Event Real)) :
  Forall sparesSlotZero es ->
  hoare Inv (modify (ChunkTape.emit es)) (fun _ => Inv).
Proof.
  intros H. apply keeps_modify. intros tp (H0 & Ht & Hd).
  unfold ChunkTape_slotZeroClean. simpl.
  split; [assumption|split; [|assumption]]. apply Forall_app. auto.
Qed.

Lemma ChunkTape_keeps_reset (pos : ChunkTape.Position) :
  hoare Inv (ChunkTape.reset pos) (fun _ => Inv).
Proof.
  unfold ChunkTape.reset. repeat keeps_step.
  - apply ChunkTape_keeps_zeroing.
  - apply hoare_forEach. intros x. unfold ChunkTape.popExternalFunction.
    apply ChunkTape_keeps_emit. constructor; [exact I|constructor].
  - unfold ChunkTape.externalFunctions_reset. apply keeps_modifyOpt.
    intros tp tp' (H0 & Ht & Hd) E.
    destruct (ChunkVector.reset pos (ChunkTape.externalFunctions tp)); [|discriminate].
    destruct (ChunkVector.reset (ChunkVector.inner pos) (ChunkTape.statements tp));
      [|discriminate].
    destruct (ChunkVector.reset (ChunkVector.inner (ChunkVector.inner pos))
                                (ChunkTape.data tp)) as [d|] eqn:Ed; [|discriminate].
    inversion E; subst; clear E. unfold ChunkTape_slotZeroClean. simpl.
    split; [assumption|split; [assumption|]].
    eapply indicesNonzero_incl; [eapply reset_records; eauto|assumption].
Qed.

(** *** The reverse pass *)

Lemma ChunkTape_keeps_accumulate (adjRef : N) (dc : list (Real * N)) (dataPos : N) :
  indicesNonzero dc ->
  hoare Inv (ChunkTape.accumulate adjRef dc dataPos) (fun _ => Inv).
Proof.
  intros Hdc. unfold ChunkTape.accumulate.
  eapply hoare_bind; [apply hoare_getsOpt|]. intros cell.
  eapply hoare_conseq with (P := fun tp => Inv tp /\ snd cell <> 0)
                           (Q := fun _ => Inv).
  - apply hoare_bind with (Q := fun _ tp => Inv tp /\ snd cell <> 0).
    + intros tp a tp' (HI & Hn) E. split; [|exact Hn].
      eapply ChunkTape_keeps_readAdjoint; eauto.
    + intros adj. apply hoare_bind with (Q := fun _ tp => Inv tp /\ snd cell <> 0).
      * intros tp a tp' (HI & Hn) E. split; [|exact Hn].
        eapply ChunkTape_keeps_readAdjoint; eauto.
      * intros old. apply hoare_bind with (Q := fun _ => Inv).
        -- intros tp a tp' (HI & Hn) E.
           eapply (ChunkTape_keeps_writeAdjoint (snd cell)); [|exact HI|exact E].
           intros E0. congruence.
        -- intros u. apply keeps_ret.
  - intros tp (HI & Hl). split; [exact HI|].
    apply lookupN_In in Hl. unfold indicesNonzero in Hdc.
    rewrite Forall_forall in Hdc. auto.
  - auto.
Qed.

Lemma ChunkTape_keeps_accumulateLoop (adjRef : N) (dc : list (Real * N)) :
  indicesNonzero dc ->
  forall (n : nat) (dataPos : N),
    hoare Inv (ChunkTape.accumulateLoop n adjRef dc dataPos) (fun _ => Inv).
Proof.
  intros Hdc. induction n as [|n IH]; intros dataPos; simpl.
  - apply keeps_ret.
  - apply keeps_bind; [apply ChunkTape_keeps_accumulate; assumption|].
    intros dataPos'. apply IH.
Qed.

Lemma ChunkTape_keeps_evaluateStatement (sd : list N) (dc : list (Real * N))
      (cursors : N * N * N) :
  indicesNonzero dc ->
  hoare Inv (ChunkTape.evaluateStatement opts sd dc cursors) (fun _ => Inv).
Proof.
  intros Hdc. destruct cursors as [[adjPos stmtPos] dataPos].
  unfold ChunkTape.evaluateStatement. repeat keeps_step.
  - apply ChunkTape_keeps_readAdjoint.
  - apply ChunkTape_keeps_accumulateLoop. assumption.
Qed.

Lemma ChunkTape_keeps_evaluateStatements (sd : list N) (dc : list (Real * N)) :
  indicesNonzero dc ->
  forall (n : nat) (cursors : N * N * N),
    hoare Inv (ChunkTape.evaluateStatements opts n sd dc cursors) (fun _ => Inv).
Proof.
  intros Hdc. induction n as [|n IH]; intros cursors; simpl.
  - apply keeps_ret.
  - apply keeps_bind; [apply ChunkTape_keeps_evaluateStatement; assumption|].
    intros cursors'. apply IH.
Qed.

Lemma ChunkTape_keeps_evaluateExpressions (startAdjPos endAdjPos stmtPos : N)
      (sd : list N) (dataPos : N) (dc : list (Real * N)) :
  indicesNonzero dc ->
  hoare Inv
    (ChunkTape.evaluateExpressions opts startAdjPos endAdjPos stmtPos sd dataPos dc)
    (fun _ => Inv).
Proof.
  intros Hdc. unfold ChunkTape.evaluateExpressions.
  apply keeps_bind; [apply ChunkTape_keeps_evaluateStatements; assumption|].
  intros [[a b] c]. apply keeps_ret.
Qed.

(** The jacobian array of a chunk, read from a tape in the invariant,
    names no index [0]. *)
Lemma ChunkTape_chunk_nonzero (c : N) :
  hoare Inv
    (getsOpt (fun tp => ChunkVector.getDataAtPosition (ChunkTape.data tp) c))
    (fun dc tp => Inv tp /\ indicesNonzero dc).
Proof.
  intros tp dc tp' HI E. apply getsOpt_inv in E. destruct E as [E ->].
  split; [exact HI|]. destruct HI as (_ & _ & Hd).
  eapply indicesNonzero_incl; [eapply records_of_chunk; eauto|assumption].
Qed.

Lemma ChunkTape_keeps_evaluateDataChunks (sd : list N) :
  forall (n : nat) (state : N * N * N * N),
    hoare Inv (ChunkTape.evaluateDataChunks opts n sd state) (fun _ => Inv).
Proof.
  induction n as [|n IH]; intros [[[curChunk dataPos] curInnerPos] stmtPos]; simpl.
  - apply keeps_ret.
  - eapply hoare_bind; [apply ChunkTape_chunk_nonzero|]. intros dc.
    eapply hoare_conseq with (P := fun tp => Inv tp /\ indicesNonzero dc)
                             (Q := fun _ => Inv); [|auto|auto].
    intros tp a tp' (HI & Hdc) E. revert tp a tp' HI E.
    change (hoare Inv
              (endInnerPos <-
                 getsOpt (fun tp => ChunkVector.getInnerPosition (ChunkTape.data tp)
                                      curChunk) ;;
               ' (stmtPos', _) <-
                 ChunkTape.evaluateExpressions opts curInnerPos endInnerPos stmtPos
                   sd dataPos dc ;;
               dataPos' <-
                 getsOpt (fun tp => ChunkVector.getChunkUsedData (ChunkTape.data tp)
                                      (curChunk - 1)) ;;
               ChunkTape.evaluateDataChunks opts n sd
                 (size_dec curChunk, dataPos', endInnerPos, stmtPos'))
              (fun _ => Inv)).
    repeat keeps_step.
    + apply ChunkTape_keeps_evaluateExpressions. assumption.
    + apply IH.
Qed.

Lemma ChunkTape_keeps_evaluateData (start end_ : ChunkTape.DataPosition) (stmtPos : N)
      (sd : list N) :
  hoare Inv (ChunkTape.evaluateData opts start end_ stmtPos sd) (fun _ => Inv).
Proof.
  unfold ChunkTape.evaluateData.
  apply keeps_bind; [apply ChunkTape_keeps_evaluateDataChunks|].
  intros [[[a dataPos] curInnerPos] stmtPos'].
  eapply hoare_bind; [apply ChunkTape_chunk_nonzero|]. intros dc.
  eapply hoare_conseq with (P := fun tp => Inv tp /\ indicesNonzero dc)
                           (Q := fun _ => Inv); [|auto|auto].
  intros tp r tp' (HI & Hdc) E. revert tp r tp' HI E.
  change (hoare Inv
            (' (stmtPos'', _) <-
               ChunkTape.evaluateExpressions opts curInnerPos (ChunkVector.inner end_)
                 stmtPos' sd dataPos dc ;;
             ret stmtPos'')
            (fun _ => Inv)).
  repeat keeps_step. apply ChunkTape_keeps_evaluateExpressions. assumption.
Qed.

Lemma ChunkTape_keeps_evaluateStmtChunks :
  forall (n : nat) (state : N * N * ChunkTape.DataPosition),
    hoare Inv (ChunkTape.evaluateStmtChunks opts n state) (fun _ => Inv).
Proof.
  induction n as [|n IH]; intros [[curChunk dataPos] curInnerPos]; simpl.
  - apply keeps_ret.
  - repeat keeps_step.
    + apply ChunkTape_keeps_evaluateData.
    + apply IH.
Qed.

Lemma ChunkTape_keeps_evaluateStmt (start end_ : ChunkTape.StatementPosition) :
  hoare Inv (ChunkTape.evaluateStmt opts start end_) (fun _ => Inv).
Proof.
  unfold ChunkTape.evaluateStmt.
  apply keeps_bind; [apply ChunkTape_keeps_evaluateStmtChunks|].
  intros [[a dataPos] curInnerPos]. repeat keeps_step.
  apply ChunkTape_keeps_evaluateData.
Qed.

Lemma ChunkTape_keeps_onTape {A : Type} (m : M ChunkTape.t A) :
  hoare Inv m (fun _ => Inv) ->
  hoare (fun ev => Inv (ChunkTape.tape ev)) (ChunkTape.onTape m)
        (fun _ ev => Inv (ChunkTape.tape ev)).
Proof.
  intros H ev a ev' HI E. unfold ChunkTape.onTape in E.
  destruct (m (ChunkTape.tape ev)) as [[a' tp']|] eqn:Em; [|discriminate].
  inversion E; subst. simpl. eapply H; eauto.
Qed.

Lemma ChunkTape_keeps_ExtFuncEvaluator_call
      (record : ExternalFunction.t * ChunkTape.StatementPosition) :
  hoare (fun ev => Inv (ChunkTape.tape ev)) (ChunkTape.ExtFuncEvaluator_call opts record)
        (fun _ ev => Inv (ChunkTape.tape ev)).
Proof.
  destruct record as [f boundary]. unfold ChunkTape.ExtFuncEvaluator_call.
  repeat keeps_step.
  - apply ChunkTape_keeps_onTape. apply ChunkTape_keeps_evaluateStmt.
  - apply ChunkTape_keeps_onTape. unfold ChunkTape.extFunc_evaluate.
    apply ChunkTape_keeps_emit. constructor; [exact I|constructor].
  - apply keeps_modify. auto.
Qed.

Lemma ChunkTape_keeps_evaluateExtFunc (start end_ : ChunkTape.Position) :
  hoare Inv (ChunkTape.evaluateExtFunc opts start end_) (fun _ => Inv).
Proof.
  intros tp a tp' HI E. unfold ChunkTape.evaluateExtFunc in E.
  destruct (ChunkVector.forEach _ _ _ _ _) as [[u ev]|] eqn:Ef; [|discriminate].
  eapply ChunkTape_keeps_evaluateStmt; [|exact E].
  eapply (hoare_forEach (fun ev => Inv (ChunkTape.tape ev))); [| |exact Ef].
  - apply ChunkTape_keeps_ExtFuncEvaluator_call.
  - exact HI.
Qed.

Lemma ChunkTape_keeps_evaluate (start end_ : ChunkTape.Position) :
  hoare Inv (ChunkTape.evaluate opts start end_) (fun _ => Inv).
Proof.
  unfold ChunkTape.evaluate. repeat keeps_step.
  - apply ChunkTape_keeps_resizeAdjoints.
  - apply ChunkTape_keeps_evaluateExtFunc.
Qed.

(** *** Every operation *)

Lemma ChunkTape_keeps_step (op : ChunkTape_Op Real) :
  hoare Inv (ChunkTape_step opts op) (fun _ => Inv).
Proof.
  destruct op; simpl.
  - apply keeps_modify. intros tp (H0 & Ht & Hd).
    unfold ChunkTape_slotZeroClean. simpl. rewrite setChunkSize_records. auto.
  - apply ChunkTape_keeps_frame; reflexivity.
  - apply ChunkTape_keeps_frame; reflexivity.
  - unfold ChunkTape.allocateAdjoints. repeat keeps_step.
    apply ChunkTape_keeps_resizeAdjoints.
  - repeat keeps_step. apply ChunkTape_keeps_store.
  - unfold ChunkTape.store_copy. repeat keeps_step.
  - unfold ChunkTape.store_passive. repeat keeps_step.
  - apply ChunkTape_keeps_pushJacobi_unary.
  - apply ChunkTape_keeps_pushJacobi.
  - unfold ChunkTape.initGradientData. repeat keeps_step.
  - unfold ChunkTape.destroyGradientData. repeat keeps_step.
  - apply ChunkTape_keeps_setGradient.
  - repeat keeps_step. apply ChunkTape_keeps_getGradient.
  - apply ChunkTape_keeps_gradientAssign.
  - apply ChunkTape_keeps_clearAdjoints.
  - apply ChunkTape_keeps_clearAdjoints_range.
  - apply ChunkTape_keeps_reset.
  - apply ChunkTape_keeps_reset.
  - apply ChunkTape_keeps_evaluate.
  - unfold ChunkTape.evaluate_all. repeat keeps_step. apply ChunkTape_keeps_evaluate.
  - apply ChunkTape_keeps_pushExternalFunctionHandle.
  - repeat keeps_step. apply ChunkTape_keeps_registerInput.
  - apply keeps_ret.
  - apply ChunkTape_keeps_frame; reflexivity.
  - apply ChunkTape_keeps_frame; reflexivity.
Qed.

Lemma ChunkTape_run_keeps (ops : list (ChunkTape_Op Real)) :
  hoare Inv (ChunkTape_run opts ops) (fun _ => Inv).
Proof.
  unfold ChunkTape_run. apply hoare_forM. intros op _. apply ChunkTape_keeps_step.
Qed.

End LinearSlotZero.

(** ** Slot zero of the adjoint vector: the reuse-index tape *)

Section ReuseSlotZero.
Context {Real : Type} {RO : RealOps Real}.
Variable opts : Options.
Variable emptyPositionIndex : ChunkIndexReuseTape.EmptyPosition -> N.

Local Abbreviation Inv := (ChunkIndexReuseTape_slotZeroClean (Real:=Real)).

Lemma ChunkIndexReuseTape_Inv_ext (tp tp' : ChunkIndexReuseTape.t) :
  ChunkIndexReuseTape.adjoints tp' = ChunkIndexReuseTape.adjoints tp ->
  ChunkIndexReuseTape.trace tp' = ChunkIndexReuseTape.trace tp ->
  ChunkIndexReuseTape.data tp' = ChunkIndexReuseTape.data tp ->
  Inv tp -> Inv tp'.
Proof.
  unfold ChunkIndexReuseTape_slotZeroClean. intros -> -> ->. auto.
Qed.

Lemma ChunkIndexReuseTape_Inv_create : Inv (ChunkIndexReuseTape.create opts).
Proof.
  unfold ChunkIndexReuseTape_slotZeroClean. simpl. split; [|split; constructor].
  intros v H. discriminate.
Qed.

Lemma ChunkIndexReuseTape_keeps_frame (f : ChunkIndexReuseTape.t -> ChunkIndexReuseTape.t) :
  (forall tp, ChunkIndexReuseTape.adjoints (f tp) = ChunkIndexReuseTape.adjoints tp) ->
  (forall tp, ChunkIndexReuseTape.trace (f tp) = ChunkIndexReuseTape.trace tp) ->
  (forall tp, ChunkIndexReuseTape.data (f tp) = ChunkIndexReuseTape.data tp) ->
  hoare Inv (modify f) (fun _ => Inv).
Proof.
  intros Ha Ht Hd. apply keeps_modify. intros tp H.
  eapply ChunkIndexReuseTape_Inv_ext; eauto.
Qed.

Lemma ChunkIndexReuseTape_keeps_writeAdjoint (i : N) (v : Real) :
  (i = 0 -> v = zero) ->
  hoare Inv (ChunkIndexReuseTape.writeAdjoint i v) (fun _ => Inv).
Proof.
  intros Hv tp u tp' (H0 & Ht & Hd) E.
  apply ChunkIndexReuseTape_writeAdjoint_inv in E. destruct E as (a & Eu & ->).
  unfold ChunkIndexReuseTape_slotZeroClean. simpl. split; [|split].
  - intros w Hw. destruct (N.eq_dec i 0) as [->|Hi].
    + rewrite (updateN_lookup_same _ _ _ _ Eu) in Hw.
      assert (v = zero) by auto. congruence.
    + rewrite (updateN_lookup_other _ _ _ _ _ Eu Hi) in Hw. auto.
  - apply Forall_app. split; [assumption|]. constructor; [exact Hv|constructor].
  - assumption.
Qed.

Lemma ChunkIndexReuseTape_keeps_readAdjoint (i : N) :
  hoare Inv (ChunkIndexReuseTape.readAdjoint i) (fun _ => Inv).
Proof. unfold ChunkIndexReuseTape.readAdjoint. apply keeps_getsOpt. Qed.

Lemma ChunkIndexReuseTape_keeps_resizeAdjoints (size : N) :
  hoare Inv (ChunkIndexReuseTape.resizeAdjoints size) (fun _ => Inv).
Proof.
  unfold ChunkIndexReuseTape.resizeAdjoints. apply keeps_modify.
  intros tp (H0 & Ht & Hd). unfold ChunkIndexReuseTape_slotZeroClean. simpl.
  split; [|split].
  - intros v Hv. apply lookupN_Some in Hv. simpl in Hv.
    destruct (ChunkIndexReuseTape.adjoints tp) as [|a0 rest] eqn:Ea.
    + rewrite firstn_nil in Hv. simpl in Hv.
      destruct (N.to_nat (size - ChunkIndexReuseTape.adjointsSize tp)); simpl in Hv;
        [discriminate|]. inversion Hv. reflexivity.
    + destruct (N.to_nat size) as [|k] eqn:Ek.
      * simpl in Hv. unfold ChunkIndexReuseTape.adjointsSize in Hv. rewrite Ea in Hv.
        replace (N.to_nat (size - N.of_nat (length (a0 :: rest)))) with O in Hv by lia.
        discriminate.
      * simpl in Hv. inversion Hv; subst. apply H0.
        apply lookupN_Some. reflexivity.
  - apply Forall_app. split; [assumption|].
    apply Forall_forall. intros e He. apply in_map_iff in He.
    destruct He as (i & <- & _). simpl. auto.
  - assumption.
Qed.

(** *** Recording *)

Lemma ChunkIndexReuseTape_keeps_push (entry : Real * N) :
  snd entry <> 0 ->
  hoare Inv
    (modifyOpt (fun tp => option_map (fun d => ChunkIndexReuseTape.set_data d tp)
                  (ChunkVector.setDataAndMove entry (ChunkIndexReuseTape.data tp))))
    (fun _ => Inv).
Proof.
  intros Hn. apply keeps_modifyOpt. intros tp tp' (H0 & Ht & Hd) E.
  destruct (ChunkVector.setDataAndMove entry (ChunkIndexReuseTape.data tp)) as [d|] eqn:Ed;
    [|discriminate].
  inversion E; subst; clear E. apply setDataAndMove_inv in Ed.
  destruct Ed as (_ & Hr & _). unfold ChunkIndexReuseTape_slotZeroClean. simpl.
  split; [assumption|split; [assumption|]]. rewrite Hr.
  apply indicesNonzero_app; [assumption|]. constructor; [exact Hn|constructor].
Qed.

Lemma ChunkIndexReuseTape_keeps_pushJacobi_unary (value : Real) (index : N) :
  hoare Inv (ChunkIndexReuseTape.pushJacobi_unary value index) (fun _ => Inv).
Proof.
  unfold ChunkIndexReuseTape.pushJacobi_unary. destruct (N.eqb_spec 0 index); simpl.
  - apply keeps_ret.
  - apply ChunkIndexReuseTape_keeps_push. simpl. congruence.
Qed.

Lemma ChunkIndexReuseTape_keeps_pushJacobi (jacobi value : Real) (index : N) :
  hoare Inv (ChunkIndexReuseTape.pushJacobi opts jacobi value index) (fun _ => Inv).
Proof.
  unfold ChunkIndexReuseTape.pushJacobi. destruct (N.eqb_spec 0 index); simpl.
  - apply keeps_ret.
  - repeat keeps_step. apply ChunkIndexReuseTape_keeps_push. simpl. congruence.
Qed.

Lemma ChunkIndexReuseTape_keeps_calcGradient (rhs : Rhs Real) :
  hoare Inv (ChunkIndexReuseTape.calcGradient opts rhs) (fun _ => Inv).
Proof.
  unfold ChunkIndexReuseTape.calcGradient. apply hoare_forM. intros [v i|j v i] _; simpl.
  - apply ChunkIndexReuseTape_keeps_pushJacobi_unary.
  - apply ChunkIndexReuseTape_keeps_pushJacobi.
Qed.

Lemma ChunkIndexReuseTape_keeps_data_reserveItems (k : N) :
  hoare Inv (ChunkIndexReuseTape.data_reserveItems k) (fun _ => Inv).
Proof.
  unfold ChunkIndexReuseTape.data_reserveItems. apply keeps_modify.
  intros tp (H0 & Ht & Hd). unfold ChunkIndexReuseTape_slotZeroClean. simpl.
  rewrite reserveItems_records. auto.
Qed.

Lemma ChunkIndexReuseTape_keeps_statements_reserveItems (k : N) :
  hoare Inv (ChunkIndexReuseTape.statements_reserveItems k) (fun _ => Inv).
Proof.
  unfold ChunkIndexReuseTape.statements_reserveItems.
  apply ChunkIndexReuseTape_keeps_frame; reflexivity.
Qed.

Lemma ChunkIndexReuseTape_keeps_statements_setDataAndMove (s : N * N) :
  hoare Inv (ChunkIndexReuseTape.statements_setDataAndMove s) (fun _ => Inv).
Proof.
  unfold ChunkIndexReuseTape.statements_setDataAndMove. apply keeps_modifyOpt.
  intros tp tp' H E.
  destruct (ChunkVector.setDataAndMove s (ChunkIndexReuseTape.statements tp)); [|discriminate].
  inversion E; subst. eapply ChunkIndexReuseTape_Inv_ext; eauto.
Qed.

Lemma ChunkIndexReuseTape_keeps_data_setDataAndMove (index : N) :
  index <> 0 ->
  hoare Inv (ChunkIndexReuseTape.data_setDataAndMove (one, index)) (fun _ => Inv).
Proof.
  intros Hn. unfold ChunkIndexReuseTape.data_setDataAndMove.
  apply ChunkIndexReuseTape_keeps_push. simpl. exact Hn.
Qed.

Lemma ChunkIndexReuseTape_keeps_checkIndex (index : N) :
  hoare Inv (ChunkIndexReuseTape.checkIndex index) (fun _ => Inv).
Proof.
  intros tp a tp' HI E. unfold ChunkIndexReuseTape.checkIndex in E.
  destruct (IndexHandler.checkIndex index (ChunkIndexReuseTape.indexHandler tp)).
  inversion E; subst. eapply ChunkIndexReuseTape_Inv_ext; eauto.
Qed.

Lemma ChunkIndexReuseTape_keeps_freeIndex (index : N) :
  hoare Inv (ChunkIndexReuseTape.freeIndex index) (fun _ => Inv).
Proof.
  intros tp a tp' HI E. unfold ChunkIndexReuseTape.freeIndex in E.
  destruct (IndexHandler.freeIndex index (ChunkIndexReuseTape.indexHandler tp)).
  inversion E; subst. eapply ChunkIndexReuseTape_Inv_ext; eauto.
Qed.

Lemma ChunkIndexReuseTape_keeps_store (lhsValue : Real) (lhsIndex : N) (rhs : Rhs Real) :
  hoare Inv (ChunkIndexReuseTape.store opts lhsValue lhsIndex rhs) (fun _ => Inv).
Proof.
  unfold ChunkIndexReuseTape.store. repeat keeps_step.
  - apply ChunkIndexReuseTape_keeps_data_reserveItems.
  - apply ChunkIndexReuseTape_keeps_statements_reserveItems.
  - apply ChunkIndexReuseTape_keeps_calcGradient.
  - apply ChunkIndexReuseTape_keeps_freeIndex.
  - apply ChunkIndexReuseTape_keeps_checkIndex.
  - apply ChunkIndexReuseTape_keeps_statements_setDataAndMove.
  - apply ChunkIndexReuseTape_keeps_freeIndex.
Qed.

Lemma ChunkIndexReuseTape_keeps_store_copy (lhsValue : Real) (lhsIndex : N)
      (rhs : ActiveReal Real) :
  hoare Inv (ChunkIndexReuseTape.store_copy opts lhsValue lhsIndex rhs) (fun _ => Inv).
Proof.
  unfold ChunkIndexReuseTape.store_copy.
  destruct (N.eqb_spec 0 (gradientData rhs)) as [E0|E0]; simpl; repeat keeps_step;
    try apply ChunkIndexReuseTape_keeps_freeIndex.
  - apply ChunkIndexReuseTape_keeps_checkIndex.
  - apply ChunkIndexReuseTape_keeps_data_reserveItems.
  - apply ChunkIndexReuseTape_keeps_statements_reserveItems.
  - apply ChunkIndexReuseTape_keeps_data_setDataAndMove. congruence.
  - apply ChunkIndexReuseTape_keeps_statements_setDataAndMove.
Qed.

Lemma ChunkIndexReuseTape_keeps_pushExternalFunctionHandle (f : ExternalFunction.t) :
  hoare Inv (ChunkIndexReuseTape.pushExternalFunctionHandle f) (fun _ => Inv).
Proof.
  unfold ChunkIndexReuseTape.pushExternalFunctionHandle. repeat keeps_step.
  - apply ChunkIndexReuseTape_keeps_frame; reflexivity.
  - apply keeps_modifyOpt. intros tp tp' H E.
    destruct (ChunkVector.setDataAndMove _ (ChunkIndexReuseTape.externalFunctions tp));
      [|discriminate].
    inversion E; subst. eapply ChunkIndexReuseTape_Inv_ext; eauto.
Qed.

(** *** Gradients *)

Lemma ChunkIndexReuseTape_keeps_gradient (index : N) :
  hoare Inv (ChunkIndexReuseTape.gradient index)
        (fun slot tp => Inv tp /\ slot = index /\ index <> 0).
Proof.
  unfold ChunkIndexReuseTape.gradient.
  eapply hoare_bind; [apply hoare_assert|]. intros u.
  eapply hoare_bind; [apply hoare_gets|]. intros size.
  eapply hoare_bind with (Q := fun _ tp => Inv tp /\ negb (0 =? index) = true).
  - destruct (size <=? index).
    + intros tp a tp' ((HI & Hb) & _) E. split; [|exact Hb].
      eapply ChunkIndexReuseTape_keeps_resizeAdjoints; eauto.
    + apply hoare_ret. tauto.
  - intros u'. apply hoare_ret. intros tp (HI & Hb).
    split; [exact HI|]. split; [reflexivity|].
    apply negb_true_iff, N.eqb_neq in Hb. congruence.
Qed.

Lemma ChunkIndexReuseTape_keeps_gradientAssign (index : N) (g : Real) :
  hoare Inv (slot <- ChunkIndexReuseTape.gradient index ;; ChunkIndexReuseTape.writeAdjoint slot g)
        (fun _ => Inv).
Proof.
  eapply hoare_bind; [apply ChunkIndexReuseTape_keeps_gradient|].
  intros slot tp a tp' (HI & -> & Hn) E.
  eapply (ChunkIndexReuseTape_keeps_writeAdjoint index g); [|exact HI|exact E].
  intros E0. congruence.
Qed.

Lemma ChunkIndexReuseTape_keeps_setGradient (index : N) (g : Real) :
  hoare Inv (ChunkIndexReuseTape.setGradient index g) (fun _ => Inv).
Proof.
  unfold ChunkIndexReuseTape.setGradient. destruct (negb (0 =? index)).
  - apply ChunkIndexReuseTape_keeps_gradientAssign.
  - apply keeps_ret.
Qed.

Lemma ChunkIndexReuseTape_keeps_getGradient (index : N) :
  hoare Inv (ChunkIndexReuseTape.getGradient index) (fun _ => Inv).
Proof.
  unfold ChunkIndexReuseTape.getGradient. repeat keeps_step.
  apply ChunkIndexReuseTape_keeps_readAdjoint.
Qed.

Lemma ChunkIndexReuseTape_keeps_zeroing (l : list N) :
  hoare Inv (forM l (fun i => ChunkIndexReuseTape.writeAdjoint i zero)) (fun _ => Inv).
Proof.
  apply hoare_forM. intros i _. apply ChunkIndexReuseTape_keeps_writeAdjoint. auto.
Qed.

Lemma ChunkIndexReuseTape_keeps_clearAdjoints :
  hoare Inv ChunkIndexReuseTape.clearAdjoints (fun _ => Inv).
Proof.
  unfold ChunkIndexReuseTape.clearAdjoints. repeat keeps_step. apply ChunkIndexReuseTape_keeps_zeroing.
Qed.

Lemma ChunkIndexReuseTape_keeps_clearAdjoints_range (start end_ : ChunkIndexReuseTape.Position) :
  hoare Inv (ChunkIndexReuseTape.clearAdjoints_range emptyPositionIndex start end_)
        (fun _ => Inv).
Proof. unfold ChunkIndexReuseTape.clearAdjoints_range. apply ChunkIndexReuseTape_keeps_zeroing. Qed.

Lemma ChunkIndexReuseTape_keeps_emit (es : list (Event Real)) :
  Forall sparesSlotZero es ->
  hoare Inv (modify (ChunkIndexReuseTape.emit es)) (fun _ => Inv).
Proof.
  intros H. apply keeps_modify. intros tp (H0 & Ht & Hd).
  unfold ChunkIndexReuseTape_slotZeroClean. simpl.
  split; [assumption|split; [|assumption]]. apply Forall_app. auto.
Qed.

Lemma ChunkIndexReuseTape_keeps_reset (pos : ChunkIndexReuseTape.Position) :
  hoare Inv (ChunkIndexReuseTape.reset pos) (fun _ => Inv).
Proof.
  unfold ChunkIndexReuseTape.reset. repeat keeps_step.
  - apply ChunkIndexReuseTape_keeps_clearAdjoints.
  - apply hoare_forEach. intros x. unfold ChunkIndexReuseTape.popExternalFunction.
    apply ChunkIndexReuseTape_keeps_emit. constructor; [exact I|constructor].
  - unfold ChunkIndexReuseTape.externalFunctions_reset. apply keeps_modifyOpt.
    intros tp tp' (H0 & Ht & Hd) E.
    destruct (ChunkVector.reset pos (ChunkIndexReuseTape.externalFunctions tp)); [|discriminate].
    destruct (ChunkVector.reset (ChunkVector.inner pos) (ChunkIndexReuseTape.statements tp));
      [|discriminate].
    destruct (ChunkVector.reset (ChunkVector.inner (ChunkVector.inner pos))
                                (ChunkIndexReuseTape.data tp)) as [d|] eqn:Ed; [|discriminate].
    inversion E; subst; clear E. unfold ChunkIndexReuseTape_slotZeroClean. simpl.
    split; [assumption|split; [assumption|]].
    eapply indicesNonzero_incl; [eapply reset_records; eauto|assumption].
  - apply ChunkIndexReuseTape_keeps_frame; reflexivity.
Qed.

(** *** The reverse pass *)

Lemma ChunkIndexReuseTape_keeps_accumulate (adj : Real) (dc : list (Real * N))
      (dataPos : N) :
  indicesNonzero dc ->
  hoare Inv (ChunkIndexReuseTape.accumulate adj dc dataPos) (fun _ => Inv).
Proof.
  intros Hdc. unfold ChunkIndexReuseTape.accumulate.
  eapply hoare_bind; [apply hoare_getsOpt|]. intros cell.
  eapply hoare_conseq with (P := fun tp => Inv tp /\ snd cell <> 0)
                           (Q := fun _ => Inv).
  - apply hoare_bind with (Q := fun _ tp => Inv tp /\ snd cell <> 0).
    + intros tp a tp' (HI & Hn) E. split; [|exact Hn].
      eapply ChunkIndexReuseTape_keeps_readAdjoint; eauto.
    + intros old. apply hoare_bind with (Q := fun _ => Inv).
      * intros tp a tp' (HI & Hn) E.
        eapply (ChunkIndexReuseTape_keeps_writeAdjoint (snd cell)); [|exact HI|exact E].
        intros E0. congruence.
      * intros u. apply keeps_ret.
  - intros tp (HI & Hl). split; [exact HI|].
    apply lookupN_In in Hl. unfold indicesNonzero in Hdc.
    rewrite Forall_forall in Hdc. auto.
  - auto.
Qed.

Lemma ChunkIndexReuseTape_keeps_accumulateLoop (adj : Real) (dc : list (Real * N)) :
  indicesNonzero dc ->
  forall (n : nat) (dataPos : N),
    hoare Inv (ChunkIndexReuseTape.accumulateLoop n adj dc dataPos) (fun _ => Inv).
Proof.
  intros Hdc. induction n as [|n IH]; intros dataPos; simpl.
  - apply keeps_ret.
  - apply keeps_bind; [apply ChunkIndexReuseTape_keeps_accumulate; assumption|].
    intros dataPos'. apply IH.
Qed.

(** The reuse tape clears the adjoint of the left-hand side: a write
    of zero, whatever the index. *)
Lemma ChunkIndexReuseTape_keeps_evaluateStatement (sd : list (N * N))
      (dc : list (Real * N)) (cursors : N * N) :
  indicesNonzero dc ->
  hoare Inv (ChunkIndexReuseTape.evaluateStatement opts sd dc cursors) (fun _ => Inv).
Proof.
  intros Hdc. destruct cursors as [stmtPos dataPos].
  unfold ChunkIndexReuseTape.evaluateStatement. repeat keeps_step.
  - apply ChunkIndexReuseTape_keeps_readAdjoint.
  - apply ChunkIndexReuseTape_keeps_writeAdjoint. auto.
  - apply ChunkIndexReuseTape_keeps_accumulateLoop. assumption.
Qed.

Lemma ChunkIndexReuseTape_keeps_evaluateStatements (sd : list (N * N))
      (dc : list (Real * N)) :
  indicesNonzero dc ->
  forall (n : nat) (cursors : N * N),
    hoare Inv (ChunkIndexReuseTape.evaluateStatements opts n sd dc cursors)
          (fun _ => Inv).
Proof.
  intros Hdc. induction n as [|n IH]; intros cursors; simpl.
  - apply keeps_ret.
  - apply keeps_bind; [apply ChunkIndexReuseTape_keeps_evaluateStatement; assumption|].
    intros cursors'. apply IH.
Qed.

Lemma ChunkIndexReuseTape_keeps_evaluateExpressions (stmtPos endStmtPos : N)
      (sd : list (N * N)) (dataPos : N) (dc : list (Real * N)) :
  indicesNonzero dc ->
  hoare Inv
    (ChunkIndexReuseTape.evaluateExpressions opts stmtPos endStmtPos sd dataPos dc)
    (fun _ => Inv).
Proof.
  intros Hdc. unfold ChunkIndexReuseTape.evaluateExpressions.
  apply ChunkIndexReuseTape_keeps_evaluateStatements. assumption.
Qed.

Lemma ChunkIndexReuseTape_chunk_nonzero (c : N) :
  hoare Inv
    (getsOpt (fun tp =>
       ChunkVector.getDataAtPosition (ChunkIndexReuseTape.data tp) c))
    (fun dc tp => Inv tp /\ indicesNonzero dc).
Proof.
  intros tp dc tp' HI E. apply getsOpt_inv in E. destruct E as [E ->].
  split; [exact HI|]. destruct HI as (_ & _ & Hd).
  eapply indicesNonzero_incl; [eapply records_of_chunk; eauto|assumption].
Qed.

Lemma ChunkIndexReuseTape_keeps_evaluateDataChunks (stmtPosEnd : N) (sd : list (N * N)) :
  forall (n : nat) (state : N * N * N),
    hoare Inv (ChunkIndexReuseTape.evaluateDataChunks opts n stmtPosEnd sd state)
          (fun _ => Inv).
Proof.
  induction n as [|n IH]; intros [[curChunk dataPos] stmtPosStart]; simpl.
  - apply keeps_ret.
  - eapply hoare_bind; [apply ChunkIndexReuseTape_chunk_nonzero|]. intros dc.
    eapply hoare_conseq with (P := fun tp => Inv tp /\ indicesNonzero dc)
                             (Q := fun _ => Inv); [|auto|auto].
    intros tp a tp' (HI & Hdc) E. revert tp a tp' HI E.
    change (hoare Inv
              (' (stmtPosStart', _) <-
                 ChunkIndexReuseTape.evaluateExpressions opts stmtPosStart stmtPosEnd
                   sd dataPos dc ;;
               dataPos' <-
                 getsOpt (fun tp =>
                   ChunkVector.getChunkUsedData (ChunkIndexReuseTape.data tp)
                                                (curChunk - 1)) ;;
               ChunkIndexReuseTape.evaluateDataChunks opts n stmtPosEnd sd
                 (size_dec curChunk, dataPos', stmtPosStart'))
              (fun _ => Inv)).
    repeat keeps_step.
    + apply ChunkIndexReuseTape_keeps_evaluateExpressions. assumption.
    + apply IH.
Qed.

Lemma ChunkIndexReuseTape_keeps_evaluateData (start end_ : ChunkIndexReuseTape.DataPosition)
      (stmtPosStart stmtPosEnd : N) (sd : list (N * N)) :
  hoare Inv (ChunkIndexReuseTape.evaluateData opts start end_ stmtPosStart stmtPosEnd sd)
        (fun _ => Inv).
Proof.
  unfold ChunkIndexReuseTape.evaluateData.
  apply keeps_bind; [apply ChunkIndexReuseTape_keeps_evaluateDataChunks|].
  intros [[a dataPos] stmtPosStart'].
  eapply hoare_bind; [apply ChunkIndexReuseTape_chunk_nonzero|]. intros dc.
  eapply hoare_conseq with (P := fun tp => Inv tp /\ indicesNonzero dc)
                           (Q := fun _ => Inv); [|auto|auto].
  intros tp r tp' (HI & Hdc) E. revert tp r tp' HI E.
  change (hoare Inv
            (' (stmtPosStart'', _) <-
               ChunkIndexReuseTape.evaluateExpressions opts stmtPosStart' stmtPosEnd
                 sd dataPos dc ;;
             ret stmtPosStart'')
            (fun _ => Inv)).
  repeat keeps_step. apply ChunkIndexReuseTape_keeps_evaluateExpressions. assumption.
Qed.

Lemma ChunkIndexReuseTape_keeps_evaluateStmtChunks :
  forall (n : nat) (state : N * N * ChunkIndexReuseTape.DataPosition),
    hoare Inv (ChunkIndexReuseTape.evaluateStmtChunks opts n state) (fun _ => Inv).
Proof.
  induction n as [|n IH]; intros [[curChunk dataPos] curInnerPos]; simpl.
  - apply keeps_ret.
  - repeat keeps_step.
    + apply ChunkIndexReuseTape_keeps_evaluateData.
    + apply IH.
Qed.

Lemma ChunkIndexReuseTape_keeps_evaluateStmt
      (start end_ : ChunkIndexReuseTape.StatementPosition) :
  hoare Inv (ChunkIndexReuseTape.evaluateStmt opts start end_) (fun _ => Inv).
Proof.
  unfold ChunkIndexReuseTape.evaluateStmt.
  apply keeps_bind; [apply ChunkIndexReuseTape_keeps_evaluateStmtChunks|].
  intros [[a dataPos] curInnerPos]. repeat keeps_step.
  apply ChunkIndexReuseTape_keeps_evaluateData.
Qed.

Lemma ChunkIndexReuseTape_keeps_onTape {A : Type} (m : M ChunkIndexReuseTape.t A) :
  hoare Inv m (fun _ => Inv) ->
  hoare (fun ev => Inv (ChunkIndexReuseTape.tape ev)) (ChunkIndexReuseTape.onTape m)
        (fun _ ev => Inv (ChunkIndexReuseTape.tape ev)).
Proof.
  intros H ev a ev' HI E. unfold ChunkIndexReuseTape.onTape in E.
  destruct (m (ChunkIndexReuseTape.tape ev)) as [[a' tp']|] eqn:Em; [|discriminate].
  inversion E; subst. simpl. eapply H; eauto.
Qed.

Lemma ChunkIndexReuseTape_keeps_ExtFuncEvaluator_call
      (record : ExternalFunction.t * ChunkIndexReuseTape.StatementPosition) :
  hoare (fun ev => Inv (ChunkIndexReuseTape.tape ev)) (ChunkIndexReuseTape.ExtFuncEvaluator_call opts record)
        (fun _ ev => Inv (ChunkIndexReuseTape.tape ev)).
Proof.
  destruct record as [f boundary]. unfold ChunkIndexReuseTape.ExtFuncEvaluator_call.
  repeat keeps_step.
  - apply ChunkIndexReuseTape_keeps_onTape. apply ChunkIndexReuseTape_keeps_evaluateStmt.
  - apply ChunkIndexReuseTape_keeps_onTape. unfold ChunkIndexReuseTape.extFunc_evaluate.
    apply ChunkIndexReuseTape_keeps_emit. constructor; [exact I|constructor].
  - apply keeps_modify. auto.
Qed.

Lemma ChunkIndexReuseTape_keeps_evaluateExtFunc (start end_ : ChunkIndexReuseTape.Position) :
  hoare Inv (ChunkIndexReuseTape.evaluateExtFunc opts start end_) (fun _ => Inv).
Proof.
  intros tp a tp' HI E. unfold ChunkIndexReuseTape.evaluateExtFunc in E.
  destruct (ChunkVector.forEach _ _ _ _ _) as [[u ev]|] eqn:Ef; [|discriminate].
  eapply ChunkIndexReuseTape_keeps_evaluateStmt; [|exact E].
  eapply (hoare_forEach (fun ev => Inv (ChunkIndexReuseTape.tape ev))); [| |exact Ef].
  - apply ChunkIndexReuseTape_keeps_ExtFuncEvaluator_call.
  - exact HI.
Qed.

Lemma ChunkIndexReuseTape_keeps_evaluate (start end_ : ChunkIndexReuseTape.Position) :
  hoare Inv (ChunkIndexReuseTape.evaluate opts start end_) (fun _ => Inv).
Proof.
  unfold ChunkIndexReuseTape.evaluate. repeat keeps_step.
  - apply ChunkIndexReuseTape_keeps_resizeAdjoints.
  - apply ChunkIndexReuseTape_keeps_evaluateExtFunc.
Qed.

(** *** Every operation *)

Lemma ChunkIndexReuseTape_keeps_step (op : ChunkIndexReuseTape_Op Real) :
  hoare Inv (ChunkIndexReuseTape_step opts emptyPositionIndex op) (fun _ => Inv).
Proof.
  destruct op; simpl.
  - apply keeps_modify. intros tp (H0 & Ht & Hd).
    unfold ChunkIndexReuseTape_slotZeroClean. simpl.
    rewrite setChunkSize_records. auto.
  - apply ChunkIndexReuseTape_keeps_frame; reflexivity.
  - apply ChunkIndexReuseTape_keeps_frame; reflexivity.
  - apply ChunkIndexReuseTape_keeps_resizeAdjoints.
  - unfold ChunkIndexReuseTape.getAdjointsSize. repeat keeps_step.
  - unfold ChunkIndexReuseTape.allocateAdjoints. repeat keeps_step.
    apply ChunkIndexReuseTape_keeps_resizeAdjoints.
  - repeat keeps_step. apply ChunkIndexReuseTape_keeps_store.
  - repeat keeps_step. apply ChunkIndexReuseTape_keeps_store_copy.
  - unfold ChunkIndexReuseTape.store_passive. repeat keeps_step.
    apply ChunkIndexReuseTape_keeps_freeIndex.
  - apply ChunkIndexReuseTape_keeps_pushJacobi_unary.
  - apply ChunkIndexReuseTape_keeps_pushJacobi.
  - unfold ChunkIndexReuseTape.initGradientData. repeat keeps_step.
  - unfold ChunkIndexReuseTape.destroyGradientData. repeat keeps_step.
    apply ChunkIndexReuseTape_keeps_freeIndex.
  - apply ChunkIndexReuseTape_keeps_setGradient.
  - repeat keeps_step. apply ChunkIndexReuseTape_keeps_getGradient.
  - apply ChunkIndexReuseTape_keeps_gradientAssign.
  - apply ChunkIndexReuseTape_keeps_clearAdjoints.
  - apply ChunkIndexReuseTape_keeps_clearAdjoints_range.
  - apply ChunkIndexReuseTape_keeps_reset.
  - apply ChunkIndexReuseTape_keeps_reset.
  - apply ChunkIndexReuseTape_keeps_evaluate.
  - unfold ChunkIndexReuseTape.evaluate_all. repeat keeps_step.
    apply ChunkIndexReuseTape_keeps_evaluate.
  - apply ChunkIndexReuseTape_keeps_pushExternalFunctionHandle.
  - repeat keeps_step. apply ChunkIndexReuseTape_keeps_checkIndex.
  - apply keeps_ret.
  - apply ChunkIndexReuseTape_keeps_frame; reflexivity.
  - apply ChunkIndexReuseTape_keeps_frame; reflexivity.
Qed.

Lemma ChunkIndexReuseTape_run_keeps (ops : list (ChunkIndexReuseTape_Op Real)) :
  hoare Inv (ChunkIndexReuseTape_run opts emptyPositionIndex ops) (fun _ => Inv).
Proof.
  unfold ChunkIndexReuseTape_run. apply hoare_forM. intros op _. apply ChunkIndexReuseTape_keeps_step.
Qed.

End ReuseSlotZero.

(** C10. On either tape, after any sequence of public operations on a
    newly constructed tape: slot [0] of the adjoint vector holds zero
    whenever the vector is allocated, no write ever put a nonzero value
    there, and no jacobian entry of the data vector names index [0].
    [setGradient] with index [0] and both [pushJacobi] with index [0]
    return without any change of the tape. ([gradient(index)] is taken
    with its assertion [0 != index] as a precondition.) *)
Theorem adjoint_slot_zero_stays_zero :
  forall (Real : Type) (RO : RealOps Real) (opts : Options)
         (emptyPositionIndex : ChunkIndexReuseTape.EmptyPosition -> N),
    ((forall (ops : list (ChunkTape_Op Real)) (u : unit) (tp : ChunkTape.t (Real:=Real)),
         ChunkTape_run opts ops (ChunkTape.create opts) = Some (u, tp) ->
         ChunkTape_slotZeroClean tp)
     /\ (forall (g : Real) (tp : ChunkTape.t (Real:=Real)),
            ChunkTape.setGradient 0 g tp = Some (tt, tp))
     /\ (forall (jacobi value : Real) (tp : ChunkTape.t (Real:=Real)),
            ChunkTape.pushJacobi opts jacobi value 0 tp = Some (tt, tp)
            /\ ChunkTape.pushJacobi_unary value 0 tp = Some (tt, tp)))
    /\ ((forall (ops : list (ChunkIndexReuseTape_Op Real)) (u : unit)
                (tp : ChunkIndexReuseTape.t (Real:=Real)),
            ChunkIndexReuseTape_run opts emptyPositionIndex ops
              (ChunkIndexReuseTape.create opts) = Some (u, tp) ->
            ChunkIndexReuseTape_slotZeroClean tp)
        /\ (forall (g : Real) (tp : ChunkIndexReuseTape.t (Real:=Real)),
               ChunkIndexReuseTape.setGradient 0 g tp = Some (tt, tp))
        /\ (forall (jacobi value : Real) (tp : ChunkIndexReuseTape.t (Real:=Real)),
               ChunkIndexReuseTape.pushJacobi opts jacobi value 0 tp = Some (tt, tp)
               /\ ChunkIndexReuseTape.pushJacobi_unary value 0 tp = Some (tt, tp))).
Proof.
  intros Real RO opts emptyPositionIndex. split; (split; [|split]).
  - intros ops u tp E.
    exact (ChunkTape_run_keeps opts ops _ _ _ (ChunkTape_Inv_create opts) E).
  - reflexivity.
  - intros; split; reflexivity.
  - intros ops u tp E.
    exact (ChunkIndexReuseTape_run_keeps opts emptyPositionIndex ops _ _ _
             (ChunkIndexReuseTape_Inv_create opts) E).
  - reflexivity.
  - intros; split; reflexivity.
Qed.

Lemma adjoint_slot_zero_stays_zero_witness :
  (ChunkTape_run allChecks ChunkTape_exampleOps (ChunkTape.create allChecks)
   = Some (tt, ChunkTape_exampleFinal)
   /\ ChunkTape.adjoints ChunkTape_exampleFinal = [Finite 0; Finite 2; Finite 1]
   /\ ChunkTape_slotZeroClean ChunkTape_exampleFinal)
  /\ (ChunkIndexReuseTape_run allChecks (fun _ => 0) ChunkIndexReuseTape_exampleOps
        (ChunkIndexReuseTape.create allChecks)
      = Some (tt, ChunkIndexReuseTape_exampleFinal)
      /\ ChunkIndexReuseTape.adjoints ChunkIndexReuseTape_exampleFinal
         = [Finite 0; Finite 2; Finite 0]
      /\ ChunkIndexReuseTape_slotZeroClean ChunkIndexReuseTape_exampleFinal).
Proof.
  destruct (adjoint_slot_zero_stays_zero XReal XReal_RealOps allChecks (fun _ => 0))
    as [[HL _] [HR _]].
  split; (split; [vm_compute; reflexivity|split; [vm_compute; reflexivity|]]).
  - apply (HL ChunkTape_exampleOps tt). vm_compute. reflexivity.
  - apply (HR ChunkIndexReuseTape_exampleOps tt). vm_compute. reflexivity.
Defined.

(** ** Accesses outside the arrays *)

Lemma forM_first_fails {S A : Type} (f : A -> M S unit) (a : A) (l : list A) (s : S) :
  f a s = None -> forM (a :: l) f s = None.
Proof. intros H. simpl. unfold bind. rewrite H. reflexivity. Qed.

Lemma rangeN_first (lo hi : N) :
  lo <= hi -> exists l, rangeN lo hi = lo :: l.
Proof.
  intros H. unfold rangeN, rangeLt.
  destruct (N.to_nat (hi + 1 - lo)) as [|k] eqn:Ek; [lia|].
  simpl. rewrite N.add_0_r. eauto.
Qed.

Section Unallocated.
Context {Real : Type} {RO : RealOps Real}.
Variable opts : Options.
Variable emptyPositionIndex : ChunkIndexReuseTape.EmptyPosition -> N.

Lemma ChunkTape_writeAdjoint_outside (i : N) (v : Real) (tp : ChunkTape.t) :
  ChunkTape.adjointsSize tp <= i -> ChunkTape.writeAdjoint i v tp = None.
Proof.
  intros H. unfold ChunkTape.writeAdjoint, modifyOpt, updateN.
  unfold ChunkTape.adjointsSize in H.
  destruct (N.ltb_spec i (N.of_nat (length (ChunkTape.adjoints tp)))); [lia|reflexivity].
Qed.

Lemma ChunkIndexReuseTape_writeAdjoint_outside (i : N) (v : Real)
      (tp : ChunkIndexReuseTape.t) :
  ChunkIndexReuseTape.adjointsSize tp <= i ->
  ChunkIndexReuseTape.writeAdjoint i v tp = None.
Proof.
  intros H. unfold ChunkIndexReuseTape.writeAdjoint, modifyOpt, updateN.
  unfold ChunkIndexReuseTape.adjointsSize in H.
  destruct (N.ltb_spec i (N.of_nat (length (ChunkIndexReuseTape.adjoints tp))));
    [lia|reflexivity].
Qed.

(** [clearAdjoints(start, end)] writes [adjoints[start.inner.inner.inner]]
    first, allocated or not. *)
Lemma ChunkTape_clearAdjoints_range_outside (start end_ : ChunkTape.Position)
      (tp : ChunkTape.t) :
  ChunkTape.innermost start <= ChunkTape.innermost end_ ->
  ChunkTape.adjointsSize tp <= ChunkTape.innermost start ->
  ChunkTape.clearAdjoints_range start end_ tp = None.
Proof.
  intros Hr Hs. unfold ChunkTape.clearAdjoints_range.
  destruct (rangeN_first _ _ Hr) as [l ->].
  apply forM_first_fails, ChunkTape_writeAdjoint_outside, Hs.
Qed.

Lemma ChunkIndexReuseTape_clearAdjoints_range_outside
      (start end_ : ChunkIndexReuseTape.Position) (tp : ChunkIndexReuseTape.t) :
  ChunkIndexReuseTape.innermost emptyPositionIndex start
  <= ChunkIndexReuseTape.innermost emptyPositionIndex end_ ->
  ChunkIndexReuseTape.adjointsSize tp
  <= ChunkIndexReuseTape.innermost emptyPositionIndex start ->
  ChunkIndexReuseTape.clearAdjoints_range emptyPositionIndex start end_ tp = None.
Proof.
  intros Hr Hs. unfold ChunkIndexReuseTape.clearAdjoints_range.
  destruct (rangeN_first _ _ Hr) as [l ->].
  apply forM_first_fails, ChunkIndexReuseTape_writeAdjoint_outside, Hs.
Qed.

(** [reset(pos)] starts with the same loop, before any delete function
    is called. *)
Lemma ChunkTape_reset_outside (pos : ChunkTape.Position) (tp : ChunkTape.t) :
  ChunkTape.innermost pos <= ChunkTape.expressionCount tp ->
  ChunkTape.adjointsSize tp <= ChunkTape.innermost pos ->
  ChunkTape.reset pos tp = None.
Proof.
  intros Hr Hs. unfold ChunkTape.reset.
  unfold bind at 1. unfold gets at 1. unfold bind at 1.
  destruct (rangeN_first _ _ Hr) as [l ->].
  rewrite forM_first_fails; [reflexivity|].
  apply ChunkTape_writeAdjoint_outside, Hs.
Qed.

Lemma ChunkIndexReuseTape_reset_outside (pos : ChunkIndexReuseTape.Position)
      (tp : ChunkIndexReuseTape.t) :
  ChunkIndexReuseTape.adjoints tp = [] ->
  ChunkIndexReuseTape.reset pos tp = None.
Proof.
  intros Ha. unfold ChunkIndexReuseTape.reset, ChunkIndexReuseTape.clearAdjoints.
  unfold bind at 1. unfold bind at 1. unfold gets at 1.
  destruct (rangeN_first 0 (IndexHandler.getMaximumGlobalIndex
                              (ChunkIndexReuseTape.indexHandler tp)))
    as [l ->]; [lia|].
  rewrite forM_first_fails; [reflexivity|].
  apply ChunkIndexReuseTape_writeAdjoint_outside.
  unfold ChunkIndexReuseTape.adjointsSize. rewrite Ha. simpl. lia.
Qed.

(** With the data cursor at the start of the chunk, the loop body of the
    reuse tape reads [jacobies[SIZE_MAX]]. *)
Lemma ChunkIndexReuseTape_accumulate_below_chunk (adj : Real)
      (dataCells : list (Real * N)) (tp : ChunkIndexReuseTape.t) :
  N.of_nat (length dataCells) <= SIZE_MAX ->
  size_dec 0 = SIZE_MAX
  /\ lookupN dataCells (size_dec 0) = None
  /\ ChunkIndexReuseTape.accumulate adj dataCells 0 tp = None.
Proof.
  intros H. split; [reflexivity|]. split.
  - apply lookupN_None. exact H.
  - unfold ChunkIndexReuseTape.accumulate, bind, getsOpt.
    rewrite lookupN_None; [reflexivity|exact H].
Qed.

End Unallocated.

(** C1, at the session [x = 3; y = x * x; z = y * y] with chunks of two
    entries: the linear tape returns [dz/dx = 108], and so does the reuse
    tape with the default chunk size. With chunks of two entries the
    reuse tape records both statements in one statement chunk and their
    jacobians in two data chunks; [evaluate()] then has no result: the
    first call of [evaluateExpressions], on the second data chunk, runs
    from statement [2] down to [0], and after the statement of [z] (which
    alone evaluates, leaving the data cursor at [0]) the statement of [y]
    reads below the start of the chunk. *)
Theorem reuse_tape_evaluation_leaves_data_chunk :
  option_map fst (ChunkTape_derivative twoPerChunk ChunkTape_squareTwice
                    (ChunkTape.create twoPerChunk)) = Some (Finite 108)
  /\ option_map fst (ChunkIndexReuseTape_derivative allChecks
                       ChunkIndexReuseTape_squareTwice
                       (ChunkIndexReuseTape.create allChecks)) = Some (Finite 108)
  /\ (' (x, z) <- ChunkIndexReuseTape_squareTwice ;;
      ChunkIndexReuseTape.setGradient z (Finite 1))
       (ChunkIndexReuseTape.create twoPerChunk)
     = Some (tt, ChunkIndexReuseTape_squareTwiceTape)
  /\ ChunkIndexReuseTape_derivative twoPerChunk ChunkIndexReuseTape_squareTwice
       (ChunkIndexReuseTape.create twoPerChunk) = None
  /\ ChunkIndexReuseTape.evaluate_all twoPerChunk ChunkIndexReuseTape_squareTwiceTape
     = None
  /\ ChunkVector.records
       (ChunkIndexReuseTape.statements ChunkIndexReuseTape_squareTwiceTape)
     = [(2, 2); (2, 3)]
  /\ ChunkVector.getDataAtPosition
       (ChunkIndexReuseTape.data ChunkIndexReuseTape_squareTwiceTape) 1
     = Some [(Finite 9, 2); (Finite 9, 2)]
  /\ option_map fst
       (ChunkIndexReuseTape.evaluateExpressions twoPerChunk 2 1 [(2, 2); (2, 3)] 2
          [(Finite 9, 2); (Finite 9, 2)] ChunkIndexReuseTape_squareTwiceTape)
     = Some (1, 0)
  /\ ChunkIndexReuseTape.evaluateExpressions twoPerChunk 2 0 [(2, 2); (2, 3)] 2
       [(Finite 9, 2); (Finite 9, 2)] ChunkIndexReuseTape_squareTwiceTape
     = None.
Proof. repeat split; vm_compute; reflexivity. Qed.

(** C7, on a tape whose adjoint vector was never allocated: after
    [pushExternalFunctionHandle(extF1)], [reset()] has no result on
    either tape (its first loop writes [adjoints[0]]), so no delete
    function is called; the same holds with an input registered before.
    With the adjoint vector allocated by a [setGradient] on the registered
    input, the same [reset()] calls the delete function of [extF1] once
    and leaves no record. *)
Theorem reset_writes_adjoints_before_deleting :
  ((ChunkTape.pushExternalFunctionHandle extF1 ;; ChunkTape.reset_all)
     (ChunkTape.create (Real:=XReal) allChecks) = None
   /\ (x <- ChunkTape.registerInput ;;
       ChunkTape.pushExternalFunctionHandle extF1 ;; ChunkTape.reset_all)
        (ChunkTape.create (Real:=XReal) allChecks) = None
   /\ option_map
        (fun r => (deletions (ChunkTape.trace (snd r)),
                   ChunkVector.records (ChunkTape.externalFunctions (snd r))))
        ((x <- ChunkTape.registerInput ;;
          ChunkTape.pushExternalFunctionHandle extF1 ;;
          ChunkTape.setGradient x (Finite 5) ;; ChunkTape.reset_all)
           (ChunkTape.create (Real:=XReal) allChecks))
      = Some ([extF1], []))
  /\ ((ChunkIndexReuseTape.pushExternalFunctionHandle extF1 ;;
       ChunkIndexReuseTape.reset_all)
        (ChunkIndexReuseTape.create (Real:=XReal) allChecks) = None
      /\ (x <- ChunkIndexReuseTape.registerInput 0 ;;
          ChunkIndexReuseTape.pushExternalFunctionHandle extF1 ;;
          ChunkIndexReuseTape.reset_all)
           (ChunkIndexReuseTape.create (Real:=XReal) allChecks) = None
      /\ option_map
           (fun r => (deletions (ChunkIndexReuseTape.trace (snd r)),
                      ChunkVector.records
                        (ChunkIndexReuseTape.externalFunctions (snd r))))
           ((x <- ChunkIndexReuseTape.registerInput 0 ;;
             ChunkIndexReuseTape.pushExternalFunctionHandle extF1 ;;
             ChunkIndexReuseTape.setGradient x (Finite 5) ;;
             ChunkIndexReuseTape.reset_all)
              (ChunkIndexReuseTape.create (Real:=XReal) allChecks))
         = Some ([extF1], [])).
Proof. repeat split; vm_compute; reflexivity. Qed.

(** C8, on a newly constructed linear-index tape, whose adjoint vector
    is not allocated: [clearAdjoints(Position(), Position())] has no
    result, for it writes [adjoints[0]]; nor has the call for the
    positions before and after a registered input, which writes
    [adjoints[0]] and [adjoints[1]]. With the adjoint vector allocated by
    a [setGradient] on the input, the latter call succeeds and leaves
    zeros. *)
Theorem clearAdjoints_range_writes_unallocated_adjoints :
  ChunkTape.clearAdjoints_range ChunkTape.initialPosition ChunkTape.initialPosition
    (ChunkTape.create (Real:=XReal) allChecks) = None
  /\ (x <- ChunkTape.registerInput ;;
      head <- gets ChunkTape.getPosition ;;
      ChunkTape.clearAdjoints_range ChunkTape.initialPosition head)
       (ChunkTape.create (Real:=XReal) allChecks) = None
  /\ option_map (fun r => ChunkTape.adjoints (snd r))
       ((x <- ChunkTape.registerInput ;;
         ChunkTape.setGradient x (Finite 5) ;;
         head <- gets ChunkTape.getPosition ;;
         ChunkTape.clearAdjoints_range ChunkTape.initialPosition head)
          (ChunkTape.create (Real:=XReal) allChecks))
     = Some [Finite 0; Finite 0].
Proof. repeat split; vm_compute; reflexivity. Qed.

Lemma ChunkIndexReuseTape_accumulate_below_chunk_witness :
  lookupN [(Finite 9, 2); (Finite 9, 2)] (size_dec 0) = None
  /\ ChunkIndexReuseTape.accumulate (Finite 1) [(Finite 9, 2); (Finite 9, 2)] 0
       ChunkIndexReuseTape_squareTwiceTape = None.
Proof.
  apply (ChunkIndexReuseTape_accumulate_below_chunk
           (Finite 1) [(Finite 9, 2); (Finite 9, 2)] ChunkIndexReuseTape_squareTwiceTape).
  vm_compute. discriminate.
Defined.

Lemma ChunkTape_reset_outside_witness :
  ChunkTape.reset ChunkTape.initialPosition (ChunkTape.create (Real:=XReal) allChecks)
  = None.
Proof.
  apply ChunkTape_reset_outside; vm_compute; discriminate.
Defined.

Lemma ChunkIndexReuseTape_reset_outside_witness :
  ChunkIndexReuseTape.reset ChunkIndexReuseTape.initialPosition
    (ChunkIndexReuseTape.create (Real:=XReal) allChecks) = None.
Proof.
  apply ChunkIndexReuseTape_reset_outside. reflexivity.
Defined.

(** ** Clearing and resetting with an allocated adjoint vector *)

Lemma deletions_app {Real : Type} (t1 t2 : list (Event Real)) :
  deletions (t1 ++ t2) = deletions t1 ++ deletions t2.
Proof. unfold deletions. apply flat_map_app. Qed.

Lemma deletions_writes {Real : Type} (l : list N) (v : Real) :
  deletions (map (fun i => AdjointWrite i v) l) = [].
Proof. induction l as [|i l IH]; simpl; auto. Qed.

Lemma deletions_deletes {Real : Type} {B : Type}
      (l : list (ExternalFunction.t * B)) :
  deletions (Real:=Real) (map (fun x => ExtFuncDelete (fst x)) l) = map fst l.
Proof. induction l as [|x l IH]; simpl; [reflexivity|]. f_equal. exact IH. Qed.

Lemma reset_defined {A I : Type} (cv : ChunkVector.t A I)
      (pos : ChunkVector.Position I) :
  validPosition cv pos -> exists cv', ChunkVector.reset pos cv = Some cv'.
Proof.
  intros (ch & E & H). unfold ChunkVector.reset. rewrite E.
  destruct (N.leb_spec (ChunkVector.data pos)
                       (N.of_nat (length (ChunkVector.cells ch)))); [eauto|lia].
Qed.

Section Allocated.
Context {Real : Type} {RO : RealOps Real}.

(** A run of [adjoints[i] = 0.0] over indices inside the array. *)
Lemma ChunkTape_zeroing_run (l : list N) :
  forall tp : ChunkTape.t,
    (forall i, In i l -> i < ChunkTape.adjointsSize tp) ->
    exists a,
      forM l (fun i => ChunkTape.writeAdjoint i zero) tp
      = Some (tt, ChunkTape.emit (map (fun i => AdjointWrite i zero) l)
                    (ChunkTape.set_adjoints a tp))
      /\ length a = length (ChunkTape.adjoints tp)
      /\ (forall i, In i l -> lookupN a i = Some zero)
      /\ (forall i, ~ In i l -> lookupN a i = lookupN (ChunkTape.adjoints tp) i).
Proof.
  induction l as [|j l IH]; intros tp Hin.
  - exists (ChunkTape.adjoints tp). simpl. split; [|split; [reflexivity|split]].
    + unfold ret, ChunkTape.emit, ChunkTape.set_adjoints. rewrite app_nil_r.
      destruct tp; reflexivity.
    + intros i [].
    + reflexivity.
  - assert (Hj : j < ChunkTape.adjointsSize tp) by (apply Hin; simpl; auto).
    pose (a1 := replaceNth (ChunkTape.adjoints tp) (N.to_nat j) zero).
    pose (tp1 := ChunkTape.emit [AdjointWrite j zero] (ChunkTape.set_adjoints a1 tp)).
    assert (E1 : ChunkTape.writeAdjoint j zero tp = Some (tt, tp1)).
    { unfold ChunkTape.writeAdjoint, modifyOpt.
      rewrite updateN_Some by exact Hj. reflexivity. }
    assert (Hlen : length a1 = length (ChunkTape.adjoints tp))
      by apply replaceNth_length.
    destruct (IH tp1) as (a & Erun & Ha & Hz & Ho).
    { intros i Hi. unfold ChunkTape.adjointsSize. simpl. rewrite Hlen.
      apply Hin. simpl. auto. }
    exists a. split; [|split; [|split]].
    + simpl. rewrite (bind_run _ _ _ _ _ E1). rewrite Erun.
      unfold tp1, ChunkTape.emit, ChunkTape.set_adjoints. simpl.
      rewrite <- app_assoc. reflexivity.
    + rewrite Ha. simpl. exact Hlen.
    + intros i [<-|Hi].
      * destruct (in_dec N.eq_dec j l) as [Hjl|Hjl]; [apply Hz, Hjl|].
        rewrite (Ho j Hjl). simpl. apply lookupN_Some.
        apply replaceNth_same. unfold ChunkTape.adjointsSize in Hj. lia.
      * apply Hz, Hi.
    + intros i Hi. rewrite Ho by (intros Hl; apply Hi; simpl; auto). simpl.
      assert (Hij : j <> i) by (intros ->; apply Hi; simpl; auto).
      apply (updateN_lookup_other (ChunkTape.adjoints tp) a1 j i zero); [|exact Hij].
      apply updateN_Some. exact Hj.
Qed.

Lemma ChunkIndexReuseTape_zeroing_run (l : list N) :
  forall tp : ChunkIndexReuseTape.t,
    (forall i, In i l -> i < ChunkIndexReuseTape.adjointsSize tp) ->
    exists a,
      forM l (fun i => ChunkIndexReuseTape.writeAdjoint i zero) tp
      = Some (tt, ChunkIndexReuseTape.emit (map (fun i => AdjointWrite i zero) l)
                    (ChunkIndexReuseTape.set_adjoints a tp))
      /\ length a = length (ChunkIndexReuseTape.adjoints tp)
      /\ (forall i, In i l -> lookupN a i = Some zero)
      /\ (forall i, ~ In i l ->
                    lookupN a i = lookupN (ChunkIndexReuseTape.adjoints tp) i).
Proof.
  induction l as [|j l IH]; intros tp Hin.
  - exists (ChunkIndexReuseTape.adjoints tp). simpl.
    split; [|split; [reflexivity|split]].
    + unfold ret, ChunkIndexReuseTape.emit, ChunkIndexReuseTape.set_adjoints.
      rewrite app_nil_r. destruct tp; reflexivity.
    + intros i [].
    + reflexivity.
  - assert (Hj : j < ChunkIndexReuseTape.adjointsSize tp) by (apply Hin; simpl; auto).
    pose (a1 := replaceNth (ChunkIndexReuseTape.adjoints tp) (N.to_nat j) zero).
    pose (tp1 := ChunkIndexReuseTape.emit [AdjointWrite j zero]
                   (ChunkIndexReuseTape.set_adjoints a1 tp)).
    assert (E1 : ChunkIndexReuseTape.writeAdjoint j zero tp = Some (tt, tp1)).
    { unfold ChunkIndexReuseTape.writeAdjoint, modifyOpt.
      rewrite updateN_Some by exact Hj. reflexivity. }
    assert (Hlen : length a1 = length (ChunkIndexReuseTape.adjoints tp))
      by apply replaceNth_length.
    destruct (IH tp1) as (a & Erun & Ha & Hz & Ho).
    { intros i Hi. unfold ChunkIndexReuseTape.adjointsSize. simpl. rewrite Hlen.
      apply Hin. simpl. auto. }
    exists a. split; [|split; [|split]].
    + simpl. rewrite (bind_run _ _ _ _ _ E1). rewrite Erun.
      unfold tp1, ChunkIndexReuseTape.emit, ChunkIndexReuseTape.set_adjoints. simpl.
      rewrite <- app_assoc. reflexivity.
    + rewrite Ha. simpl. exact Hlen.
    + intros i [<-|Hi].
      * destruct (in_dec N.eq_dec j l) as [Hjl|Hjl]; [apply Hz, Hjl|].
        rewrite (Ho j Hjl). simpl. apply lookupN_Some.
        apply replaceNth_same. unfold ChunkIndexReuseTape.adjointsSize in Hj. lia.
      * apply Hz, Hi.
    + intros i Hi. rewrite Ho by (intros Hl; apply Hi; simpl; auto). simpl.
      assert (Hij : j <> i) by (intros ->; apply Hi; simpl; auto).
      apply (updateN_lookup_other (ChunkIndexReuseTape.adjoints tp) a1 j i zero);
        [|exact Hij].
      apply updateN_Some. exact Hj.
Qed.

(** The calls of the delete functions. *)
Lemma ChunkTape_pop_run
      (l : list (ExternalFunction.t * ChunkTape.StatementPosition)) :
  forall tp : ChunkTape.t (Real:=Real),
    forM l ChunkTape.popExternalFunction tp
    = Some (tt, ChunkTape.emit (map (fun x => ExtFuncDelete (fst x)) l) tp).
Proof.
  induction l as [|x l IH]; intros tp; simpl.
  - unfold ret, ChunkTape.emit. rewrite app_nil_r. destruct tp; reflexivity.
  - unfold bind, ChunkTape.popExternalFunction at 1, modify. rewrite IH.
    unfold ChunkTape.emit. simpl. rewrite <- app_assoc. reflexivity.
Qed.

Lemma ChunkIndexReuseTape_pop_run
      (l : list (ExternalFunction.t * ChunkIndexReuseTape.StatementPosition)) :
  forall tp : ChunkIndexReuseTape.t (Real:=Real),
    forM l ChunkIndexReuseTape.popExternalFunction tp
    = Some (tt, ChunkIndexReuseTape.emit (map (fun x => ExtFuncDelete (fst x)) l) tp).
Proof.
  induction l as [|x l IH]; intros tp; simpl.
  - unfold ret, ChunkIndexReuseTape.emit. rewrite app_nil_r. destruct tp; reflexivity.
  - unfold bind, ChunkIndexReuseTape.popExternalFunction at 1, modify. rewrite IH.
    unfold ChunkIndexReuseTape.emit. simpl. rewrite <- app_assoc. reflexivity.
Qed.

End Allocated.

(** [clearAdjoints(start, end)] with the index range inside the adjoint
    vector, on either tape: the call returns, the adjoints of the range
    [start.inner.inner.inner <= i <= end.inner.inner.inner] are zero,
    every other adjoint is as before, and nothing else of the tape
    changes (the ghost trace records the writes). *)
Theorem clearAdjoints_range_zeroes_allocated_range :
  forall (Real : Type) (RO : RealOps Real)
         (emptyPositionIndex : ChunkIndexReuseTape.EmptyPosition -> N),
    (forall (tp : ChunkTape.t (Real:=Real)) (start end_ : ChunkTape.Position),
        ChunkTape.innermost end_ < ChunkTape.adjointsSize tp ->
        exists a,
          ChunkTape.clearAdjoints_range start end_ tp
          = Some (tt, ChunkTape.emit
                        (map (fun i => AdjointWrite i zero)
                             (rangeN (ChunkTape.innermost start)
                                     (ChunkTape.innermost end_)))
                        (ChunkTape.set_adjoints a tp))
          /\ length a = length (ChunkTape.adjoints tp)
          /\ (forall i, ChunkTape.innermost start <= i <= ChunkTape.innermost end_ ->
                        lookupN a i = Some zero)
          /\ (forall i, ~ (ChunkTape.innermost start <= i <= ChunkTape.innermost end_) ->
                        lookupN a i = lookupN (ChunkTape.adjoints tp) i))
    /\ (forall (tp : ChunkIndexReuseTape.t (Real:=Real))
               (start end_ : ChunkIndexReuseTape.Position),
           ChunkIndexReuseTape.innermost emptyPositionIndex end_
           < ChunkIndexReuseTape.adjointsSize tp ->
           exists a,
             ChunkIndexReuseTape.clearAdjoints_range emptyPositionIndex start end_ tp
             = Some (tt, ChunkIndexReuseTape.emit
                           (map (fun i => AdjointWrite i zero)
                                (rangeN (ChunkIndexReuseTape.innermost
                                           emptyPositionIndex start)
                                        (ChunkIndexReuseTape.innermost
                                           emptyPositionIndex end_)))
                           (ChunkIndexReuseTape.set_adjoints a tp))
             /\ length a = length (ChunkIndexReuseTape.adjoints tp)
             /\ (forall i,
                    ChunkIndexReuseTape.innermost emptyPositionIndex start <= i
                    <= ChunkIndexReuseTape.innermost emptyPositionIndex end_ ->
                    lookupN a i = Some zero)
             /\ (forall i,
                    ~ (ChunkIndexReuseTape.innermost emptyPositionIndex start <= i
                       <= ChunkIndexReuseTape.innermost emptyPositionIndex end_) ->
                    lookupN a i = lookupN (ChunkIndexReuseTape.adjoints tp) i)).
Proof.
  intros Real RO emptyPositionIndex. split.
  - intros tp start end_ H. unfold ChunkTape.clearAdjoints_range.
    destruct (ChunkTape_zeroing_run
                (rangeN (ChunkTape.innermost start) (ChunkTape.innermost end_)) tp)
      as (a & E & Hl & Hz & Ho).
    { intros i Hi. apply rangeN_In in Hi. lia. }
    exists a. split; [exact E|]. split; [exact Hl|]. split.
    + intros i Hi. apply Hz, rangeN_In, Hi.
    + intros i Hi. apply Ho. rewrite rangeN_In. exact Hi.
  - intros tp start end_ H. unfold ChunkIndexReuseTape.clearAdjoints_range.
    destruct (ChunkIndexReuseTape_zeroing_run
                (rangeN (ChunkIndexReuseTape.innermost emptyPositionIndex start)
                        (ChunkIndexReuseTape.innermost emptyPositionIndex end_)) tp)
      as (a & E & Hl & Hz & Ho).
    { intros i Hi. apply rangeN_In in Hi. lia. }
    exists a. split; [exact E|]. split; [exact Hl|]. split.
    + intros i Hi. apply Hz, rangeN_In, Hi.
    + intros i Hi. apply Ho. rewrite rangeN_In. exact Hi.
Qed.

(** [reset(pos)] on the linear-index tape whose adjoint vector covers the
    expression counter, for a position at or below the head: the call
    returns; the delete function of every external function record from
    [pos] up to the head is called, each once, highest slot first, and of
    no other record; the records are discarded after that, and the
    expression counter is the one of [pos]. *)
Theorem ChunkTape_reset_deletes_records_above :
  forall (Real : Type) (RO : RealOps Real) (tp : ChunkTape.t (Real:=Real))
         (pos : ChunkTape.Position),
    ChunkTape.expressionCount tp < ChunkTape.adjointsSize tp ->
    dense (ChunkTape.externalFunctions tp) ->
    validPosition (ChunkTape.externalFunctions tp) (ChunkTape.getPosition tp) ->
    ChunkVector.posLe pos (ChunkTape.getPosition tp) = true ->
    validPosition (ChunkTape.externalFunctions tp) pos ->
    validPosition (ChunkTape.statements tp) (ChunkVector.inner pos) ->
    validPosition (ChunkTape.data tp) (ChunkVector.inner (ChunkVector.inner pos)) ->
    exists l tp',
      recordsBetween (ChunkTape.externalFunctions tp) (ChunkTape.getPosition tp) pos
      = Some l
      /\ visitsExactly (ChunkTape.externalFunctions tp) (ChunkTape.getPosition tp) pos l
      /\ ChunkTape.reset pos tp = Some (tt, tp')
      /\ deletions (ChunkTape.trace tp')
         = deletions (ChunkTape.trace tp) ++ map (fun x => fst (snd x)) l
      /\ ChunkVector.reset pos (ChunkTape.externalFunctions tp)
         = Some (ChunkTape.externalFunctions tp')
      /\ ChunkTape.expressionCount tp' = ChunkTape.innermost pos.
Proof.
  intros Real RO tp pos Hadj Hd Hcur Hle Hpe Hps Hpd.
  destruct (recordsBetween_spec _ _ _ Hd Hcur Hle) as (l & El & Hl).
  destruct (reset_defined _ _ Hpe) as (e & Ee).
  destruct (reset_defined _ _ Hps) as (s & Es).
  destruct (reset_defined _ _ Hpd) as (d & Ed).
  destruct (ChunkTape_zeroing_run
              (rangeN (ChunkTape.innermost pos) (ChunkTape.expressionCount tp)) tp)
    as (a & Ez & _).
  { intros i Hi. apply rangeN_In in Hi. lia. }
  exists l. eexists. split; [exact El|]. split; [exact Hl|].
  unfold ChunkTape.reset.
  rewrite (bind_run _ _ tp tp (ChunkTape.expressionCount tp) eq_refl).
  rewrite (bind_run _ _ _ _ _ Ez).
  unfold bind at 1, gets at 1. unfold bind at 1, gets at 1.
  change (ChunkTape.getPosition
            (ChunkTape.emit
               (map (fun i => AdjointWrite i zero)
                    (rangeN (ChunkTape.innermost pos) (ChunkTape.expressionCount tp)))
               (ChunkTape.set_adjoints a tp)))
    with (ChunkTape.getPosition tp).
  change (ChunkTape.externalFunctions
            (ChunkTape.emit
               (map (fun i => AdjointWrite i zero)
                    (rangeN (ChunkTape.innermost pos) (ChunkTape.expressionCount tp)))
               (ChunkTape.set_adjoints a tp)))
    with (ChunkTape.externalFunctions tp).
  unfold bind at 1. rewrite forEach_visits, El, ChunkTape_pop_run.
  unfold ChunkTape.externalFunctions_reset, modifyOpt. cbn.
  rewrite Ee, Es, Ed. cbn. split; [reflexivity|]. split; [|split; reflexivity].
  unfold ChunkTape.set_externalFunctions, ChunkTape.set_statements, ChunkTape.set_data,
    ChunkTape.set_expressionCount, ChunkTape.emit, ChunkTape.set_adjoints. simpl.
  rewrite !deletions_app, deletions_writes, app_nil_r.
  rewrite deletions_deletes, map_map. reflexivity.
Qed.

(** [reset(pos)] on the reuse-index tape whose adjoint vector covers the
    maximum global index, for a position at or below the head: the call
    returns; the delete function of every external function record from
    [pos] up to the head is called, each once, highest slot first, and of
    no other record; the records are discarded after that. *)
Theorem ChunkIndexReuseTape_reset_deletes_records_above :
  forall (Real : Type) (RO : RealOps Real) (tp : ChunkIndexReuseTape.t (Real:=Real))
         (pos : ChunkIndexReuseTape.Position),
    IndexHandler.getMaximumGlobalIndex (ChunkIndexReuseTape.indexHandler tp)
    < ChunkIndexReuseTape.adjointsSize tp ->
    dense (ChunkIndexReuseTape.externalFunctions tp) ->
    validPosition (ChunkIndexReuseTape.externalFunctions tp)
                  (ChunkIndexReuseTape.getPosition tp) ->
    ChunkVector.posLe pos (ChunkIndexReuseTape.getPosition tp) = true ->
    validPosition (ChunkIndexReuseTape.externalFunctions tp) pos ->
    validPosition (ChunkIndexReuseTape.statements tp) (ChunkVector.inner pos) ->
    validPosition (ChunkIndexReuseTape.data tp)
                  (ChunkVector.inner (ChunkVector.inner pos)) ->
    exists l tp',
      recordsBetween (ChunkIndexReuseTape.externalFunctions tp)
                     (ChunkIndexReuseTape.getPosition tp) pos = Some l
      /\ visitsExactly (ChunkIndexReuseTape.externalFunctions tp)
                       (ChunkIndexReuseTape.getPosition tp) pos l
      /\ ChunkIndexReuseTape.reset pos tp = Some (tt, tp')
      /\ deletions (ChunkIndexReuseTape.trace tp')
         = deletions (ChunkIndexReuseTape.trace tp) ++ map (fun x => fst (snd x)) l
      /\ ChunkVector.reset pos (ChunkIndexReuseTape.externalFunctions tp)
         = Some (ChunkIndexReuseTape.externalFunctions tp').
Proof.
  intros Real RO tp pos Hadj Hd Hcur Hle Hpe Hps Hpd.
  destruct (recordsBetween_spec _ _ _ Hd Hcur Hle) as (l & El & Hl).
  destruct (reset_defined _ _ Hpe) as (e & Ee).
  destruct (reset_defined _ _ Hps) as (s & Es).
  destruct (reset_defined _ _ Hpd) as (d & Ed).
  destruct (ChunkIndexReuseTape_zeroing_run
              (rangeN 0 (IndexHandler.getMaximumGlobalIndex
                           (ChunkIndexReuseTape.indexHandler tp))) tp)
    as (a & Ez & _).
  { intros i Hi. apply rangeN_In in Hi. lia. }
  exists l. eexists. split; [exact El|]. split; [exact Hl|].
  unfold ChunkIndexReuseTape.reset, ChunkIndexReuseTape.clearAdjoints.
  unfold bind at 1. unfold bind at 1. unfold gets at 1. rewrite Ez.
  unfold bind at 1, gets at 1. unfold bind at 1, gets at 1.
  change (ChunkIndexReuseTape.getPosition
            (ChunkIndexReuseTape.emit
               (map (fun i => AdjointWrite i zero)
                    (rangeN 0 (IndexHandler.getMaximumGlobalIndex
                                 (ChunkIndexReuseTape.indexHandler tp))))
               (ChunkIndexReuseTape.set_adjoints a tp)))
    with (ChunkIndexReuseTape.getPosition tp).
  change (ChunkIndexReuseTape.externalFunctions
            (ChunkIndexReuseTape.emit
               (map (fun i => AdjointWrite i zero)
                    (rangeN 0 (IndexHandler.getMaximumGlobalIndex
                                 (ChunkIndexReuseTape.indexHandler tp))))
               (ChunkIndexReuseTape.set_adjoints a tp)))
    with (ChunkIndexReuseTape.externalFunctions tp).
  unfold bind at 1. rewrite forEach_visits, El, ChunkIndexReuseTape_pop_run.
  unfold bind at 1.
  unfold ChunkIndexReuseTape.externalFunctions_reset, modifyOpt. cbn.
  rewrite Ee, Es, Ed. cbn. split; [reflexivity|]. split; [|reflexivity].
  unfold ChunkIndexReuseTape.set_externalFunctions, ChunkIndexReuseTape.set_statements,
    ChunkIndexReuseTape.set_data, ChunkIndexReuseTape.set_indexHandler,
    ChunkIndexReuseTape.emit, ChunkIndexReuseTape.set_adjoints. simpl.
  rewrite !deletions_app, deletions_writes, app_nil_r.
  rewrite deletions_deletes, map_map. reflexivity.
Qed.

Lemma clearAdjoints_range_zeroes_allocated_range_witness :
  exists a,
    ChunkTape.clearAdjoints_range
      (ChunkVector.mkPosition 0 0 (ChunkVector.mkPosition 0 0
                                     (ChunkVector.mkPosition 0 0 1)))
      (ChunkVector.mkPosition 0 0 (ChunkVector.mkPosition 0 0
                                     (ChunkVector.mkPosition 0 0 2)))
      (ChunkTape_withAdjoints allChecks [Finite 5; Finite 6; Finite 7; Finite 8])
    = Some (tt, ChunkTape.emit [AdjointWrite 1 (Finite 0); AdjointWrite 2 (Finite 0)]
                  (ChunkTape.set_adjoints a
                     (ChunkTape_withAdjoints allChecks
                        [Finite 5; Finite 6; Finite 7; Finite 8])))
    /\ a = [Finite 5; Finite 0; Finite 0; Finite 8].
Proof.
  destruct (clearAdjoints_range_zeroes_allocated_range XReal XReal_RealOps (fun _ => 0))
    as [HL _].
  destruct (HL (ChunkTape_withAdjoints allChecks [Finite 5; Finite 6; Finite 7; Finite 8])
               (ChunkVector.mkPosition 0 0 (ChunkVector.mkPosition 0 0
                                              (ChunkVector.mkPosition 0 0 1)))
               (ChunkVector.mkPosition 0 0 (ChunkVector.mkPosition 0 0
                                              (ChunkVector.mkPosition 0 0 2))))
    as (a & E & _); [vm_compute; reflexivity|].
  exists a. split; [exact E|].
  vm_compute in E. injection E as E. symmetry. exact E.
Defined.

Lemma ChunkTape_reset_deletes_records_above_witness :
  exists tp',
    ChunkTape.reset ChunkTape.initialPosition ChunkTape_exampleTape = Some (tt, tp')
    /\ deletions (ChunkTape.trace tp') = [extF2; extF1]
    /\ ChunkVector.records (ChunkTape.externalFunctions tp') = [].
Proof.
  destruct (ChunkTape_reset_deletes_records_above XReal XReal_RealOps
              ChunkTape_exampleTape ChunkTape.initialPosition)
    as (l & tp' & El & _ & Er & Hdel & He & _).
  - vm_compute. reflexivity.
  - constructor.
  - eexists. split; [vm_compute; reflexivity|]. vm_compute. discriminate.
  - vm_compute. reflexivity.
  - eexists. split; [vm_compute; reflexivity|]. vm_compute. discriminate.
  - eexists. split; [vm_compute; reflexivity|]. vm_compute. discriminate.
  - eexists. split; [vm_compute; reflexivity|]. vm_compute. discriminate.
  - exists tp'. split; [exact Er|]. split.
    + rewrite Hdel. vm_compute in El. injection El as <-. vm_compute. reflexivity.
    + remember (ChunkTape.externalFunctions tp') as e eqn:Heq.
      vm_compute in He. injection He as <-. reflexivity.
Defined.

Lemma ChunkIndexReuseTape_reset_deletes_records_above_witness :
  exists tp',
    ChunkIndexReuseTape.reset ChunkIndexReuseTape.initialPosition
      ChunkIndexReuseTape_exampleTape = Some (tt, tp')
    /\ deletions (ChunkIndexReuseTape.trace tp') = [extF2; extF1]
    /\ ChunkVector.records (ChunkIndexReuseTape.externalFunctions tp') = [].
Proof.
  destruct (ChunkIndexReuseTape_reset_deletes_records_above XReal XReal_RealOps
              ChunkIndexReuseTape_exampleTape ChunkIndexReuseTape.initialPosition)
    as (l & tp' & El & _ & Er & Hdel & He).
  - vm_compute. reflexivity.
  - constructor.
  - eexists. split; [vm_compute; reflexivity|]. vm_compute. discriminate.
  - vm_compute. reflexivity.
  - eexists. split; [vm_compute; reflexivity|]. vm_compute. discriminate.
  - eexists. split; [vm_compute; reflexivity|]. vm_compute. discriminate.
  - eexists. split; [vm_compute; reflexivity|]. vm_compute. discriminate.
  - exists tp'. split; [exact Er|]. split.
    + rewrite Hdel. vm_compute in El. injection El as <-. vm_compute. reflexivity.
    + remember (ChunkIndexReuseTape.externalFunctions tp') as e eqn:Heq.
      vm_compute in He. injection He as <-. reflexivity.
Defined.

(** ** The adjoint vector as seen through [getGradient] *)

Lemma lookupN_nth {A : Type} (l : list A) (i : N) (d : A) :
  lookupN l i = if i <? N.of_nat (length l) then Some (nth (N.to_nat i) l d) else None.
Proof.
  unfold lookupN. destruct (N.ltb_spec i (N.of_nat (length l))); [|reflexivity].
  apply nth_error_nth'. lia.
Qed.

Lemma nth_lookupN {A : Type} (l : list A) (i : N) (d v : A) :
  lookupN l i = Some v -> nth (N.to_nat i) l d = v.
Proof.
  rewrite (lookupN_nth l i d).
  destruct (i <? N.of_nat (length l)); [|discriminate]. intros E. inversion E. reflexivity.
Qed.

Lemma nth_resized {A : Type} (a : list A) (d : A) (size : N) (j : nat) :
  nth j (firstn (N.to_nat size) a ++ repeat d (N.to_nat (size - N.of_nat (length a)))) d
  = if (j <? N.to_nat size)%nat then nth j a d else d.
Proof.
  destruct (Nat.ltb_spec j (N.to_nat size)) as [Hj|Hj].
  - destruct (Nat.lt_ge_cases j (length a)) as [Ha|Ha].
    + rewrite app_nth1 by (rewrite length_firstn; lia).
      rewrite nth_firstn. destruct (Nat.ltb_spec j (N.to_nat size)); [reflexivity|lia].
    + rewrite firstn_all2 by lia. rewrite app_nth2 by lia.
      rewrite nth_repeat. symmetry. apply nth_overflow. lia.
  - apply nth_overflow. rewrite length_app, length_firstn, repeat_length. lia.
Qed.

Lemma length_resized {A : Type} (a : list A) (d : A) (size : N) :
  N.of_nat (length (firstn (N.to_nat size) a
                    ++ repeat d (N.to_nat (size - N.of_nat (length a))))) = size.
Proof. rewrite length_app, length_firstn, repeat_length. lia. Qed.

Section Gradients.
Context {Real : Type} {RO : RealOps Real}.

(** [getGradient] never fails and never changes the tape: it reads the
    slot, or gives [Real()] beyond the allocated size. *)
Lemma ChunkTape_getGradient_nth (index : N) (tp : ChunkTape.t) :
  ChunkTape.getGradient index tp
  = Some (nth (N.to_nat index) (ChunkTape.adjoints tp) zero, tp).
Proof.
  unfold ChunkTape.getGradient, bind, gets, ChunkTape.adjointsSize.
  destruct (N.leb_spec (N.of_nat (length (ChunkTape.adjoints tp))) index) as [H|H].
  - unfold ret. rewrite nth_overflow by lia. reflexivity.
  - unfold ChunkTape.readAdjoint, getsOpt.
    rewrite (lookupN_nth _ _ zero).
    destruct (N.ltb_spec index (N.of_nat (length (ChunkTape.adjoints tp)))); [reflexivity|lia].
Qed.

Lemma ChunkIndexReuseTape_getGradient_nth (index : N) (tp : ChunkIndexReuseTape.t) :
  ChunkIndexReuseTape.getGradient index tp
  = Some (nth (N.to_nat index) (ChunkIndexReuseTape.adjoints tp) zero, tp).
Proof.
  unfold ChunkIndexReuseTape.getGradient, bind, gets, ChunkIndexReuseTape.adjointsSize.
  destruct (N.leb_spec (N.of_nat (length (ChunkIndexReuseTape.adjoints tp))) index)
    as [H|H].
  - unfold ret. rewrite nth_overflow by lia. reflexivity.
  - unfold ChunkIndexReuseTape.readAdjoint, getsOpt.
    rewrite (lookupN_nth _ _ zero).
    destruct (N.ltb_spec index (N.of_nat (length (ChunkIndexReuseTape.adjoints tp))));
      [reflexivity|lia].
Qed.

Lemma nth_replaceNth {A : Type} (l : list A) (i j : nat) (a d : A) :
  (i < length l)%nat ->
  nth j (replaceNth l i a) d = if (j =? i)%nat then a else nth j l d.
Proof.
  revert i j. induction l as [|x l IH]; intros i j Hi; simpl in Hi; [lia|].
  destruct i as [|i], j as [|j]; simpl; try reflexivity.
  apply IH. lia.
Qed.

End Gradients.

Section GradientAccess.
Context {Real : Type} {RO : RealOps Real}.

Lemma ChunkTape_gradientOf_nth (tp : ChunkTape.t) (index : N) :
  ChunkTape_gradientOf tp index
  = Some (nth (N.to_nat index) (ChunkTape.adjoints tp) zero).
Proof. unfold ChunkTape_gradientOf. rewrite ChunkTape_getGradient_nth. reflexivity. Qed.

Lemma ChunkIndexReuseTape_gradientOf_nth (tp : ChunkIndexReuseTape.t) (index : N) :
  ChunkIndexReuseTape_gradientOf tp index
  = Some (nth (N.to_nat index) (ChunkIndexReuseTape.adjoints tp) zero).
Proof.
  unfold ChunkIndexReuseTape_gradientOf.
  rewrite ChunkIndexReuseTape_getGradient_nth. reflexivity.
Qed.

(** The array after [gradient(index) = g]. *)
Lemma nth_assigned (a : list Real) (index : N) (g : Real) (j : N) :
  let a1 := if N.of_nat (length a) <=? index
            then firstn (N.to_nat (index + 1)) a
                 ++ repeat zero (N.to_nat (index + 1 - N.of_nat (length a)))
            else a in
  index < N.of_nat (length a1)
  /\ N.of_nat (length (replaceNth a1 (N.to_nat index) g))
     = N.max (N.of_nat (length a)) (index + 1)
  /\ nth (N.to_nat j) (replaceNth a1 (N.to_nat index) g) zero
     = if j =? index then g else nth (N.to_nat j) a zero.
Proof.
  intros a1.
  assert (Hlen : N.of_nat (length a1) = N.max (N.of_nat (length a)) (index + 1)).
  { unfold a1. destruct (N.leb_spec (N.of_nat (length a)) index).
    - rewrite length_resized. lia.
    - lia. }
  split; [lia|]. split; [rewrite replaceNth_length; exact Hlen|].
  rewrite nth_replaceNth by lia.
  destruct (N.eqb_spec j index) as [->|Hne].
  - rewrite Nat.eqb_refl. reflexivity.
  - destruct (Nat.eqb_spec (N.to_nat j) (N.to_nat index)); [lia|].
    unfold a1. destruct (N.leb_spec (N.of_nat (length a)) index); [|reflexivity].
    rewrite nth_resized.
    destruct (Nat.ltb_spec (N.to_nat j) (N.to_nat (index + 1))); [reflexivity|].
    symmetry. apply nth_overflow. lia.
Qed.

Lemma ChunkTape_setGradient_run (tp : ChunkTape.t) (index : N) (g : Real) :
  index <> 0 ->
  exists tp',
    ChunkTape.setGradient index g tp = Some (tt, tp')
    /\ ChunkTape.adjointsSize tp' = N.max (ChunkTape.adjointsSize tp) (index + 1)
    /\ (forall j, nth (N.to_nat j) (ChunkTape.adjoints tp') zero
                  = if j =? index then g
                    else nth (N.to_nat j) (ChunkTape.adjoints tp) zero)
    /\ ChunkTape_sameRecording tp tp'.
Proof.
  intros Hi. unfold ChunkTape.setGradient, ChunkTape.gradient.
  destruct (N.eqb_spec 0 index) as [E|_]; [congruence|]. simpl.
  unfold bind at 1. unfold bind at 1. unfold ret at 1. unfold bind at 1.
  unfold gets at 1. unfold bind at 1.
  pose proof (nth_assigned (ChunkTape.adjoints tp) index g) as HA.
  unfold ChunkTape.adjointsSize at 1.
  destruct (N.of_nat (length (ChunkTape.adjoints tp)) <=? index) eqn:Hle.
  - unfold ChunkTape.resizeAdjoints at 1, modify. unfold ret.
    unfold ChunkTape.writeAdjoint, modifyOpt. cbn [ChunkTape.adjoints ChunkTape.emit
      ChunkTape.set_adjoints ChunkTape.adjointsSize].
    destruct (HA 0) as (Hin & _).
    rewrite updateN_Some by exact Hin.
    eexists. split; [reflexivity|]. cbn. unfold ChunkTape.adjointsSize. cbn.
    split; [apply (HA 0)|]. split; [intros j; apply (HA j)|].
    repeat split.
  - unfold ret. unfold ChunkTape.writeAdjoint, modifyOpt.
    destruct (HA 0) as (Hin & _).
    rewrite updateN_Some by exact Hin.
    eexists. split; [reflexivity|]. cbn. unfold ChunkTape.adjointsSize. cbn.
    split; [apply (HA 0)|]. split; [intros j; apply (HA j)|].
    repeat split.
Qed.

Lemma ChunkIndexReuseTape_setGradient_run (tp : ChunkIndexReuseTape.t) (index : N)
      (g : Real) :
  index <> 0 ->
  exists tp',
    ChunkIndexReuseTape.setGradient index g tp = Some (tt, tp')
    /\ ChunkIndexReuseTape.adjointsSize tp'
       = N.max (ChunkIndexReuseTape.adjointsSize tp) (index + 1)
    /\ (forall j, nth (N.to_nat j) (ChunkIndexReuseTape.adjoints tp') zero
                  = if j =? index then g
                    else nth (N.to_nat j) (ChunkIndexReuseTape.adjoints tp) zero)
    /\ ChunkIndexReuseTape_sameRecording tp tp'.
Proof.
  intros Hi. unfold ChunkIndexReuseTape.setGradient, ChunkIndexReuseTape.gradient.
  destruct (N.eqb_spec 0 index) as [E|_]; [congruence|]. simpl.
  unfold bind at 1. unfold bind at 1. unfold ret at 1. unfold bind at 1.
  unfold gets at 1. unfold bind at 1.
  pose proof (nth_assigned (ChunkIndexReuseTape.adjoints tp) index g) as HA.
  unfold ChunkIndexReuseTape.adjointsSize at 1.
  destruct (N.of_nat (length (ChunkIndexReuseTape.adjoints tp)) <=? index) eqn:Hle.
  - unfold ChunkIndexReuseTape.resizeAdjoints at 1, modify. unfold ret.
    unfold ChunkIndexReuseTape.writeAdjoint, modifyOpt.
    cbn [ChunkIndexReuseTape.adjoints ChunkIndexReuseTape.emit
         ChunkIndexReuseTape.set_adjoints ChunkIndexReuseTape.adjointsSize].
    destruct (HA 0) as (Hin & _).
    rewrite updateN_Some by exact Hin.
    eexists. split; [reflexivity|]. cbn. unfold ChunkIndexReuseTape.adjointsSize. cbn.
    split; [apply (HA 0)|]. split; [intros j; apply (HA j)|].
    repeat split.
  - unfold ret. unfold ChunkIndexReuseTape.writeAdjoint, modifyOpt.
    destruct (HA 0) as (Hin & _).
    rewrite updateN_Some by exact Hin.
    eexists. split; [reflexivity|]. cbn. unfold ChunkIndexReuseTape.adjointsSize. cbn.
    split; [apply (HA 0)|]. split; [intros j; apply (HA j)|].
    repeat split.
Qed.

End GradientAccess.

Lemma nth_eq_of_lookupN {A : Type} (a b : list A) (d : A) (j : N) :
  length a = length b -> lookupN a j = lookupN b j ->
  nth (N.to_nat j) a d = nth (N.to_nat j) b d.
Proof.
  intros Hl H. rewrite (lookupN_nth a j d), (lookupN_nth b j d), Hl in H.
  destruct (N.ltb_spec j (N.of_nat (length b))).
  - inversion H. reflexivity.
  - rewrite !nth_overflow by lia. reflexivity.
Qed.

Section Clearing.
Context {Real : Type} {RO : RealOps Real}.

(** A run of [adjoints[i] = 0.0] that names an index outside the array
    has no result. *)
Lemma ChunkTape_zeroing_fails (l : list N) :
  forall tp : ChunkTape.t,
    (exists i, In i l /\ ChunkTape.adjointsSize tp <= i) ->
    forM l (fun i => ChunkTape.writeAdjoint i zero) tp = None.
Proof.
  induction l as [|j l IH]; intros tp (i & Hi & Hout); [destruct Hi|].
  simpl. unfold bind.
  destruct (ChunkTape.writeAdjoint j zero tp) as [[u tp1]|] eqn:E; [|reflexivity].
  unfold ChunkTape.writeAdjoint, modifyOpt in E.
  destruct (updateN (ChunkTape.adjoints tp) j zero) as [a|] eqn:Eu; [|discriminate].
  inversion E; subst; clear E.
  apply IH. destruct Hi as [->|Hi].
  - apply updateN_inv in Eu. unfold ChunkTape.adjointsSize in Hout. lia.
  - exists i. split; [exact Hi|]. unfold ChunkTape.adjointsSize in *. simpl.
    rewrite (updateN_length _ _ _ _ Eu). exact Hout.
Qed.

Lemma ChunkIndexReuseTape_zeroing_fails (l : list N) :
  forall tp : ChunkIndexReuseTape.t,
    (exists i, In i l /\ ChunkIndexReuseTape.adjointsSize tp <= i) ->
    forM l (fun i => ChunkIndexReuseTape.writeAdjoint i zero) tp = None.
Proof.
  induction l as [|j l IH]; intros tp (i & Hi & Hout); [destruct Hi|].
  simpl. unfold bind.
  destruct (ChunkIndexReuseTape.writeAdjoint j zero tp) as [[u tp1]|] eqn:E;
    [|reflexivity].
  unfold ChunkIndexReuseTape.writeAdjoint, modifyOpt in E.
  destruct (updateN (ChunkIndexReuseTape.adjoints tp) j zero) as [a|] eqn:Eu;
    [|discriminate].
  inversion E; subst; clear E.
  apply IH. destruct Hi as [->|Hi].
  - apply updateN_inv in Eu. unfold ChunkIndexReuseTape.adjointsSize in Hout. lia.
  - exists i. split; [exact Hi|]. unfold ChunkIndexReuseTape.adjointsSize in *. simpl.
    rewrite (updateN_length _ _ _ _ Eu). exact Hout.
Qed.

End Clearing.

(** [setGradient(index, g)] for an index that the tape has issued
    (nonzero and at most [expressionCount.count], on the reuse tape at
    most the maximum global index) returns, growing the adjoint vector to
    [index + 1] entries when it is shorter; [getGradient(index)] then
    gives [g], [getGradient] of any other index gives what it gave before,
    and nothing that recording writes has changed. This holds on both
    tapes. *)
Theorem setGradient_then_getGradient :
  forall (Real : Type) (RO : RealOps Real),
    (forall (tp : ChunkTape.t (Real:=Real)) (index : N) (g : Real),
        index <> 0 ->
        index <= ChunkTape.expressionCount tp ->
        exists tp',
          ChunkTape.setGradient index g tp = Some (tt, tp')
          /\ ChunkTape.getGradient index tp' = Some (g, tp')
          /\ (forall j, j <> index ->
                        ChunkTape_gradientOf tp' j = ChunkTape_gradientOf tp j)
          /\ ChunkTape.adjointsSize tp'
             = N.max (ChunkTape.adjointsSize tp) (index + 1)
          /\ ChunkTape_sameRecording tp tp')
    /\ (forall (tp : ChunkIndexReuseTape.t (Real:=Real)) (index : N) (g : Real),
           index <> 0 ->
           index <= IndexHandler.getMaximumGlobalIndex
                      (ChunkIndexReuseTape.indexHandler tp) ->
           exists tp',
             ChunkIndexReuseTape.setGradient index g tp = Some (tt, tp')
             /\ ChunkIndexReuseTape.getGradient index tp' = Some (g, tp')
             /\ (forall j, j <> index ->
                           ChunkIndexReuseTape_gradientOf tp' j
                           = ChunkIndexReuseTape_gradientOf tp j)
             /\ ChunkIndexReuseTape.adjointsSize tp'
                = N.max (ChunkIndexReuseTape.adjointsSize tp) (index + 1)
             /\ ChunkIndexReuseTape_sameRecording tp tp').
Proof.
  intros Real RO. split.
  - intros tp index g Hi _.
    destruct (ChunkTape_setGradient_run tp index g Hi) as (tp' & E & Hs & Hn & Hr).
    exists tp'. split; [exact E|]. split; [|split; [|split; assumption]].
    + rewrite ChunkTape_getGradient_nth, Hn, N.eqb_refl. reflexivity.
    + intros j Hj. rewrite !ChunkTape_gradientOf_nth, Hn.
      destruct (N.eqb_spec j index); [contradiction|reflexivity].
  - intros tp index g Hi _.
    destruct (ChunkIndexReuseTape_setGradient_run tp index g Hi)
      as (tp' & E & Hs & Hn & Hr).
    exists tp'. split; [exact E|]. split; [|split; [|split; assumption]].
    + rewrite ChunkIndexReuseTape_getGradient_nth, Hn, N.eqb_refl. reflexivity.
    + intros j Hj. rewrite !ChunkIndexReuseTape_gradientOf_nth, Hn.
      destruct (N.eqb_spec j index); [contradiction|reflexivity].
Qed.

Lemma setGradient_then_getGradient_witness :
  (exists tp0 tp',
      (ChunkTape.registerInput ;; ChunkTape.registerInput)
        (ChunkTape.create (Real:=XReal) allChecks) = Some (2, tp0)
      /\ ChunkTape.setGradient 2 (Finite 7) tp0 = Some (tt, tp')
      /\ ChunkTape.getGradient 2 tp' = Some (Finite 7, tp')
      /\ ChunkTape_gradientOf tp' 1 = Some (Finite 0)
      /\ ChunkTape.adjointsSize tp' = 3)
  /\ (exists tp0 tp',
         (ChunkIndexReuseTape.registerInput 0 ;; ChunkIndexReuseTape.registerInput 0)
           (ChunkIndexReuseTape.create (Real:=XReal) allChecks) = Some (2, tp0)
         /\ ChunkIndexReuseTape.setGradient 2 (Finite 7) tp0 = Some (tt, tp')
         /\ ChunkIndexReuseTape.getGradient 2 tp' = Some (Finite 7, tp')
         /\ ChunkIndexReuseTape_gradientOf tp' 1 = Some (Finite 0)
         /\ ChunkIndexReuseTape.adjointsSize tp' = 3).
Proof.
  destruct (setGradient_then_getGradient XReal XReal_RealOps) as [HL HR]. split.
  - destruct ((ChunkTape.registerInput ;; ChunkTape.registerInput)
                (ChunkTape.create (Real:=XReal) allChecks)) as [[x tp0]|] eqn:E0;
      [|vm_compute in E0; discriminate].
    assert (Hx : x = 2 /\ ChunkTape.expressionCount tp0 = 2
                 /\ ChunkTape.adjointsSize tp0 = 0).
    { vm_compute in E0. injection E0 as <- <-. repeat split. }
    destruct Hx as (-> & Hc & Hz).
    destruct (HL tp0 2 (Finite 7)) as (tp' & E & Hg & Ho & Hs & _);
      [discriminate|rewrite Hc; apply N.le_refl|].
    exists tp0, tp'. split; [reflexivity|]. split; [exact E|]. split; [exact Hg|]. split.
    + rewrite (Ho 1) by discriminate.
      unfold ChunkTape_gradientOf, ChunkTape.getGradient, bind, gets.
      rewrite Hz. reflexivity.
    + rewrite Hs, Hz. reflexivity.
  - destruct ((ChunkIndexReuseTape.registerInput 0 ;; ChunkIndexReuseTape.registerInput 0)
                (ChunkIndexReuseTape.create (Real:=XReal) allChecks))
      as [[x tp0]|] eqn:E0; [|vm_compute in E0; discriminate].
    assert (Hx : x = 2
                 /\ IndexHandler.getMaximumGlobalIndex
                      (ChunkIndexReuseTape.indexHandler tp0) = 2
                 /\ ChunkIndexReuseTape.adjointsSize tp0 = 0).
    { vm_compute in E0. injection E0 as <- <-. repeat split. }
    destruct Hx as (-> & Hc & Hz).
    destruct (HR tp0 2 (Finite 7)) as (tp' & E & Hg & Ho & Hs & _);
      [discriminate|rewrite Hc; apply N.le_refl|].
    exists tp0, tp'. split; [reflexivity|]. split; [exact E|]. split; [exact Hg|]. split.
    + rewrite (Ho 1) by discriminate.
      unfold ChunkIndexReuseTape_gradientOf, ChunkIndexReuseTape.getGradient, bind, gets.
      rewrite Hz. reflexivity.
    + rewrite Hs, Hz. reflexivity.
Defined.

(** Resizing the adjoint vector of the reuse-index tape:
    [setAdjointsSize(size)] for a size up to what [getAdjointsSize()]
    gives (the maximum global index plus one) returns and leaves a vector
    of exactly that size; [getGradient] of an index below the new size
    gives what it gave before (zero where the vector has grown),
    [getGradient] of any other index gives zero, and nothing that
    recording writes has changed. [allocateAdjoints()] is
    [setAdjointsSize(getAdjointsSize())]. *)
Theorem resizing_keeps_gradients_below_new_size :
  forall (Real : Type) (RO : RealOps Real) (tp : ChunkIndexReuseTape.t (Real:=Real))
         (size : N),
    size <= IndexHandler.getMaximumGlobalIndex (ChunkIndexReuseTape.indexHandler tp) + 1 ->
    (exists tp',
        ChunkIndexReuseTape.setAdjointsSize size tp = Some (tt, tp')
        /\ ChunkIndexReuseTape.adjointsSize tp' = size
        /\ (forall j, ChunkIndexReuseTape_gradientOf tp' j
                      = if j <? size then ChunkIndexReuseTape_gradientOf tp j
                        else Some zero)
        /\ ChunkIndexReuseTape_sameRecording tp tp')
    /\ option_map fst (ChunkIndexReuseTape.getAdjointsSize tp)
       = Some (IndexHandler.getMaximumGlobalIndex
                 (ChunkIndexReuseTape.indexHandler tp) + 1)
    /\ ChunkIndexReuseTape.allocateAdjoints tp
       = ChunkIndexReuseTape.setAdjointsSize
           (IndexHandler.getMaximumGlobalIndex
              (ChunkIndexReuseTape.indexHandler tp) + 1) tp.
Proof.
  intros Real RO tp size _. split; [|split; reflexivity].
  eexists. split; [reflexivity|]. cbn.
  split; [apply length_resized|]. split; [|repeat split].
  intros j. rewrite !ChunkIndexReuseTape_gradientOf_nth. cbn.
  unfold ChunkIndexReuseTape.adjointsSize. rewrite nth_resized.
  destruct (Nat.ltb_spec (N.to_nat j) (N.to_nat size));
    destruct (N.ltb_spec j size); try lia; reflexivity.
Qed.

Lemma resizing_keeps_gradients_below_new_size_witness :
  exists tp',
    ChunkIndexReuseTape.setAdjointsSize 3 ChunkIndexReuseTape_exampleTape
    = Some (tt, tp')
    /\ ChunkIndexReuseTape.adjointsSize tp' = 3
    /\ ChunkIndexReuseTape_gradientOf tp' 4 = Some (Finite 0)
    /\ ChunkIndexReuseTape_gradientOf ChunkIndexReuseTape_exampleTape 4
       = Some (Finite 1).
Proof.
  destruct (resizing_keeps_gradients_below_new_size XReal XReal_RealOps
              ChunkIndexReuseTape_exampleTape 3) as [(tp' & E & Hs & Hg & _) _];
    [vm_compute; discriminate|].
  exists tp'. split; [exact E|]. split; [exact Hs|]. split; [|reflexivity].
  rewrite (Hg 4). reflexivity.
Defined.

(** [clearAdjoints()] on the linear-index tape writes the slots [0] to
    [expressionCount.count], on the reuse-index tape the slots [0] to the
    maximum global index: it has no result when the adjoint vector does
    not cover them all. When it does, the call returns, [getGradient]
    gives zero for each of these indices and what it gave before for
    every other, the size of the vector is unchanged, and so is
    everything that recording writes. *)
Theorem clearAdjoints_zeroes_issued_indices :
  forall (Real : Type) (RO : RealOps Real),
    (forall tp : ChunkTape.t (Real:=Real),
        (ChunkTape.adjointsSize tp <= ChunkTape.expressionCount tp ->
         ChunkTape.clearAdjoints tp = None)
        /\ (ChunkTape.expressionCount tp < ChunkTape.adjointsSize tp ->
            exists tp',
              ChunkTape.clearAdjoints tp = Some (tt, tp')
              /\ ChunkTape.adjointsSize tp' = ChunkTape.adjointsSize tp
              /\ (forall j, ChunkTape_gradientOf tp' j
                            = if j <=? ChunkTape.expressionCount tp then Some zero
                              else ChunkTape_gradientOf tp j)
              /\ ChunkTape_sameRecording tp tp'))
    /\ (forall tp : ChunkIndexReuseTape.t (Real:=Real),
           let m := IndexHandler.getMaximumGlobalIndex
                      (ChunkIndexReuseTape.indexHandler tp) in
           (ChunkIndexReuseTape.adjointsSize tp <= m ->
            ChunkIndexReuseTape.clearAdjoints tp = None)
           /\ (m < ChunkIndexReuseTape.adjointsSize tp ->
               exists tp',
                 ChunkIndexReuseTape.clearAdjoints tp = Some (tt, tp')
                 /\ ChunkIndexReuseTape.adjointsSize tp'
                    = ChunkIndexReuseTape.adjointsSize tp
                 /\ (forall j, ChunkIndexReuseTape_gradientOf tp' j
                               = if j <=? m then Some zero
                                 else ChunkIndexReuseTape_gradientOf tp j)
                 /\ ChunkIndexReuseTape_sameRecording tp tp')).
Proof.
  intros Real RO. split.
  - intros tp. split.
    + intros H. unfold ChunkTape.clearAdjoints, bind, gets.
      apply ChunkTape_zeroing_fails. exists (ChunkTape.expressionCount tp).
      split; [apply rangeN_In; lia|exact H].
    + intros H.
      destruct (ChunkTape_zeroing_run (rangeN 0 (ChunkTape.expressionCount tp)) tp)
        as (a & E & Hl & Hz & Ho).
      { intros i Hi. apply rangeN_In in Hi. lia. }
      eexists. split; [unfold ChunkTape.clearAdjoints, bind, gets; exact E|].
      unfold ChunkTape.adjointsSize. cbn. split; [rewrite Hl; reflexivity|].
      split; [|repeat split].
      intros j. rewrite !ChunkTape_gradientOf_nth. cbn.
      destruct (N.leb_spec j (ChunkTape.expressionCount tp)) as [Hj|Hj].
      * f_equal. apply nth_lookupN, Hz, rangeN_In. lia.
      * f_equal. apply nth_eq_of_lookupN; [exact Hl|].
        apply Ho. rewrite rangeN_In. lia.
  - intros tp m. split.
    + intros H. unfold ChunkIndexReuseTape.clearAdjoints, bind, gets.
      apply ChunkIndexReuseTape_zeroing_fails. exists m.
      split; [apply rangeN_In; lia|exact H].
    + intros H.
      destruct (ChunkIndexReuseTape_zeroing_run (rangeN 0 m) tp)
        as (a & E & Hl & Hz & Ho).
      { intros i Hi. apply rangeN_In in Hi. lia. }
      eexists. split; [unfold ChunkIndexReuseTape.clearAdjoints, bind, gets; exact E|].
      unfold ChunkIndexReuseTape.adjointsSize. cbn. split; [rewrite Hl; reflexivity|].
      split; [|repeat split].
      intros j. rewrite !ChunkIndexReuseTape_gradientOf_nth. cbn.
      destruct (N.leb_spec j m) as [Hj|Hj].
      * f_equal. apply nth_lookupN, Hz, rangeN_In. lia.
      * f_equal. apply nth_eq_of_lookupN; [exact Hl|].
        apply Ho. rewrite rangeN_In. lia.
Qed.

Lemma clearAdjoints_zeroes_issued_indices_witness :
  ChunkTape.clearAdjoints (ChunkTape.create (Real:=XReal) allChecks) = None
  /\ exists tp',
      ChunkTape.clearAdjoints ChunkTape_exampleFinal = Some (tt, tp')
      /\ ChunkTape_gradientOf ChunkTape_exampleFinal 1 = Some (Finite 2)
      /\ ChunkTape_gradientOf tp' 1 = Some (Finite 0).
Proof.
  destruct (clearAdjoints_zeroes_issued_indices XReal XReal_RealOps) as [HL _].
  split.
  - apply (HL (ChunkTape.create allChecks)). vm_compute. discriminate.
  - destruct (HL ChunkTape_exampleFinal) as [_ H].
    destruct H as (tp' & E & _ & Hg & _); [vm_compute; reflexivity|].
    exists tp'. split; [exact E|]. split; [reflexivity|].
    rewrite Hg. reflexivity.
Defined.

(** ** One statement of the reverse pass *)

Lemma size_dec_pred (x : N) : 1 <= x -> size_dec x = x - 1.
Proof.
  intros H. unfold size_dec. destruct (N.eqb_spec x 0); [lia|reflexivity].
Qed.

Section ChainRule.
Context {Real : Type} {RO : RealOps Real}.
Variable opts : Options.

Lemma ChunkTape_writeAdjoint_run (i : N) (v w : Real) (tp : ChunkTape.t) :
  lookupN (ChunkTape.adjoints tp) i = Some w ->
  ChunkTape.writeAdjoint i v tp
  = Some (tt, ChunkTape.emit [AdjointWrite i v]
                (ChunkTape.set_adjoints
                   (replaceNth (ChunkTape.adjoints tp) (N.to_nat i) v) tp)).
Proof.
  intros H. unfold ChunkTape.writeAdjoint, modifyOpt.
  rewrite updateN_Some by (eapply lookupN_lt; eauto). reflexivity.
Qed.

Lemma ChunkTape_accumulateLoop_chainRule (adjRef : N) (dc : list (Real * N)) (adj : Real) :
  forall (n : nat) (dataPos : N) (tp : ChunkTape.t) (entries : list (Real * N))
         (a' : list Real),
    lookupN (ChunkTape.adjoints tp) adjRef = Some adj ->
    N.of_nat n <= dataPos ->
    cellsBelow dc n dataPos = Some entries ->
    Forall (fun entry => snd entry <> adjRef) entries ->
    chainRule adj entries (ChunkTape.adjoints tp) = Some a' ->
    exists tp',
      ChunkTape.accumulateLoop n adjRef dc dataPos tp
      = Some (dataPos - N.of_nat n, tp')
      /\ ChunkTape.adjoints tp' = a'
      /\ ChunkTape_sameRecording tp tp'.
Proof.
  induction n as [|n IH]; intros dataPos tp entries a' Hadj Hn Hc Hne Hr.
  - simpl in Hc. inversion Hc; subst. simpl in Hr. inversion Hr; subst.
    exists tp. simpl. unfold ret. rewrite N.sub_0_r. repeat split.
  - simpl in Hc.
    destruct (lookupN dc (size_dec dataPos)) as [cell|] eqn:Ecell; [|discriminate].
    destruct (cellsBelow dc n (size_dec dataPos)) as [l|] eqn:El; [|discriminate].
    inversion Hc; subst; clear Hc. simpl in Hr.
    destruct (lookupN (ChunkTape.adjoints tp) (snd cell)) as [old|] eqn:Eold;
      [|discriminate].
    inversion Hne as [|? ? Hcell Hrest]; subst.
    rewrite size_dec_pred in * by lia.
    set (tp1 := ChunkTape.emit [AdjointWrite (snd cell) (add old (mul adj (fst cell)))]
                  (ChunkTape.set_adjoints
                     (replaceNth (ChunkTape.adjoints tp) (N.to_nat (snd cell))
                                 (add old (mul adj (fst cell)))) tp)).
    destruct (IH (dataPos - 1) tp1 l a') as (tp' & Erun & Ha & Hs).
    + simpl. rewrite <- Hadj.
      apply (updateN_lookup_other (ChunkTape.adjoints tp) _ (snd cell) adjRef
                                  (add old (mul adj (fst cell)))); [|exact Hcell].
      apply updateN_Some. eapply lookupN_lt; eauto.
    + lia.
    + exact El.
    + exact Hrest.
    + exact Hr.
    + exists tp'. split; [|split; [exact Ha|]].
      * simpl. unfold ChunkTape.accumulate.
        rewrite size_dec_pred by lia.
        unfold bind at 1. unfold bind at 1. unfold getsOpt at 1. rewrite Ecell.
        unfold bind at 1. rewrite (ChunkTape_readAdjoint_run _ _ _ Hadj).
        unfold bind at 1. rewrite (ChunkTape_readAdjoint_run _ _ _ Eold).
        unfold bind at 1. rewrite (ChunkTape_writeAdjoint_run _ _ _ _ Eold).
        unfold ret at 1. fold tp1. rewrite Erun. f_equal. f_equal. lia.
      * destruct Hs as (H1 & H2 & H3 & H4 & H5). repeat split; assumption.
Qed.

Lemma ChunkIndexReuseTape_accumulateLoop_chainRule (dc : list (Real * N)) (adj : Real) :
  forall (n : nat) (dataPos : N) (tp : ChunkIndexReuseTape.t)
         (entries : list (Real * N)) (a' : list Real),
    N.of_nat n <= dataPos ->
    cellsBelow dc n dataPos = Some entries ->
    chainRule adj entries (ChunkIndexReuseTape.adjoints tp) = Some a' ->
    exists tp',
      ChunkIndexReuseTape.accumulateLoop n adj dc dataPos tp
      = Some (dataPos - N.of_nat n, tp')
      /\ ChunkIndexReuseTape.adjoints tp' = a'
      /\ ChunkIndexReuseTape_sameRecording tp tp'.
Proof.
  induction n as [|n IH]; intros dataPos tp entries a' Hn Hc Hr.
  - simpl in Hc. inversion Hc; subst. simpl in Hr. inversion Hr; subst.
    exists tp. simpl. unfold ret. rewrite N.sub_0_r. repeat split.
  - simpl in Hc.
    destruct (lookupN dc (size_dec dataPos)) as [cell|] eqn:Ecell; [|discriminate].
    destruct (cellsBelow dc n (size_dec dataPos)) as [l|] eqn:El; [|discriminate].
    inversion Hc; subst; clear Hc. simpl in Hr.
    destruct (lookupN (ChunkIndexReuseTape.adjoints tp) (snd cell)) as [old|] eqn:Eold;
      [|discriminate].
    rewrite size_dec_pred in * by lia.
    set (tp1 := ChunkIndexReuseTape.emit
                  [AdjointWrite (snd cell) (add old (mul adj (fst cell)))]
                  (ChunkIndexReuseTape.set_adjoints
                     (replaceNth (ChunkIndexReuseTape.adjoints tp) (N.to_nat (snd cell))
                                 (add old (mul adj (fst cell)))) tp)).
    destruct (IH (dataPos - 1) tp1 l a') as (tp' & Erun & Ha & Hs);
      [lia|exact El|exact Hr|].
    exists tp'. split; [|split; [exact Ha|]].
    + simpl. unfold ChunkIndexReuseTape.accumulate.
      rewrite size_dec_pred by lia.
      unfold bind at 1. unfold bind at 1. unfold getsOpt at 1. rewrite Ecell.
      unfold bind at 1. rewrite (ChunkIndexReuseTape_readAdjoint_run _ _ _ Eold).
      unfold bind at 1.
      rewrite (ChunkIndexReuseTape_writeAdjoint_run _ _ _ _ Eold).
      unfold ret at 1. fold tp1. rewrite Erun. f_equal. f_equal. lia.
    + destruct Hs as (H1 & H2 & H3 & H4 & H5). repeat split; assumption.
Qed.

End ChainRule.

(** One statement of the reverse pass whose lhs adjoint passes the
    [OptZeroAdjoint] test, with its [k] jacobian entries below the data
    cursor and every index of them inside the adjoint vector: the
    statement returns with the cursors moved ([dataPos] down by [k]), the
    adjoint vector is the old one after [adjoints[index] += adj * jacobi]
    for the entries from the cursor downwards, and nothing that recording
    writes has changed. On the linear-index tape [adj] is a reference to
    the slot of the lhs, so no entry may name that slot; the reuse-index
    tape copies [adj] and zeroes the slot of the lhs before the
    updates. *)
Theorem statement_applies_chain_rule :
  forall (Real : Type) (RO : RealOps Real) (opts : Options),
    (forall (tp : ChunkTape.t (Real:=Real)) (sd : list N) (dc : list (Real * N))
            (adjPos stmtPos dataPos k : N) (adj : Real)
            (entries : list (Real * N)) (a' : list Real),
        lookupN sd (size_dec stmtPos) = Some k ->
        lookupN (ChunkTape.adjoints tp) adjPos = Some adj ->
        ENABLE_CHECK (OptZeroAdjoint opts) (nonzero adj) = true ->
        k <= dataPos ->
        cellsBelow dc (N.to_nat k) dataPos = Some entries ->
        Forall (fun entry => snd entry <> adjPos) entries ->
        chainRule adj entries (ChunkTape.adjoints tp) = Some a' ->
        exists tp',
          ChunkTape.evaluateStatement opts sd dc (adjPos, stmtPos, dataPos) tp
          = Some ((size_dec adjPos, size_dec stmtPos, dataPos - k), tp')
          /\ ChunkTape.adjoints tp' = a'
          /\ ChunkTape_sameRecording tp tp')
    /\ (forall (tp : ChunkIndexReuseTape.t (Real:=Real)) (sd : list (N * N))
               (dc : list (Real * N)) (stmtPos dataPos k lhsIndex : N) (adj : Real)
               (entries : list (Real * N)) (a' : list Real),
           lookupN sd (size_dec stmtPos) = Some (k, lhsIndex) ->
           lookupN (ChunkIndexReuseTape.adjoints tp) lhsIndex = Some adj ->
           ENABLE_CHECK (OptZeroAdjoint opts) (nonzero adj) = true ->
           k <= dataPos ->
           cellsBelow dc (N.to_nat k) dataPos = Some entries ->
           chainRule adj entries
             (replaceNth (ChunkIndexReuseTape.adjoints tp) (N.to_nat lhsIndex) zero)
           = Some a' ->
           exists tp',
             ChunkIndexReuseTape.evaluateStatement opts sd dc (stmtPos, dataPos) tp
             = Some ((size_dec stmtPos, dataPos - k), tp')
             /\ ChunkIndexReuseTape.adjoints tp' = a'
             /\ ChunkIndexReuseTape_sameRecording tp tp').
Proof.
  intros Real RO opts. split.
  - intros tp sd dc adjPos stmtPos dataPos k adj entries a' Hs Hadj Hck Hk Hc Hne Hr.
    destruct (ChunkTape_accumulateLoop_chainRule adjPos dc adj (N.to_nat k) dataPos tp
                entries a') as (tp' & Erun & Ha & Hsame);
      [exact Hadj|lia|exact Hc|exact Hne|exact Hr|].
    exists tp'. split; [|split; assumption].
    unfold ChunkTape.evaluateStatement.
    unfold bind at 1. unfold getsOpt at 1. rewrite Hs.
    unfold bind at 1. rewrite N2Nat.id in Erun.
    destruct (OptZeroAdjoint opts) eqn:Hopt.
    + unfold bind at 1. rewrite (ChunkTape_readAdjoint_run _ _ _ Hadj).
      unfold ret at 1. unfold bind at 1. rewrite Hck, Erun. reflexivity.
    + unfold ret at 1. unfold bind at 1. unfold ENABLE_CHECK at 1. simpl.
      rewrite Erun. reflexivity.
  - intros tp sd dc stmtPos dataPos k lhsIndex adj entries a' Hs Hadj Hck Hk Hc Hr.
    set (tp0 := ChunkIndexReuseTape.emit [AdjointWrite lhsIndex zero]
                  (ChunkIndexReuseTape.set_adjoints
                     (replaceNth (ChunkIndexReuseTape.adjoints tp) (N.to_nat lhsIndex)
                                 zero) tp)).
    destruct (ChunkIndexReuseTape_accumulateLoop_chainRule dc adj (N.to_nat k) dataPos
                tp0 entries a') as (tp' & Erun & Ha & Hsame);
      [lia|exact Hc|exact Hr|].
    exists tp'. split; [|split; [exact Ha|]].
    + unfold ChunkIndexReuseTape.evaluateStatement.
      unfold bind at 1. unfold getsOpt at 1. rewrite Hs. cbn [fst snd].
      unfold bind at 1. rewrite (ChunkIndexReuseTape_readAdjoint_run _ _ _ Hadj).
      unfold bind at 1. rewrite (ChunkIndexReuseTape_writeAdjoint_run _ _ _ _ Hadj).
      fold tp0. unfold bind at 1. rewrite Hck. rewrite N2Nat.id in Erun.
      rewrite Erun. reflexivity.
    + destruct Hsame as (H1 & H2 & H3 & H4 & H5). repeat split; assumption.
Qed.

Lemma statement_applies_chain_rule_witness :
  (exists tp',
      ChunkTape.evaluateStatement allChecks [0; 2] [(Finite 3, 1); (Finite 4, 1)]
        (2, 2, 2) (ChunkTape_withAdjoints allChecks [Finite 0; Finite 10; Finite 5])
      = Some ((1, 1, 0), tp')
      /\ ChunkTape.adjoints tp' = [Finite 0; Finite 45; Finite 5])
  /\ (exists tp',
         ChunkIndexReuseTape.evaluateStatement allChecks [(2, 2)]
           [(Finite 3, 1); (Finite 4, 1)] (1, 2)
           (ChunkIndexReuseTape_withAdjoints allChecks [Finite 0; Finite 10; Finite 5])
         = Some ((0, 0), tp')
         /\ ChunkIndexReuseTape.adjoints tp' = [Finite 0; Finite 45; Finite 0]).
Proof.
  destruct (statement_applies_chain_rule XReal XReal_RealOps allChecks) as [HL HR].
  split.
  - destruct (HL (ChunkTape_withAdjoints allChecks [Finite 0; Finite 10; Finite 5])
                 [0; 2] [(Finite 3, 1); (Finite 4, 1)] 2 2 2 2 (Finite 5)
                 [(Finite 4, 1); (Finite 3, 1)] [Finite 0; Finite 45; Finite 5])
      as (tp' & E & Ha & _); try (vm_compute; reflexivity).
    + vm_compute. discriminate.
    + repeat constructor; discriminate.
    + exists tp'. split; [exact E|exact Ha].
  - destruct (HR (ChunkIndexReuseTape_withAdjoints allChecks
                    [Finite 0; Finite 10; Finite 5])
                 [(2, 2)] [(Finite 3, 1); (Finite 4, 1)] 1 2 2 2 (Finite 5)
                 [(Finite 4, 1); (Finite 3, 1)] [Finite 0; Finite 45; Finite 0])
      as (tp' & E & Ha & _); try (vm_compute; reflexivity).
    + vm_compute. discriminate.
    + exists tp'. split; [exact E|exact Ha].
Defined.

(** ** The lhs adjoint of a statement in the reverse pass *)

Section LhsAdjoint.
Context {Real : Type} {RO : RealOps Real}.
Variable opts : Options.

(** The chain rule leaves alone every slot that no entry names. *)
Lemma chainRule_lookup_other (adj : Real) (i : N) :
  forall (entries : list (Real * N)) (a a' : list Real),
    chainRule adj entries a = Some a' ->
    Forall (fun entry => snd entry <> i) entries ->
    lookupN a' i = lookupN a i.
Proof.
  induction entries as [|entry rest IH]; intros a a' Hr Hne; simpl in Hr.
  - inversion Hr. reflexivity.
  - destruct (lookupN a (snd entry)) as [old|] eqn:Eold; [|discriminate].
    inversion Hne as [|? ? Hentry Hrest]; subst.
    rewrite (IH _ _ Hr Hrest).
    apply (updateN_lookup_other a _ (snd entry) i (add old (mul adj (fst entry))));
      [|exact Hentry].
    apply updateN_Some. eapply lookupN_lt; eauto.
Qed.

(** The trace of the loop over the arguments of a statement, on the
    linear-index tape. *)
Lemma ChunkTape_accumulateLoop_events (adjRef : N) (dc : list (Real * N)) (adj : Real) :
  forall (n : nat) (dataPos : N) (tp tp' : ChunkTape.t) (entries : list (Real * N))
         (dataPos' : N),
    lookupN (ChunkTape.adjoints tp) adjRef = Some adj ->
    N.of_nat n <= dataPos ->
    cellsBelow dc n dataPos = Some entries ->
    Forall (fun entry => snd entry <> adjRef) entries ->
    ChunkTape.accumulateLoop n adjRef dc dataPos tp = Some (dataPos', tp') ->
    ChunkTape.trace tp'
    = ChunkTape.trace tp ++ chainRuleEvents adj entries (ChunkTape.adjoints tp).
Proof.
  induction n as [|n IH]; intros dataPos tp tp' entries dataPos' Hadj Hn Hc Hne Hrun.
  - simpl in Hc. inversion Hc; subst. simpl in Hrun. inversion Hrun; subst.
    simpl. rewrite app_nil_r. reflexivity.
  - simpl in Hc.
    destruct (lookupN dc (size_dec dataPos)) as [cell|] eqn:Ecell; [|discriminate].
    destruct (cellsBelow dc n (size_dec dataPos)) as [l|] eqn:El; [|discriminate].
    inversion Hc; subst; clear Hc.
    inversion Hne as [|? ? Hcell Hrest]; subst.
    simpl in Hrun. unfold ChunkTape.accumulate in Hrun.
    unfold bind at 1 in Hrun. unfold bind at 1 in Hrun. unfold getsOpt at 1 in Hrun.
    rewrite Ecell in Hrun.
    unfold bind at 1 in Hrun. rewrite (ChunkTape_readAdjoint_run _ _ _ Hadj) in Hrun.
    unfold bind at 1 in Hrun.
    destruct (lookupN (ChunkTape.adjoints tp) (snd cell)) as [old|] eqn:Eold.
    + rewrite (ChunkTape_readAdjoint_run _ _ _ Eold) in Hrun.
      unfold bind at 1 in Hrun. rewrite (ChunkTape_writeAdjoint_run _ _ _ _ Eold) in Hrun.
      unfold ret at 1 in Hrun.
      rewrite size_dec_pred in * by lia.
      assert (Hn' : N.of_nat n <= dataPos - 1) by lia.
      match type of Hrun with
      | ChunkTape.accumulateLoop _ _ _ _ ?t = _ =>
          assert (Hadj' : lookupN (ChunkTape.adjoints t) adjRef = Some adj)
      end.
      { simpl. rewrite <- Hadj.
        apply (updateN_lookup_other (ChunkTape.adjoints tp) _ (snd cell) adjRef
                                    (add old (mul adj (fst cell)))); [|exact Hcell].
        apply updateN_Some. eapply lookupN_lt; eauto. }
      rewrite (IH _ _ _ l _ Hadj' Hn' El Hrest Hrun).
      simpl. rewrite Eold. rewrite <- app_assoc. reflexivity.
    + unfold ChunkTape.readAdjoint at 1, getsOpt in Hrun. rewrite Eold in Hrun.
      discriminate.
Qed.

(** The same on the reuse-index tape. *)
Lemma ChunkIndexReuseTape_accumulateLoop_events (dc : list (Real * N)) (adj : Real) :
  forall (n : nat) (dataPos : N) (tp tp' : ChunkIndexReuseTape.t)
         (entries : list (Real * N)) (dataPos' : N),
    N.of_nat n <= dataPos ->
    cellsBelow dc n dataPos = Some entries ->
    ChunkIndexReuseTape.accumulateLoop n adj dc dataPos tp = Some (dataPos', tp') ->
    ChunkIndexReuseTape.trace tp'
    = ChunkIndexReuseTape.trace tp
      ++ chainRuleEvents adj entries (ChunkIndexReuseTape.adjoints tp).
Proof.
  induction n as [|n IH]; intros dataPos tp tp' entries dataPos' Hn Hc Hrun.
  - simpl in Hc. inversion Hc; subst. simpl in Hrun. inversion Hrun; subst.
    simpl. rewrite app_nil_r. reflexivity.
  - simpl in Hc.
    destruct (lookupN dc (size_dec dataPos)) as [cell|] eqn:Ecell; [|discriminate].
    destruct (cellsBelow dc n (size_dec dataPos)) as [l|] eqn:El; [|discriminate].
    inversion Hc; subst; clear Hc.
    simpl in Hrun. unfold ChunkIndexReuseTape.accumulate in Hrun.
    unfold bind at 1 in Hrun. unfold bind at 1 in Hrun. unfold getsOpt at 1 in Hrun.
    rewrite Ecell in Hrun. unfold bind at 1 in Hrun.
    destruct (lookupN (ChunkIndexReuseTape.adjoints tp) (snd cell)) as [old|] eqn:Eold.
    + rewrite (ChunkIndexReuseTape_readAdjoint_run _ _ _ Eold) in Hrun.
      unfold bind at 1 in Hrun.
      rewrite (ChunkIndexReuseTape_writeAdjoint_run _ _ _ _ Eold) in Hrun.
      unfold ret at 1 in Hrun.
      rewrite size_dec_pred in * by lia.
      assert (Hn' : N.of_nat n <= dataPos - 1) by lia.
      rewrite (IH _ _ _ l _ Hn' El Hrun).
      simpl. rewrite Eold. rewrite <- app_assoc. reflexivity.
    + unfold ChunkIndexReuseTape.readAdjoint at 1, getsOpt in Hrun.
      rewrite Eold in Hrun. discriminate.
Qed.

(** A statement of the linear-index tape: the cursors, the adjoint
    vector and the trace after it. *)
Lemma ChunkTape_statement_run (tp : ChunkTape.t) (sd : list N) (dc : list (Real * N))
      (adjPos stmtPos dataPos k : N) (adj : Real) (entries : list (Real * N))
      (a' : list Real) :
  lookupN sd (size_dec stmtPos) = Some k ->
  lookupN (ChunkTape.adjoints tp) adjPos = Some adj ->
  k <= dataPos ->
  cellsBelow dc (N.to_nat k) dataPos = Some entries ->
  Forall (fun entry => snd entry <> adjPos) entries ->
  chainRule adj (updatedEntries opts adj entries) (ChunkTape.adjoints tp) = Some a' ->
  exists tp',
    ChunkTape.evaluateStatement opts sd dc (adjPos, stmtPos, dataPos) tp
    = Some ((size_dec adjPos, size_dec stmtPos, dataPos - k), tp')
    /\ ChunkTape.adjoints tp' = a'
    /\ ChunkTape.trace tp'
       = ChunkTape.trace tp
         ++ chainRuleEvents adj (updatedEntries opts adj entries) (ChunkTape.adjoints tp)
    /\ ChunkTape_sameRecording tp tp'.
Proof.
  intros Hs Hadj Hk Hc Hne Hr. unfold updatedEntries in *.
  unfold ChunkTape.evaluateStatement.
  unfold bind at 1. unfold getsOpt at 1. rewrite Hs. unfold bind at 1.
  assert (Hnz : (if OptZeroAdjoint opts
                 then adj0 <- ChunkTape.readAdjoint adjPos ;; ret (nonzero adj0)
                 else ret false) tp
                = Some (if OptZeroAdjoint opts then nonzero adj else false, tp)).
  { destruct (OptZeroAdjoint opts); [|reflexivity].
    unfold bind. rewrite (ChunkTape_readAdjoint_run _ _ _ Hadj). reflexivity. }
  rewrite Hnz. unfold bind at 1.
  assert (Hck : ENABLE_CHECK (OptZeroAdjoint opts)
                  (if OptZeroAdjoint opts then nonzero adj else false)
                = ENABLE_CHECK (OptZeroAdjoint opts) (nonzero adj)).
  { unfold ENABLE_CHECK. destruct (OptZeroAdjoint opts); reflexivity. }
  rewrite Hck.
  destruct (ENABLE_CHECK (OptZeroAdjoint opts) (nonzero adj)).
  - destruct (ChunkTape_accumulateLoop_chainRule adjPos dc adj (N.to_nat k) dataPos tp
                entries a') as (tp' & Erun & Ha & Hsame);
      [exact Hadj|lia|exact Hc|exact Hne|exact Hr|].
    exists tp'. rewrite Erun. rewrite N2Nat.id.
    split; [reflexivity|]. split; [exact Ha|]. split; [|exact Hsame].
    eapply ChunkTape_accumulateLoop_events; eauto. lia.
  - simpl in Hr. inversion Hr; subst. exists tp.
    unfold ret. rewrite size_sub_le by exact Hk.
    split; [reflexivity|]. split; [reflexivity|]. simpl. rewrite app_nil_r.
    split; [reflexivity|]. repeat split.
Qed.

(** A statement of the reuse-index tape. *)
Lemma ChunkIndexReuseTape_statement_run (tp : ChunkIndexReuseTape.t)
      (sd : list (N * N)) (dc : list (Real * N)) (stmtPos dataPos k lhsIndex : N)
      (adj : Real) (entries : list (Real * N)) (a' : list Real) :
  lookupN sd (size_dec stmtPos) = Some (k, lhsIndex) ->
  lookupN (ChunkIndexReuseTape.adjoints tp) lhsIndex = Some adj ->
  k <= dataPos ->
  cellsBelow dc (N.to_nat k) dataPos = Some entries ->
  chainRule adj (updatedEntries opts adj entries)
    (replaceNth (ChunkIndexReuseTape.adjoints tp) (N.to_nat lhsIndex) zero) = Some a' ->
  exists tp',
    ChunkIndexReuseTape.evaluateStatement opts sd dc (stmtPos, dataPos) tp
    = Some ((size_dec stmtPos, dataPos - k), tp')
    /\ ChunkIndexReuseTape.adjoints tp' = a'
    /\ ChunkIndexReuseTape.trace tp'
       = ChunkIndexReuseTape.trace tp
         ++ AdjointWrite lhsIndex zero
            :: chainRuleEvents adj (updatedEntries opts adj entries)
                 (replaceNth (ChunkIndexReuseTape.adjoints tp) (N.to_nat lhsIndex) zero)
    /\ ChunkIndexReuseTape_sameRecording tp tp'.
Proof.
  intros Hs Hadj Hk Hc Hr. unfold updatedEntries in *.
  set (tp0 := ChunkIndexReuseTape.emit [AdjointWrite lhsIndex zero]
                (ChunkIndexReuseTape.set_adjoints
                   (replaceNth (ChunkIndexReuseTape.adjoints tp) (N.to_nat lhsIndex)
                               zero) tp)).
  unfold ChunkIndexReuseTape.evaluateStatement.
  unfold bind at 1. unfold getsOpt at 1. rewrite Hs. cbn [fst snd].
  unfold bind at 1. rewrite (ChunkIndexReuseTape_readAdjoint_run _ _ _ Hadj).
  unfold bind at 1. rewrite (ChunkIndexReuseTape_writeAdjoint_run _ _ _ _ Hadj).
  fold tp0. unfold bind at 1.
  destruct (ENABLE_CHECK (OptZeroAdjoint opts) (nonzero adj)).
  - destruct (ChunkIndexReuseTape_accumulateLoop_chainRule dc adj (N.to_nat k) dataPos
                tp0 entries a') as (tp' & Erun & Ha & Hsame);
      [lia|exact Hc|exact Hr|].
    exists tp'. rewrite Erun. rewrite N2Nat.id.
    split; [reflexivity|]. split; [exact Ha|]. split.
    + assert (Hk' : N.of_nat (N.to_nat k) <= dataPos) by lia.
      rewrite (ChunkIndexReuseTape_accumulateLoop_events dc adj _ _ tp0 tp' entries _
                 Hk' Hc Erun).
      unfold tp0. simpl. rewrite <- app_assoc. reflexivity.
    + destruct Hsame as (H1 & H2 & H3 & H4 & H5). repeat split; assumption.
  - simpl in Hr. inversion Hr; subst. exists tp0.
    unfold ret. rewrite size_sub_le by exact Hk.
    split; [reflexivity|]. split; [reflexivity|]. split; [reflexivity|].
    repeat split.
Qed.

End LhsAdjoint.

(** C4. Processing a statement [(k, lhsIndex)] whose [k] jacobian entries
    lie below the data cursor, the reuse-index tape reads the lhs adjoint
    [adj], writes [0] to that slot at once, and applies the chain-rule
    updates with the value read to the vector so zeroed: the first new
    event of the trace is the zeroing, the next ones are the updates in
    turn, the adjoint vector is the zeroed one after the updates, and the
    slot of the lhs holds zero unless an entry names it. The linear-index
    tape moves its cursors ([adjPos] and [stmtPos] each one down) and
    writes the chain-rule updates only, to the vector as it is: the
    adjoint it read is still in its slot. The updates are those of all
    [k] entries, or none when [OptZeroAdjoint] is on and [adj] is zero;
    the data cursor moves down by [k] either way. On the linear tape [adj]
    is a reference to the slot of the lhs, so no entry may name it. *)
Theorem lhs_adjoint_zeroed_by_reuse_tape_only :
  forall (Real : Type) (RO : RealOps Real) (opts : Options),
    (forall (tp : ChunkIndexReuseTape.t (Real:=Real)) (sd : list (N * N))
            (dc : list (Real * N)) (stmtPos dataPos k lhsIndex : N) (adj : Real)
            (entries : list (Real * N)) (a' : list Real),
        lookupN sd (size_dec stmtPos) = Some (k, lhsIndex) ->
        lookupN (ChunkIndexReuseTape.adjoints tp) lhsIndex = Some adj ->
        k <= dataPos ->
        cellsBelow dc (N.to_nat k) dataPos = Some entries ->
        chainRule adj (updatedEntries opts adj entries)
          (replaceNth (ChunkIndexReuseTape.adjoints tp) (N.to_nat lhsIndex) zero)
        = Some a' ->
        exists tp',
          ChunkIndexReuseTape.evaluateStatement opts sd dc (stmtPos, dataPos) tp
          = Some ((size_dec stmtPos, dataPos - k), tp')
          /\ ChunkIndexReuseTape.adjoints tp' = a'
          /\ ChunkIndexReuseTape.trace tp'
             = ChunkIndexReuseTape.trace tp
               ++ AdjointWrite lhsIndex zero
                  :: chainRuleEvents adj (updatedEntries opts adj entries)
                       (replaceNth (ChunkIndexReuseTape.adjoints tp)
                                   (N.to_nat lhsIndex) zero)
          /\ (Forall (fun entry => snd entry <> lhsIndex) entries ->
              lookupN (ChunkIndexReuseTape.adjoints tp') lhsIndex = Some zero)
          /\ ChunkIndexReuseTape_sameRecording tp tp')
    /\ (forall (tp : ChunkTape.t (Real:=Real)) (sd : list N) (dc : list (Real * N))
               (adjPos stmtPos dataPos k : N) (adj : Real)
               (entries : list (Real * N)) (a' : list Real),
           lookupN sd (size_dec stmtPos) = Some k ->
           lookupN (ChunkTape.adjoints tp) adjPos = Some adj ->
           k <= dataPos ->
           cellsBelow dc (N.to_nat k) dataPos = Some entries ->
           Forall (fun entry => snd entry <> adjPos) entries ->
           chainRule adj (updatedEntries opts adj entries) (ChunkTape.adjoints tp)
           = Some a' ->
           exists tp',
             ChunkTape.evaluateStatement opts sd dc (adjPos, stmtPos, dataPos) tp
             = Some ((size_dec adjPos, size_dec stmtPos, dataPos - k), tp')
             /\ ChunkTape.adjoints tp' = a'
             /\ ChunkTape.trace tp'
                = ChunkTape.trace tp
                  ++ chainRuleEvents adj (updatedEntries opts adj entries)
                       (ChunkTape.adjoints tp)
             /\ lookupN (ChunkTape.adjoints tp') adjPos = Some adj
             /\ ChunkTape_sameRecording tp tp').
Proof.
  intros Real RO opts. split.
  - intros tp sd dc stmtPos dataPos k lhsIndex adj entries a' Hs Hadj Hk Hc Hr.
    destruct (ChunkIndexReuseTape_statement_run opts tp sd dc stmtPos dataPos k lhsIndex
                adj entries a' Hs Hadj Hk Hc Hr) as (tp' & E & Ha & Ht & Hsame).
    exists tp'. split; [exact E|]. split; [exact Ha|]. split; [exact Ht|].
    split; [|exact Hsame].
    intros Hne. rewrite Ha.
    rewrite (chainRule_lookup_other adj lhsIndex _ _ _ Hr).
    + apply (updateN_lookup_same (ChunkIndexReuseTape.adjoints tp) _ lhsIndex zero).
      apply updateN_Some. eapply lookupN_lt; eauto.
    + unfold updatedEntries.
      destruct (ENABLE_CHECK (OptZeroAdjoint opts) (nonzero adj));
        [exact Hne|constructor].
  - intros tp sd dc adjPos stmtPos dataPos k adj entries a' Hs Hadj Hk Hc Hne Hr.
    destruct (ChunkTape_statement_run opts tp sd dc adjPos stmtPos dataPos k
                adj entries a' Hs Hadj Hk Hc Hne Hr) as (tp' & E & Ha & Ht & Hsame).
    exists tp'. split; [exact E|]. split; [exact Ha|]. split; [exact Ht|].
    split; [|exact Hsame].
    rewrite Ha, <- Hadj. apply (chainRule_lookup_other adj adjPos _ _ _ Hr).
    unfold updatedEntries.
    destruct (ENABLE_CHECK (OptZeroAdjoint opts) (nonzero adj));
      [exact Hne|constructor].
Qed.

Lemma lhs_adjoint_zeroed_by_reuse_tape_only_witness :
  (exists tp',
      ChunkIndexReuseTape.evaluateStatement allChecks [(2, 2)]
        [(Finite 3, 1); (Finite 4, 1)] (1, 2)
        (ChunkIndexReuseTape_withAdjoints allChecks [Finite 0; Finite 10; Finite 5])
      = Some ((0, 0), tp')
      /\ ChunkIndexReuseTape.adjoints tp' = [Finite 0; Finite 45; Finite 0]
      /\ ChunkIndexReuseTape.trace tp'
         = [AdjointWrite 2 (Finite 0); AdjointWrite 1 (Finite 30);
            AdjointWrite 1 (Finite 45)])
  /\ (exists tp',
         ChunkTape.evaluateStatement allChecks [0; 2] [(Finite 3, 1); (Finite 4, 1)]
           (2, 2, 2) (ChunkTape_withAdjoints allChecks [Finite 0; Finite 10; Finite 5])
         = Some ((1, 1, 0), tp')
         /\ ChunkTape.adjoints tp' = [Finite 0; Finite 45; Finite 5]
         /\ ChunkTape.trace tp'
            = [AdjointWrite 1 (Finite 30); AdjointWrite 1 (Finite 45)]
         /\ lookupN (ChunkTape.adjoints tp') 2 = Some (Finite 5)).
Proof.
  destruct (lhs_adjoint_zeroed_by_reuse_tape_only XReal XReal_RealOps allChecks)
    as [HR HL].
  split.
  - destruct (HR (ChunkIndexReuseTape_withAdjoints allChecks
                    [Finite 0; Finite 10; Finite 5])
                 [(2, 2)] [(Finite 3, 1); (Finite 4, 1)] 1 2 2 2 (Finite 5)
                 [(Finite 4, 1); (Finite 3, 1)] [Finite 0; Finite 45; Finite 0])
      as (tp' & E & Ha & Ht & _); try (vm_compute; reflexivity).
    + vm_compute. discriminate.
    + exists tp'. split; [exact E|]. split; [exact Ha|]. rewrite Ht. reflexivity.
  - destruct (HL (ChunkTape_withAdjoints allChecks [Finite 0; Finite 10; Finite 5])
                 [0; 2] [(Finite 3, 1); (Finite 4, 1)] 2 2 2 2 (Finite 5)
                 [(Finite 4, 1); (Finite 3, 1)] [Finite 0; Finite 45; Finite 5])
      as (tp' & E & Ha & Ht & Hl & _); try (vm_compute; reflexivity).
    + vm_compute. discriminate.
    + repeat constructor; discriminate.
    + exists tp'. split; [exact E|]. split; [exact Ha|].
      split; [rewrite Ht; reflexivity|exact Hl].
Defined.

(** ** What the reverse pass leaves alone *)

(** A property of the linear-index tape that adjoint writes and calls of
    external functions keep is kept by the whole reverse pass. *)
Section LinearReversePass.
Context {Real : Type} {RO : RealOps Real}.
Variable opts : Options.
Variable P : ChunkTape.t (Real:=Real) -> Prop.
Hypothesis P_write : forall (i : N) (v : Real),
    hoare P (ChunkTape.writeAdjoint i v) (fun _ => P).
Hypothesis P_call : forall f : ExternalFunction.t,
    hoare P (ChunkTape.extFunc_evaluate f) (fun _ => P).

Lemma ChunkTape_pass_accumulateLoop (adjRef : N) (dc : list (Real * N)) :
  forall (n : nat) (dataPos : N),
    hoare P (ChunkTape.accumulateLoop n adjRef dc dataPos) (fun _ => P).
Proof.
  induction n as [|n IH]; intros dataPos; simpl.
  - apply keeps_ret.
  - apply keeps_bind; [|intros d; apply IH].
    unfold ChunkTape.accumulate, ChunkTape.readAdjoint. repeat keeps_step.
    apply P_write.
Qed.

Lemma ChunkTape_pass_evaluateStatements (sd : list N) (dc : list (Real * N)) :
  forall (n : nat) (cursors : N * N * N),
    hoare P (ChunkTape.evaluateStatements opts n sd dc cursors) (fun _ => P).
Proof.
  induction n as [|n IH]; intros [[adjPos stmtPos] dataPos]; simpl.
  - apply keeps_ret.
  - apply keeps_bind; [|intros c; apply IH].
    unfold ChunkTape.evaluateStatement, ChunkTape.readAdjoint. repeat keeps_step.
    apply ChunkTape_pass_accumulateLoop.
Qed.

Lemma ChunkTape_pass_evaluateExpressions (startAdjPos endAdjPos stmtPos : N)
      (sd : list N) (dataPos : N) (dc : list (Real * N)) :
  hoare P (ChunkTape.evaluateExpressions opts startAdjPos endAdjPos stmtPos sd dataPos dc)
        (fun _ => P).
Proof.
  unfold ChunkTape.evaluateExpressions.
  apply keeps_bind; [apply ChunkTape_pass_evaluateStatements|].
  intros [[a b] c]. apply keeps_ret.
Qed.

Lemma ChunkTape_pass_evaluateDataChunks (sd : list N) :
  forall (n : nat) (state : N * N * N * N),
    hoare P (ChunkTape.evaluateDataChunks opts n sd state) (fun _ => P).
Proof.
  induction n as [|n IH]; intros [[[curChunk dataPos] curInnerPos] stmtPos]; simpl.
  - apply keeps_ret.
  - repeat keeps_step.
    + apply ChunkTape_pass_evaluateExpressions.
    + apply IH.
Qed.

Lemma ChunkTape_pass_evaluateData (start end_ : ChunkTape.DataPosition) (stmtPos : N)
      (sd : list N) :
  hoare P (ChunkTape.evaluateData opts start end_ stmtPos sd) (fun _ => P).
Proof.
  unfold ChunkTape.evaluateData.
  apply keeps_bind; [apply ChunkTape_pass_evaluateDataChunks|].
  intros [[[a dataPos] curInnerPos] stmtPos']. repeat keeps_step.
  apply ChunkTape_pass_evaluateExpressions.
Qed.

Lemma ChunkTape_pass_evaluateStmtChunks :
  forall (n : nat) (state : N * N * ChunkTape.DataPosition),
    hoare P (ChunkTape.evaluateStmtChunks opts n state) (fun _ => P).
Proof.
  induction n as [|n IH]; intros [[curChunk dataPos] curInnerPos]; simpl.
  - apply keeps_ret.
  - repeat keeps_step.
    + apply ChunkTape_pass_evaluateData.
    + apply IH.
Qed.

Lemma ChunkTape_pass_evaluateStmt (start end_ : ChunkTape.StatementPosition) :
  hoare P (ChunkTape.evaluateStmt opts start end_) (fun _ => P).
Proof.
  unfold ChunkTape.evaluateStmt.
  apply keeps_bind; [apply ChunkTape_pass_evaluateStmtChunks|].
  intros [[a dataPos] curInnerPos]. repeat keeps_step.
  apply ChunkTape_pass_evaluateData.
Qed.

Lemma ChunkTape_pass_onTape {A : Type} (m : M ChunkTape.t A) :
  hoare P m (fun _ => P) ->
  hoare (fun ev => P (ChunkTape.tape ev)) (ChunkTape.onTape m)
        (fun _ ev => P (ChunkTape.tape ev)).
Proof.
  intros H ev a ev' HI E. unfold ChunkTape.onTape in E.
  destruct (m (ChunkTape.tape ev)) as [[a' tp']|] eqn:Em; [|discriminate].
  inversion E; subst. simpl. eapply H; eauto.
Qed.

Lemma ChunkTape_pass_evaluateExtFunc (start end_ : ChunkTape.Position) :
  hoare P (ChunkTape.evaluateExtFunc opts start end_) (fun _ => P).
Proof.
  intros tp a tp' HI E. unfold ChunkTape.evaluateExtFunc in E.
  destruct (ChunkVector.forEach _ _ _ _ _) as [[u ev]|] eqn:Ef; [|discriminate].
  eapply ChunkTape_pass_evaluateStmt; [|exact E].
  eapply (hoare_forEach (fun ev => P (ChunkTape.tape ev))); [| |exact Ef].
  - intros [f boundary]. unfold ChunkTape.ExtFuncEvaluator_call. repeat keeps_step.
    + apply ChunkTape_pass_onTape, ChunkTape_pass_evaluateStmt.
    + apply ChunkTape_pass_onTape, P_call.
    + apply keeps_modify. auto.
  - exact HI.
Qed.

End LinearReversePass.

Section ReuseReversePass.
Context {Real : Type} {RO : RealOps Real}.
Variable opts : Options.
Variable P : ChunkIndexReuseTape.t (Real:=Real) -> Prop.
Hypothesis P_write : forall (i : N) (v : Real),
    hoare P (ChunkIndexReuseTape.writeAdjoint i v) (fun _ => P).
Hypothesis P_call : forall f : ExternalFunction.t,
    hoare P (ChunkIndexReuseTape.extFunc_evaluate f) (fun _ => P).

Lemma ChunkIndexReuseTape_pass_accumulateLoop (adj : Real) (dc : list (Real * N)) :
  forall (n : nat) (dataPos : N),
    hoare P (ChunkIndexReuseTape.accumulateLoop n adj dc dataPos) (fun _ => P).
Proof.
  induction n as [|n IH]; intros dataPos; simpl.
  - apply keeps_ret.
  - apply keeps_bind; [|intros d; apply IH].
    unfold ChunkIndexReuseTape.accumulate, ChunkIndexReuseTape.readAdjoint.
    repeat keeps_step. apply P_write.
Qed.

Lemma ChunkIndexReuseTape_pass_evaluateStatements (sd : list (N * N))
      (dc : list (Real * N)) :
  forall (n : nat) (cursors : N * N),
    hoare P (ChunkIndexReuseTape.evaluateStatements opts n sd dc cursors) (fun _ => P).
Proof.
  induction n as [|n IH]; intros [stmtPos dataPos]; simpl.
  - apply keeps_ret.
  - apply keeps_bind; [|intros c; apply IH].
    unfold ChunkIndexReuseTape.evaluateStatement, ChunkIndexReuseTape.readAdjoint.
    repeat keeps_step.
    + apply P_write.
    + apply ChunkIndexReuseTape_pass_accumulateLoop.
Qed.

Lemma ChunkIndexReuseTape_pass_evaluateDataChunks (stmtPosEnd : N) (sd : list (N * N)) :
  forall (n : nat) (state : N * N * N),
    hoare P (ChunkIndexReuseTape.evaluateDataChunks opts n stmtPosEnd sd state)
          (fun _ => P).
Proof.
  induction n as [|n IH]; intros [[curChunk dataPos] stmtPosStart]; simpl.
  - apply keeps_ret.
  - repeat keeps_step.
    + apply ChunkIndexReuseTape_pass_evaluateStatements.
    + apply IH.
Qed.

Lemma ChunkIndexReuseTape_pass_evaluateData
      (start end_ : ChunkIndexReuseTape.DataPosition) (stmtPosStart stmtPosEnd : N)
      (sd : list (N * N)) :
  hoare P (ChunkIndexReuseTape.evaluateData opts start end_ stmtPosStart stmtPosEnd sd)
        (fun _ => P).
Proof.
  unfold ChunkIndexReuseTape.evaluateData.
  apply keeps_bind; [apply ChunkIndexReuseTape_pass_evaluateDataChunks|].
  intros [[a dataPos] stmtPosStart']. repeat keeps_step.
  apply ChunkIndexReuseTape_pass_evaluateStatements.
Qed.

Lemma ChunkIndexReuseTape_pass_evaluateStmtChunks :
  forall (n : nat) (state : N * N * ChunkIndexReuseTape.DataPosition),
    hoare P (ChunkIndexReuseTape.evaluateStmtChunks opts n state) (fun _ => P).
Proof.
  induction n as [|n IH]; intros [[curChunk dataPos] curInnerPos]; simpl.
  - apply keeps_ret.
  - repeat keeps_step.
    + apply ChunkIndexReuseTape_pass_evaluateData.
    + apply IH.
Qed.

Lemma ChunkIndexReuseTape_pass_evaluateStmt
      (start end_ : ChunkIndexReuseTape.StatementPosition) :
  hoare P (ChunkIndexReuseTape.evaluateStmt opts start end_) (fun _ => P).
Proof.
  unfold ChunkIndexReuseTape.evaluateStmt.
  apply keeps_bind; [apply ChunkIndexReuseTape_pass_evaluateStmtChunks|].
  intros [[a dataPos] curInnerPos]. repeat keeps_step.
  apply ChunkIndexReuseTape_pass_evaluateData.
Qed.

Lemma ChunkIndexReuseTape_pass_onTape {A : Type} (m : M ChunkIndexReuseTape.t A) :
  hoare P m (fun _ => P) ->
  hoare (fun ev => P (ChunkIndexReuseTape.tape ev)) (ChunkIndexReuseTape.onTape m)
        (fun _ ev => P (ChunkIndexReuseTape.tape ev)).
Proof.
  intros H ev a ev' HI E. unfold ChunkIndexReuseTape.onTape in E.
  destruct (m (ChunkIndexReuseTape.tape ev)) as [[a' tp']|] eqn:Em; [|discriminate].
  inversion E; subst. simpl. eapply H; eauto.
Qed.

Lemma ChunkIndexReuseTape_pass_evaluateExtFunc
      (start end_ : ChunkIndexReuseTape.Position) :
  hoare P (ChunkIndexReuseTape.evaluateExtFunc opts start end_) (fun _ => P).
Proof.
  intros tp a tp' HI E. unfold ChunkIndexReuseTape.evaluateExtFunc in E.
  destruct (ChunkVector.forEach _ _ _ _ _) as [[u ev]|] eqn:Ef; [|discriminate].
  eapply ChunkIndexReuseTape_pass_evaluateStmt; [|exact E].
  eapply (hoare_forEach (fun ev => P (ChunkIndexReuseTape.tape ev))); [| |exact Ef].
  - intros [f boundary]. unfold ChunkIndexReuseTape.ExtFuncEvaluator_call.
    repeat keeps_step.
    + apply ChunkIndexReuseTape_pass_onTape, ChunkIndexReuseTape_pass_evaluateStmt.
    + apply ChunkIndexReuseTape_pass_onTape, P_call.
    + apply keeps_modify. auto.
  - exact HI.
Qed.

End ReuseReversePass.

Section EvaluateFrame.
Context {Real : Type} {RO : RealOps Real}.
Variable opts : Options.

Lemma ChunkTape_frame_evaluateExtFunc (tp0 : ChunkTape.t (Real:=Real)) (n : N)
      (start end_ : ChunkTape.Position) :
  hoare (fun t => ChunkTape_sameRecording tp0 t
                  /\ ChunkTape.adjointsSize t = n
                  /\ deletions (ChunkTape.trace t) = deletions (ChunkTape.trace tp0))
        (ChunkTape.evaluateExtFunc opts start end_)
        (fun _ t => ChunkTape_sameRecording tp0 t
                    /\ ChunkTape.adjointsSize t = n
                    /\ deletions (ChunkTape.trace t) = deletions (ChunkTape.trace tp0)).
Proof.
  apply ChunkTape_pass_evaluateExtFunc.
  - intros i v t u t' (Hs & Hn & Hd) E.
    apply ChunkTape_writeAdjoint_inv in E. destruct E as (a & Eu & ->).
    split; [exact Hs|]. split.
    + unfold ChunkTape.adjointsSize in *. simpl.
      rewrite (updateN_length _ _ _ _ Eu). exact Hn.
    + simpl. rewrite deletions_app. simpl. rewrite app_nil_r. exact Hd.
  - intros f t u t' (Hs & Hn & Hd) E.
    unfold ChunkTape.extFunc_evaluate, modify in E. injection E as _ Ht.
    rewrite <- Ht. split; [exact Hs|]. split; [exact Hn|].
    simpl. rewrite deletions_app. simpl. rewrite app_nil_r. exact Hd.
Qed.

Lemma ChunkIndexReuseTape_frame_evaluateExtFunc
      (tp0 : ChunkIndexReuseTape.t (Real:=Real)) (n : N)
      (start end_ : ChunkIndexReuseTape.Position) :
  hoare (fun t => ChunkIndexReuseTape_sameRecording tp0 t
                  /\ ChunkIndexReuseTape.adjointsSize t = n
                  /\ deletions (ChunkIndexReuseTape.trace t)
                     = deletions (ChunkIndexReuseTape.trace tp0))
        (ChunkIndexReuseTape.evaluateExtFunc opts start end_)
        (fun _ t => ChunkIndexReuseTape_sameRecording tp0 t
                    /\ ChunkIndexReuseTape.adjointsSize t = n
                    /\ deletions (ChunkIndexReuseTape.trace t)
                       = deletions (ChunkIndexReuseTape.trace tp0)).
Proof.
  apply ChunkIndexReuseTape_pass_evaluateExtFunc.
  - intros i v t u t' (Hs & Hn & Hd) E.
    apply ChunkIndexReuseTape_writeAdjoint_inv in E. destruct E as (a & Eu & ->).
    split; [exact Hs|]. split.
    + unfold ChunkIndexReuseTape.adjointsSize in *. simpl.
      rewrite (updateN_length _ _ _ _ Eu). exact Hn.
    + simpl. rewrite deletions_app. simpl. rewrite app_nil_r. exact Hd.
  - intros f t u t' (Hs & Hn & Hd) E.
    unfold ChunkIndexReuseTape.extFunc_evaluate, modify in E. injection E as _ Ht.
    rewrite <- Ht. split; [exact Hs|]. split; [exact Hn|].
    simpl. rewrite deletions_app. simpl. rewrite app_nil_r. exact Hd.
Qed.

End EvaluateFrame.

(** Whenever [evaluate(start, end)] returns, on either tape, nothing
    that recording writes has changed (the logs, the expression counter
    or index handler, the activity flag); the adjoint vector has the size
    it had, or one more than the expression counter (the maximum global
    index on the reuse tape) when it was shorter; and no delete function
    of an external function was called. External functions are opaque
    calls here. *)
Theorem evaluate_changes_adjoints_only :
  forall (Real : Type) (RO : RealOps Real) (opts : Options),
    (forall (tp tp' : ChunkTape.t (Real:=Real)) (start end_ : ChunkTape.Position)
            (u : unit),
        ChunkTape.evaluate opts start end_ tp = Some (u, tp') ->
        ChunkTape_sameRecording tp tp'
        /\ ChunkTape.adjointsSize tp'
           = N.max (ChunkTape.adjointsSize tp) (ChunkTape.expressionCount tp + 1)
        /\ deletions (ChunkTape.trace tp') = deletions (ChunkTape.trace tp))
    /\ (forall (tp tp' : ChunkIndexReuseTape.t (Real:=Real))
               (start end_ : ChunkIndexReuseTape.Position) (u : unit),
           ChunkIndexReuseTape.evaluate opts start end_ tp = Some (u, tp') ->
           ChunkIndexReuseTape_sameRecording tp tp'
           /\ ChunkIndexReuseTape.adjointsSize tp'
              = N.max (ChunkIndexReuseTape.adjointsSize tp)
                      (IndexHandler.getMaximumGlobalIndex
                         (ChunkIndexReuseTape.indexHandler tp) + 1)
           /\ deletions (ChunkIndexReuseTape.trace tp')
              = deletions (ChunkIndexReuseTape.trace tp)).
Proof.
  intros Real RO opts. split.
  - intros tp tp' start end_ u E. unfold ChunkTape.evaluate in E.
    unfold bind at 1 in E. unfold gets at 1 in E.
    unfold bind at 1 in E. unfold gets at 1 in E. unfold bind at 1 in E.
    destruct (N.leb_spec (ChunkTape.adjointsSize tp) (ChunkTape.expressionCount tp))
      as [Hle|Hle].
    + unfold ChunkTape.resizeAdjoints, modify in E.
      eapply (ChunkTape_frame_evaluateExtFunc opts tp _ start end_) in E.
      * destruct E as (Hs & Hn & Hd). split; [exact Hs|]. split; [|exact Hd].
        rewrite Hn. reflexivity.
      * split; [repeat split|]. split.
        -- unfold ChunkTape.adjointsSize at 1. simpl.
           rewrite length_app, length_firstn, repeat_length.
           unfold ChunkTape.adjointsSize in *. lia.
        -- simpl. rewrite deletions_app, deletions_writes, app_nil_r. reflexivity.
    + unfold ret in E.
      eapply (ChunkTape_frame_evaluateExtFunc opts tp _ start end_) in E.
      * destruct E as (Hs & Hn & Hd). split; [exact Hs|]. split; [|exact Hd].
        rewrite Hn. reflexivity.
      * split; [repeat split|]. split; [lia|reflexivity].
  - intros tp tp' start end_ u E. unfold ChunkIndexReuseTape.evaluate in E.
    unfold bind at 1 in E. unfold gets at 1 in E.
    unfold bind at 1 in E. unfold gets at 1 in E. unfold bind at 1 in E.
    destruct (N.leb_spec (ChunkIndexReuseTape.adjointsSize tp)
                         (IndexHandler.getMaximumGlobalIndex
                            (ChunkIndexReuseTape.indexHandler tp))) as [Hle|Hle].
    + unfold ChunkIndexReuseTape.resizeAdjoints, modify in E.
      eapply (ChunkIndexReuseTape_frame_evaluateExtFunc opts tp _ start end_) in E.
      * destruct E as (Hs & Hn & Hd). split; [exact Hs|]. split; [|exact Hd].
        rewrite Hn. reflexivity.
      * split; [repeat split|]. split.
        -- unfold ChunkIndexReuseTape.adjointsSize at 1. simpl.
           rewrite length_app, length_firstn, repeat_length.
           unfold ChunkIndexReuseTape.adjointsSize in *. lia.
        -- simpl. rewrite deletions_app, deletions_writes, app_nil_r. reflexivity.
    + unfold ret in E.
      eapply (ChunkIndexReuseTape_frame_evaluateExtFunc opts tp _ start end_) in E.
      * destruct E as (Hs & Hn & Hd). split; [exact Hs|]. split; [|exact Hd].
        rewrite Hn. reflexivity.
      * split; [repeat split|]. split; [lia|reflexivity].
Qed.

Lemma evaluate_changes_adjoints_only_witness :
  (exists tp',
      ChunkTape.evaluate allChecks (ChunkTape.getPosition ChunkTape_exampleTape)
        ChunkTape.initialPosition ChunkTape_exampleTape = Some (tt, tp')
      /\ ChunkTape_sameRecording ChunkTape_exampleTape tp'
      /\ ChunkTape.adjointsSize tp' = ChunkTape.adjointsSize ChunkTape_exampleTape)
  /\ (exists tp',
         ChunkIndexReuseTape.evaluate allChecks
           (ChunkIndexReuseTape.getPosition ChunkIndexReuseTape_exampleTape)
           ChunkIndexReuseTape.initialPosition ChunkIndexReuseTape_exampleTape
         = Some (tt, tp')
         /\ ChunkIndexReuseTape_sameRecording ChunkIndexReuseTape_exampleTape tp').
Proof.
  destruct (evaluate_changes_adjoints_only XReal XReal_RealOps allChecks) as [HL HR].
  split.
  - destruct (ChunkTape.evaluate allChecks (ChunkTape.getPosition ChunkTape_exampleTape)
                ChunkTape.initialPosition ChunkTape_exampleTape) as [[[] tp']|] eqn:E.
    + exists tp'. split; [reflexivity|].
      destruct (HL _ _ _ _ _ E) as (Hs & Hn & _).
      split; [exact Hs|]. rewrite Hn. reflexivity.
    + vm_compute in E. discriminate.
  - destruct (ChunkIndexReuseTape.evaluate allChecks
                (ChunkIndexReuseTape.getPosition ChunkIndexReuseTape_exampleTape)
                ChunkIndexReuseTape.initialPosition ChunkIndexReuseTape_exampleTape)
      as [[[] tp']|] eqn:E.
    + exists tp'. split; [reflexivity|].
      destruct (HR _ _ _ _ _ E) as (Hs & _). exact Hs.
    + vm_compute in E. discriminate.
Defined.

(** ** The records of a whole chunk vector, from the head down *)

Lemma calls_app {Real : Type} (t1 t2 : list (Event Real)) :
  calls (t1 ++ t2) = calls t1 ++ calls t2.
Proof. unfold calls. apply flat_map_app. Qed.

Lemma calls_writes {Real : Type} (l : list N) (v : Real) :
  calls (map (fun i => AdjointWrite i v) l) = [].
Proof. induction l as [|i l IH]; simpl; auto. Qed.

Lemma sumN_app (l l' : list N) : sumN (l ++ l') = sumN l + sumN l'.
Proof. induction l as [|x l IH]; simpl; [reflexivity|]. rewrite IH. lia. Qed.

Lemma firstn_succ_nth {A : Type} (l : list A) (n : nat) (a : A) :
  nth_error l n = Some a -> firstn (S n) l = firstn n l ++ [a].
Proof.
  revert n. induction l as [|x l IH]; intros [|n] H; simpl in *; try discriminate.
  - inversion H. reflexivity.
  - f_equal. apply IH. exact H.
Qed.

Lemma sumN_firstn_succ (l : list N) (n : nat) (k : N) :
  nth_error l n = Some k -> sumN (firstn (S n) l) = sumN (firstn n l) + k.
Proof.
  intros H. rewrite (firstn_succ_nth _ _ _ H), sumN_app. simpl. lia.
Qed.

Section Head.
Context {A I : Type}.

Lemma dataBetween_prefix (chunkCells : list A) (c : N) :
  forall n : nat,
    (n <= length chunkCells)%nat ->
    exists l, dataBetween chunkCells c n (N.of_nat n) = Some l
              /\ map snd l = rev (firstn n chunkCells).
Proof.
  induction n as [|n IH]; intros Hn.
  - exists []. split; reflexivity.
  - destruct (IH ltac:(lia)) as (l & El & Hl).
    destruct (nth_error chunkCells n) as [a|] eqn:Ea;
      [|apply nth_error_None in Ea; lia].
    cbn [dataBetween]. rewrite size_dec_pos by lia.
    replace (N.of_nat (S n) - 1) with (N.of_nat n) by lia.
    assert (Ek : lookupN chunkCells (N.of_nat n) = Some a).
    { apply lookupN_Some. rewrite Nnat.Nat2N.id. exact Ea. }
    rewrite Ek, El. eexists. split; [reflexivity|].
    cbn [map snd]. rewrite Hl, (firstn_succ_nth _ _ _ Ea), rev_app_distr. reflexivity.
Qed.

Lemma dataBetween_whole (chunkCells : list A) (c : N) :
  exists l, dataBetween chunkCells c (length chunkCells)
                        (N.of_nat (length chunkCells)) = Some l
            /\ map snd l = rev chunkCells.
Proof.
  destruct (dataBetween_prefix chunkCells c (length chunkCells) ltac:(lia))
    as (l & El & Hl).
  exists l. split; [exact El|]. rewrite Hl, firstn_all. reflexivity.
Qed.

Lemma skipn_snoc {B : Type} (k : nat) (l : list B) (b : B) :
  (k <= length l)%nat -> skipn k (l ++ [b]) = skipn k l ++ [b].
Proof.
  revert k. induction l as [|x l IH]; intros [|k] H; simpl in *; try lia; auto.
  apply IH. lia.
Qed.

(** The whole chunks from a chunk down, in a well formed vector. *)
Lemma chunksBetween_whole (cv : ChunkVector.t A I) :
  wellFormed cv ->
  forall (n : nat) (chunkPos : nat) (ch : ChunkVector.Chunk A I),
    (n <= chunkPos)%nat ->
    nth_error (ChunkVector.allChunks cv) chunkPos = Some ch ->
    exists l ch',
      chunksBetween cv n (N.of_nat chunkPos)
                    (N.of_nat (length (ChunkVector.cells ch)))
      = Some (l, N.of_nat (length (ChunkVector.cells ch')))
      /\ nth_error (ChunkVector.allChunks cv) (chunkPos - n) = Some ch'
      /\ map snd l
         = rev (concat (map ChunkVector.cells
                            (skipn (chunkPos + 1 - n)
                                   (firstn (chunkPos + 1) (ChunkVector.allChunks cv))))).
Proof.
  intros Hwf. pose proof (wellFormed_dense cv Hwf) as Hd.
  induction n as [|n IH]; intros chunkPos ch Hn Hch.
  - exists [], ch. split; [reflexivity|]. rewrite Nat.sub_0_r. split; [exact Hch|].
    rewrite Nat.sub_0_r, skipn_all2; [reflexivity|]. rewrite length_firstn. lia.
  - destruct chunkPos as [|cp]; [lia|].
    assert (Hlen : (S cp < length (ChunkVector.allChunks cv))%nat)
      by (apply nth_error_Some; congruence).
    destruct (nth_error (ChunkVector.allChunks cv) cp) as [ch1|] eqn:Ech1;
      [|apply nth_error_None in Ech1; lia].
    assert (Eg : ChunkVector.getChunk cv (N.of_nat (S cp)) = Some ch).
    { unfold ChunkVector.getChunk. apply lookupN_Some.
      rewrite Nnat.Nat2N.id. exact Hch. }
    assert (Eg1 : ChunkVector.getChunk cv (N.of_nat cp) = Some ch1).
    { unfold ChunkVector.getChunk. apply lookupN_Some.
      rewrite Nnat.Nat2N.id. exact Ech1. }
    assert (Hu1 : ChunkVector.used ch1 = N.of_nat (length (ChunkVector.cells ch1))).
    { apply (dense_used cv (N.of_nat cp) ch1 Hd Eg1).
      unfold ChunkVector.allChunks in Hlen. rewrite length_app in Hlen.
      simpl in Hlen. lia. }
    destruct (IH cp ch1 ltac:(lia) Ech1) as (l2 & ch' & E2 & Hch' & Hl2).
    destruct (dataBetween_whole (ChunkVector.cells ch) (N.of_nat (S cp)))
      as (l1 & E1 & Hl1).
    exists (l1 ++ l2), ch'.
    cbn [chunksBetween].
    assert (Ed : ChunkVector.getDataAtPosition cv (N.of_nat (S cp))
                 = Some (ChunkVector.cells ch))
      by (apply getDataAtPosition_Some; eauto).
    assert (Eu : ChunkVector.getChunkUsedData cv (N.of_nat (S cp) - 1)
                 = Some (N.of_nat (length (ChunkVector.cells ch1)))).
    { replace (N.of_nat (S cp) - 1) with (N.of_nat cp) by lia.
      apply getChunkUsedData_Some. exists ch1. split; [exact Eg1|].
      symmetry. exact Hu1. }
    rewrite Ed, Eu, Nnat.Nat2N.id, E1.
    replace (N.of_nat (S cp) - 1) with (N.of_nat cp) by lia.
    rewrite E2. split; [reflexivity|].
    split; [exact Hch'|].
    rewrite map_app, Hl1, Hl2.
    replace (S cp + 1 - S n)%nat with (cp + 1 - n)%nat by lia.
    replace (S cp + 1)%nat with (S (cp + 1)) by lia.
    replace (cp + 1)%nat with (S cp) in * by lia.
    rewrite (firstn_succ_nth _ _ _ Hch).
    rewrite skipn_snoc by (rewrite length_firstn; lia).
    rewrite map_app, concat_app, rev_app_distr. simpl. rewrite app_nil_r.
    reflexivity.
Qed.

(** From the head of a well formed vector down to its start, the records
    between are all its records, newest first. *)
Lemma recordsBetween_head (cv : ChunkVector.t A I) (ip ip0 : I) :
  wellFormed cv ->
  exists l,
    recordsBetween cv (ChunkVector.getPosition cv ip) (ChunkVector.mkPosition 0 0 ip0)
    = Some l
    /\ map snd l = rev (ChunkVector.records cv).
Proof.
  intros Hwf. pose proof Hwf as (Hp & Hs & Hc).
  assert (Hle : ChunkVector.posLe (ChunkVector.mkPosition 0 0 ip0)
                                  (ChunkVector.getPosition cv ip) = true).
  { unfold ChunkVector.posLe, ChunkVector.getPosition.
    cbn [ChunkVector.chunk ChunkVector.data].
    destruct (N.ltb_spec 0 (ChunkVector.curChunkIndex cv)); [reflexivity|].
    destruct (N.eqb_spec 0 (ChunkVector.curChunkIndex cv)); [|lia].
    destruct (N.leb_spec 0 (ChunkVector.used (ChunkVector.current cv))); [|lia].
    reflexivity. }
  unfold recordsBetween. rewrite Hle. unfold ChunkVector.getPosition.
  cbn [ChunkVector.chunk ChunkVector.data]. rewrite N.sub_0_r.
  unfold ChunkVector.curChunkIndex. rewrite Nnat.Nat2N.id.
  set (np := length (ChunkVector.prior cv)).
  assert (Hcur : nth_error (ChunkVector.allChunks cv) np = Some (ChunkVector.current cv)).
  { unfold ChunkVector.allChunks, np. rewrite nth_error_app2 by lia.
    rewrite Nat.sub_diag. reflexivity. }
  assert (Hused : ChunkVector.used (ChunkVector.current cv)
                  = N.of_nat (length (ChunkVector.cells (ChunkVector.current cv)))).
  { unfold ChunkVector.used. rewrite Hs. reflexivity. }
  rewrite Hused.
  destruct (chunksBetween_whole cv Hwf np np (ChunkVector.current cv) ltac:(lia) Hcur)
    as (l & ch0 & El & Hch0 & Hl).
  rewrite El. rewrite Nat.sub_diag in Hch0.
  assert (Ed : ChunkVector.getDataAtPosition cv 0 = Some (ChunkVector.cells ch0)).
  { apply getDataAtPosition_Some. exists ch0. split; [|reflexivity].
    unfold ChunkVector.getChunk. apply lookupN_Some. exact Hch0. }
  rewrite Ed, N.sub_0_r, Nnat.Nat2N.id.
  destruct (dataBetween_whole (ChunkVector.cells ch0) 0) as (l' & El' & Hl').
  rewrite El'. eexists. split; [reflexivity|].
  rewrite map_app, Hl, Hl'. rewrite <- rev_app_distr. f_equal.
  unfold ChunkVector.records.
  assert (Hall : firstn (np + 1) (ChunkVector.allChunks cv) = ChunkVector.allChunks cv).
  { apply firstn_all2. unfold ChunkVector.allChunks, np. rewrite length_app. simpl. lia. }
  rewrite Hall. replace (np + 1 - np)%nat with 1%nat by lia.
  destruct (ChunkVector.allChunks cv) as [|c0 rest]; [discriminate|].
  simpl in Hch0. inversion Hch0; subst. reflexivity.
Qed.

End Head.

(** ** What recording leaves alone *)

(** A write to a field other than the adjoint vector and the trace. *)
Ltac frame_modify :=
  apply keeps_modify; intros ? [? ?]; split; assumption.

Ltac frame_modifyOpt :=
  apply keeps_modifyOpt;
  let E := fresh "E" in
  intros ? ? [? ?] E; cbv beta in E;
  match type of E with
  | option_map _ ?x = _ => destruct x; [|discriminate]
  end;
  injection E as <-; split; assumption.

Ltac frame_steps := repeat first [keeps_step | frame_modify | frame_modifyOpt].

Section RecordingFrame.
Context {Real : Type} {RO : RealOps Real}.
Variable opts : Options.
Variable emptyPositionIndex : ChunkIndexReuseTape.EmptyPosition -> N.
Variable a : list Real.
Variable tr : list (Event Real).

Local Abbreviation L := (fun t : ChunkTape.t (Real:=Real) =>
                           ChunkTape.adjoints t = a /\ ChunkTape.trace t = tr).
Local Abbreviation R := (fun t : ChunkIndexReuseTape.t (Real:=Real) =>
                           ChunkIndexReuseTape.adjoints t = a
                           /\ ChunkIndexReuseTape.trace t = tr).

Lemma ChunkTape_rec_pushLeaf (l : Leaf Real) :
  hoare L (ChunkTape.pushLeaf opts l) (fun _ => L).
Proof.
  destruct l; unfold ChunkTape.pushLeaf, ChunkTape.pushJacobi_unary, ChunkTape.pushJacobi;
    frame_steps.
Qed.

Lemma ChunkTape_rec_store (lhsValue : Real) (lhsIndex : N) (rhs : Rhs Real) :
  hoare L (ChunkTape.store opts lhsValue lhsIndex rhs) (fun _ => L).
Proof.
  unfold ChunkTape.store, ChunkTape.data_reserveItems, ChunkTape.statements_reserveItems,
    ChunkTape.statements_setDataAndMove, ChunkTape.incrementCount, ChunkTape.calcGradient.
  frame_steps. apply hoare_forM. intros l _. apply ChunkTape_rec_pushLeaf.
Qed.

Lemma ChunkTape_rec_step (op : ChunkTape_Op Real) :
  ChunkTape_recordingOp op = true ->
  hoare L (ChunkTape_step opts op) (fun _ => L).
Proof.
  destruct op; simpl; intros Hop; try discriminate;
    unfold ChunkTape.setDataChunkSize, ChunkTape.setStatementChunkSize,
      ChunkTape.setExternalFunctionChunkSize, ChunkTape.store_copy,
      ChunkTape.store_passive, ChunkTape.pushJacobi_unary, ChunkTape.pushJacobi,
      ChunkTape.initGradientData, ChunkTape.destroyGradientData, ChunkTape.getGradient,
      ChunkTape.readAdjoint, ChunkTape.pushExternalFunctionHandle,
      ChunkTape.registerInput, ChunkTape.statements_reserveItems,
      ChunkTape.statements_setDataAndMove, ChunkTape.incrementCount,
      ChunkTape.registerOutput, ChunkTape.setActive, ChunkTape.setPassive;
    frame_steps.
  apply ChunkTape_rec_store.
Qed.

Lemma ChunkIndexReuseTape_rec_index (f : N -> IndexHandler.t -> N * IndexHandler.t)
      (index : N) :
  hoare R (fun tp => let '(index', h) := f index (ChunkIndexReuseTape.indexHandler tp) in
                     Some (index', ChunkIndexReuseTape.set_indexHandler h tp))
        (fun _ => R).
Proof.
  intros tp i tp' [Ha Ht] E.
  destruct (f index (ChunkIndexReuseTape.indexHandler tp)). injection E as _ <-.
  split; assumption.
Qed.

Lemma ChunkIndexReuseTape_rec_checkIndex (index : N) :
  hoare R (ChunkIndexReuseTape.checkIndex index) (fun _ => R).
Proof. apply (ChunkIndexReuseTape_rec_index IndexHandler.checkIndex). Qed.

Lemma ChunkIndexReuseTape_rec_freeIndex (index : N) :
  hoare R (ChunkIndexReuseTape.freeIndex index) (fun _ => R).
Proof. apply (ChunkIndexReuseTape_rec_index IndexHandler.freeIndex). Qed.

Lemma ChunkIndexReuseTape_rec_pushLeaf (l : Leaf Real) :
  hoare R (ChunkIndexReuseTape.pushLeaf opts l) (fun _ => R).
Proof.
  destruct l; unfold ChunkIndexReuseTape.pushLeaf, ChunkIndexReuseTape.pushJacobi_unary,
                ChunkIndexReuseTape.pushJacobi; frame_steps.
Qed.

Ltac reuse_frame_steps :=
  repeat first [ apply ChunkIndexReuseTape_rec_checkIndex
               | apply ChunkIndexReuseTape_rec_freeIndex
               | keeps_step | frame_modify | frame_modifyOpt ].

Lemma ChunkIndexReuseTape_rec_store (lhsValue : Real) (lhsIndex : N) (rhs : Rhs Real) :
  hoare R (ChunkIndexReuseTape.store opts lhsValue lhsIndex rhs) (fun _ => R).
Proof.
  unfold ChunkIndexReuseTape.store, ChunkIndexReuseTape.data_reserveItems,
    ChunkIndexReuseTape.statements_reserveItems,
    ChunkIndexReuseTape.statements_setDataAndMove, ChunkIndexReuseTape.calcGradient.
  reuse_frame_steps. apply hoare_forM. intros l _. apply ChunkIndexReuseTape_rec_pushLeaf.
Qed.

Lemma ChunkIndexReuseTape_rec_step (op : ChunkIndexReuseTape_Op Real) :
  ChunkIndexReuseTape_recordingOp op = true ->
  hoare R (ChunkIndexReuseTape_step opts emptyPositionIndex op) (fun _ => R).
Proof.
  destruct op; simpl; intros Hop; try discriminate;
    unfold ChunkIndexReuseTape.setDataChunkSize, ChunkIndexReuseTape.setStatementChunkSize,
      ChunkIndexReuseTape.setExternalFunctionChunkSize,
      ChunkIndexReuseTape.getAdjointsSize, ChunkIndexReuseTape.store_copy,
      ChunkIndexReuseTape.store_passive, ChunkIndexReuseTape.pushJacobi_unary,
      ChunkIndexReuseTape.pushJacobi, ChunkIndexReuseTape.initGradientData,
      ChunkIndexReuseTape.destroyGradientData, ChunkIndexReuseTape.getGradient,
      ChunkIndexReuseTape.readAdjoint, ChunkIndexReuseTape.pushExternalFunctionHandle,
      ChunkIndexReuseTape.registerInput, ChunkIndexReuseTape.data_reserveItems,
      ChunkIndexReuseTape.data_setDataAndMove, ChunkIndexReuseTape.statements_reserveItems,
      ChunkIndexReuseTape.statements_setDataAndMove, ChunkIndexReuseTape.registerOutput,
      ChunkIndexReuseTape.setActive, ChunkIndexReuseTape.setPassive;
    reuse_frame_steps.
  apply ChunkIndexReuseTape_rec_store.
Qed.

End RecordingFrame.

(** Recording never touches the adjoints: after any sequence of
    operations that record or query (the chunk size setters, the three
    [store] overloads, both [pushJacobi], [initGradientData],
    [destroyGradientData], [getGradient], [pushExternalFunctionHandle],
    [registerInput], [registerOutput], [setActive], [setPassive], and
    [getAdjointsSize] of the reuse tape), whenever it returns, the adjoint
    vector is the one before, and no adjoint was written and no callback
    called on the way. This holds on both tapes. *)
Theorem recording_leaves_adjoints_alone :
  forall (Real : Type) (RO : RealOps Real) (opts : Options)
         (emptyPositionIndex : ChunkIndexReuseTape.EmptyPosition -> N),
    (forall (ops : list (ChunkTape_Op Real)) (tp tp' : ChunkTape.t (Real:=Real))
            (u : unit),
        forallb ChunkTape_recordingOp ops = true ->
        ChunkTape_run opts ops tp = Some (u, tp') ->
        ChunkTape_sameAdjoints tp tp')
    /\ (forall (ops : list (ChunkIndexReuseTape_Op Real))
               (tp tp' : ChunkIndexReuseTape.t (Real:=Real)) (u : unit),
           forallb ChunkIndexReuseTape_recordingOp ops = true ->
           ChunkIndexReuseTape_run opts emptyPositionIndex ops tp = Some (u, tp') ->
           ChunkIndexReuseTape_sameAdjoints tp tp').
Proof.
  intros Real RO opts emptyPositionIndex. split.
  - intros ops tp tp' u Hops E. unfold ChunkTape_sameAdjoints.
    eapply (hoare_forM (fun t => ChunkTape.adjoints t = ChunkTape.adjoints tp
                                 /\ ChunkTape.trace t = ChunkTape.trace tp));
      [|split; reflexivity|exact E].
    intros op Hin. apply ChunkTape_rec_step.
    rewrite forallb_forall in Hops. apply Hops, Hin.
  - intros ops tp tp' u Hops E. unfold ChunkIndexReuseTape_sameAdjoints.
    eapply (hoare_forM
              (fun t => ChunkIndexReuseTape.adjoints t = ChunkIndexReuseTape.adjoints tp
                        /\ ChunkIndexReuseTape.trace t = ChunkIndexReuseTape.trace tp));
      [|split; reflexivity|exact E].
    intros op Hin. apply ChunkIndexReuseTape_rec_step.
    rewrite forallb_forall in Hops. apply Hops, Hin.
Qed.

Lemma recording_leaves_adjoints_alone_witness :
  (exists tp',
      ChunkTape_run allChecks
        [LSetActive; LRegisterInput;
         LStore (Finite 0) 0 (mkRhs (Finite 13) [JacobiLeaf (Finite 2) (Finite 5) 1] 1);
         LPushExternalFunctionHandle extF1; LGetGradient 2]
        ChunkTape_exampleFinal = Some (tt, tp')
      /\ ChunkTape.adjoints tp' = [Finite 0; Finite 2; Finite 1]
      /\ ChunkTape.expressionCount tp' = 4)
  /\ (exists tp',
         ChunkIndexReuseTape_run allChecks (fun _ => 0)
           [RSetActive; RRegisterInput 0;
            RStore (Finite 0) 0 (mkRhs (Finite 13) [JacobiLeaf (Finite 2) (Finite 5) 1] 1);
            RPushExternalFunctionHandle extF1; RGetGradient 2]
           ChunkIndexReuseTape_exampleFinal = Some (tt, tp')
         /\ ChunkIndexReuseTape.adjoints tp' = [Finite 0; Finite 2; Finite 0]).
Proof.
  destruct (recording_leaves_adjoints_alone XReal XReal_RealOps allChecks (fun _ => 0))
    as [HL HR].
  split.
  - assert (Hc : option_map (fun r => ChunkTape.expressionCount (snd r))
                   (ChunkTape_run allChecks
                      [LSetActive; LRegisterInput;
                       LStore (Finite 0) 0
                              (mkRhs (Finite 13) [JacobiLeaf (Finite 2) (Finite 5) 1] 1);
                       LPushExternalFunctionHandle extF1; LGetGradient 2]
                      ChunkTape_exampleFinal) = Some 4) by (vm_compute; reflexivity).
    destruct (ChunkTape_run allChecks _ ChunkTape_exampleFinal) as [[[] tp']|] eqn:E;
      [|discriminate].
    exists tp'. split; [reflexivity|]. split.
    + pose proof (fun H => HL _ _ _ _ H E) as Hs.
      destruct (Hs eq_refl) as [Ha _]. rewrite Ha. reflexivity.
    + simpl in Hc. injection Hc as Hc. exact Hc.
  - destruct (ChunkIndexReuseTape_run allChecks (fun _ => 0)
                [RSetActive; RRegisterInput 0;
                 RStore (Finite 0) 0
                        (mkRhs (Finite 13) [JacobiLeaf (Finite 2) (Finite 5) 1] 1);
                 RPushExternalFunctionHandle extF1; RGetGradient 2]
                ChunkIndexReuseTape_exampleFinal) as [[[] tp']|] eqn:E.
    + exists tp'. split; [reflexivity|].
      pose proof (fun H => HR _ _ _ _ H E) as Hs.
      destruct (Hs eq_refl) as [Ha _]. rewrite Ha. reflexivity.
    + vm_compute in E. discriminate.
Defined.

(** ** The reverse pass over an empty range *)

Lemma posLe_refl {I : Type} (pos : ChunkVector.Position I) :
  ChunkVector.posLe pos pos = true.
Proof.
  unfold ChunkVector.posLe. rewrite N.eqb_refl, N.leb_refl. apply orb_true_r.
Qed.

Lemma validPosition_cells {A I : Type} (cv : ChunkVector.t A I)
      (pos : ChunkVector.Position I) :
  validPosition cv pos ->
  exists chunkCells,
    ChunkVector.getDataAtPosition cv (ChunkVector.chunk pos) = Some chunkCells.
Proof.
  intros (ch & E & _). unfold ChunkVector.getDataAtPosition. rewrite E. simpl. eauto.
Qed.

Lemma recordsBetween_same {A I : Type} (cv : ChunkVector.t A I)
      (pos : ChunkVector.Position I) :
  validPosition cv pos -> recordsBetween cv pos pos = Some [].
Proof.
  intros H. destruct (validPosition_cells _ _ H) as (cs & E).
  unfold recordsBetween. rewrite posLe_refl, N.sub_diag. simpl.
  rewrite E, N.sub_diag. reflexivity.
Qed.

Section EmptyRange.
Context {Real : Type} {RO : RealOps Real}.
Variable opts : Options.

Lemma ChunkTape_evaluateStmt_same (pos : ChunkTape.StatementPosition)
      (tp : ChunkTape.t (Real:=Real)) :
  validPosition (ChunkTape.statements tp) pos ->
  validPosition (ChunkTape.data tp) (ChunkVector.inner pos) ->
  ChunkTape.evaluateStmt opts pos pos tp = Some (tt, tp).
Proof.
  intros Hs Hd.
  destruct (validPosition_cells _ _ Hs) as (sd & Es).
  destruct (validPosition_cells _ _ Hd) as (dc & Ed).
  unfold ChunkTape.evaluateStmt. rewrite N.sub_diag. simpl.
  unfold bind at 1. unfold ret at 1.
  unfold bind at 1. unfold getsOpt at 1. rewrite Es.
  unfold bind at 1. unfold ChunkTape.evaluateData. rewrite N.sub_diag. simpl.
  unfold bind at 1. unfold ret at 1.
  unfold bind at 1. unfold getsOpt at 1. rewrite Ed.
  unfold bind at 1. unfold ChunkTape.evaluateExpressions. rewrite N.sub_diag. simpl.
  reflexivity.
Qed.

Lemma ChunkIndexReuseTape_evaluateStmt_same
      (pos : ChunkIndexReuseTape.StatementPosition)
      (tp : ChunkIndexReuseTape.t (Real:=Real)) :
  validPosition (ChunkIndexReuseTape.statements tp) pos ->
  validPosition (ChunkIndexReuseTape.data tp) (ChunkVector.inner pos) ->
  ChunkIndexReuseTape.evaluateStmt opts pos pos tp = Some (tt, tp).
Proof.
  intros Hs Hd.
  destruct (validPosition_cells _ _ Hs) as (sd & Es).
  destruct (validPosition_cells _ _ Hd) as (dc & Ed).
  unfold ChunkIndexReuseTape.evaluateStmt. rewrite N.sub_diag. simpl.
  unfold bind at 1. unfold ret at 1.
  unfold bind at 1. unfold getsOpt at 1. rewrite Es.
  unfold bind at 1. unfold ChunkIndexReuseTape.evaluateData. rewrite N.sub_diag. simpl.
  unfold bind at 1. unfold ret at 1.
  unfold bind at 1. unfold getsOpt at 1. rewrite Ed.
  unfold bind at 1. unfold ChunkIndexReuseTape.evaluateExpressions.
  rewrite N.sub_diag. simpl. reflexivity.
Qed.

End EmptyRange.

Section Growing.
Context {Real : Type} {RO : RealOps Real}.

Lemma ChunkTape_growAdjoints_spec (tp : ChunkTape.t (Real:=Real)) :
  exists tp1,
    ChunkTape_growAdjoints tp = Some (tt, tp1)
    /\ ChunkTape_sameRecording tp tp1
    /\ forall j, ChunkTape_gradientOf tp1 j = ChunkTape_gradientOf tp j.
Proof.
  unfold ChunkTape_growAdjoints, bind, gets.
  destruct (N.leb_spec (ChunkTape.adjointsSize tp) (ChunkTape.expressionCount tp))
    as [H|H].
  - eexists. split; [reflexivity|]. split; [repeat split|].
    intros j. rewrite !ChunkTape_gradientOf_nth. cbn.
    unfold ChunkTape.adjointsSize in *. rewrite nth_resized.
    destruct (Nat.ltb_spec (N.to_nat j) (N.to_nat (ChunkTape.expressionCount tp + 1)));
      [reflexivity|].
    rewrite nth_overflow by lia. reflexivity.
  - exists tp. split; [reflexivity|]. split; [repeat split|reflexivity].
Qed.

Lemma ChunkIndexReuseTape_growAdjoints_spec (tp : ChunkIndexReuseTape.t (Real:=Real)) :
  exists tp1,
    ChunkIndexReuseTape_growAdjoints tp = Some (tt, tp1)
    /\ ChunkIndexReuseTape_sameRecording tp tp1
    /\ forall j, ChunkIndexReuseTape_gradientOf tp1 j
                 = ChunkIndexReuseTape_gradientOf tp j.
Proof.
  unfold ChunkIndexReuseTape_growAdjoints, bind, gets.
  destruct (N.leb_spec (ChunkIndexReuseTape.adjointsSize tp)
                       (IndexHandler.getMaximumGlobalIndex
                          (ChunkIndexReuseTape.indexHandler tp))) as [H|H].
  - eexists. split; [reflexivity|]. split; [repeat split|].
    intros j. rewrite !ChunkIndexReuseTape_gradientOf_nth. cbn.
    unfold ChunkIndexReuseTape.adjointsSize in *. rewrite nth_resized.
    unfold IndexHandler.getMaximumGlobalIndex in *.
    match goal with
    | |- context [Nat.ltb ?x ?y] => destruct (Nat.ltb_spec x y)
    end; [reflexivity|].
    rewrite nth_overflow by lia. reflexivity.
  - exists tp. split; [reflexivity|]. split; [repeat split|reflexivity].
Qed.

End Growing.

(** [evaluate(pos, pos)] for a position of the tape, on either tape,
    returns and propagates nothing: it only grows the adjoint vector to
    cover the indices in use, so that [getGradient] gives for every index
    what it gave before, and nothing that recording writes changes. *)
Theorem evaluate_of_empty_range_propagates_nothing :
  forall (Real : Type) (RO : RealOps Real) (opts : Options),
    (forall (tp : ChunkTape.t (Real:=Real)) (pos : ChunkTape.Position),
        validPosition (ChunkTape.externalFunctions tp) pos ->
        validPosition (ChunkTape.statements tp) (ChunkVector.inner pos) ->
        validPosition (ChunkTape.data tp) (ChunkVector.inner (ChunkVector.inner pos)) ->
        exists tp',
          ChunkTape.evaluate opts pos pos tp = Some (tt, tp')
          /\ ChunkTape_growAdjoints tp = Some (tt, tp')
          /\ (forall j, ChunkTape_gradientOf tp' j = ChunkTape_gradientOf tp j)
          /\ ChunkTape_sameRecording tp tp')
    /\ (forall (tp : ChunkIndexReuseTape.t (Real:=Real))
               (pos : ChunkIndexReuseTape.Position),
           validPosition (ChunkIndexReuseTape.externalFunctions tp) pos ->
           validPosition (ChunkIndexReuseTape.statements tp) (ChunkVector.inner pos) ->
           validPosition (ChunkIndexReuseTape.data tp)
                         (ChunkVector.inner (ChunkVector.inner pos)) ->
           exists tp',
             ChunkIndexReuseTape.evaluate opts pos pos tp = Some (tt, tp')
             /\ ChunkIndexReuseTape_growAdjoints tp = Some (tt, tp')
             /\ (forall j, ChunkIndexReuseTape_gradientOf tp' j
                           = ChunkIndexReuseTape_gradientOf tp j)
             /\ ChunkIndexReuseTape_sameRecording tp tp').
Proof.
  intros Real RO opts. split.
  - intros tp pos He Hs Hd.
    destruct (ChunkTape_growAdjoints_spec tp) as (tp1 & Eg & Hsame & Hg).
    exists tp1. split; [|split; [exact Eg|split; assumption]].
    rewrite (ChunkTape_evaluate_segments opts pos pos tp []
               (recordsBetween_same _ _ He)).
    unfold bind. rewrite Eg. simpl.
    destruct Hsame as (_ & Hdata & Hstmt & _).
    apply ChunkTape_evaluateStmt_same; [rewrite Hstmt|rewrite Hdata]; assumption.
  - intros tp pos He Hs Hd.
    destruct (ChunkIndexReuseTape_growAdjoints_spec tp) as (tp1 & Eg & Hsame & Hg).
    exists tp1. split; [|split; [exact Eg|split; assumption]].
    rewrite (ChunkIndexReuseTape_evaluate_segments opts pos pos tp []
               (recordsBetween_same _ _ He)).
    unfold bind. rewrite Eg. simpl.
    destruct Hsame as (_ & Hdata & Hstmt & _).
    apply ChunkIndexReuseTape_evaluateStmt_same; [rewrite Hstmt|rewrite Hdata];
      assumption.
Qed.

Lemma evaluate_of_empty_range_propagates_nothing_witness :
  exists tp',
    ChunkTape.evaluate allChecks (ChunkTape.getPosition ChunkTape_exampleTape)
      (ChunkTape.getPosition ChunkTape_exampleTape) ChunkTape_exampleTape
    = Some (tt, tp')
    /\ ChunkTape_sameRecording ChunkTape_exampleTape tp'
    /\ ChunkTape_gradientOf tp' 4 = Some (Finite 1).
Proof.
  destruct (evaluate_of_empty_range_propagates_nothing XReal XReal_RealOps allChecks)
    as [HL _].
  destruct (HL ChunkTape_exampleTape (ChunkTape.getPosition ChunkTape_exampleTape))
    as (tp' & E & _ & Hg & Hs).
  - eexists. split; [vm_compute; reflexivity|]. vm_compute. discriminate.
  - eexists. split; [vm_compute; reflexivity|]. vm_compute. discriminate.
  - eexists. split; [vm_compute; reflexivity|]. vm_compute. discriminate.
  - exists tp'. split; [exact E|]. split; [exact Hs|]. rewrite Hg. reflexivity.
Defined.

(** ** One statement, end to end *)

(** Comparisons with the chunk size [c], which is at least what is
    compared with it, and comparisons of constants. *)
Ltac decide_cmp c :=
  repeat match goal with
  | |- context [N.leb ?a ?b] =>
      first [ lazymatch b with c => idtac end;
              replace (N.leb a b) with true by (symmetry; apply N.leb_le; lia)
            | let v := eval vm_compute in (N.leb a b) in change (N.leb a b) with v ]
  | |- context [N.ltb ?a ?b] =>
      first [ lazymatch b with c => idtac end;
              replace (N.ltb a b) with true by (symmetry; apply N.ltb_lt; lia)
            | let v := eval vm_compute in (N.ltb a b) in change (N.ltb a b) with v ]
  end.

Lemma ENABLE_CHECK_true (option : bool) : ENABLE_CHECK option true = true.
Proof. destruct option; reflexivity. Qed.

Lemma ENABLE_CHECK_on (condition : bool) : ENABLE_CHECK true condition = condition.
Proof. reflexivity. Qed.

Lemma ENABLE_CHECK_off (condition : bool) : ENABLE_CHECK false condition = true.
Proof. reflexivity. Qed.

(** One round of evaluation of a session on a concrete tape, up to the
    next test that evaluation cannot decide. *)
Ltac session_round c Hi Hj Hz :=
  cbv -[N.leb N.ltb zero one add mul isfinite nonzero ENABLE_CHECK];
  rewrite ?ENABLE_CHECK_true, ?ENABLE_CHECK_on, ?ENABLE_CHECK_off, ?Hi, ?Hj, ?Hz;
  decide_cmp c;
  try match goal with
      | |- context [if nonzero ?x then _ else _] => destruct (nonzero x)
      end.

Section OneStatement.
Context {Real : Type} {RO : RealOps Real}.

Lemma ChunkTape_oneStatement_run (opts : Options) (value jacobi xValue seed : Real) :
  2 <= DefaultChunkSize opts ->
  ENABLE_CHECK (OptIgnoreInvalidJacobies opts) (isfinite jacobi) = true ->
  ENABLE_CHECK (OptJacobiIsZero opts) (nonzero jacobi) = true ->
  ENABLE_CHECK (OptZeroAdjoint opts) (nonzero seed) = true ->
  option_map fst (ChunkTape_oneStatement opts value jacobi xValue seed
                    (ChunkTape.create opts))
  = Some (add zero (mul seed jacobi)).
Proof.
  destruct opts as [oa oz oi oj c]. cbn [DefaultChunkSize OptIgnoreInvalidJacobies
    OptJacobiIsZero OptZeroAdjoint]. intros Hc Hi Hj Hz.
  unfold ChunkTape_oneStatement.
  destruct oz; rewrite ?ENABLE_CHECK_on in Hz;
    repeat session_round c Hi Hj Hz; reflexivity.
Qed.

Lemma ChunkIndexReuseTape_oneStatement_run (opts : Options)
      (value jacobi xValue seed : Real) :
  2 <= DefaultChunkSize opts ->
  ENABLE_CHECK (OptIgnoreInvalidJacobies opts) (isfinite jacobi) = true ->
  ENABLE_CHECK (OptJacobiIsZero opts) (nonzero jacobi) = true ->
  ENABLE_CHECK (OptZeroAdjoint opts) (nonzero seed) = true ->
  option_map fst (ChunkIndexReuseTape_oneStatement opts value jacobi xValue seed
                    (ChunkIndexReuseTape.create opts))
  = Some (add zero (mul seed jacobi)).
Proof.
  destruct opts as [oa oz oi oj c]. cbn [DefaultChunkSize OptIgnoreInvalidJacobies
    OptJacobiIsZero OptZeroAdjoint]. intros Hc Hi Hj Hz.
  unfold ChunkIndexReuseTape_oneStatement.
  destruct oz; rewrite ?ENABLE_CHECK_on in Hz;
    repeat session_round c Hi Hj Hz; reflexivity.
Qed.

End OneStatement.

(** A new tape with chunks of at least two entries, on which one input
    [x] is registered, one statement [y = f(x)] with the partial derivative
    [jacobi] is stored (a finite, nonzero one where the options filter),
    the seed is put on [y] and [evaluate()] is run: [getGradient(x)] then
    returns [0 + seed * jacobi]. A zero seed is let through only with
    [OptZeroAdjoint] off. This holds on both tapes. *)
Theorem one_statement_gradient_is_seed_times_jacobi :
  forall (Real : Type) (RO : RealOps Real) (opts : Options)
         (value jacobi xValue seed : Real),
    2 <= DefaultChunkSize opts ->
    ENABLE_CHECK (OptIgnoreInvalidJacobies opts) (isfinite jacobi) = true ->
    ENABLE_CHECK (OptJacobiIsZero opts) (nonzero jacobi) = true ->
    ENABLE_CHECK (OptZeroAdjoint opts) (nonzero seed) = true ->
    option_map fst (ChunkTape_oneStatement opts value jacobi xValue seed
                      (ChunkTape.create opts))
    = Some (add zero (mul seed jacobi))
    /\ option_map fst (ChunkIndexReuseTape_oneStatement opts value jacobi xValue seed
                         (ChunkIndexReuseTape.create opts))
       = Some (add zero (mul seed jacobi)).
Proof.
  intros Real RO opts value jacobi xValue seed Hc Hi Hj Hz. split.
  - apply ChunkTape_oneStatement_run; assumption.
  - apply ChunkIndexReuseTape_oneStatement_run; assumption.
Qed.

Lemma one_statement_gradient_is_seed_times_jacobi_witness :
  option_map fst (ChunkTape_oneStatement allChecks (Finite 9) (Finite 6) (Finite 3)
                    (Finite 1) (ChunkTape.create allChecks))
  = Some (Finite 6)
  /\ option_map fst (ChunkIndexReuseTape_oneStatement allChecks (Finite 9) (Finite 6)
                       (Finite 3) (Finite 1) (ChunkIndexReuseTape.create allChecks))
     = Some (Finite 6).
Proof.
  apply (one_statement_gradient_is_seed_times_jacobi XReal XReal_RealOps allChecks
           (Finite 9) (Finite 6) (Finite 3) (Finite 1)).
  - vm_compute. discriminate.
  - reflexivity.
  - reflexivity.
  - reflexivity.
Defined.

Section TwoStatements.
Context {Real : Type} {RO : RealOps Real}.

Lemma ChunkTape_twoStatements_run (opts : Options) (jacobiF jacobiG seed : Real) :
  3 <= DefaultChunkSize opts ->
  ENABLE_CHECK (OptIgnoreInvalidJacobies opts) (isfinite jacobiF) = true ->
  ENABLE_CHECK (OptJacobiIsZero opts) (nonzero jacobiF) = true ->
  ENABLE_CHECK (OptIgnoreInvalidJacobies opts) (isfinite jacobiG) = true ->
  ENABLE_CHECK (OptJacobiIsZero opts) (nonzero jacobiG) = true ->
  ENABLE_CHECK (OptZeroAdjoint opts) (nonzero seed) = true ->
  ENABLE_CHECK (OptZeroAdjoint opts) (nonzero (add zero (mul seed jacobiG))) = true ->
  option_map fst (ChunkTape_twoStatements opts jacobiF jacobiG seed
                    (ChunkTape.create opts))
  = Some (add zero (mul (add zero (mul seed jacobiG)) jacobiF)).
Proof.
  destruct opts as [oa oz oi oj c]. cbn [DefaultChunkSize OptIgnoreInvalidJacobies
    OptJacobiIsZero OptZeroAdjoint]. intros Hc Hi Hj Hi' Hj' Hz Hz'.
  unfold ChunkTape_twoStatements.
  destruct oz; rewrite ?ENABLE_CHECK_on in Hz, Hz';
    repeat (rewrite ?Hi', ?Hj', ?Hz'; session_round c Hi Hj Hz);
    first [reflexivity | congruence].
Qed.

Lemma ChunkIndexReuseTape_twoStatements_run (opts : Options)
      (jacobiF jacobiG seed : Real) :
  3 <= DefaultChunkSize opts ->
  ENABLE_CHECK (OptIgnoreInvalidJacobies opts) (isfinite jacobiF) = true ->
  ENABLE_CHECK (OptJacobiIsZero opts) (nonzero jacobiF) = true ->
  ENABLE_CHECK (OptIgnoreInvalidJacobies opts) (isfinite jacobiG) = true ->
  ENABLE_CHECK (OptJacobiIsZero opts) (nonzero jacobiG) = true ->
  ENABLE_CHECK (OptZeroAdjoint opts) (nonzero seed) = true ->
  ENABLE_CHECK (OptZeroAdjoint opts) (nonzero (add zero (mul seed jacobiG))) = true ->
  option_map fst (ChunkIndexReuseTape_twoStatements opts jacobiF jacobiG seed
                    (ChunkIndexReuseTape.create opts))
  = Some (add zero (mul (add zero (mul seed jacobiG)) jacobiF)).
Proof.
  destruct opts as [oa oz oi oj c]. cbn [DefaultChunkSize OptIgnoreInvalidJacobies
    OptJacobiIsZero OptZeroAdjoint]. intros Hc Hi Hj Hi' Hj' Hz Hz'.
  unfold ChunkIndexReuseTape_twoStatements.
  destruct oz; rewrite ?ENABLE_CHECK_on in Hz, Hz';
    repeat (rewrite ?Hi', ?Hj', ?Hz'; session_round c Hi Hj Hz);
    first [reflexivity | congruence].
Qed.

End TwoStatements.

(** A new tape with chunks of at least three entries, on which [x] is
    registered, [y = f(x)] and [z = g(y)] are stored with their partial
    derivatives (finite, nonzero ones where the options filter), the
    seed is put on [z] and [evaluate()] is run: [getGradient(x)] returns
    [0 + (0 + seed * jacobiG) * jacobiF], the product of the chain, when
    the seed and the adjoint of [y] pass the [OptZeroAdjoint] test. This
    holds on both tapes. *)
Theorem two_statement_gradient_composes :
  forall (Real : Type) (RO : RealOps Real) (opts : Options)
         (jacobiF jacobiG seed : Real),
    3 <= DefaultChunkSize opts ->
    ENABLE_CHECK (OptIgnoreInvalidJacobies opts) (isfinite jacobiF) = true ->
    ENABLE_CHECK (OptJacobiIsZero opts) (nonzero jacobiF) = true ->
    ENABLE_CHECK (OptIgnoreInvalidJacobies opts) (isfinite jacobiG) = true ->
    ENABLE_CHECK (OptJacobiIsZero opts) (nonzero jacobiG) = true ->
    ENABLE_CHECK (OptZeroAdjoint opts) (nonzero seed) = true ->
    ENABLE_CHECK (OptZeroAdjoint opts) (nonzero (add zero (mul seed jacobiG))) = true ->
    option_map fst (ChunkTape_twoStatements opts jacobiF jacobiG seed
                      (ChunkTape.create opts))
    = Some (add zero (mul (add zero (mul seed jacobiG)) jacobiF))
    /\ option_map fst (ChunkIndexReuseTape_twoStatements opts jacobiF jacobiG seed
                         (ChunkIndexReuseTape.create opts))
       = Some (add zero (mul (add zero (mul seed jacobiG)) jacobiF)).
Proof.
  intros Real RO opts jacobiF jacobiG seed Hc Hi Hj Hi' Hj' Hz Hz'. split.
  - apply ChunkTape_twoStatements_run; assumption.
  - apply ChunkIndexReuseTape_twoStatements_run; assumption.
Qed.

Lemma two_statement_gradient_composes_witness :
  option_map fst (ChunkTape_twoStatements allChecks (Finite 6) (Finite 18) (Finite 1)
                    (ChunkTape.create allChecks))
  = Some (Finite 108)
  /\ option_map fst (ChunkIndexReuseTape_twoStatements allChecks (Finite 6) (Finite 18)
                       (Finite 1) (ChunkIndexReuseTape.create allChecks))
     = Some (Finite 108).
Proof.
  apply (two_statement_gradient_composes XReal XReal_RealOps allChecks
           (Finite 6) (Finite 18) (Finite 1)); try reflexivity.
  vm_compute. discriminate.
Defined.

(** ** Statements and the expression counter of the linear-index tape *)

Lemma reset_to_start_records {A I : Type} (ip : I) (cv cv' : ChunkVector.t A I) :
  ChunkVector.reset (ChunkVector.mkPosition 0 0 ip) cv = Some cv' ->
  ChunkVector.records cv' = [].
Proof.
  unfold ChunkVector.reset. simpl.
  destruct (ChunkVector.getChunk cv 0) as [ch|]; [|discriminate].
  destruct (0 <=? N.of_nat (length (ChunkVector.cells ch))); [|discriminate].
  intros E. inversion E. reflexivity.
Qed.

(** A write that leaves the statement log and the counter alone. *)
Ltac count_modify := apply keeps_modify; intros ? H; exact H.

Ltac count_modifyOpt :=
  apply keeps_modifyOpt;
  let E := fresh "E" in
  let H := fresh "H" in
  intros ? ? H E; cbv beta in E;
  match type of E with
  | option_map _ ?x = _ => destruct x; [|discriminate]
  | match ?x with Some _ => _ | None => None end = _ => destruct x; [|discriminate]
  end;
  injection E as <-; exact H.

Section Counting.
Context {Real : Type} {RO : RealOps Real}.
Variable opts : Options.

Local Abbreviation Inv := (ChunkTape_countsStatements (Real:=Real)).

Lemma ChunkTape_count_reserve (k : N) :
  hoare Inv (ChunkTape.statements_reserveItems k) (fun _ => Inv).
Proof.
  unfold ChunkTape.statements_reserveItems. apply keeps_modify. intros tp H.
  unfold ChunkTape_countsStatements in *. simpl. rewrite reserveItems_records. exact H.
Qed.

(** The push of a statement and the increment of the counter go
    together. *)
Lemma ChunkTape_count_push (s : N) :
  hoare Inv (ChunkTape.statements_setDataAndMove s ;; ChunkTape.incrementCount)
        (fun _ => Inv).
Proof.
  intros tp i tp' H E. bind_inv E as u tp1 E1.
  unfold ChunkTape.statements_setDataAndMove, modifyOpt in E1.
  destruct (ChunkVector.setDataAndMove s (ChunkTape.statements tp)) as [st|] eqn:Es;
    [|discriminate].
  simpl in E1. injection E1 as _ <-.
  unfold ChunkTape.incrementCount, bind, gets, modify, ret in E. injection E as _ <-.
  apply setDataAndMove_inv in Es. destruct Es as (_ & Hr & _).
  unfold ChunkTape_countsStatements in *. simpl. rewrite Hr, length_app. simpl. lia.
Qed.

Lemma ChunkTape_count_write (i : N) (v : Real) :
  hoare Inv (ChunkTape.writeAdjoint i v) (fun _ => Inv).
Proof. unfold ChunkTape.writeAdjoint. count_modifyOpt. Qed.

Lemma ChunkTape_count_resize (size : N) :
  hoare Inv (ChunkTape.resizeAdjoints size) (fun _ => Inv).
Proof. unfold ChunkTape.resizeAdjoints. count_modify. Qed.

Lemma ChunkTape_count_zeroing (l : list N) :
  hoare Inv (forM l (fun i => ChunkTape.writeAdjoint i zero)) (fun _ => Inv).
Proof. apply hoare_forM. intros i _. apply ChunkTape_count_write. Qed.

Lemma ChunkTape_count_pushLeaf (l : Leaf Real) :
  hoare Inv (ChunkTape.pushLeaf opts l) (fun _ => Inv).
Proof.
  destruct l; unfold ChunkTape.pushLeaf, ChunkTape.pushJacobi_unary, ChunkTape.pushJacobi;
    repeat first [keeps_step | count_modifyOpt].
Qed.

Lemma ChunkTape_count_store (lhsValue : Real) (lhsIndex : N) (rhs : Rhs Real) :
  hoare Inv (ChunkTape.store opts lhsValue lhsIndex rhs) (fun _ => Inv).
Proof.
  unfold ChunkTape.store, ChunkTape.data_reserveItems, ChunkTape.calcGradient.
  repeat first [ apply ChunkTape_count_push | apply ChunkTape_count_reserve
               | keeps_step | count_modify ].
  apply hoare_forM. intros l _. apply ChunkTape_count_pushLeaf.
Qed.

Lemma ChunkTape_count_gradient (index : N) :
  hoare Inv (ChunkTape.gradient index) (fun _ => Inv).
Proof.
  unfold ChunkTape.gradient. repeat first [apply ChunkTape_count_resize | keeps_step].
Qed.

Lemma ChunkTape_count_evaluate (start end_ : ChunkTape.Position) :
  hoare Inv (ChunkTape.evaluate opts start end_) (fun _ => Inv).
Proof.
  unfold ChunkTape.evaluate.
  repeat first [apply ChunkTape_count_resize | keeps_step].
  apply ChunkTape_pass_evaluateExtFunc.
  - apply ChunkTape_count_write.
  - intros f. unfold ChunkTape.extFunc_evaluate. count_modify.
Qed.

Lemma ChunkTape_count_reset_all :
  hoare Inv ChunkTape.reset_all (fun _ => Inv).
Proof.
  unfold ChunkTape.reset_all, ChunkTape.reset.
  repeat first [apply ChunkTape_count_zeroing | keeps_step].
  - apply hoare_forEach. intros x. unfold ChunkTape.popExternalFunction. count_modify.
  - unfold ChunkTape.externalFunctions_reset. apply keeps_modifyOpt.
    intros tp tp' _ E.
    destruct (ChunkVector.reset ChunkTape.initialPosition _); [|discriminate].
    destruct (ChunkVector.reset (ChunkVector.inner ChunkTape.initialPosition)
                                (ChunkTape.statements tp)) as [st|] eqn:Es;
      [|discriminate].
    destruct (ChunkVector.reset _ (ChunkTape.data tp)); [|discriminate].
    injection E as <-. unfold ChunkTape_countsStatements. simpl.
    rewrite (reset_to_start_records _ _ _ Es). reflexivity.
Qed.

Lemma ChunkTape_count_step (op : ChunkTape_Op Real) :
  ChunkTape_keepsPositions op = true ->
  hoare Inv (ChunkTape_step opts op) (fun _ => Inv).
Proof.
  destruct op; simpl; intros Hop; try discriminate;
    try apply ChunkTape_count_reset_all;
    try apply ChunkTape_count_evaluate;
    unfold ChunkTape.setDataChunkSize, ChunkTape.setExternalFunctionChunkSize,
      ChunkTape.allocateAdjoints, ChunkTape.store_copy,
      ChunkTape.store_passive, ChunkTape.pushJacobi_unary, ChunkTape.pushJacobi,
      ChunkTape.initGradientData, ChunkTape.destroyGradientData, ChunkTape.setGradient,
      ChunkTape.getGradient, ChunkTape.readAdjoint, ChunkTape.clearAdjoints,
      ChunkTape.clearAdjoints_range, ChunkTape.evaluate_all,
      ChunkTape.pushExternalFunctionHandle, ChunkTape.registerInput,
      ChunkTape.registerOutput, ChunkTape.setActive, ChunkTape.setPassive;
    repeat first [ apply ChunkTape_count_push | apply ChunkTape_count_reserve
                 | apply ChunkTape_count_store | apply ChunkTape_count_gradient
                 | apply ChunkTape_count_write | apply ChunkTape_count_resize
                 | apply ChunkTape_count_zeroing | apply ChunkTape_count_evaluate
                 | keeps_step | count_modify | count_modifyOpt ].
  unfold ChunkTape.setStatementChunkSize. apply keeps_modify. intros tp H.
  unfold ChunkTape_countsStatements in *. simpl. rewrite setChunkSize_records. exact H.
Qed.

End Counting.

(** On the linear-index tape the lhs index of a statement is implicit:
    after any sequence of public operations on a new tape, none of them a
    [reset(pos)] to a position given by the caller, the statement log
    holds exactly [expressionCount.count] statements, one for each index
    that [registerInput] and [store] have handed out. *)
Theorem statement_log_matches_expression_counter :
  forall (Real : Type) (RO : RealOps Real) (opts : Options)
         (ops : list (ChunkTape_Op Real)) (u : unit) (tp : ChunkTape.t (Real:=Real)),
    forallb ChunkTape_keepsPositions ops = true ->
    ChunkTape_run opts ops (ChunkTape.create opts) = Some (u, tp) ->
    ChunkTape_countsStatements tp.
Proof.
  intros Real RO opts ops u tp Hops E.
  eapply (hoare_forM (ChunkTape_countsStatements (Real:=Real))); [| |exact E].
  - intros op Hin. apply ChunkTape_count_step.
    rewrite forallb_forall in Hops. apply Hops, Hin.
  - reflexivity.
Qed.

Lemma statement_log_matches_expression_counter_witness :
  ChunkTape_run allChecks ChunkTape_exampleOps (ChunkTape.create allChecks)
  = Some (tt, ChunkTape_exampleFinal)
  /\ ChunkVector.records (ChunkTape.statements ChunkTape_exampleFinal) = [0; 1]
  /\ ChunkTape_countsStatements ChunkTape_exampleFinal.
Proof.
  split; [vm_compute; reflexivity|]. split; [reflexivity|].
  apply (statement_log_matches_expression_counter XReal XReal_RealOps allChecks
           ChunkTape_exampleOps tt).
  - reflexivity.
  - vm_compute. reflexivity.
Defined.

(** ** The reverse pass of the linear-index tape returns *)

Lemma lookupN_defined {A : Type} (l : list A) (i : N) :
  i < N.of_nat (length l) -> exists a, lookupN l i = Some a.
Proof.
  intros H. destruct (nth_error l (N.to_nat i)) as [a|] eqn:E.
  - exists a. apply lookupN_Some. exact E.
  - apply nth_error_None in E. lia.
Qed.

Lemma records_firstChunk {A I : Type} (cv : ChunkVector.t A I) :
  ChunkVector.prior cv = [] ->
  ChunkVector.records cv = ChunkVector.cells (ChunkVector.current cv)
  /\ ChunkVector.getDataAtPosition cv 0 = Some (ChunkVector.cells (ChunkVector.current cv)).
Proof.
  intros H. rewrite records_split, H. split; [reflexivity|].
  unfold ChunkVector.getDataAtPosition, ChunkVector.getChunk, ChunkVector.allChunks.
  rewrite H. reflexivity.
Qed.

Section LinearReturns.
Context {Real : Type} {RO : RealOps Real}.
Variable opts : Options.

(** The calls of the trace are kept by everything but a call. *)
Lemma ChunkTape_calls_evaluateStmt (c : list ExternalFunction.t)
      (start end_ : ChunkTape.StatementPosition) :
  hoare (fun t : ChunkTape.t (Real:=Real) => calls (ChunkTape.trace t) = c)
        (ChunkTape.evaluateStmt opts start end_)
        (fun _ t => calls (ChunkTape.trace t) = c).
Proof.
  apply ChunkTape_pass_evaluateStmt.
  intros i v t u t' H E. apply ChunkTape_writeAdjoint_inv in E.
  destruct E as (a & _ & ->). simpl. rewrite calls_app. simpl.
  rewrite app_nil_r. exact H.
Qed.

(** The segments of the reverse pass call the functions of the records in
    turn. *)
Lemma ChunkTape_evaluateSegments_calls
      (records : list (ExternalFunction.t * ChunkTape.StatementPosition))
      (end_ : ChunkTape.StatementPosition) :
  forall (frontier : ChunkTape.StatementPosition) (tp tp' : ChunkTape.t (Real:=Real))
         (u : unit),
    ChunkTape_evaluateSegments opts frontier records end_ tp = Some (u, tp') ->
    calls (ChunkTape.trace tp') = calls (ChunkTape.trace tp) ++ map fst records.
Proof.
  induction records as [|[f boundary] rest IH]; intros frontier tp tp' u E.
  - cbn [ChunkTape_evaluateSegments] in E. simpl. rewrite app_nil_r.
    eapply (ChunkTape_calls_evaluateStmt (calls (ChunkTape.trace tp))); [|exact E].
    reflexivity.
  - cbn [ChunkTape_evaluateSegments] in E.
    bind_inv E as u1 tp1 E1. bind_inv E as u2 tp2 E2.
    apply IH in E. rewrite E.
    unfold ChunkTape.extFunc_evaluate, modify in E2. injection E2 as _ <-.
    simpl. rewrite calls_app. simpl.
    rewrite (ChunkTape_calls_evaluateStmt (calls (ChunkTape.trace tp)) _ _ _ _ _
               eq_refl E1).
    rewrite <- app_assoc. reflexivity.
Qed.

(** A tape that is ready for the replay stays so through the pass. *)
Lemma ChunkTape_ready_evaluateStmt (start end_ : ChunkTape.StatementPosition) :
  hoare (ChunkTape_readyToReplay (Real:=Real))
        (ChunkTape.evaluateStmt opts start end_)
        (fun _ => ChunkTape_readyToReplay (Real:=Real)).
Proof.
  apply ChunkTape_pass_evaluateStmt.
  intros i v t u t' H E. apply ChunkTape_writeAdjoint_inv in E.
  destruct E as (a & Eu & ->). unfold ChunkTape_readyToReplay, ChunkTape_firstChunkOnly,
                                 ChunkTape.adjointsSize in *.
  simpl. rewrite (updateN_length _ _ _ _ Eu). exact H.
Qed.

(** The loop over the arguments of a statement returns when the entries
    are there and their indices are inside the adjoint vector. *)
Lemma ChunkTape_accumulateLoop_defined (adjRef : N) (dc : list (Real * N)) :
  forall (n : nat) (dataPos : N) (tp : ChunkTape.t (Real:=Real)),
    N.of_nat n <= dataPos ->
    dataPos <= N.of_nat (length dc) ->
    Forall (fun entry => snd entry < ChunkTape.adjointsSize tp) dc ->
    adjRef < ChunkTape.adjointsSize tp ->
    exists tp',
      ChunkTape.accumulateLoop n adjRef dc dataPos tp
      = Some (dataPos - N.of_nat n, tp')
      /\ ChunkTape.adjointsSize tp' = ChunkTape.adjointsSize tp.
Proof.
  induction n as [|n IH]; intros dataPos tp Hn Hd Hidx Hadj.
  - exists tp. simpl. unfold ret. rewrite N.sub_0_r. auto.
  - destruct (lookupN_defined dc (dataPos - 1)) as [cell Ecell]; [lia|].
    destruct (lookupN_defined (ChunkTape.adjoints tp) adjRef) as [adj Eadj];
      [exact Hadj|].
    assert (Hcell : snd cell < ChunkTape.adjointsSize tp).
    { rewrite Forall_forall in Hidx. apply Hidx. eapply lookupN_In; eauto. }
    destruct (lookupN_defined (ChunkTape.adjoints tp) (snd cell)) as [old Eold];
      [exact Hcell|].
    set (tp1 := ChunkTape.emit [AdjointWrite (snd cell) (add old (mul adj (fst cell)))]
                  (ChunkTape.set_adjoints
                     (replaceNth (ChunkTape.adjoints tp) (N.to_nat (snd cell))
                                 (add old (mul adj (fst cell)))) tp)).
    assert (Hsize : ChunkTape.adjointsSize tp1 = ChunkTape.adjointsSize tp).
    { unfold tp1, ChunkTape.adjointsSize. simpl. rewrite replaceNth_length.
      reflexivity. }
    destruct (IH (dataPos - 1) tp1) as (tp' & Erun & Hs);
      [lia|lia|rewrite Hsize; exact Hidx|rewrite Hsize; exact Hadj|].
    exists tp'. split; [|rewrite Hs; exact Hsize].
    cbn [ChunkTape.accumulateLoop]. unfold ChunkTape.accumulate.
    rewrite size_dec_pred by lia.
    unfold bind at 1. unfold bind at 1. unfold getsOpt at 1. rewrite Ecell.
    unfold bind at 1. rewrite (ChunkTape_readAdjoint_run _ _ _ Eadj).
    unfold bind at 1. rewrite (ChunkTape_readAdjoint_run _ _ _ Eold).
    unfold bind at 1. rewrite (ChunkTape_writeAdjoint_run _ _ _ _ Eold).
    unfold ret at 1. fold tp1. rewrite Erun. f_equal. f_equal. lia.
Qed.

(** The statements of a segment return when the statement log has them,
    the jacobian entries cover their argument counts, and the indices
    are inside the adjoint vector. *)
Lemma ChunkTape_evaluateStatements_defined (sd : list N) (dc : list (Real * N)) :
  forall (n : nat) (adjPos stmtPos dataPos : N) (tp : ChunkTape.t (Real:=Real)),
    N.of_nat n <= stmtPos ->
    stmtPos <= N.of_nat (length sd) ->
    N.of_nat n <= adjPos ->
    adjPos < ChunkTape.adjointsSize tp ->
    sumN (firstn (N.to_nat stmtPos) sd) <= dataPos ->
    dataPos <= N.of_nat (length dc) ->
    Forall (fun entry => snd entry < ChunkTape.adjointsSize tp) dc ->
    exists cursors tp',
      ChunkTape.evaluateStatements opts n sd dc (adjPos, stmtPos, dataPos) tp
      = Some (cursors, tp').
Proof.
  induction n as [|n IH]; intros adjPos stmtPos dataPos tp Hn Hs Ha Hsize Hsum Hd Hidx.
  - simpl. unfold ret. eauto.
  - destruct (lookupN_defined sd (stmtPos - 1)) as [k Ek]; [lia|].
    destruct (lookupN_defined (ChunkTape.adjoints tp) adjPos) as [adj Eadj];
      [exact Hsize|].
    assert (Hk : sumN (firstn (N.to_nat (stmtPos - 1)) sd) + k <= dataPos).
    { apply lookupN_Some in Ek.
      rewrite <- (sumN_firstn_succ _ _ _ Ek).
      replace (S (N.to_nat (stmtPos - 1))) with (N.to_nat stmtPos) by lia.
      exact Hsum. }
    assert (Hstep : exists tp1,
               ChunkTape.evaluateStatement opts sd dc (adjPos, stmtPos, dataPos) tp
               = Some ((adjPos - 1, stmtPos - 1, dataPos - k), tp1)
               /\ ChunkTape.adjointsSize tp1 = ChunkTape.adjointsSize tp).
    { unfold ChunkTape.evaluateStatement.
      rewrite !size_dec_pred by lia.
      unfold bind at 1. unfold getsOpt at 1. rewrite Ek. unfold bind at 1.
      assert (Hnz : exists b,
                 (if OptZeroAdjoint opts
                  then adj0 <- ChunkTape.readAdjoint adjPos ;; ret (nonzero adj0)
                  else ret false) tp = Some (b, tp)).
      { destruct (OptZeroAdjoint opts); [|eexists; reflexivity].
        unfold bind. rewrite (ChunkTape_readAdjoint_run _ _ _ Eadj).
        eexists. reflexivity. }
      destruct Hnz as (b & ->). unfold bind at 1.
      destruct (ENABLE_CHECK (OptZeroAdjoint opts) b).
      - destruct (ChunkTape_accumulateLoop_defined adjPos dc (N.to_nat k) dataPos tp)
          as (tp1 & Erun & Hs1); [lia|exact Hd|exact Hidx|exact Hsize|].
        rewrite Erun. rewrite N2Nat.id. exists tp1. split; [reflexivity|exact Hs1].
      - unfold ret. rewrite size_sub_le by lia. exists tp. split; reflexivity. }
    destruct Hstep as (tp1 & Estep & Hs1).
    destruct (IH (adjPos - 1) (stmtPos - 1) (dataPos - k) tp1) as (c & tp' & Erun).
    + lia.
    + lia.
    + lia.
    + rewrite Hs1. lia.
    + lia.
    + lia.
    + rewrite Hs1. exact Hidx.
    + exists c, tp'. cbn [ChunkTape.evaluateStatements]. unfold bind.
      rewrite Estep. exact Erun.
Qed.

(** [evaluateStmt] between two positions of the first chunks returns. *)
Lemma ChunkTape_evaluateStmt_defined (tp : ChunkTape.t (Real:=Real))
      (start end_ : ChunkTape.StatementPosition) :
  ChunkTape_readyToReplay tp ->
  ChunkTape_countsStatements tp ->
  ChunkTape_replayable (ChunkVector.records (ChunkTape.statements tp))
                       (ChunkVector.records (ChunkTape.data tp)) start ->
  ChunkVector.chunk end_ = 0 ->
  ChunkVector.chunk (ChunkVector.inner end_) = 0 ->
  exists tp', ChunkTape.evaluateStmt opts start end_ tp = Some (tt, tp').
Proof.
  intros ((Hps & Hpd) & Hsize & Hidx) Hcount (Hc & Hci & Hcs & Hs & Hsum & Hd) He Hei.
  destruct (records_firstChunk _ Hps) as [Rs Gs].
  destruct (records_firstChunk _ Hpd) as [Rd Gd].
  unfold ChunkTape_countsStatements in Hcount.
  unfold ChunkTape.evaluateStmt. rewrite Hc, He. cbn [N.sub N.to_nat].
  cbn [ChunkTape.evaluateStmtChunks]. unfold bind at 1. unfold ret at 1.
  unfold bind at 1. unfold getsOpt at 1. rewrite Gs.
  unfold ChunkTape.evaluateData. rewrite Hci, Hei. cbn [N.sub N.to_nat].
  cbn [ChunkTape.evaluateDataChunks].
  unfold bind at 1. unfold bind at 1. unfold ret at 1.
  unfold bind at 1. unfold getsOpt at 1. rewrite Gd.
  unfold ChunkTape.evaluateExpressions.
  destruct (ChunkTape_evaluateStatements_defined
              (ChunkVector.cells (ChunkVector.current (ChunkTape.statements tp)))
              (ChunkVector.cells (ChunkVector.current (ChunkTape.data tp)))
              (N.to_nat (ChunkVector.inner (ChunkVector.inner start)
                         - ChunkVector.inner (ChunkVector.inner end_)))
              (ChunkVector.inner (ChunkVector.inner start))
              (ChunkVector.data start)
              (ChunkVector.data (ChunkVector.inner start)) tp)
    as ([[a s] d] & tp' & Erun).
  - rewrite Hcs. lia.
  - rewrite <- Rs. exact Hs.
  - lia.
  - rewrite Hcs. rewrite Rs in Hs. rewrite <- Rs in Hs. lia.
  - rewrite <- Rs. exact Hsum.
  - rewrite <- Rd. exact Hd.
  - rewrite <- Rd. exact Hidx.
  - exists tp'. unfold bind. rewrite Erun. reflexivity.
Qed.

(** The segments of the reverse pass return. *)
Lemma ChunkTape_evaluateSegments_defined
      (records : list (ExternalFunction.t * ChunkTape.StatementPosition))
      (end_ : ChunkTape.StatementPosition) :
  ChunkVector.chunk end_ = 0 ->
  ChunkVector.chunk (ChunkVector.inner end_) = 0 ->
  forall (frontier : ChunkTape.StatementPosition) (tp : ChunkTape.t (Real:=Real)),
    ChunkTape_readyToReplay tp ->
    ChunkTape_countsStatements tp ->
    ChunkTape_replayable (ChunkVector.records (ChunkTape.statements tp))
                         (ChunkVector.records (ChunkTape.data tp)) frontier ->
    Forall (fun r => ChunkTape_replayable (ChunkVector.records (ChunkTape.statements tp))
                                          (ChunkVector.records (ChunkTape.data tp))
                                          (snd r)) records ->
    exists tp', ChunkTape_evaluateSegments opts frontier records end_ tp = Some (tt, tp').
Proof.
  intros He Hei.
  induction records as [|[f boundary] rest IH]; intros frontier tp Hready Hcount Hf Hr.
  - cbn [ChunkTape_evaluateSegments].
    apply ChunkTape_evaluateStmt_defined; assumption.
  - cbn [ChunkTape_evaluateSegments].
    inversion Hr as [|? ? Hb Hrest]; subst. cbn [snd] in Hb.
    assert (Hbe : ChunkVector.chunk boundary = 0
                  /\ ChunkVector.chunk (ChunkVector.inner boundary) = 0).
    { destruct Hb as (H1 & H2 & _). auto. }
    destruct (ChunkTape_evaluateStmt_defined tp frontier boundary Hready Hcount Hf)
      as (tp1 & E1); [tauto|tauto|].
    pose proof (ChunkTape_ready_evaluateStmt _ _ _ _ _ Hready E1) as Hready1.
    assert (Hsame : ChunkTape_sameRecording tp tp1).
    { eapply (ChunkTape_pass_evaluateStmt opts (ChunkTape_sameRecording tp));
        [| |exact E1].
      - intros i v t u t' H E. apply ChunkTape_writeAdjoint_inv in E.
        destruct E as (a & _ & ->). exact H.
      - repeat split. }
    destruct Hsame as (S1 & S2 & S3 & S4 & S5).
    set (tp2 := ChunkTape.emit [ExtFuncEvaluate f] tp1).
    destruct (IH boundary tp2) as (tp' & E').
    + exact Hready1.
    + unfold ChunkTape_countsStatements in *. simpl. rewrite S1, S3. exact Hcount.
    + simpl. rewrite S2, S3. exact Hb.
    + simpl. rewrite S2, S3. exact Hrest.
    + exists tp'. unfold bind. rewrite E1.
      unfold ChunkTape.extFunc_evaluate, modify. fold tp2. exact E'.
Qed.

(** [evaluate()] on a tape laid out by a recording session returns, and
    calls the functions of all records, newest first. *)
Lemma ChunkTape_evaluate_all_defined (tp : ChunkTape.t (Real:=Real)) :
  ChunkTape_layout tp ->
  ChunkTape_firstChunkOnly tp ->
  ChunkTape_indicesIssued tp ->
  exists tp',
    ChunkTape.evaluate_all opts tp = Some (tt, tp')
    /\ calls (ChunkTape.trace tp')
       = calls (ChunkTape.trace tp)
         ++ rev (map fst (ChunkVector.records (ChunkTape.externalFunctions tp))).
Proof.
  intros (Hss & Hsd & Hwf & Hcs & Hcount & Hlay) Hfirst Hidx.
  destruct (Hlay Hfirst) as (Hsum & Hrec).
  pose proof Hfirst as (Hps & Hpd).
  destruct (records_firstChunk _ Hps) as [Rs _].
  destruct (records_firstChunk _ Hpd) as [Rd _].
  destruct (ChunkTape_growAdjoints_run tp) as (tp1 & Eg & Hext).
  assert (Hg : ChunkTape_sameRecording tp tp1
               /\ ChunkTape.expressionCount tp < ChunkTape.adjointsSize tp1
               /\ calls (ChunkTape.trace tp1) = calls (ChunkTape.trace tp)).
  { unfold ChunkTape_growAdjoints, bind, gets in Eg.
    destruct (N.leb_spec (ChunkTape.adjointsSize tp) (ChunkTape.expressionCount tp)).
    - unfold ChunkTape.resizeAdjoints, modify in Eg. injection Eg as <-.
      split; [repeat split|]. split.
      + unfold ChunkTape.adjointsSize. simpl. rewrite length_app, length_firstn,
          repeat_length. unfold ChunkTape.adjointsSize in *. lia.
      + simpl. rewrite calls_app, calls_writes, app_nil_r. reflexivity.
    - unfold ret in Eg. injection Eg as <-. split; [repeat split|]. split; [lia|].
      reflexivity. }
  destruct Hg as ((S1 & S2 & S3 & S4 & S5) & Hsize & Hcalls).
  assert (Hready : ChunkTape_readyToReplay tp1).
  { split; [split; [rewrite S3; exact Hps|rewrite S2; exact Hpd]|].
    split; [rewrite S1; exact Hsize|]. rewrite S2.
    unfold ChunkTape_indicesIssued in Hidx. eapply Forall_impl; [|exact Hidx].
    intros e He. cbv beta in He. lia. }
  destruct (recordsBetween_head (ChunkTape.externalFunctions tp)
              (ChunkTape.statements_getPosition tp) ChunkTape.initialStatementPosition
              Hwf) as (l & El & Hl).
  assert (Hfrontier : ChunkTape_replayable
                        (ChunkVector.records (ChunkTape.statements tp1))
                        (ChunkVector.records (ChunkTape.data tp1))
                        (ChunkTape.statements_getPosition tp)).
  { rewrite S2, S3. unfold ChunkTape_countsStatements in Hcount.
    unfold ChunkTape_replayable, ChunkTape.statements_getPosition,
      ChunkTape.data_getPosition, ChunkVector.getPosition, ChunkVector.curChunkIndex,
      ChunkVector.used.
    cbn [ChunkVector.chunk ChunkVector.data ChunkVector.inner].
    rewrite Hps, Hpd, Hss, Hsd, <- Rs, <- Rd. cbn [length N.of_nat].
    rewrite Nnat.Nat2N.id, firstn_all.
    repeat split; try reflexivity; lia. }
  destruct (ChunkTape_evaluateSegments_defined (map snd l)
              ChunkTape.initialStatementPosition eq_refl eq_refl
              (ChunkTape.statements_getPosition tp) tp1 Hready)
    as (tp' & E').
  - unfold ChunkTape_countsStatements in *. rewrite S1, S3. exact Hcount.
  - exact Hfrontier.
  - rewrite S2, S3, Hl. apply Forall_rev. exact Hrec.
  - exists tp'. split.
    + unfold ChunkTape.evaluate_all. unfold bind at 1. unfold gets at 1.
      rewrite (ChunkTape_evaluate_segments opts _ _ tp l El).
      unfold bind at 1. rewrite Eg. exact E'.
    + rewrite (ChunkTape_evaluateSegments_calls _ _ _ _ _ _ E'), Hcalls, Hl, map_rev.
      reflexivity.
Qed.

End LinearReturns.

(** ** What a recording session keeps, on the linear-index tape *)

Lemma reserveItems_prior_nil {A I : Type} (k : N) (ip : I) (cv : ChunkVector.t A I) :
  ChunkVector.prior (ChunkVector.reserveItems k ip cv) = [] ->
  ChunkVector.reserveItems k ip cv = cv.
Proof.
  unfold ChunkVector.reserveItems.
  destruct (_ <=? _); [reflexivity|]. simpl. intros H.
  apply app_eq_nil in H. destruct H as [_ H]. discriminate.
Qed.

Lemma reserveItems_open {A I : Type} (k : N) (ip : I) (cv : ChunkVector.t A I) :
  ChunkVector.isSealed (ChunkVector.current cv) = false ->
  ChunkVector.isSealed (ChunkVector.current (ChunkVector.reserveItems k ip cv)) = false.
Proof.
  unfold ChunkVector.reserveItems. destruct (_ <=? _); [auto|reflexivity].
Qed.

Lemma setDataAndMove_open {A I : Type} (a : A) (cv cv' : ChunkVector.t A I) :
  ChunkVector.setDataAndMove a cv = Some cv' ->
  ChunkVector.isSealed (ChunkVector.current cv') = false
  /\ ChunkVector.chunkSize cv' = ChunkVector.chunkSize cv.
Proof.
  unfold ChunkVector.setDataAndMove. destruct (_ <? _); [|discriminate].
  intros E. injection E as <-. split; reflexivity.
Qed.

Lemma reserveItems_chunkSize {A I : Type} (k : N) (ip : I) (cv : ChunkVector.t A I) :
  ChunkVector.chunkSize (ChunkVector.reserveItems k ip cv) = ChunkVector.chunkSize cv.
Proof. unfold ChunkVector.reserveItems. destruct (_ <=? _); reflexivity. Qed.

Lemma toStatementInt_le (n : N) : toStatementInt n <= n.
Proof. unfold toStatementInt. apply N.Div0.mod_le. Qed.

Section Replayable.
Context {Real : Type}.

(** A position taken in the logs stays one when the logs grow. *)
Lemma ChunkTape_replayable_grows (sd sd' : list N) (dc dc' : list (Real * N))
      (p : ChunkTape.StatementPosition) :
  ChunkTape_replayable sd dc p -> ChunkTape_replayable (sd ++ sd') (dc ++ dc') p.
Proof.
  intros (H1 & H2 & H3 & H4 & H5 & H6). unfold ChunkTape_replayable.
  rewrite !length_app, firstn_app.
  replace (N.to_nat (ChunkVector.data p) - length sd)%nat with 0%nat by lia.
  simpl. rewrite app_nil_r. repeat split; try assumption; lia.
Qed.

Lemma ChunkTape_replayable_all_grow (sd sd' : list N) (dc dc' : list (Real * N))
      (l : list (ExternalFunction.t * ChunkTape.StatementPosition)) :
  Forall (fun r => ChunkTape_replayable sd dc (snd r)) l ->
  Forall (fun r => ChunkTape_replayable (sd ++ sd') (dc ++ dc') (snd r)) l.
Proof.
  intros H. eapply Forall_impl; [|exact H].
  intros r Hr. apply ChunkTape_replayable_grows. exact Hr.
Qed.

End Replayable.

Section LinearSession.
Context {Real : Type} {RO : RealOps Real}.
Variable opts : Options.

(** The layout is a matter of the counter and the three logs. *)
Lemma ChunkTape_layout_same (tp tp' : ChunkTape.t (Real:=Real)) :
  ChunkTape.expressionCount tp' = ChunkTape.expressionCount tp ->
  ChunkTape.data tp' = ChunkTape.data tp ->
  ChunkTape.statements tp' = ChunkTape.statements tp ->
  ChunkTape.externalFunctions tp' = ChunkTape.externalFunctions tp ->
  ChunkTape_layout tp -> ChunkTape_layout tp'.
Proof.
  intros Hc Hd Hs He.
  unfold ChunkTape_layout, ChunkTape_firstChunkOnly, ChunkTape_countsStatements.
  rewrite Hc, Hd, Hs, He. auto.
Qed.

Lemma ChunkTape_layout_create : ChunkTape_layout (ChunkTape.create (Real:=Real) opts).
Proof.
  unfold ChunkTape_layout. simpl.
  split; [reflexivity|]. split; [reflexivity|].
  split; [apply create_wellFormed|]. split; [lia|]. split; [reflexivity|].
  intros _. split; [simpl; lia|constructor].
Qed.

(** What the operations that record nothing keep: the counter, the logs
    and the calls of the trace. *)
Local Abbreviation Kept c d s e k :=
  (fun t : ChunkTape.t (Real:=Real) =>
     ChunkTape.expressionCount t = c /\ ChunkTape.data t = d
     /\ ChunkTape.statements t = s /\ ChunkTape.externalFunctions t = e
     /\ calls (ChunkTape.trace t) = k).

Lemma ChunkTape_kept_write c d s e k (i : N) (v : Real) :
  hoare (Kept c d s e k) (ChunkTape.writeAdjoint i v) (fun _ => Kept c d s e k).
Proof.
  intros t u t' H E. apply ChunkTape_writeAdjoint_inv in E.
  destruct E as (a & _ & ->). simpl. rewrite calls_app. simpl.
  rewrite app_nil_r. exact H.
Qed.

Lemma ChunkTape_kept_resize c d s e k (size : N) :
  hoare (Kept c d s e k) (ChunkTape.resizeAdjoints size) (fun _ => Kept c d s e k).
Proof.
  unfold ChunkTape.resizeAdjoints. apply keeps_modify. intros t H. simpl.
  rewrite calls_app, calls_writes, app_nil_r. exact H.
Qed.

Lemma ChunkTape_kept_step c d s e k (op : ChunkTape_Op Real) :
  match op with
  | LStoreCopy _ _ _ | LStorePassive _ _ _ | LInitGradientData _ _
  | LDestroyGradientData _ _ | LSetGradient _ _ | LGetGradient _
  | LRegisterOutput | LSetActive | LSetPassive => True
  | _ => False
  end ->
  hoare (Kept c d s e k) (ChunkTape_step opts op) (fun _ => Kept c d s e k).
Proof.
  destruct op; simpl; intros Hop; try contradiction;
    unfold ChunkTape.store_copy, ChunkTape.store_passive, ChunkTape.initGradientData,
      ChunkTape.destroyGradientData, ChunkTape.setGradient, ChunkTape.gradient,
      ChunkTape.getGradient, ChunkTape.readAdjoint, ChunkTape.registerOutput,
      ChunkTape.setActive, ChunkTape.setPassive;
    repeat first [ apply ChunkTape_kept_write | apply ChunkTape_kept_resize
                 | keeps_step | count_modify ].
Qed.

(** The leaves of an expression append entries to the current chunk of
    the jacobian log and touch nothing else. *)
Lemma ChunkTape_calcGradient_grows (ls : list (Leaf Real)) :
  forall (tp tp' : ChunkTape.t (Real:=Real)) (u : unit),
    forM ls (ChunkTape.pushLeaf opts) tp = Some (u, tp') ->
    ChunkVector.isSealed (ChunkVector.current (ChunkTape.data tp)) = false ->
    exists entries,
      ChunkVector.cells (ChunkVector.current (ChunkTape.data tp'))
      = ChunkVector.cells (ChunkVector.current (ChunkTape.data tp)) ++ entries
      /\ ChunkVector.records (ChunkTape.data tp')
         = ChunkVector.records (ChunkTape.data tp) ++ entries
      /\ ChunkVector.prior (ChunkTape.data tp') = ChunkVector.prior (ChunkTape.data tp)
      /\ ChunkVector.isSealed (ChunkVector.current (ChunkTape.data tp')) = false
      /\ ChunkTape.expressionCount tp' = ChunkTape.expressionCount tp
      /\ ChunkTape.statements tp' = ChunkTape.statements tp
      /\ ChunkTape.externalFunctions tp' = ChunkTape.externalFunctions tp
      /\ ChunkTape.trace tp' = ChunkTape.trace tp.
Proof.
  induction ls as [|l ls IH]; intros tp tp' u E Hopen.
  - simpl in E. injection E as _ <-. exists []. rewrite !app_nil_r. repeat split.
    exact Hopen.
  - cbn [forM] in E. bind_inv E as u1 tp1 E1.
    assert (H1 : tp1 = tp
                 \/ exists entry d,
                     ChunkVector.setDataAndMove entry (ChunkTape.data tp) = Some d
                     /\ tp1 = ChunkTape.set_data d tp).
    { destruct l as [v i|j v i]; cbn [ChunkTape.pushLeaf] in E1;
        unfold ChunkTape.pushJacobi_unary, ChunkTape.pushJacobi in E1.
      - destruct (negb (0 =? i)).
        + apply modifyOpt_inv in E1.
          destruct (ChunkVector.setDataAndMove (one, i) (ChunkTape.data tp))
            as [d|] eqn:Ed; [|discriminate].
          simpl in E1. injection E1 as <-. right. eauto.
        + apply ret_inv in E1. left. tauto.
      - destruct (negb (0 =? i)); [|apply ret_inv in E1; left; tauto].
        destruct (ENABLE_CHECK (OptIgnoreInvalidJacobies opts) (isfinite j));
          [|apply ret_inv in E1; left; tauto].
        destruct (ENABLE_CHECK (OptJacobiIsZero opts) (nonzero j));
          [|apply ret_inv in E1; left; tauto].
        apply modifyOpt_inv in E1.
        destruct (ChunkVector.setDataAndMove (j, i) (ChunkTape.data tp))
          as [d|] eqn:Ed; [|discriminate].
        simpl in E1. injection E1 as <-. right. eauto. }
    destruct H1 as [->|(entry & d & Ed & ->)].
    + apply (IH _ _ _ E Hopen).
    + destruct (setDataAndMove_inv _ _ _ Ed) as (_ & Hr & Hp & Hcells).
      destruct (setDataAndMove_open _ _ _ Ed) as [Ho _].
      destruct (IH _ _ _ E Ho) as (entries & C & R & P & O & X1 & X2 & X3 & X4).
      exists (entry :: entries). simpl in *.
      rewrite C, R, P, Hcells, Hr, Hp, <- !app_assoc. repeat split; assumption.
Qed.

(** [registerInput] keeps the layout. *)
Lemma ChunkTape_layout_registerInput (tp tp' : ChunkTape.t (Real:=Real)) (x : N) :
  ChunkTape.registerInput tp = Some (x, tp') ->
  ChunkTape_layout tp ->
  ChunkTape_layout tp'
  /\ ChunkTape.externalFunctions tp' = ChunkTape.externalFunctions tp
  /\ ChunkTape.trace tp' = ChunkTape.trace tp.
Proof.
  intros E Hlay.
  assert (Hcount' : ChunkTape_countsStatements tp').
  { destruct Hlay as (_ & _ & _ & _ & Hcount & _).
    eapply (ChunkTape_count_step opts LRegisterInput eq_refl tp tt tp' Hcount).
    simpl. unfold bind at 1. rewrite E. reflexivity. }
  destruct Hlay as (Hss & Hsd & Hwf & Hcs & Hcount & Hlay).
  unfold ChunkTape.registerInput, ChunkTape.statements_reserveItems,
    ChunkTape.statements_setDataAndMove in E.
  bind_inv E as u1 tp1 E1. apply modify_inv in E1. subst tp1.
  bind_inv E as u2 tp2 E2. apply modifyOpt_inv in E2. cbn in E2.
  destruct (ChunkVector.setDataAndMove 0 _) as [st|] eqn:Es; [|discriminate].
  simpl in E2. injection E2 as <-.
  unfold ChunkTape.incrementCount, bind, gets, modify, ret in E. injection E as _ <-.
  destruct (setDataAndMove_inv _ _ _ Es) as (_ & Hr & Hp & _).
  destruct (setDataAndMove_open _ _ _ Es) as [Ho _].
  rewrite reserveItems_records in Hr.
  split; [|split; reflexivity].
  unfold ChunkTape_layout. simpl.
  split; [exact Ho|]. split; [exact Hsd|]. split; [exact Hwf|]. split; [exact Hcs|].
  split; [exact Hcount'|].
  unfold ChunkTape_firstChunkOnly. simpl. intros [Hps' Hpd'].
  rewrite Hp in Hps'. pose proof (reserveItems_prior_nil _ _ _ Hps') as Hsame.
  rewrite Hsame in Hps'.
  destruct (Hlay (conj Hps' Hpd')) as (Hsum & Hrec).
  rewrite Hr. split.
  - rewrite sumN_app. simpl. lia.
  - rewrite <- (app_nil_r (ChunkVector.records (ChunkTape.data tp))).
    apply ChunkTape_replayable_all_grow. exact Hrec.
Qed.

(** [store] of an expression keeps the layout. *)
Lemma ChunkTape_layout_store (tp tp' : ChunkTape.t (Real:=Real)) (lhsValue : Real)
      (lhsIndex : N) (rhs : Rhs Real) (r : Real * N) :
  ChunkTape.store opts lhsValue lhsIndex rhs tp = Some (r, tp') ->
  ChunkTape_layout tp ->
  ChunkTape_layout tp'
  /\ ChunkTape.externalFunctions tp' = ChunkTape.externalFunctions tp
  /\ ChunkTape.trace tp' = ChunkTape.trace tp.
Proof.
  intros E Hlay.
  assert (Hcount' : ChunkTape_countsStatements tp').
  { destruct Hlay as (_ & _ & _ & _ & Hcount & _).
    eapply (ChunkTape_count_store opts lhsValue lhsIndex rhs tp r tp' Hcount E). }
  unfold ChunkTape.store, ChunkTape.data_reserveItems,
    ChunkTape.statements_reserveItems, ChunkTape.statements_setDataAndMove in E.
  bind_inv E as act tp0 E0. apply gets_inv in E0. destruct E0 as [-> ->].
  bind_inv E as i tp1 E1. apply ret_inv in E. destruct E as [_ ->].
  destruct (ENABLE_CHECK (OptTapeActivity opts) (ChunkTape.active tp)).
  2:{ apply ret_inv in E1. destruct E1 as [_ ->]. auto. }
  destruct Hlay as (Hss & Hsd & Hwf & Hcs & Hcount & Hlay).
  bind_inv E1 as u1 tpa Ea. apply modify_inv in Ea. subst tpa.
  bind_inv E1 as u2 tpb Eb. apply modify_inv in Eb. subst tpb.
  bind_inv E1 as startSize tpb' Ess. apply gets_inv in Ess. destruct Ess as [-> ->].
  bind_inv E1 as u3 tpc Ec.
  bind_inv E1 as endSize tpc' Ees. apply gets_inv in Ees. destruct Ees as [-> ->].
  set (d1 := ChunkVector.reserveItems (maxActiveVariables rhs)
               (ChunkTape.expressionCount tp) (ChunkTape.data tp)) in *.
  set (tpa := ChunkTape.set_data d1 tp) in *.
  set (s1 := ChunkVector.reserveItems 1 (ChunkTape.data_getPosition tpa)
               (ChunkTape.statements tpa)) in *.
  set (tpb := ChunkTape.set_statements s1 tpa) in *.
  assert (Hod1 : ChunkVector.isSealed (ChunkVector.current d1) = false)
    by (apply reserveItems_open; exact Hsd).
  assert (Hos1 : ChunkVector.isSealed (ChunkVector.current s1) = false)
    by (apply reserveItems_open; exact Hss).
  unfold ChunkTape.calcGradient in Ec.
  destruct (ChunkTape_calcGradient_grows _ _ _ _ Ec Hod1)
    as (entries & C & R & P & O & X1 & X2 & X3 & X4).
  change (ChunkTape.data tpb) with d1 in *.
  change (ChunkTape.statements tpb) with s1 in X2.
  change (ChunkTape.expressionCount tpb) with (ChunkTape.expressionCount tp) in X1.
  change (ChunkTape.externalFunctions tpb) with (ChunkTape.externalFunctions tp) in X3.
  change (ChunkTape.trace tpb) with (ChunkTape.trace tp) in X4.
  assert (Hav : size_sub (ChunkVector.getChunkPosition (ChunkTape.data tpc))
                         (ChunkVector.getChunkPosition d1)
                = N.of_nat (length entries)).
  { unfold ChunkVector.getChunkPosition, ChunkVector.used. rewrite O, Hod1, C.
    rewrite length_app. rewrite size_sub_le by lia. lia. }
  rewrite Hav in E1.
  (* what the layout of the result needs of the two logs *)
  assert (Hfinal : forall st' c',
             ChunkVector.isSealed (ChunkVector.current st') = false ->
             (exists ks, sumN ks <= N.of_nat (length entries)
                         /\ ChunkVector.records st'
                            = ChunkVector.records (ChunkTape.statements tp) ++ ks) ->
             (ChunkVector.prior st' = [] -> ChunkVector.prior s1 = []) ->
             ChunkTape_countsStatements
               (ChunkTape.set_expressionCount c' (ChunkTape.set_statements st' tpc)) ->
             ChunkTape_layout
               (ChunkTape.set_expressionCount c' (ChunkTape.set_statements st' tpc))).
  { intros st' c' Hopen (ks & Hk & Hrec') Hprior Hcnt.
    unfold ChunkTape_layout. simpl.
    split; [exact Hopen|]. split; [exact O|]. rewrite X3.
    split; [exact Hwf|]. split; [exact Hcs|]. split; [exact Hcnt|].
    unfold ChunkTape_firstChunkOnly. simpl. intros [Hps' Hpd'].
    rewrite P in Hpd'. pose proof (reserveItems_prior_nil _ _ _ Hpd') as Hsd1.
    fold d1 in Hsd1. rewrite Hsd1 in Hpd'.
    pose proof (reserveItems_prior_nil _ _ _ (Hprior Hps')) as Hss1.
    fold s1 in Hss1. pose proof (Hprior Hps') as Hps1. rewrite Hss1 in Hps1.
    destruct (Hlay (conj Hps1 Hpd')) as (Hsum & Hrec).
    rewrite Hrec', R. unfold d1. rewrite reserveItems_records. split.
    - rewrite sumN_app, length_app. lia.
    - apply ChunkTape_replayable_all_grow. exact Hrec. }
  destruct (0 =? N.of_nat (length entries)) eqn:Ez.
  - apply ret_inv in E1. destruct E1 as [_ ->].
    assert (Etp : tpc = ChunkTape.set_expressionCount (ChunkTape.expressionCount tpc)
                          (ChunkTape.set_statements (ChunkTape.statements tpc) tpc))
      by (destruct tpc; reflexivity).
    split; [|split; assumption].
    rewrite Etp. apply Hfinal.
    + rewrite X2. exact Hos1.
    + exists []. split; [simpl; lia|]. rewrite X2. unfold s1.
      rewrite reserveItems_records, app_nil_r. reflexivity.
    + rewrite X2. auto.
    + rewrite <- Etp. exact Hcount'.
  - bind_inv E1 as u4 tpd Ed. apply modifyOpt_inv in Ed. cbn in Ed.
    destruct (ChunkVector.setDataAndMove _ (ChunkTape.statements tpc)) as [st|] eqn:Es;
      [|discriminate].
    simpl in Ed. injection Ed as <-.
    unfold ChunkTape.incrementCount, bind, gets, modify, ret in E1.
    injection E1 as _ <-.
    destruct (setDataAndMove_inv _ _ _ Es) as (_ & Hr & Hp & _).
    destruct (setDataAndMove_open _ _ _ Es) as [Ho _].
    rewrite X2 in Hr, Hp. unfold s1 in Hr. rewrite reserveItems_records in Hr.
    split; [|split; assumption].
    apply (Hfinal st (ChunkTape.expressionCount tpc + 1)).
    + exact Ho.
    + exists [toStatementInt (N.of_nat (length entries))]. split; [|exact Hr].
      simpl. pose proof (toStatementInt_le (N.of_nat (length entries))). lia.
    + intros H. rewrite Hp in H. exact H.
    + exact Hcount'.
Qed.

(** [pushExternalFunctionHandle] keeps the layout: the boundary it
    records is the position of the statement log at that instant. *)
Lemma ChunkTape_layout_push (tp tp' : ChunkTape.t (Real:=Real))
      (f : ExternalFunction.t) (u : unit) :
  ChunkTape.pushExternalFunctionHandle f tp = Some (u, tp') ->
  ChunkTape_layout tp ->
  ChunkTape_layout tp'
  /\ ChunkVector.records (ChunkTape.externalFunctions tp')
     = ChunkVector.records (ChunkTape.externalFunctions tp)
       ++ [(f, ChunkTape.statements_getPosition tp)]
  /\ ChunkTape.trace tp' = ChunkTape.trace tp.
Proof.
  intros E (Hss & Hsd & Hwf & Hcs & Hcount & Hlay).
  destruct (ChunkTape_push_boundary tp f Hcs) as (tp2 & E2 & Hr & Htp & Hwf').
  rewrite E in E2. injection E2 as _ <-.
  assert (Hsize : ChunkVector.chunkSize (ChunkTape.externalFunctions tp')
                  = ChunkVector.chunkSize (ChunkTape.externalFunctions tp)).
  { unfold ChunkTape.pushExternalFunctionHandle in E.
    bind_inv E as u1 tp1 E1. apply modify_inv in E1. subst tp1.
    apply modifyOpt_inv in E. cbn in E.
    destruct (ChunkVector.setDataAndMove _ _) as [e|] eqn:Ee; [|discriminate].
    simpl in E. injection E as <-. simpl.
    destruct (setDataAndMove_open _ _ _ Ee) as [_ ->].
    apply reserveItems_chunkSize. }
  assert (Hst : ChunkTape.statements tp' = ChunkTape.statements tp)
    by (rewrite Htp; reflexivity).
  assert (Hda : ChunkTape.data tp' = ChunkTape.data tp)
    by (rewrite Htp; reflexivity).
  assert (Hec : ChunkTape.expressionCount tp' = ChunkTape.expressionCount tp)
    by (rewrite Htp; reflexivity).
  split; [|split; [exact Hr|rewrite Htp; reflexivity]].
  unfold ChunkTape_layout, ChunkTape_firstChunkOnly, ChunkTape_countsStatements.
  rewrite Hsize, Hr, Hst, Hda, Hec.
  split; [exact Hss|]. split; [exact Hsd|]. split; [apply Hwf'; exact Hwf|].
  split; [exact Hcs|]. split; [exact Hcount|].
  intros Hfirst. destruct (Hlay Hfirst) as (Hsum & Hrec).
  split; [exact Hsum|]. apply Forall_app. split; [exact Hrec|].
  constructor; [|constructor]. cbn [snd].
  destruct Hfirst as [Hps Hpd].
  destruct (records_firstChunk _ Hps) as [Rs _].
  destruct (records_firstChunk _ Hpd) as [Rd _].
  unfold ChunkTape_countsStatements in Hcount.
  unfold ChunkTape_replayable, ChunkTape.statements_getPosition,
    ChunkTape.data_getPosition, ChunkVector.getPosition, ChunkVector.curChunkIndex,
    ChunkVector.used.
  cbn [ChunkVector.chunk ChunkVector.data ChunkVector.inner].
  rewrite Hps, Hpd, Hss, Hsd, <- Rs, <- Rd. cbn [length N.of_nat].
  rewrite Nnat.Nat2N.id, firstn_all.
  repeat split; try reflexivity; lia.
Qed.

(** One operation of a session. *)
Lemma ChunkTape_session_step (op : ChunkTape_Op Real)
      (tp tp' : ChunkTape.t (Real:=Real)) (u : unit) :
  ChunkTape_sessionOp op = true ->
  ChunkTape_step opts op tp = Some (u, tp') ->
  ChunkTape_layout tp ->
  ChunkTape_layout tp'
  /\ map fst (ChunkVector.records (ChunkTape.externalFunctions tp'))
     = map fst (ChunkVector.records (ChunkTape.externalFunctions tp))
       ++ ChunkTape_pushedFunctions [op]
  /\ calls (ChunkTape.trace tp') = calls (ChunkTape.trace tp).
Proof.
  intros Hop E Hlay.
  assert (Hkept : match op with
                  | LStoreCopy _ _ _ | LStorePassive _ _ _ | LInitGradientData _ _
                  | LDestroyGradientData _ _ | LSetGradient _ _ | LGetGradient _
                  | LRegisterOutput | LSetActive | LSetPassive => True
                  | _ => False
                  end ->
                  ChunkTape_pushedFunctions [op] = [] ->
                  ChunkTape_layout tp'
                  /\ map fst (ChunkVector.records (ChunkTape.externalFunctions tp'))
                     = map fst (ChunkVector.records (ChunkTape.externalFunctions tp))
                       ++ ChunkTape_pushedFunctions [op]
                  /\ calls (ChunkTape.trace tp') = calls (ChunkTape.trace tp)).
  { intros Hk Hnil.
    destruct (ChunkTape_kept_step _ _ _ _ _ op Hk tp u tp'
                (conj eq_refl (conj eq_refl (conj eq_refl (conj eq_refl eq_refl)))) E)
      as (K1 & K2 & K3 & K4 & K5).
    split; [eapply ChunkTape_layout_same; eauto|].
    rewrite Hnil, app_nil_r, K4. auto. }
  destruct op; try discriminate Hop; try (apply Hkept; [exact I|reflexivity]).
  - (* store *)
    simpl in E. bind_inv E as r tp1 E1. apply ret_inv in E. destruct E as [_ ->].
    destruct (ChunkTape_layout_store _ _ _ _ _ _ E1 Hlay) as (L & He & Ht).
    split; [exact L|]. simpl. rewrite He, Ht, app_nil_r. auto.
  - (* pushExternalFunctionHandle *)
    simpl in E. destruct (ChunkTape_layout_push _ _ _ _ E Hlay) as (L & Hr & Ht).
    split; [exact L|]. rewrite Hr, Ht, map_app. auto.
  - (* registerInput *)
    simpl in E. bind_inv E as x tp1 E1. apply ret_inv in E. destruct E as [_ ->].
    destruct (ChunkTape_layout_registerInput _ _ _ E1 Hlay) as (L & He & Ht).
    split; [exact L|]. simpl. rewrite He, Ht, app_nil_r. auto.
Qed.

(** A whole session. *)
Lemma ChunkTape_session_run :
  forall (ops : list (ChunkTape_Op Real)) (tp0 tp : ChunkTape.t (Real:=Real)) (u : unit),
    forallb ChunkTape_sessionOp ops = true ->
    ChunkTape_run opts ops tp0 = Some (u, tp) ->
    ChunkTape_layout tp0 ->
    ChunkTape_layout tp
    /\ map fst (ChunkVector.records (ChunkTape.externalFunctions tp))
       = map fst (ChunkVector.records (ChunkTape.externalFunctions tp0))
         ++ ChunkTape_pushedFunctions ops
    /\ calls (ChunkTape.trace tp) = calls (ChunkTape.trace tp0).
Proof.
  induction ops as [|op ops IH]; intros tp0 tp u Hops E Hlay.
  - unfold ChunkTape_run in E. simpl in E. injection E as _ <-.
    simpl. rewrite app_nil_r. auto.
  - unfold ChunkTape_run in E. cbn [forM] in E. bind_inv E as u1 tp1 E1.
    cbn [forallb] in Hops. apply andb_true_iff in Hops. destruct Hops as [Hop Hops].
    destruct (ChunkTape_session_step op tp0 tp1 u1 Hop E1 Hlay) as (L1 & R1 & C1).
    destruct (IH tp1 tp u Hops E L1) as (L & R & C).
    split; [exact L|]. split; [|rewrite C; exact C1].
    rewrite R, R1. unfold ChunkTape_pushedFunctions. cbn [flat_map].
    rewrite <- app_assoc. f_equal. f_equal. simpl. rewrite app_nil_r. reflexivity.
Qed.

(** After a recording session on a new tape whose statement and jacobian
    logs are still within their first chunk and hold issued indices only,
    [evaluate()] returns and has called the registered functions, each
    once, in the reverse order of their registration. *)
Lemma ChunkTape_session_evaluates (ops : list (ChunkTape_Op Real))
      (tp : ChunkTape.t (Real:=Real)) (u : unit) :
  forallb ChunkTape_sessionOp ops = true ->
  ChunkTape_run opts ops (ChunkTape.create opts) = Some (u, tp) ->
  ChunkTape_firstChunkOnly tp ->
  ChunkTape_indicesIssued tp ->
  exists tp',
    ChunkTape.evaluate_all opts tp = Some (tt, tp')
    /\ calls (ChunkTape.trace tp') = rev (ChunkTape_pushedFunctions ops).
Proof.
  intros Hops E Hfirst Hidx.
  destruct (ChunkTape_session_run ops _ _ _ Hops E ChunkTape_layout_create)
    as (L & R & C).
  destruct (ChunkTape_evaluate_all_defined opts tp L Hfirst Hidx) as (tp' & Ev & Hc).
  exists tp'. split; [exact Ev|]. rewrite Hc, C, R. reflexivity.
Qed.

End LinearSession.

(** ** The reverse pass of the reuse-index tape returns *)

Lemma sumN_map_firstn_succ {B : Type} (l : list (N * B)) (n : nat) (s : N * B) :
  nth_error l n = Some s ->
  sumN (map fst (firstn (S n) l)) = sumN (map fst (firstn n l)) + fst s.
Proof.
  intros H. rewrite (firstn_succ_nth _ _ _ H), map_app, sumN_app. simpl. lia.
Qed.

Section ReuseReturns.
Context {Real : Type} {RO : RealOps Real}.
Variable opts : Options.

(** The calls of the trace are kept by everything but a call. *)
Lemma ChunkIndexReuseTape_calls_evaluateStmt (c : list ExternalFunction.t)
      (start end_ : ChunkIndexReuseTape.StatementPosition) :
  hoare (fun t : ChunkIndexReuseTape.t (Real:=Real) =>
           calls (ChunkIndexReuseTape.trace t) = c)
        (ChunkIndexReuseTape.evaluateStmt opts start end_)
        (fun _ t => calls (ChunkIndexReuseTape.trace t) = c).
Proof.
  apply ChunkIndexReuseTape_pass_evaluateStmt.
  intros i v t u t' H E. apply ChunkIndexReuseTape_writeAdjoint_inv in E.
  destruct E as (a & _ & ->). simpl. rewrite calls_app. simpl.
  rewrite app_nil_r. exact H.
Qed.

(** The segments of the reverse pass call the functions of the records in
    turn. *)
Lemma ChunkIndexReuseTape_evaluateSegments_calls
      (records : list (ExternalFunction.t * ChunkIndexReuseTape.StatementPosition))
      (end_ : ChunkIndexReuseTape.StatementPosition) :
  forall (frontier : ChunkIndexReuseTape.StatementPosition)
         (tp tp' : ChunkIndexReuseTape.t (Real:=Real)) (u : unit),
    ChunkIndexReuseTape_evaluateSegments opts frontier records end_ tp = Some (u, tp') ->
    calls (ChunkIndexReuseTape.trace tp')
    = calls (ChunkIndexReuseTape.trace tp) ++ map fst records.
Proof.
  induction records as [|[f boundary] rest IH]; intros frontier tp tp' u E.
  - cbn [ChunkIndexReuseTape_evaluateSegments] in E. simpl. rewrite app_nil_r.
    eapply (ChunkIndexReuseTape_calls_evaluateStmt
              (calls (ChunkIndexReuseTape.trace tp))); [|exact E].
    reflexivity.
  - cbn [ChunkIndexReuseTape_evaluateSegments] in E.
    bind_inv E as u1 tp1 E1. bind_inv E as u2 tp2 E2.
    apply IH in E. rewrite E.
    unfold ChunkIndexReuseTape.extFunc_evaluate, modify in E2. injection E2 as _ <-.
    simpl. rewrite calls_app. simpl.
    rewrite (ChunkIndexReuseTape_calls_evaluateStmt
               (calls (ChunkIndexReuseTape.trace tp)) _ _ _ _ _ eq_refl E1).
    rewrite <- app_assoc. reflexivity.
Qed.

(** A tape that is ready for the replay stays so through the pass. *)
Lemma ChunkIndexReuseTape_ready_evaluateStmt
      (start end_ : ChunkIndexReuseTape.StatementPosition) :
  hoare (ChunkIndexReuseTape_readyToReplay (Real:=Real))
        (ChunkIndexReuseTape.evaluateStmt opts start end_)
        (fun _ => ChunkIndexReuseTape_readyToReplay (Real:=Real)).
Proof.
  apply ChunkIndexReuseTape_pass_evaluateStmt.
  intros i v t u t' H E. apply ChunkIndexReuseTape_writeAdjoint_inv in E.
  destruct E as (a & Eu & ->).
  unfold ChunkIndexReuseTape_readyToReplay, ChunkIndexReuseTape_firstChunkOnly,
    ChunkIndexReuseTape.adjointsSize in *.
  simpl. rewrite (updateN_length _ _ _ _ Eu). exact H.
Qed.

(** The loop over the arguments of a statement returns when the entries
    are there and their indices are inside the adjoint vector. *)
Lemma ChunkIndexReuseTape_accumulateLoop_defined (adj : Real) (dc : list (Real * N)) :
  forall (n : nat) (dataPos : N) (tp : ChunkIndexReuseTape.t (Real:=Real)),
    N.of_nat n <= dataPos ->
    dataPos <= N.of_nat (length dc) ->
    Forall (fun entry => snd entry < ChunkIndexReuseTape.adjointsSize tp) dc ->
    exists tp',
      ChunkIndexReuseTape.accumulateLoop n adj dc dataPos tp
      = Some (dataPos - N.of_nat n, tp')
      /\ ChunkIndexReuseTape.adjointsSize tp' = ChunkIndexReuseTape.adjointsSize tp.
Proof.
  induction n as [|n IH]; intros dataPos tp Hn Hd Hidx.
  - exists tp. simpl. unfold ret. rewrite N.sub_0_r. auto.
  - destruct (lookupN_defined dc (dataPos - 1)) as [cell Ecell]; [lia|].
    assert (Hcell : snd cell < ChunkIndexReuseTape.adjointsSize tp).
    { rewrite Forall_forall in Hidx. apply Hidx. eapply lookupN_In; eauto. }
    destruct (lookupN_defined (ChunkIndexReuseTape.adjoints tp) (snd cell))
      as [old Eold]; [exact Hcell|].
    set (tp1 := ChunkIndexReuseTape.emit
                  [AdjointWrite (snd cell) (add old (mul adj (fst cell)))]
                  (ChunkIndexReuseTape.set_adjoints
                     (replaceNth (ChunkIndexReuseTape.adjoints tp) (N.to_nat (snd cell))
                                 (add old (mul adj (fst cell)))) tp)).
    assert (Hsize : ChunkIndexReuseTape.adjointsSize tp1
                    = ChunkIndexReuseTape.adjointsSize tp).
    { unfold tp1, ChunkIndexReuseTape.adjointsSize. simpl. rewrite replaceNth_length.
      reflexivity. }
    destruct (IH (dataPos - 1) tp1) as (tp' & Erun & Hs);
      [lia|lia|rewrite Hsize; exact Hidx|].
    exists tp'. split; [|rewrite Hs; exact Hsize].
    cbn [ChunkIndexReuseTape.accumulateLoop]. unfold ChunkIndexReuseTape.accumulate.
    rewrite size_dec_pred by lia.
    unfold bind at 1. unfold bind at 1. unfold getsOpt at 1. rewrite Ecell.
    unfold bind at 1. rewrite (ChunkIndexReuseTape_readAdjoint_run _ _ _ Eold).
    unfold bind at 1. rewrite (ChunkIndexReuseTape_writeAdjoint_run _ _ _ _ Eold).
    unfold ret at 1. fold tp1. rewrite Erun. f_equal. f_equal. lia.
Qed.

(** The statements of a segment return when the statement log has them,
    the jacobian entries cover their argument counts, and the indices
    are inside the adjoint vector. *)
Lemma ChunkIndexReuseTape_evaluateStatements_defined
      (sd : list (N * N)) (dc : list (Real * N)) :
  forall (n : nat) (stmtPos dataPos : N) (tp : ChunkIndexReuseTape.t (Real:=Real)),
    N.of_nat n <= stmtPos ->
    stmtPos <= N.of_nat (length sd) ->
    sumN (map fst (firstn (N.to_nat stmtPos) sd)) <= dataPos ->
    dataPos <= N.of_nat (length dc) ->
    Forall (fun entry => snd entry < ChunkIndexReuseTape.adjointsSize tp) dc ->
    Forall (fun statement => snd statement < ChunkIndexReuseTape.adjointsSize tp) sd ->
    exists cursors tp',
      ChunkIndexReuseTape.evaluateStatements opts n sd dc (stmtPos, dataPos) tp
      = Some (cursors, tp').
Proof.
  induction n as [|n IH]; intros stmtPos dataPos tp Hn Hs Hsum Hd Hidx Hlhs.
  - simpl. unfold ret. eauto.
  - destruct (lookupN_defined sd (stmtPos - 1)) as [[k lhs] Ek]; [lia|].
    assert (Hl : lhs < ChunkIndexReuseTape.adjointsSize tp).
    { rewrite Forall_forall in Hlhs.
      apply (Hlhs (k, lhs)). eapply lookupN_In; eauto. }
    destruct (lookupN_defined (ChunkIndexReuseTape.adjoints tp) lhs) as [adj Eadj];
      [exact Hl|].
    assert (Hk : sumN (map fst (firstn (N.to_nat (stmtPos - 1)) sd)) + k <= dataPos).
    { apply lookupN_Some in Ek.
      pose proof (sumN_map_firstn_succ _ _ _ Ek) as Hx. cbn [fst] in Hx.
      rewrite <- Hx.
      replace (S (N.to_nat (stmtPos - 1))) with (N.to_nat stmtPos) by lia.
      exact Hsum. }
    set (tp0 := ChunkIndexReuseTape.emit [AdjointWrite lhs zero]
                  (ChunkIndexReuseTape.set_adjoints
                     (replaceNth (ChunkIndexReuseTape.adjoints tp) (N.to_nat lhs) zero)
                     tp)).
    assert (Hs0 : ChunkIndexReuseTape.adjointsSize tp0
                  = ChunkIndexReuseTape.adjointsSize tp).
    { unfold tp0, ChunkIndexReuseTape.adjointsSize. simpl. rewrite replaceNth_length.
      reflexivity. }
    assert (Hstep : exists tp1,
               ChunkIndexReuseTape.evaluateStatement opts sd dc (stmtPos, dataPos) tp
               = Some ((stmtPos - 1, dataPos - k), tp1)
               /\ ChunkIndexReuseTape.adjointsSize tp1
                  = ChunkIndexReuseTape.adjointsSize tp).
    { unfold ChunkIndexReuseTape.evaluateStatement.
      rewrite !size_dec_pred by lia.
      unfold bind at 1. unfold getsOpt at 1. rewrite Ek. cbn [fst snd].
      unfold bind at 1. rewrite (ChunkIndexReuseTape_readAdjoint_run _ _ _ Eadj).
      unfold bind at 1. rewrite (ChunkIndexReuseTape_writeAdjoint_run _ _ _ _ Eadj).
      fold tp0. unfold bind at 1.
      destruct (ENABLE_CHECK (OptZeroAdjoint opts) (nonzero adj)).
      - destruct (ChunkIndexReuseTape_accumulateLoop_defined adj dc (N.to_nat k)
                    dataPos tp0) as (tp1 & Erun & Hs1);
          [lia|exact Hd|rewrite Hs0; exact Hidx|].
        rewrite Erun. rewrite N2Nat.id. exists tp1.
        split; [reflexivity|rewrite Hs1; exact Hs0].
      - unfold ret. rewrite size_sub_le by lia. exists tp0.
        split; [reflexivity|exact Hs0]. }
    destruct Hstep as (tp1 & Estep & Hs1).
    destruct (IH (stmtPos - 1) (dataPos - k) tp1) as (c & tp' & Erun).
    + lia.
    + lia.
    + lia.
    + lia.
    + rewrite Hs1. exact Hidx.
    + rewrite Hs1. exact Hlhs.
    + exists c, tp'. cbn [ChunkIndexReuseTape.evaluateStatements]. unfold bind.
      rewrite Estep. exact Erun.
Qed.

(** [evaluateStmt] between two positions of the first chunks returns. *)
Lemma ChunkIndexReuseTape_evaluateStmt_defined (tp : ChunkIndexReuseTape.t (Real:=Real))
      (start end_ : ChunkIndexReuseTape.StatementPosition) :
  ChunkIndexReuseTape_readyToReplay tp ->
  ChunkIndexReuseTape_replayable
    (ChunkVector.records (ChunkIndexReuseTape.statements tp))
    (ChunkVector.records (ChunkIndexReuseTape.data tp)) start ->
  ChunkVector.chunk end_ = 0 ->
  ChunkVector.chunk (ChunkVector.inner end_) = 0 ->
  exists tp', ChunkIndexReuseTape.evaluateStmt opts start end_ tp = Some (tt, tp').
Proof.
  intros ((Hps & Hpd) & Hidx & Hlhs) (Hc & Hci & Hs & Hsum & Hd) He Hei.
  destruct (records_firstChunk _ Hps) as [Rs Gs].
  destruct (records_firstChunk _ Hpd) as [Rd Gd].
  unfold ChunkIndexReuseTape.evaluateStmt. rewrite Hc, He. cbn [N.sub N.to_nat].
  cbn [ChunkIndexReuseTape.evaluateStmtChunks]. unfold bind at 1. unfold ret at 1.
  unfold bind at 1. unfold getsOpt at 1. rewrite Gs.
  unfold ChunkIndexReuseTape.evaluateData. rewrite Hci, Hei. cbn [N.sub N.to_nat].
  cbn [ChunkIndexReuseTape.evaluateDataChunks].
  unfold bind at 1. unfold bind at 1. unfold ret at 1.
  unfold bind at 1. unfold getsOpt at 1. rewrite Gd.
  unfold ChunkIndexReuseTape.evaluateExpressions.
  destruct (ChunkIndexReuseTape_evaluateStatements_defined
              (ChunkVector.cells (ChunkVector.current (ChunkIndexReuseTape.statements tp)))
              (ChunkVector.cells (ChunkVector.current (ChunkIndexReuseTape.data tp)))
              (N.to_nat (ChunkVector.data start - ChunkVector.data end_))
              (ChunkVector.data start)
              (ChunkVector.data (ChunkVector.inner start)) tp)
    as ([s d] & tp' & Erun).
  - lia.
  - rewrite <- Rs. exact Hs.
  - rewrite <- Rs. exact Hsum.
  - rewrite <- Rd. exact Hd.
  - rewrite <- Rd. exact Hidx.
  - rewrite <- Rs. exact Hlhs.
  - exists tp'. unfold bind. rewrite Erun. reflexivity.
Qed.

(** The segments of the reverse pass return. *)
Lemma ChunkIndexReuseTape_evaluateSegments_defined
      (records : list (ExternalFunction.t * ChunkIndexReuseTape.StatementPosition))
      (end_ : ChunkIndexReuseTape.StatementPosition) :
  ChunkVector.chunk end_ = 0 ->
  ChunkVector.chunk (ChunkVector.inner end_) = 0 ->
  forall (frontier : ChunkIndexReuseTape.StatementPosition)
         (tp : ChunkIndexReuseTape.t (Real:=Real)),
    ChunkIndexReuseTape_readyToReplay tp ->
    ChunkIndexReuseTape_replayable
      (ChunkVector.records (ChunkIndexReuseTape.statements tp))
      (ChunkVector.records (ChunkIndexReuseTape.data tp)) frontier ->
    Forall (fun r => ChunkIndexReuseTape_replayable
                       (ChunkVector.records (ChunkIndexReuseTape.statements tp))
                       (ChunkVector.records (ChunkIndexReuseTape.data tp))
                       (snd r)) records ->
    exists tp',
      ChunkIndexReuseTape_evaluateSegments opts frontier records end_ tp
      = Some (tt, tp').
Proof.
  intros He Hei.
  induction records as [|[f boundary] rest IH]; intros frontier tp Hready Hf Hr.
  - cbn [ChunkIndexReuseTape_evaluateSegments].
    apply ChunkIndexReuseTape_evaluateStmt_defined; assumption.
  - cbn [ChunkIndexReuseTape_evaluateSegments].
    inversion Hr as [|? ? Hb Hrest]; subst. cbn [snd] in Hb.
    assert (Hbe : ChunkVector.chunk boundary = 0
                  /\ ChunkVector.chunk (ChunkVector.inner boundary) = 0).
    { destruct Hb as (H1 & H2 & _). auto. }
    destruct (ChunkIndexReuseTape_evaluateStmt_defined tp frontier boundary Hready Hf)
      as (tp1 & E1); [tauto|tauto|].
    pose proof (ChunkIndexReuseTape_ready_evaluateStmt _ _ _ _ _ Hready E1) as Hready1.
    assert (Hsame : ChunkIndexReuseTape_sameRecording tp tp1).
    { eapply (ChunkIndexReuseTape_pass_evaluateStmt opts
                (ChunkIndexReuseTape_sameRecording tp)); [| |exact E1].
      - intros i v t u t' H E. apply ChunkIndexReuseTape_writeAdjoint_inv in E.
        destruct E as (a & _ & ->). exact H.
      - repeat split. }
    destruct Hsame as (S1 & S2 & S3 & S4 & S5).
    set (tp2 := ChunkIndexReuseTape.emit [ExtFuncEvaluate f] tp1).
    destruct (IH boundary tp2) as (tp' & E').
    + exact Hready1.
    + simpl. rewrite S2, S3. exact Hb.
    + simpl. rewrite S2, S3. exact Hrest.
    + exists tp'. unfold bind. rewrite E1.
      unfold ChunkIndexReuseTape.extFunc_evaluate, modify. fold tp2. exact E'.
Qed.

(** [evaluate()] on a tape laid out by a recording session returns, and
    calls the functions of all records, newest first. *)
Lemma ChunkIndexReuseTape_evaluate_all_defined
      (tp : ChunkIndexReuseTape.t (Real:=Real)) :
  ChunkIndexReuseTape_layout tp ->
  ChunkIndexReuseTape_firstChunkOnly tp ->
  ChunkIndexReuseTape_indicesIssued tp ->
  exists tp',
    ChunkIndexReuseTape.evaluate_all opts tp = Some (tt, tp')
    /\ calls (ChunkIndexReuseTape.trace tp')
       = calls (ChunkIndexReuseTape.trace tp)
         ++ rev (map fst (ChunkVector.records (ChunkIndexReuseTape.externalFunctions tp))).
Proof.
  intros (Hss & Hsd & Hwf & Hcs & Hlay) Hfirst (Hidx & Hlhs).
  destruct (Hlay Hfirst) as (Hsum & Hrec).
  pose proof Hfirst as (Hps & Hpd).
  destruct (records_firstChunk _ Hps) as [Rs _].
  destruct (records_firstChunk _ Hpd) as [Rd _].
  destruct (ChunkIndexReuseTape_growAdjoints_run tp) as (tp1 & Eg & Hext).
  assert (Hg : ChunkIndexReuseTape_sameRecording tp tp1
               /\ IndexHandler.getMaximumGlobalIndex (ChunkIndexReuseTape.indexHandler tp)
                  < ChunkIndexReuseTape.adjointsSize tp1
               /\ calls (ChunkIndexReuseTape.trace tp1)
                  = calls (ChunkIndexReuseTape.trace tp)).
  { unfold ChunkIndexReuseTape_growAdjoints, bind, gets in Eg.
    destruct (N.leb_spec (ChunkIndexReuseTape.adjointsSize tp)
                (IndexHandler.getMaximumGlobalIndex
                   (ChunkIndexReuseTape.indexHandler tp))).
    - unfold ChunkIndexReuseTape.resizeAdjoints, modify in Eg. injection Eg as <-.
      split; [repeat split|]. split.
      + unfold ChunkIndexReuseTape.adjointsSize. simpl.
        rewrite length_app, length_firstn, repeat_length.
        unfold ChunkIndexReuseTape.adjointsSize in *. lia.
      + simpl. rewrite calls_app, calls_writes, app_nil_r. reflexivity.
    - unfold ret in Eg. injection Eg as <-. split; [repeat split|]. split; [lia|].
      reflexivity. }
  destruct Hg as ((S1 & S2 & S3 & S4 & S5) & Hsize & Hcalls).
  assert (Hready : ChunkIndexReuseTape_readyToReplay tp1).
  { split; [split; [rewrite S3; exact Hps|rewrite S2; exact Hpd]|].
    split.
    - rewrite S2. eapply Forall_impl; [|exact Hidx].
      intros e He. cbv beta in He. lia.
    - rewrite S3. eapply Forall_impl; [|exact Hlhs].
      intros e He. cbv beta in He. lia. }
  destruct (recordsBetween_head (ChunkIndexReuseTape.externalFunctions tp)
              (ChunkIndexReuseTape.statements_getPosition tp)
              ChunkIndexReuseTape.initialStatementPosition
              Hwf) as (l & El & Hl).
  assert (Hfrontier : ChunkIndexReuseTape_replayable
                        (ChunkVector.records (ChunkIndexReuseTape.statements tp1))
                        (ChunkVector.records (ChunkIndexReuseTape.data tp1))
                        (ChunkIndexReuseTape.statements_getPosition tp)).
  { rewrite S2, S3.
    unfold ChunkIndexReuseTape_replayable, ChunkIndexReuseTape.statements_getPosition,
      ChunkIndexReuseTape.data_getPosition, ChunkVector.getPosition,
      ChunkVector.curChunkIndex, ChunkVector.used.
    cbn [ChunkVector.chunk ChunkVector.data ChunkVector.inner].
    rewrite Hps, Hpd, Hss, Hsd, <- Rs, <- Rd. cbn [length N.of_nat].
    rewrite Nnat.Nat2N.id, firstn_all.
    repeat split; try reflexivity; lia. }
  destruct (ChunkIndexReuseTape_evaluateSegments_defined (map snd l)
              ChunkIndexReuseTape.initialStatementPosition eq_refl eq_refl
              (ChunkIndexReuseTape.statements_getPosition tp) tp1 Hready)
    as (tp' & E').
  - exact Hfrontier.
  - rewrite S2, S3, Hl. apply Forall_rev. exact Hrec.
  - exists tp'. split.
    + unfold ChunkIndexReuseTape.evaluate_all. unfold bind at 1. unfold gets at 1.
      rewrite (ChunkIndexReuseTape_evaluate_segments opts _ _ tp l El).
      unfold bind at 1. rewrite Eg. exact E'.
    + rewrite (ChunkIndexReuseTape_evaluateSegments_calls _ _ _ _ _ _ E'), Hcalls, Hl,
        map_rev.
      reflexivity.
Qed.

End ReuseReturns.

(** ** What a recording session keeps, on the reuse-index tape *)

Lemma reserveItems_first {A I : Type} (k : N) (ip : I) (cv : ChunkVector.t A I) :
  ChunkVector.prior (ChunkVector.reserveItems k ip cv) = [] -> ChunkVector.prior cv = [].
Proof.
  intros H. pose proof (reserveItems_prior_nil _ _ _ H) as E. rewrite E in H. exact H.
Qed.

Section ReuseReplayable.
Context {Real : Type}.

(** A position taken in the logs stays one when the logs grow. *)
Lemma ChunkIndexReuseTape_replayable_grows (sd sd' : list (N * N))
      (dc dc' : list (Real * N)) (p : ChunkIndexReuseTape.StatementPosition) :
  ChunkIndexReuseTape_replayable sd dc p ->
  ChunkIndexReuseTape_replayable (sd ++ sd') (dc ++ dc') p.
Proof.
  intros (H1 & H2 & H4 & H5 & H6). unfold ChunkIndexReuseTape_replayable.
  rewrite !length_app, firstn_app.
  replace (N.to_nat (ChunkVector.data p) - length sd)%nat with 0%nat by lia.
  simpl. rewrite app_nil_r. repeat split; try assumption; lia.
Qed.

Lemma ChunkIndexReuseTape_replayable_all_grow (sd sd' : list (N * N))
      (dc dc' : list (Real * N))
      (l : list (ExternalFunction.t * ChunkIndexReuseTape.StatementPosition)) :
  Forall (fun r => ChunkIndexReuseTape_replayable sd dc (snd r)) l ->
  Forall (fun r => ChunkIndexReuseTape_replayable (sd ++ sd') (dc ++ dc') (snd r)) l.
Proof.
  intros H. eapply Forall_impl; [|exact H].
  intros r Hr. apply ChunkIndexReuseTape_replayable_grows. exact Hr.
Qed.

End ReuseReplayable.

Section ReuseSession.
Context {Real : Type} {RO : RealOps Real}.
Variable opts : Options.
Variable emptyPositionIndex : ChunkIndexReuseTape.EmptyPosition -> N.

(** The layout is a matter of the three logs. *)
Lemma ChunkIndexReuseTape_layout_same (tp tp' : ChunkIndexReuseTape.t (Real:=Real)) :
  ChunkIndexReuseTape.data tp' = ChunkIndexReuseTape.data tp ->
  ChunkIndexReuseTape.statements tp' = ChunkIndexReuseTape.statements tp ->
  ChunkIndexReuseTape.externalFunctions tp' = ChunkIndexReuseTape.externalFunctions tp ->
  ChunkIndexReuseTape_layout tp -> ChunkIndexReuseTape_layout tp'.
Proof.
  intros Hd Hs He.
  unfold ChunkIndexReuseTape_layout, ChunkIndexReuseTape_firstChunkOnly.
  rewrite Hd, Hs, He. auto.
Qed.

Lemma ChunkIndexReuseTape_layout_create :
  ChunkIndexReuseTape_layout (ChunkIndexReuseTape.create (Real:=Real) opts).
Proof.
  unfold ChunkIndexReuseTape_layout. simpl.
  split; [reflexivity|]. split; [reflexivity|].
  split; [apply create_wellFormed|]. split; [lia|].
  intros _. split; [simpl; lia|constructor].
Qed.

(** What the operations that record nothing keep: the logs and the calls
    of the trace. *)
Local Abbreviation KeptR d s e k :=
  (fun t : ChunkIndexReuseTape.t (Real:=Real) =>
     ChunkIndexReuseTape.data t = d
     /\ ChunkIndexReuseTape.statements t = s
     /\ ChunkIndexReuseTape.externalFunctions t = e
     /\ calls (ChunkIndexReuseTape.trace t) = k).

Lemma ChunkIndexReuseTape_kept_write d s e k (i : N) (v : Real) :
  hoare (KeptR d s e k) (ChunkIndexReuseTape.writeAdjoint i v) (fun _ => KeptR d s e k).
Proof.
  intros t u t' H E. apply ChunkIndexReuseTape_writeAdjoint_inv in E.
  destruct E as (a & _ & ->). simpl. rewrite calls_app. simpl.
  rewrite app_nil_r. exact H.
Qed.

Lemma ChunkIndexReuseTape_kept_resize d s e k (size : N) :
  hoare (KeptR d s e k) (ChunkIndexReuseTape.resizeAdjoints size)
        (fun _ => KeptR d s e k).
Proof.
  unfold ChunkIndexReuseTape.resizeAdjoints. apply keeps_modify. intros t H. simpl.
  rewrite calls_app, calls_writes, app_nil_r. exact H.
Qed.

Lemma ChunkIndexReuseTape_index_inv (f : N -> IndexHandler.t -> N * IndexHandler.t)
      (index index' : N) (tp tp' : ChunkIndexReuseTape.t (Real:=Real)) :
  (let '(i, h) := f index (ChunkIndexReuseTape.indexHandler tp) in
   Some (i, ChunkIndexReuseTape.set_indexHandler h tp)) = Some (index', tp') ->
  exists h, tp' = ChunkIndexReuseTape.set_indexHandler h tp.
Proof.
  destruct (f index (ChunkIndexReuseTape.indexHandler tp)) as [i h].
  intros E. injection E as _ <-. eauto.
Qed.

Lemma ChunkIndexReuseTape_kept_checkIndex d s e k (index : N) :
  hoare (KeptR d s e k) (ChunkIndexReuseTape.checkIndex index) (fun _ => KeptR d s e k).
Proof.
  intros t i t' H E.
  apply (ChunkIndexReuseTape_index_inv IndexHandler.checkIndex) in E.
  destruct E as (h & ->). exact H.
Qed.

Lemma ChunkIndexReuseTape_kept_freeIndex d s e k (index : N) :
  hoare (KeptR d s e k) (ChunkIndexReuseTape.freeIndex index) (fun _ => KeptR d s e k).
Proof.
  intros t i t' H E.
  apply (ChunkIndexReuseTape_index_inv IndexHandler.freeIndex) in E.
  destruct E as (h & ->). exact H.
Qed.

Lemma ChunkIndexReuseTape_kept_step d s e k (op : ChunkIndexReuseTape_Op Real) :
  match op with
  | RStorePassive _ _ _ | RInitGradientData _ _ | RDestroyGradientData _ _
  | RSetGradient _ _ | RGetGradient _ | RGetAdjointsSize | RRegisterInput _
  | RRegisterOutput | RSetActive | RSetPassive => True
  | _ => False
  end ->
  hoare (KeptR d s e k) (ChunkIndexReuseTape_step opts emptyPositionIndex op)
        (fun _ => KeptR d s e k).
Proof.
  destruct op; simpl; intros Hop; try contradiction;
    unfold ChunkIndexReuseTape.store_passive, ChunkIndexReuseTape.initGradientData,
      ChunkIndexReuseTape.destroyGradientData, ChunkIndexReuseTape.setGradient,
      ChunkIndexReuseTape.gradient, ChunkIndexReuseTape.getGradient,
      ChunkIndexReuseTape.readAdjoint, ChunkIndexReuseTape.getAdjointsSize,
      ChunkIndexReuseTape.registerInput, ChunkIndexReuseTape.registerOutput,
      ChunkIndexReuseTape.setActive, ChunkIndexReuseTape.setPassive;
    repeat first [ apply ChunkIndexReuseTape_kept_write
                 | apply ChunkIndexReuseTape_kept_resize
                 | apply ChunkIndexReuseTape_kept_checkIndex
                 | apply ChunkIndexReuseTape_kept_freeIndex
                 | keeps_step | count_modify ].
Qed.

(** The leaves of an expression append entries to the current chunk of
    the jacobian log and touch nothing else. *)
Lemma ChunkIndexReuseTape_calcGradient_grows (ls : list (Leaf Real)) :
  forall (tp tp' : ChunkIndexReuseTape.t (Real:=Real)) (u : unit),
    forM ls (ChunkIndexReuseTape.pushLeaf opts) tp = Some (u, tp') ->
    ChunkVector.isSealed (ChunkVector.current (ChunkIndexReuseTape.data tp)) = false ->
    exists entries,
      ChunkVector.cells (ChunkVector.current (ChunkIndexReuseTape.data tp'))
      = ChunkVector.cells (ChunkVector.current (ChunkIndexReuseTape.data tp)) ++ entries
      /\ ChunkVector.records (ChunkIndexReuseTape.data tp')
         = ChunkVector.records (ChunkIndexReuseTape.data tp) ++ entries
      /\ ChunkVector.prior (ChunkIndexReuseTape.data tp')
         = ChunkVector.prior (ChunkIndexReuseTape.data tp)
      /\ ChunkVector.isSealed (ChunkVector.current (ChunkIndexReuseTape.data tp')) = false
      /\ ChunkIndexReuseTape.statements tp' = ChunkIndexReuseTape.statements tp
      /\ ChunkIndexReuseTape.externalFunctions tp'
         = ChunkIndexReuseTape.externalFunctions tp
      /\ ChunkIndexReuseTape.trace tp' = ChunkIndexReuseTape.trace tp.
Proof.
  induction ls as [|l ls IH]; intros tp tp' u E Hopen.
  - simpl in E. injection E as _ <-. exists []. rewrite !app_nil_r. repeat split.
    exact Hopen.
  - cbn [forM] in E. bind_inv E as u1 tp1 E1.
    assert (H1 : tp1 = tp
                 \/ exists entry d,
                     ChunkVector.setDataAndMove entry (ChunkIndexReuseTape.data tp)
                     = Some d
                     /\ tp1 = ChunkIndexReuseTape.set_data d tp).
    { destruct l as [v i|j v i]; cbn [ChunkIndexReuseTape.pushLeaf] in E1;
        unfold ChunkIndexReuseTape.pushJacobi_unary, ChunkIndexReuseTape.pushJacobi
          in E1.
      - destruct (negb (0 =? i)).
        + apply modifyOpt_inv in E1.
          destruct (ChunkVector.setDataAndMove (one, i) (ChunkIndexReuseTape.data tp))
            as [d|] eqn:Ed; [|discriminate].
          simpl in E1. injection E1 as <-. right. eauto.
        + apply ret_inv in E1. left. tauto.
      - destruct (negb (0 =? i)); [|apply ret_inv in E1; left; tauto].
        destruct (ENABLE_CHECK (OptIgnoreInvalidJacobies opts) (isfinite j));
          [|apply ret_inv in E1; left; tauto].
        destruct (ENABLE_CHECK (OptJacobiIsZero opts) (nonzero j));
          [|apply ret_inv in E1; left; tauto].
        apply modifyOpt_inv in E1.
        destruct (ChunkVector.setDataAndMove (j, i) (ChunkIndexReuseTape.data tp))
          as [d|] eqn:Ed; [|discriminate].
        simpl in E1. injection E1 as <-. right. eauto. }
    destruct H1 as [->|(entry & d & Ed & ->)].
    + apply (IH _ _ _ E Hopen).
    + destruct (setDataAndMove_inv _ _ _ Ed) as (_ & Hr & Hp & Hcells).
      destruct (setDataAndMove_open _ _ _ Ed) as [Ho _].
      destruct (IH _ _ _ E Ho) as (entries & C & R & P & O & X2 & X3 & X4).
      exists (entry :: entries). simpl in *.
      rewrite C, R, P, Hcells, Hr, Hp, <- !app_assoc. repeat split; assumption.
Qed.

(** The layout after the two logs have grown by [entries] and by
    statements whose argument counts these cover. *)
Lemma ChunkIndexReuseTape_layout_grown (tp tp' : ChunkIndexReuseTape.t (Real:=Real))
      (entries : list (Real * N)) (ks : list (N * N)) :
  ChunkIndexReuseTape_layout tp ->
  ChunkVector.isSealed (ChunkVector.current (ChunkIndexReuseTape.statements tp')) = false ->
  ChunkVector.isSealed (ChunkVector.current (ChunkIndexReuseTape.data tp')) = false ->
  ChunkIndexReuseTape.externalFunctions tp' = ChunkIndexReuseTape.externalFunctions tp ->
  ChunkVector.records (ChunkIndexReuseTape.statements tp')
  = ChunkVector.records (ChunkIndexReuseTape.statements tp) ++ ks ->
  ChunkVector.records (ChunkIndexReuseTape.data tp')
  = ChunkVector.records (ChunkIndexReuseTape.data tp) ++ entries ->
  sumN (map fst ks) <= N.of_nat (length entries) ->
  (ChunkIndexReuseTape_firstChunkOnly tp' -> ChunkIndexReuseTape_firstChunkOnly tp) ->
  ChunkIndexReuseTape_layout tp'.
Proof.
  intros (Hss & Hsd & Hwf & Hcs & Hlay) Hos Hod He Hrs Hrd Hk Hfirst.
  unfold ChunkIndexReuseTape_layout. rewrite He, Hrs, Hrd.
  split; [exact Hos|]. split; [exact Hod|]. split; [exact Hwf|]. split; [exact Hcs|].
  intros Hf. destruct (Hlay (Hfirst Hf)) as (Hsum & Hrec). split.
  - rewrite map_app, sumN_app, length_app. lia.
  - apply ChunkIndexReuseTape_replayable_all_grow. exact Hrec.
Qed.

(** [store] of an expression keeps the layout. *)
Lemma ChunkIndexReuseTape_layout_store (tp tp' : ChunkIndexReuseTape.t (Real:=Real))
      (lhsValue : Real) (lhsIndex : N) (rhs : Rhs Real) (r : Real * N) :
  ChunkIndexReuseTape.store opts lhsValue lhsIndex rhs tp = Some (r, tp') ->
  ChunkIndexReuseTape_layout tp ->
  ChunkIndexReuseTape_layout tp'
  /\ ChunkIndexReuseTape.externalFunctions tp' = ChunkIndexReuseTape.externalFunctions tp
  /\ ChunkIndexReuseTape.trace tp' = ChunkIndexReuseTape.trace tp.
Proof.
  intros E Hlay.
  unfold ChunkIndexReuseTape.store, ChunkIndexReuseTape.data_reserveItems,
    ChunkIndexReuseTape.statements_reserveItems,
    ChunkIndexReuseTape.statements_setDataAndMove in E.
  bind_inv E as act tp0 E0. apply gets_inv in E0. destruct E0 as [-> ->].
  bind_inv E as i tp1 E1. apply ret_inv in E. destruct E as [_ ->].
  destruct (ENABLE_CHECK (OptTapeActivity opts) (ChunkIndexReuseTape.active tp)).
  2:{ apply (ChunkIndexReuseTape_index_inv IndexHandler.freeIndex) in E1.
      destruct E1 as (h & ->). split; [|split; reflexivity].
      eapply ChunkIndexReuseTape_layout_same; [| | |exact Hlay]; reflexivity. }
  pose proof Hlay as (Hss & Hsd & Hwf & Hcs & _).
  bind_inv E1 as u1 tpa Ea. apply modify_inv in Ea. subst tpa.
  bind_inv E1 as u2 tpb Eb. apply modify_inv in Eb. subst tpb.
  bind_inv E1 as startSize tpb' Ess. apply gets_inv in Ess. destruct Ess as [-> ->].
  bind_inv E1 as u3 tpc Ec.
  bind_inv E1 as endSize tpc' Ees. apply gets_inv in Ees. destruct Ees as [-> ->].
  set (d1 := ChunkVector.reserveItems (maxActiveVariables rhs) tt
               (ChunkIndexReuseTape.data tp)) in *.
  set (tpa := ChunkIndexReuseTape.set_data d1 tp) in *.
  set (s1 := ChunkVector.reserveItems 1 (ChunkIndexReuseTape.data_getPosition tpa)
               (ChunkIndexReuseTape.statements tpa)) in *.
  set (tpb := ChunkIndexReuseTape.set_statements s1 tpa) in *.
  assert (Hod1 : ChunkVector.isSealed (ChunkVector.current d1) = false)
    by (apply reserveItems_open; exact Hsd).
  assert (Hos1 : ChunkVector.isSealed (ChunkVector.current s1) = false)
    by (apply reserveItems_open; exact Hss).
  unfold ChunkIndexReuseTape.calcGradient in Ec.
  destruct (ChunkIndexReuseTape_calcGradient_grows _ _ _ _ Ec Hod1)
    as (entries & C & R & P & O & X2 & X3 & X4).
  change (ChunkIndexReuseTape.data tpb) with d1 in *.
  change (ChunkIndexReuseTape.statements tpb) with s1 in X2.
  change (ChunkIndexReuseTape.externalFunctions tpb)
    with (ChunkIndexReuseTape.externalFunctions tp) in X3.
  change (ChunkIndexReuseTape.trace tpb) with (ChunkIndexReuseTape.trace tp) in X4.
  assert (Hav : size_sub (ChunkVector.getChunkPosition (ChunkIndexReuseTape.data tpc))
                         (ChunkVector.getChunkPosition d1)
                = N.of_nat (length entries)).
  { unfold ChunkVector.getChunkPosition, ChunkVector.used. rewrite O, Hod1, C.
    rewrite length_app.
    match goal with
    | |- size_sub (N.of_nat (?x + _)) (N.of_nat ?y) = _ => change y with x
    end.
    rewrite size_sub_le by lia. lia. }
  match type of E1 with
  | context [size_sub ?a ?b] =>
      replace (size_sub a b) with (N.of_nat (length entries)) in E1
        by (symmetry; exact Hav)
  end.
  assert (Hrd : ChunkVector.records (ChunkIndexReuseTape.data tpc)
                = ChunkVector.records (ChunkIndexReuseTape.data tp) ++ entries).
  { rewrite R. unfold d1. rewrite reserveItems_records. reflexivity. }
  assert (Hpd : ChunkVector.prior (ChunkIndexReuseTape.data tpc) = [] ->
                ChunkVector.prior (ChunkIndexReuseTape.data tp) = []).
  { intros H. rewrite P in H. eapply reserveItems_first. exact H. }
  assert (Hps : ChunkVector.prior s1 = [] ->
                ChunkVector.prior (ChunkIndexReuseTape.statements tp) = []).
  { intros H. eapply reserveItems_first. exact H. }
  destruct (0 =? N.of_nat (length entries)) eqn:Ez.
  - apply (ChunkIndexReuseTape_index_inv IndexHandler.freeIndex) in E1.
    destruct E1 as (h & ->). split; [|split; assumption].
    apply (ChunkIndexReuseTape_layout_grown tp _ entries [] Hlay); simpl.
    + rewrite X2. exact Hos1.
    + exact O.
    + exact X3.
    + rewrite X2. unfold s1. rewrite reserveItems_records, app_nil_r. reflexivity.
    + exact Hrd.
    + lia.
    + unfold ChunkIndexReuseTape_firstChunkOnly. simpl. rewrite X2.
      intros [H1 H2]. split; [apply Hps; exact H1|apply Hpd; exact H2].
  - bind_inv E1 as i' tpd Ed.
    apply (ChunkIndexReuseTape_index_inv IndexHandler.checkIndex) in Ed.
    destruct Ed as (h & ->).
    bind_inv E1 as u4 tpe Ee. apply modifyOpt_inv in Ee. cbn in Ee.
    destruct (ChunkVector.setDataAndMove _ (ChunkIndexReuseTape.statements tpc))
      as [st|] eqn:Es; [|discriminate].
    simpl in Ee. injection Ee as <-.
    apply ret_inv in E1. destruct E1 as [_ ->].
    destruct (setDataAndMove_inv _ _ _ Es) as (_ & Hr & Hp & _).
    destruct (setDataAndMove_open _ _ _ Es) as [Ho _].
    rewrite X2 in Hr, Hp. unfold s1 in Hr. rewrite reserveItems_records in Hr.
    split; [|split; assumption].
    apply (ChunkIndexReuseTape_layout_grown tp _ entries
             [(toStatementInt (N.of_nat (length entries)), i')] Hlay); simpl.
    + exact Ho.
    + exact O.
    + exact X3.
    + exact Hr.
    + exact Hrd.
    + pose proof (toStatementInt_le (N.of_nat (length entries))). lia.
    + unfold ChunkIndexReuseTape_firstChunkOnly. simpl. rewrite Hp.
      intros [H1 H2]. split; [apply Hps; exact H1|apply Hpd; exact H2].
Qed.

(** [store] of a copy keeps the layout. *)
Lemma ChunkIndexReuseTape_layout_store_copy
      (tp tp' : ChunkIndexReuseTape.t (Real:=Real))
      (lhsValue : Real) (lhsIndex : N) (rhs : ActiveReal Real) (r : Real * N) :
  ChunkIndexReuseTape.store_copy opts lhsValue lhsIndex rhs tp = Some (r, tp') ->
  ChunkIndexReuseTape_layout tp ->
  ChunkIndexReuseTape_layout tp'
  /\ ChunkIndexReuseTape.externalFunctions tp' = ChunkIndexReuseTape.externalFunctions tp
  /\ ChunkIndexReuseTape.trace tp' = ChunkIndexReuseTape.trace tp.
Proof.
  intros E Hlay.
  unfold ChunkIndexReuseTape.store_copy, ChunkIndexReuseTape.data_reserveItems,
    ChunkIndexReuseTape.statements_reserveItems,
    ChunkIndexReuseTape.data_setDataAndMove,
    ChunkIndexReuseTape.statements_setDataAndMove in E.
  bind_inv E as act tp0 E0. apply gets_inv in E0. destruct E0 as [-> ->].
  bind_inv E as i tp1 E1. apply ret_inv in E. destruct E as [_ ->].
  assert (Hfree : forall j t,
             ChunkIndexReuseTape.freeIndex lhsIndex tp = Some (j, t) ->
             ChunkIndexReuseTape_layout t
             /\ ChunkIndexReuseTape.externalFunctions t
                = ChunkIndexReuseTape.externalFunctions tp
             /\ ChunkIndexReuseTape.trace t = ChunkIndexReuseTape.trace tp).
  { intros j t Ef.
    apply (ChunkIndexReuseTape_index_inv IndexHandler.freeIndex) in Ef.
    destruct Ef as (h & ->). split; [|split; reflexivity].
    eapply ChunkIndexReuseTape_layout_same; [| | |exact Hlay]; reflexivity. }
  destruct (ENABLE_CHECK (OptTapeActivity opts) (ChunkIndexReuseTape.active tp));
    [|eapply Hfree; exact E1].
  destruct (negb (0 =? gradientData rhs)); [|eapply Hfree; exact E1].
  clear Hfree.
  pose proof Hlay as (Hss & Hsd & Hwf & Hcs & _).
  bind_inv E1 as i' tpi Ei.
  apply (ChunkIndexReuseTape_index_inv IndexHandler.checkIndex) in Ei.
  destruct Ei as (h & ->).
  bind_inv E1 as u1 tpa Ea. apply modify_inv in Ea. subst tpa.
  bind_inv E1 as u2 tpb Eb. apply modify_inv in Eb. subst tpb.
  bind_inv E1 as u3 tpc Ec. apply modifyOpt_inv in Ec. cbn in Ec.
  destruct (ChunkVector.setDataAndMove (one, gradientData rhs) _) as [d|] eqn:Ed;
    [|discriminate].
  simpl in Ec. injection Ec as <-.
  bind_inv E1 as u4 tpd Ee. apply modifyOpt_inv in Ee. cbn in Ee.
  match type of Ee with
  | option_map _ ?x = _ => destruct x as [st|] eqn:Es; [|discriminate]
  end.
  simpl in Ee. injection Ee as <-.
  apply ret_inv in E1. destruct E1 as [_ ->].
  destruct (setDataAndMove_inv _ _ _ Ed) as (_ & Hrd & Hpd & _).
  destruct (setDataAndMove_open _ _ _ Ed) as [Hod _].
  destruct (setDataAndMove_inv _ _ _ Es) as (_ & Hrs & Hps & _).
  destruct (setDataAndMove_open _ _ _ Es) as [Hos _].
  cbn [ChunkIndexReuseTape.statements ChunkIndexReuseTape.data
       ChunkIndexReuseTape.set_data ChunkIndexReuseTape.set_statements
       ChunkIndexReuseTape.set_indexHandler] in Hrd, Hrs, Hpd, Hps.
  rewrite reserveItems_records in Hrd.
  match type of Hrs with
  | _ = ChunkVector.records (ChunkVector.reserveItems ?k ?ip ?cv) ++ _ =>
      rewrite (reserveItems_records k ip cv) in Hrs
  end.
  split; [|split; reflexivity].
  apply (ChunkIndexReuseTape_layout_grown tp _ [(one, gradientData rhs)]
           [(toStatementInt 1, i')] Hlay); simpl.
  - exact Hos.
  - exact Hod.
  - reflexivity.
  - exact Hrs.
  - exact Hrd.
  - pose proof (toStatementInt_le 1). lia.
  - unfold ChunkIndexReuseTape_firstChunkOnly. simpl. rewrite Hps, Hpd.
    intros [H1 H2].
    split; eapply reserveItems_first; [exact H1|exact H2].
Qed.

(** [pushExternalFunctionHandle] keeps the layout: the boundary it
    records is the position of the statement log at that instant. *)
Lemma ChunkIndexReuseTape_layout_push (tp tp' : ChunkIndexReuseTape.t (Real:=Real))
      (f : ExternalFunction.t) (u : unit) :
  ChunkIndexReuseTape.pushExternalFunctionHandle f tp = Some (u, tp') ->
  ChunkIndexReuseTape_layout tp ->
  ChunkIndexReuseTape_layout tp'
  /\ ChunkVector.records (ChunkIndexReuseTape.externalFunctions tp')
     = ChunkVector.records (ChunkIndexReuseTape.externalFunctions tp)
       ++ [(f, ChunkIndexReuseTape.statements_getPosition tp)]
  /\ ChunkIndexReuseTape.trace tp' = ChunkIndexReuseTape.trace tp.
Proof.
  intros E (Hss & Hsd & Hwf & Hcs & Hlay).
  destruct (ChunkIndexReuseTape_push_boundary tp f Hcs) as (tp2 & E2 & Hr & Htp & Hwf').
  rewrite E in E2. injection E2 as _ <-.
  assert (Hsize : ChunkVector.chunkSize (ChunkIndexReuseTape.externalFunctions tp')
                  = ChunkVector.chunkSize (ChunkIndexReuseTape.externalFunctions tp)).
  { unfold ChunkIndexReuseTape.pushExternalFunctionHandle in E.
    bind_inv E as u1 tp1 E1. apply modify_inv in E1. subst tp1.
    apply modifyOpt_inv in E. cbn in E.
    destruct (ChunkVector.setDataAndMove _ _) as [e|] eqn:Ee; [|discriminate].
    simpl in E. injection E as <-. simpl.
    destruct (setDataAndMove_open _ _ _ Ee) as [_ ->].
    apply reserveItems_chunkSize. }
  assert (Hst : ChunkIndexReuseTape.statements tp' = ChunkIndexReuseTape.statements tp)
    by (rewrite Htp; reflexivity).
  assert (Hda : ChunkIndexReuseTape.data tp' = ChunkIndexReuseTape.data tp)
    by (rewrite Htp; reflexivity).
  split; [|split; [exact Hr|rewrite Htp; reflexivity]].
  unfold ChunkIndexReuseTape_layout, ChunkIndexReuseTape_firstChunkOnly.
  rewrite Hsize, Hr, Hst, Hda.
  split; [exact Hss|]. split; [exact Hsd|]. split; [apply Hwf'; exact Hwf|].
  split; [exact Hcs|].
  intros Hfirst. destruct (Hlay Hfirst) as (Hsum & Hrec).
  split; [exact Hsum|]. apply Forall_app. split; [exact Hrec|].
  constructor; [|constructor]. cbn [snd].
  destruct Hfirst as [Hps Hpd].
  destruct (records_firstChunk _ Hps) as [Rs _].
  destruct (records_firstChunk _ Hpd) as [Rd _].
  unfold ChunkIndexReuseTape_replayable, ChunkIndexReuseTape.statements_getPosition,
    ChunkIndexReuseTape.data_getPosition, ChunkVector.getPosition,
    ChunkVector.curChunkIndex, ChunkVector.used.
  cbn [ChunkVector.chunk ChunkVector.data ChunkVector.inner].
  rewrite Hps, Hpd, Hss, Hsd, <- Rs, <- Rd. cbn [length N.of_nat].
  rewrite Nnat.Nat2N.id, firstn_all.
  repeat split; try reflexivity; lia.
Qed.

(** One operation of a session. *)
Lemma ChunkIndexReuseTape_session_step (op : ChunkIndexReuseTape_Op Real)
      (tp tp' : ChunkIndexReuseTape.t (Real:=Real)) (u : unit) :
  ChunkIndexReuseTape_sessionOp op = true ->
  ChunkIndexReuseTape_step opts emptyPositionIndex op tp = Some (u, tp') ->
  ChunkIndexReuseTape_layout tp ->
  ChunkIndexReuseTape_layout tp'
  /\ map fst (ChunkVector.records (ChunkIndexReuseTape.externalFunctions tp'))
     = map fst (ChunkVector.records (ChunkIndexReuseTape.externalFunctions tp))
       ++ ChunkIndexReuseTape_pushedFunctions [op]
  /\ calls (ChunkIndexReuseTape.trace tp') = calls (ChunkIndexReuseTape.trace tp).
Proof.
  intros Hop E Hlay.
  assert (Hkept : match op with
                  | RStorePassive _ _ _ | RInitGradientData _ _
                  | RDestroyGradientData _ _ | RSetGradient _ _ | RGetGradient _
                  | RGetAdjointsSize | RRegisterInput _
                  | RRegisterOutput | RSetActive | RSetPassive => True
                  | _ => False
                  end ->
                  ChunkIndexReuseTape_pushedFunctions [op] = [] ->
                  ChunkIndexReuseTape_layout tp'
                  /\ map fst (ChunkVector.records
                                (ChunkIndexReuseTape.externalFunctions tp'))
                     = map fst (ChunkVector.records
                                  (ChunkIndexReuseTape.externalFunctions tp))
                       ++ ChunkIndexReuseTape_pushedFunctions [op]
                  /\ calls (ChunkIndexReuseTape.trace tp')
                     = calls (ChunkIndexReuseTape.trace tp)).
  { intros Hk Hnil.
    destruct (ChunkIndexReuseTape_kept_step _ _ _ _ op Hk tp u tp'
                (conj eq_refl (conj eq_refl (conj eq_refl eq_refl))) E)
      as (K2 & K3 & K4 & K5).
    split; [eapply ChunkIndexReuseTape_layout_same; eauto|].
    rewrite Hnil, app_nil_r, K4. auto. }
  destruct op; try discriminate Hop; try (apply Hkept; [exact I|reflexivity]).
  - (* store *)
    simpl in E. bind_inv E as r tp1 E1. apply ret_inv in E. destruct E as [_ ->].
    destruct (ChunkIndexReuseTape_layout_store _ _ _ _ _ _ E1 Hlay) as (L & He & Ht).
    split; [exact L|]. simpl. rewrite He, Ht, app_nil_r. auto.
  - (* store of a copy *)
    simpl in E. bind_inv E as r tp1 E1. apply ret_inv in E. destruct E as [_ ->].
    destruct (ChunkIndexReuseTape_layout_store_copy _ _ _ _ _ _ E1 Hlay)
      as (L & He & Ht).
    split; [exact L|]. simpl. rewrite He, Ht, app_nil_r. auto.
  - (* pushExternalFunctionHandle *)
    simpl in E. destruct (ChunkIndexReuseTape_layout_push _ _ _ _ E Hlay)
      as (L & Hr & Ht).
    split; [exact L|]. rewrite Hr, Ht, map_app. auto.
Qed.

(** A whole session. *)
Lemma ChunkIndexReuseTape_session_run :
  forall (ops : list (ChunkIndexReuseTape_Op Real))
         (tp0 tp : ChunkIndexReuseTape.t (Real:=Real)) (u : unit),
    forallb ChunkIndexReuseTape_sessionOp ops = true ->
    ChunkIndexReuseTape_run opts emptyPositionIndex ops tp0 = Some (u, tp) ->
    ChunkIndexReuseTape_layout tp0 ->
    ChunkIndexReuseTape_layout tp
    /\ map fst (ChunkVector.records (ChunkIndexReuseTape.externalFunctions tp))
       = map fst (ChunkVector.records (ChunkIndexReuseTape.externalFunctions tp0))
         ++ ChunkIndexReuseTape_pushedFunctions ops
    /\ calls (ChunkIndexReuseTape.trace tp) = calls (ChunkIndexReuseTape.trace tp0).
Proof.
  induction ops as [|op ops IH]; intros tp0 tp u Hops E Hlay.
  - unfold ChunkIndexReuseTape_run in E. simpl in E. injection E as _ <-.
    simpl. rewrite app_nil_r. auto.
  - unfold ChunkIndexReuseTape_run in E. cbn [forM] in E. bind_inv E as u1 tp1 E1.
    cbn [forallb] in Hops. apply andb_true_iff in Hops. destruct Hops as [Hop Hops].
    destruct (ChunkIndexReuseTape_session_step op tp0 tp1 u1 Hop E1 Hlay)
      as (L1 & R1 & C1).
    destruct (IH tp1 tp u Hops E L1) as (L & R & C).
    split; [exact L|]. split; [|rewrite C; exact C1].
    rewrite R, R1. unfold ChunkIndexReuseTape_pushedFunctions. cbn [flat_map].
    rewrite <- app_assoc. f_equal. f_equal. simpl. rewrite app_nil_r. reflexivity.
Qed.

(** After a recording session on a new tape whose statement and jacobian
    logs are still within their first chunk and hold issued indices only,
    [evaluate()] returns and has called the registered functions, each
    once, in the reverse order of their registration. *)
Lemma ChunkIndexReuseTape_session_evaluates (ops : list (ChunkIndexReuseTape_Op Real))
      (tp : ChunkIndexReuseTape.t (Real:=Real)) (u : unit) :
  forallb ChunkIndexReuseTape_sessionOp ops = true ->
  ChunkIndexReuseTape_run opts emptyPositionIndex ops (ChunkIndexReuseTape.create opts)
  = Some (u, tp) ->
  ChunkIndexReuseTape_firstChunkOnly tp ->
  ChunkIndexReuseTape_indicesIssued tp ->
  exists tp',
    ChunkIndexReuseTape.evaluate_all opts tp = Some (tt, tp')
    /\ calls (ChunkIndexReuseTape.trace tp')
       = rev (ChunkIndexReuseTape_pushedFunctions ops).
Proof.
  intros Hops E Hfirst Hidx.
  destruct (ChunkIndexReuseTape_session_run ops _ _ _ Hops E
              ChunkIndexReuseTape_layout_create) as (L & R & C).
  destruct (ChunkIndexReuseTape_evaluate_all_defined opts tp L Hfirst Hidx)
    as (tp' & Ev & Hc).
  exists tp'. split; [exact Ev|]. rewrite Hc, C, R. reflexivity.
Qed.

End ReuseSession.

(** ** The calls of the reverse pass *)

Section Calls.
Context {Real : Type} {RO : RealOps Real}.
Variable opts : Options.

(** Growing the adjoint vector calls no external function. *)
Lemma ChunkTape_growAdjoints_calls (tp tp1 : ChunkTape.t (Real:=Real)) (u : unit) :
  ChunkTape_growAdjoints tp = Some (u, tp1) ->
  calls (ChunkTape.trace tp1) = calls (ChunkTape.trace tp).
Proof.
  unfold ChunkTape_growAdjoints, bind, gets.
  destruct (_ <=? _).
  - unfold ChunkTape.resizeAdjoints, modify. intros E. injection E as _ <-.
    simpl. rewrite calls_app, calls_writes, app_nil_r. reflexivity.
  - unfold ret. intros E. injection E as _ <-. reflexivity.
Qed.

Lemma ChunkIndexReuseTape_growAdjoints_calls
      (tp tp1 : ChunkIndexReuseTape.t (Real:=Real)) (u : unit) :
  ChunkIndexReuseTape_growAdjoints tp = Some (u, tp1) ->
  calls (ChunkIndexReuseTape.trace tp1) = calls (ChunkIndexReuseTape.trace tp).
Proof.
  unfold ChunkIndexReuseTape_growAdjoints, bind, gets.
  destruct (_ <=? _).
  - unfold ChunkIndexReuseTape.resizeAdjoints, modify. intros E. injection E as _ <-.
    simpl. rewrite calls_app, calls_writes, app_nil_r. reflexivity.
  - unfold ret. intros E. injection E as _ <-. reflexivity.
Qed.

(** Whenever [evaluate(start, end)] returns, the calls it has added to
    the trace are those of the records between the two positions, in the
    order of the walk. *)
Lemma ChunkTape_evaluate_calls (tp tp' : ChunkTape.t (Real:=Real))
      (start end_ : ChunkTape.Position) (u : unit)
      (l : list (N * N * (ExternalFunction.t * ChunkTape.StatementPosition))) :
  recordsBetween (ChunkTape.externalFunctions tp) start end_ = Some l ->
  ChunkTape.evaluate opts start end_ tp = Some (u, tp') ->
  calls (ChunkTape.trace tp')
  = calls (ChunkTape.trace tp) ++ map (fun r => fst (snd r)) l.
Proof.
  intros El E. rewrite (ChunkTape_evaluate_segments opts _ _ tp l El) in E.
  bind_inv E as u1 tp1 E1.
  rewrite (ChunkTape_evaluateSegments_calls opts _ _ _ _ _ _ E).
  rewrite (ChunkTape_growAdjoints_calls _ _ _ E1), map_map. reflexivity.
Qed.

Lemma ChunkIndexReuseTape_evaluate_calls (tp tp' : ChunkIndexReuseTape.t (Real:=Real))
      (start end_ : ChunkIndexReuseTape.Position) (u : unit)
      (l : list (N * N * (ExternalFunction.t * ChunkIndexReuseTape.StatementPosition))) :
  recordsBetween (ChunkIndexReuseTape.externalFunctions tp) start end_ = Some l ->
  ChunkIndexReuseTape.evaluate opts start end_ tp = Some (u, tp') ->
  calls (ChunkIndexReuseTape.trace tp')
  = calls (ChunkIndexReuseTape.trace tp) ++ map (fun r => fst (snd r)) l.
Proof.
  intros El E. rewrite (ChunkIndexReuseTape_evaluate_segments opts _ _ tp l El) in E.
  bind_inv E as u1 tp1 E1.
  rewrite (ChunkIndexReuseTape_evaluateSegments_calls opts _ _ _ _ _ _ E).
  rewrite (ChunkIndexReuseTape_growAdjoints_calls _ _ _ E1), map_map. reflexivity.
Qed.

End Calls.



(** ** The store of an active variable *)

Section CopyStore.
Context {Real : Type} {RO : RealOps Real}.
Variable opts : Options.

Lemma ChunkIndexReuseTape_store_copy_active (tp : ChunkIndexReuseTape.t (Real:=Real))
      (lhsValue : Real) (lhsIndex : N) (rhs : ActiveReal Real) :
  ENABLE_CHECK (OptTapeActivity opts) (ChunkIndexReuseTape.active tp) = true ->
  gradientData rhs <> 0 ->
  1 <= ChunkVector.chunkSize (ChunkIndexReuseTape.data tp) ->
  1 <= ChunkVector.chunkSize (ChunkIndexReuseTape.statements tp) ->
  let h := ChunkIndexReuseTape.indexHandler tp in
  let lhsIndex' := fst (IndexHandler.checkIndex lhsIndex h) in
  exists tp',
    ChunkIndexReuseTape.store_copy opts lhsValue lhsIndex rhs tp
    = Some ((value rhs, lhsIndex'), tp')
    /\ ChunkVector.records (ChunkIndexReuseTape.data tp')
       = ChunkVector.records (ChunkIndexReuseTape.data tp) ++ [(one, gradientData rhs)]
    /\ ChunkVector.records (ChunkIndexReuseTape.statements tp')
       = ChunkVector.records (ChunkIndexReuseTape.statements tp) ++ [(1, lhsIndex')]
    /\ ChunkIndexReuseTape.indexHandler tp' = snd (IndexHandler.checkIndex lhsIndex h)
    /\ ChunkIndexReuseTape_sameAdjoints tp tp'.
Proof.
  intros Hact Hg Hd Hs h lhsIndex'.
  unfold ChunkIndexReuseTape.store_copy.
  cbv [ChunkIndexReuseTape.EmptyPosition] in *.
  rewrite (bind_run _ _ _ tp (ChunkIndexReuseTape.active tp)) by reflexivity.
  rewrite Hact.
  destruct (N.eqb_spec 0 (gradientData rhs)) as [E0|_]; [congruence|]. simpl negb. cbv iota.
  unfold ChunkIndexReuseTape.checkIndex at 1. unfold bind at 1. unfold bind at 1.
  subst lhsIndex'. fold h.
  destruct (IndexHandler.checkIndex lhsIndex h) as [i' h'] eqn:Eck. simpl fst. simpl snd.
  set (tpa := ChunkIndexReuseTape.set_indexHandler h' tp).
  set (tp1 := ChunkIndexReuseTape.set_data
                (ChunkVector.reserveItems 1 tt (ChunkIndexReuseTape.data tpa)) tpa).
  set (tp2 := ChunkIndexReuseTape.set_statements
                (ChunkVector.reserveItems 1 (ChunkIndexReuseTape.data_getPosition tp1)
                   (ChunkIndexReuseTape.statements tp1)) tp1).
  destruct (reserveItems_room 1 tt (ChunkIndexReuseTape.data tp) Hd) as [Rd _].
  destruct (reserveItems_room 1 (ChunkIndexReuseTape.data_getPosition tp1)
              (ChunkIndexReuseTape.statements tp) Hs) as [Rs _].
  assert (Hrd : hasRoom (ChunkIndexReuseTape.data tp2)).
  { unfold hasRoom. simpl. cbv [ChunkIndexReuseTape.EmptyPosition] in *. lia. }
  destruct (setDataAndMove_room (one, gradientData rhs) _ Hrd) as (d & Ed & Rec & _).
  assert (Hrs : hasRoom (ChunkIndexReuseTape.statements
                           (ChunkIndexReuseTape.set_data d tp2))).
  { unfold hasRoom. simpl. cbv [ChunkIndexReuseTape.EmptyPosition] in *. lia. }
  destruct (setDataAndMove_room (toStatementInt 1, i') _ Hrs) as (st & Es & Rst & _).
  unfold ChunkIndexReuseTape.data_reserveItems,
    ChunkIndexReuseTape.statements_reserveItems,
    ChunkIndexReuseTape.data_setDataAndMove,
    ChunkIndexReuseTape.statements_setDataAndMove.
  unfold bind at 1. unfold modify at 1. fold tpa. fold tp1.
  unfold bind at 1. unfold modify at 1. fold tp2.
  unfold bind at 1. unfold modifyOpt at 1. rewrite Ed. simpl option_map. cbv iota.
  unfold bind at 1. unfold modifyOpt at 1. rewrite Es. simpl option_map. cbv iota.
  unfold ret. eexists. split; [reflexivity|]. simpl.
  split; [|split; [|split; [reflexivity|split; reflexivity]]].
  - cbv [ChunkIndexReuseTape.EmptyPosition] in *.
    rewrite Rec. simpl. rewrite reserveItems_records. reflexivity.
  - cbv [ChunkIndexReuseTape.EmptyPosition] in *.
    rewrite Rst. simpl. rewrite reserveItems_records. reflexivity.
Qed.

End CopyStore.

(** The store of an active variable, [lhs = rhs], on a tape that
    records (active, or with [OptTapeActivity] off). The linear-index
    tape records nothing: the lhs takes over the index of the rhs. The
    reuse-index tape gives the lhs an index of its own: for an rhs with
    a nonzero index it appends the jacobian entry [(1.0, rhs.index)] and
    the statement [(1, lhs.index)] (given chunks of at least one entry);
    for an rhs with index [0] it releases the index of the lhs and
    records nothing. Neither touches the adjoints. *)
Theorem copy_store_shares_or_records_index :
  forall (Real : Type) (RO : RealOps Real) (opts : Options),
    (forall (tp : ChunkTape.t (Real:=Real)) (lhsValue : Real) (lhsIndex : N)
            (rhs : ActiveReal Real),
        ENABLE_CHECK (OptTapeActivity opts) (ChunkTape.active tp) = true ->
        ChunkTape.store_copy opts lhsValue lhsIndex rhs tp
        = Some ((value rhs, gradientData rhs), tp))
    /\ (forall (tp : ChunkIndexReuseTape.t (Real:=Real)) (lhsValue : Real)
               (lhsIndex : N) (rhs : ActiveReal Real),
           ENABLE_CHECK (OptTapeActivity opts) (ChunkIndexReuseTape.active tp) = true ->
           let h := ChunkIndexReuseTape.indexHandler tp in
           (gradientData rhs = 0 ->
            ChunkIndexReuseTape.store_copy opts lhsValue lhsIndex rhs tp
            = Some ((value rhs, 0),
                    ChunkIndexReuseTape.set_indexHandler
                      (snd (IndexHandler.freeIndex lhsIndex h)) tp))
           /\ (gradientData rhs <> 0 ->
               1 <= ChunkVector.chunkSize (ChunkIndexReuseTape.data tp) ->
               1 <= ChunkVector.chunkSize (ChunkIndexReuseTape.statements tp) ->
               let lhsIndex' := fst (IndexHandler.checkIndex lhsIndex h) in
               exists tp',
                 ChunkIndexReuseTape.store_copy opts lhsValue lhsIndex rhs tp
                 = Some ((value rhs, lhsIndex'), tp')
                 /\ ChunkVector.records (ChunkIndexReuseTape.data tp')
                    = ChunkVector.records (ChunkIndexReuseTape.data tp)
                      ++ [(one, gradientData rhs)]
                 /\ ChunkVector.records (ChunkIndexReuseTape.statements tp')
                    = ChunkVector.records (ChunkIndexReuseTape.statements tp)
                      ++ [(1, lhsIndex')]
                 /\ ChunkIndexReuseTape.indexHandler tp'
                    = snd (IndexHandler.checkIndex lhsIndex h)
                 /\ ChunkIndexReuseTape_sameAdjoints tp tp')).
Proof.
  intros Real RO opts. split.
  - intros tp lhsValue lhsIndex rhs Hact.
    unfold ChunkTape.store_copy, bind, gets, ret. rewrite Hact. reflexivity.
  - intros tp lhsValue lhsIndex rhs Hact h. split.
    + intros Hg. unfold ChunkIndexReuseTape.store_copy.
      rewrite (bind_run _ _ _ tp (ChunkIndexReuseTape.active tp)) by reflexivity.
      rewrite Hact, Hg. simpl. rewrite (bind_run _ _ _ _ _
        (ChunkIndexReuseTape_freeIndex_run lhsIndex tp)).
      reflexivity.
    + intros Hg Hd Hs. apply ChunkIndexReuseTape_store_copy_active; assumption.
Qed.

Lemma copy_store_shares_or_records_index_witness :
  ChunkTape.store_copy allChecks (Finite 0) 0 (mkActiveReal (Finite 4) 1)
    (ChunkTape_activeTape allChecks)
  = Some ((Finite 4, 1), ChunkTape_activeTape allChecks)
  /\ exists tp',
      ChunkIndexReuseTape.store_copy allChecks (Finite 0) 0
        (mkActiveReal (Finite 4) 1) (ChunkIndexReuseTape_activeTape allChecks)
      = Some ((Finite 4, 1), tp')
      /\ ChunkVector.records (ChunkIndexReuseTape.data tp') = [(Finite 1, 1)]
      /\ ChunkVector.records (ChunkIndexReuseTape.statements tp') = [(1, 1)].
Proof.
  destruct (copy_store_shares_or_records_index XReal XReal_RealOps allChecks)
    as [HL HR].
  split.
  - apply HL. reflexivity.
  - destruct (HR (ChunkIndexReuseTape_activeTape allChecks) (Finite 0) 0
                 (mkActiveReal (Finite 4) 1)) as [_ H]; [reflexivity|].
    destruct H as (tp' & E & Hd & Hs & _);
      [discriminate|vm_compute; discriminate|vm_compute; discriminate|].
    exists tp'. split; [exact E|]. split; [exact Hd|exact Hs].
Defined.
